(* ===== verification/_CoqProject ===== *)
-Q . S2P
Prelude.v
GoRuntime.v
Usb.v
UsbTheory.v
Sha256.v
Crypto.v
JsonScan.v
JsonGrammar.v
Base64.v
JsonTree.v
JsonString.v
JsonCodec.v
Codec.v
Apps.v
Cosmos.v
CosmosTheory.v
Firmware.v
Device.v
Robust.v
LinuxSetup.v
Linux.v
Gadget.v
Wallet.v
Tz.v
TzTheory.v
TrustZone.v
UsbDevice.v
TokenApplet.v
TokenTheory.v
TeeClient.v
TeeToken.v
TeeMachine.v
TeeTheory.v
Board.v
GenCert.v
