(* ===== verification/Prelude.v ===== *)
(** * WallERA: a verification library for the hardware-wallet firmware

    ** The program

    WallERA makes a USB armory (or a Linux machine with a USB gadget) behave
    like a hardware wallet.  A host sends 64-byte HID reports; the device
    reassembles them into a message, hands the message as a command APDU to
    the app registered for it, and sends the answer back as reports.  The one
    app, Cosmos, signs JSON documents and computes addresses with keys that a
    token derives along BIP-32 paths.  In the TEE build the firmware runs in the
    non-secure world of TrustZone, and a small trusted OS runs applets in the
    secure world; the two worlds exchange mail through mailboxes.  One applet
    keeps the keys: the firmware's token then sends it a JSON request for every
    operation and reads its JSON response.

    The parts and how they call each other:
<<
      host  --reports-->  firmware/wallera.go  (or cmd/wallera-linux/main.go)
                            | usb/usb.go            sessions and segmentation
                            | apps/apps.go          routing by CLA and INS
                            | apps/cosmos           commands
                            | crypto                token and key derivation
      usb.go, firmware/usb.go                       descriptors and endpoints
      tee/trusted_os/tz, tee/mem                    mailboxes, applets, TrustZone

      token/client/tee_token.go, nonsecure_demo_os  requests of the other world
        | nonsecuresyscall, tz/client               RPC calls to the trusted OS
        | tee/trusted_os/tz                         mailbox, start of the applet
        | tee/cryptography_applet/main.go           the applet
        | token/request.go, token/token.go          Dispatch and its token
>>
    ** The files

    - [Prelude] (this file): machine integers, bytes, byte strings, the hint
      database [wallera] and the tactics the other files share.
    - [GoRuntime]: Go's errors, panics (the [go] monad), slices with spare
      capacity, [bytes.Buffer], fixed-size reads of [encoding/binary].
    - [Usb] models [usb/usb.go]: both frame types and their big-endian layout,
      [Session] with [readFrame], [ReadFrame], [ReadData], [NewSession], and
      [chunkFunc] and [FormatResponse].  [UsbTheory] has its properties.
    - The standard library, executable: [Sha256] (SHA-256 and HMAC), [Base64],
      and [encoding/json] in five files.  [JsonScan] is its validity scanner,
      [JsonGrammar] the grammar, on bytes, that it accepts, [JsonTree] the tree
      that the scanner's codes delimit, [JsonString] the string and number
      literals, [JsonCodec] the encoder and decoder, driven by a description of
      the Go type.  [Codec] ties a record of the model to such
      a type (class [Codec] with laws [CodecLaws]).
    - [Crypto] models [crypto/crypto.go] and [crypto/crypto_token.go]: paths,
      [KeyFromPath], the [Token] interface (class [Token]) and its
      implementation [dumbToken].
    - [Apps] models [apps]: the [App] interface (class [App] with laws
      [AppLaws]), [Register], [Handle], [PackageResponse], status codes.
    - [Cosmos] models [apps/cosmos]: the state [Cosmos], the three commands,
      and the instance of [App] with its laws.  [CosmosTheory] has the abstract
      signing protocol [SigSpec] and the properties.
    - [Firmware] models [firmware/wallera.go] and the set-up in
      [firmware/main.go]: [Rx] as a function, and the two endpoint goroutines
      as a transition system ([device], [step]) that stops [Rx] at each of its
      sends, with the handler and the session as they are there.  [Device]
      composes all layers; [Robust] says when the whole panics.
    - [LinuxSetup] models the start of [cmd/wallera-linux]: the command line
      ([cliArgs], with the parser of package [flag]), [gadget-hid.c] and
      [gadget_hid.go], and [main] up to its loops.  [Linux] models the handler
      and each loop, [Gadget] the two goroutines, their channel and the gadget's
      file as a state machine.
    - [Wallet] is the abstract specification of the whole: a machine on
      commands whose only state is the signing session.
    - [Tz] models [tee/trusted_os/tz] and [tee/mem]: [Context] with the four
      mailbox operations, the RPC receivers, [loadTA], [run], the dispatch of
      calls, the system-call handlers, the log buffers.  [TzTheory] has its
      properties.  [TrustZone] has [configureTrustZone], the loading of the
      other world and [main] of the trusted OS.
    - [TokenApplet] models [tee/cryptography_applet/token]: [token.go] as the
      module [AppletToken], and the messages and [Dispatch] of [request.go].
      [TokenTheory] has its properties.
    - [TeeClient] models [tee/trusted_os/tz/client],
      [tee/trusted_os/nonsecuresyscall] (its stubs down to the registers of a
      trap) and the applet's [main.go]; [TeeToken]
      models [tee/cryptography_applet/token/client] and
      [tee/nonsecure_demo_os].  [TeeMachine] is a machine on which they run, and
      [TeeTheory] has the properties of the whole.
    - [UsbDevice] models [usb.go] and [firmware/usb.go].
    - [Board] models how the programs start and end: the [init] functions, the
      two builds of the board functions in [firmware], [catchPanic], the reboot
      watcher, the memory each program is linked to.
    - [GenCert] models [cmd/gen-cert].

    State is passed explicitly; code that can panic returns [go]; a pair
    [(value, err)] is a [result] or an [option error].  Integers keep their
    width: every operation that can leave it is followed by [u8], [u16] or
    [u32].  What the programs log is left out, also where a program's output
    goes through a system call: the demo program and the applet print lines that
    the trusted OS appends to its log, the model of their [main] does not.  Where
    a theorem of [TeeTheory] says that the log is as it was, this is about the
    code that is modelled.

    ** What is a parameter

    Third-party code is a type class whose operations are arguments of the
    definitions, with its documented behaviour in a second class of laws, and
    each class has a concrete instance: [HDKeychain] (hdkeychain, btcec,
    go-bip39), [Entropy] (the random source), [CAPDUCodec] (go-nfctype4),
    [AddressDeps] (RIPEMD-160, bech32), [Usbgx] (libusbgx), [LinuxOS] (the
    file system), [Monitor] (GoTEE, armory-boot), [Drivers] (CSU, TZASC),
    [Controller] (which region of the TZC-380 counts for an address),
    [UsbDriver] (tamago), [Rpc] (the JSON-RPC client and server of [net/rpc]
    and the transport of GoTEE), [CertDeps] (x509 and the file system). The
    type [W] is the state of the world these operations change. The laws of
    [Rpc] say that a call reaches the method it names, that the reply of a
    method arrives when its mail is at most [maxMail] bytes and is cut off
    when it is longer, that the applet's image behaves as the translated
    [main], and that its last system call shows in its registers; the
    instance in [TeeMachine] proves that they can hold together.

    ** What the theorems show

    - Transport ([UsbTheory]): segmentation and reassembly are inverse exactly
      below 65536 bytes; the session invariant; which reports a session takes;
      how many it needs; the frame codec; one lost error.
    - Keys ([Crypto]): which child indexes a path on the wire and a path value
      give; the token's secret is the constant of the repository's test; what
      an initialised token signs with.
    - Routing ([Apps]): registration and dispatch on every branch.
    - Cosmos ([CosmosTheory]): the sign command refines [SigSpec]; exactly the
      texts of the JSON grammar (on bytes, UTF-8 is not checked) are signed;
      complete signatures; every outcome of the address command; isolation.
    - Device ([Firmware], [Device]): a message is handled exactly once with
      exactly its bytes; interleavings of the endpoints, also inside [Rx], do not
      matter and cannot deadlock; the invariant of stored sessions; the whole path from reports to
      a signature; how unfinished and malformed messages end; the two kinds of
      reports that make it panic, and that no other does ([Robust]).
    - Gadget ([LinuxSetup], [Linux], [Gadget]): how its command line is read,
      how setting it up fails, when its loops start; what it handles, that it
      refuses long messages, and that its goroutines behave as one sequential
      loop.
    - The wallet ([Wallet]): for messages that hold what their command reads,
      the firmware implements it on any channels and under any interleaving, the
      gadget does for such messages of one report; a signature is then only
      given for the path of the last init command and what was sent since.
    - Trusted OS ([TzTheory], [TrustZone]): exactly-once delivery of mail per
      app, and of results until a write is refused; what a request of the other
      world leads to; the log; a bounds check on machine words; the
      registers and memory regions after configuration; start-up.
    - Board ([Board]): the non-secure world can reach the memory of exactly the
      programs that run in it; how the firmware ends; what [printk] prints
      reaches the log.
    - Descriptors ([UsbDevice]): the announced interface fits the device.
    - Standard library: the scanner accepts exactly the grammar of JSON
      ([JsonGrammar]); a text is valid exactly when it has a tree, and printing
      a tree and reading it are inverse ([JsonTree]); strings, integers and
      base64 survive a round trip ([JsonString], [Base64]); so does any value of
      a codable type, and whatever is decoded is a value of its type
      ([JsonCodec]).
    - Applet ([TokenTheory]): [Dispatch] on a packaged request is the operation
      of the token and its response unpacks to the token's answer; what it
      refuses; its token is the development
      token.
    - TEE ([TeeTheory]): the four requests of [TEEToken] are operations of the
      applet's token across both worlds ([Sign] hashes its argument once more),
      and what becomes of an error and of a panic; the whole path from reports to a
      signature with it, and what happens instead when the path has no key; the
      demo program completes; a malformed mail stops the machine, a long one is
      lost.

    ** Recursion and bounds

    Every loop of the source is a structural recursion over the list it
    ranges over or over a counter it starts with; the one exception is the
    printing of an integer, which gets 20 digits, enough for 64 bits
    ([ParseUint_FormatUint]).  The scanner refuses nesting deeper than 10000,
    as [encoding/json] does.  The
    number of pieces [chunkFunc] computes in floating point is the integer
    quotient for any data that fits in memory.  A [sync.Map] is ranged over in
    an arbitrary order of its keys, which the theorems quantify over.

    The wallet reads paths and prefixes from the message itself, so its
    theorems ask that a message holds them ([Wallet.contained]); what a shorter
    message makes the code read is in [short_init_reads_spare] and
    [address_request].

    ** What is not modelled

    Not modelled: third-party code (the classes above), [Nanotime] and the
    semihosting call of [angel] (assembly whose result nothing uses), the
    embedded images and the build identification, linker directives other than
    the memory of the programs, loggers, and the pauses of the gadget's loops.
    What these leave open is stated where it matters: the last system call of
    an applet that ends through its logger is unknown, so [TEE_bad_path] allows
    the trusted OS to stop there. *)

From stdpp Require Export base tactics list gmap strings numbers option.
From coqutil Require Export Byte Word.LittleEndianList.
From Stdlib Require Export ZArith Lia.

#[global] Open Scope Z_scope.

(** ** Machine integers

    A [uintN] of Go is a [Z]; every arithmetic operation of the source that
    can leave the range is followed by the wrap-around of its width. *)

Definition u8 (z : Z) : Z := z mod 2 ^ 8.
Definition u16 (z : Z) : Z := z mod 2 ^ 16.
Definition u32 (z : Z) : Z := z mod 2 ^ 32.

(** ** Bytes

    [byte] is the 256-constructor type of the Standard Library; [bytes_of]
    writes a byte slice literal of the source. *)

Definition bytes_of (l : list Z) : list byte := map byte.of_Z l.

#[export] Instance byte_eq_dec : EqDecision byte := Byte.byte_eq_dec.
#[export] Instance byte_inhabited : Inhabited byte := populate Byte.x00.

(** Big-endian integers, the mirror image of coqutil's little-endian ones. *)

Definition be_split (n : nat) (z : Z) : list byte := rev (le_split n z).
Definition be_combine (l : list byte) : Z := le_combine (rev l).

(** [zeros n] is the content of a freshly allocated array. *)

Definition zeros (n : nat) : list byte := replicate n Byte.x00.

(** Go's [copy(dst[:], src)] into an array of [n] zero bytes. *)

Definition copy_into (n : nat) (src : list byte) : list byte :=
  take n src ++ zeros (n - length src).

#[global] Arguments be_split : simpl never.
#[global] Arguments be_combine : simpl never.
#[global] Arguments zeros : simpl never.
#[global] Arguments copy_into : simpl never.
#[global] Arguments u8 : simpl never.
#[global] Arguments u16 : simpl never.
#[global] Arguments u32 : simpl never.

(** Text as the bytes of its ASCII characters ([[]byte(s)] in Go). *)

Fixpoint bytes_of_string (s : string) : list byte :=
  match s with
  | EmptyString => []
  | String a s' => Ascii.byte_of_ascii a :: bytes_of_string s'
  end.

Fixpoint string_of_bytes (l : list byte) : string :=
  match l with
  | [] => EmptyString
  | b :: l' => String (Ascii.ascii_of_byte b) (string_of_bytes l')
  end.

(** ** Tactics and the hint database of the development *)

Create HintDb wallera.
Create Rewrite HintDb wallera.

(** [split_matches] opens every [match] and [if] of the goal and hypotheses
    that the simplifier of stdpp can reach. *)
Ltac split_matches :=
  repeat (case_match || case_decide || case_bool_decide); simplify_eq/=.

(** ** Shared lemmas *)

Section wraps.

Lemma u8_range z : 0 <= u8 z < 256.
Proof. apply Z.mod_pos_bound. lia. Qed.

Lemma u16_range z : 0 <= u16 z < 65536.
Proof. apply Z.mod_pos_bound. lia. Qed.

Lemma u32_range z : 0 <= u32 z < 2 ^ 32.
Proof. apply Z.mod_pos_bound. lia. Qed.

Lemma u16_small z : 0 <= z < 65536 -> u16 z = z.
Proof. intros. apply Z.mod_small. lia. Qed.

Lemma u32_small z : 0 <= z < 2 ^ 32 -> u32 z = z.
Proof. intros. apply Z.mod_small. lia. Qed.

Lemma u8_small z : 0 <= z < 256 -> u8 z = z.
Proof. intros. apply Z.mod_small. lia. Qed.

Lemma unsigned_range_256 b : 0 <= byte.unsigned b < 256.
Proof. apply byte.unsigned_range. Qed.

End wraps.

#[export] Hint Resolve u8_range u16_range u32_range unsigned_range_256 : wallera.

Section endian.

Lemma length_be_split n z : length (be_split n z) = n.
Proof. unfold be_split. by rewrite length_rev, length_le_split. Qed.

Lemma be_combine_split n z :
  be_combine (be_split n z) = z mod 2 ^ (Z.of_nat n * 8).
Proof. unfold be_combine, be_split. rewrite rev_involutive. apply le_combine_split. Qed.

Lemma be_split_combine l n :
  length l = n -> be_split n (be_combine l) = l.
Proof.
  intros <-. unfold be_combine, be_split.
  rewrite <- (length_rev l), split_le_combine. apply rev_involutive.
Qed.

Lemma be_combine_range l : 0 <= be_combine l < 2 ^ (8 * Z.of_nat (length l)).
Proof.
  unfold be_combine. rewrite <- (length_rev l). apply le_combine_bound.
Qed.

Lemma be_combine_2_u16 z : be_combine (be_split 2 z) = u16 z.
Proof. rewrite be_combine_split. reflexivity. Qed.

Lemma be_combine_u16_range l : length l = 2%nat -> 0 <= be_combine l < 65536.
Proof. intros H. pose proof (be_combine_range l) as R. by rewrite H in R. Qed.

Lemma le_combine_u32_range l : length l = 4%nat -> 0 <= le_combine l < 2 ^ 32.
Proof. intros H. pose proof (le_combine_bound l) as R. by rewrite H in R. Qed.

End endian.

#[export] Hint Rewrite length_be_split be_combine_2_u16 : wallera.

Section copies.

Lemma length_zeros n : length (zeros n) = n.
Proof. apply length_replicate. Qed.

Lemma length_copy_into n src : length (copy_into n src) = n.
Proof. unfold copy_into. rewrite length_app, length_take, length_zeros. lia. Qed.

Lemma copy_into_exact n src : length src = n -> copy_into n src = src.
Proof.
  intros <-. unfold copy_into. rewrite Nat.sub_diag, take_ge by lia.
  apply app_nil_r.
Qed.

Lemma take_copy_into n src : (length src <= n)%nat -> take (length src) (copy_into n src) = src.
Proof. intros. unfold copy_into. rewrite (take_ge src) by lia. apply take_app_length. Qed.

Lemma copy_into_prefix n src :
  (length src <= n)%nat -> copy_into n src = src ++ zeros (n - length src).
Proof. intros. unfold copy_into. by rewrite take_ge by lia. Qed.

Lemma string_of_bytes_of_string s : string_of_bytes (bytes_of_string s) = s.
Proof.
  induction s as [|a s IH]; [done|]. simpl.
  by rewrite IH, Ascii.ascii_of_byte_of_ascii.
Qed.

Lemma bytes_of_string_of_bytes l : bytes_of_string (string_of_bytes l) = l.
Proof.
  induction l as [|b l IH]; [done|]. simpl.
  by rewrite IH, Ascii.byte_of_ascii_of_byte.
Qed.

Lemma bytes_of_string_inj s s' : bytes_of_string s = bytes_of_string s' -> s = s'.
Proof. intros E%(f_equal string_of_bytes). by rewrite !string_of_bytes_of_string in E. Qed.

End copies.

#[global] Opaque be_split be_combine copy_into zeros.

(** [len_simpl] normalises lengths of list expressions, [len_solve] then
    calls [lia]. *)
Ltac len_simpl :=
  rewrite ?length_app, ?length_take, ?length_drop, ?length_replicate, ?length_rev,
    ?length_map, ?length_le_split, ?length_be_split, ?length_zeros, ?length_copy_into in *.

Ltac len_solve := len_simpl; simpl in *; lia.

(** [take]/[drop] over consecutive segments of known length: the shape every
    fixed-offset decoder of the development has. *)

Section segments.
Context {A : Type}.
Implicit Types l k : list A.

Lemma take_app_exact n l k : length l = n -> take n (l ++ k) = l.
Proof. intros <-. apply take_app_length. Qed.

Lemma drop_app_exact n l k : length l = n -> drop n (l ++ k) = k.
Proof. intros <-. apply drop_app_length. Qed.

Lemma drop_app_skip n m l k : length l = n -> (n <= m)%nat -> drop m (l ++ k) = drop (m - n) k.
Proof. intros <- ?. by rewrite drop_app_ge. Qed.

Lemma take_drop_app n l : (n <= length l)%nat -> exists a b, l = a ++ b /\ length a = n.
Proof. intros. exists (take n l), (drop n l). rewrite take_drop, length_take. split; [done|lia]. Qed.

End segments.
