(* ===== verification/GoRuntime.v ===== *)
(** * The part of Go the firmware relies on

    Error values, panics, slices with spare capacity, [bytes.Buffer] and the
    fixed-size reads of [encoding/binary], as the language specification and
    the Go 1.17 standard library (the version of [src/go.mod]) define them. *)

From S2P Require Import Prelude.

(** ** Errors

    [Errorf] is a fresh [fmt.Errorf]/[errors.New] value, kept as its format
    string and integer arguments; [Wrapf] is [fmt.Errorf] with [%w];
    [Sentinel] is a package-level [errors.New] variable (compared by identity
    in Go, by name here); [StructError] is a struct type with an [Error]
    method; [External] is an error value made by third-party code. *)

Inductive error :=
| Errorf (fmt : string) (args : list Z)
| Wrapf (fmt : string) (args : list Z) (inner : error)
| Sentinel (name : string)
| StructError (type : string) (fields : list string)
| External (origin : string).

#[export] Instance error_eq_dec : EqDecision error.
Proof. solve_decision. Defined.

(** [errors.Is]: the error or one it wraps is the target. *)

Fixpoint errors_Is (e target : error) : bool :=
  bool_decide (e = target) ||
  match e with
  | Wrapf _ _ inner => errors_Is inner target
  | _ => false
  end.

(** [errors.As] for a struct type: the first error of that type. *)

Fixpoint errors_As (e : error) (type : string) : option error :=
  match e with
  | StructError t _ => if bool_decide (t = type) then Some e else None
  | Wrapf _ _ inner => errors_As inner type
  | _ => None
  end.

(** A pair [(value, err)] whose value is meaningless when [err != nil]. *)

Inductive result (A : Type) :=
| Ok (a : A)
| Err (e : error).
Arguments Ok {A} a.
Arguments Err {A} e.

(** ** Panics

    [go A] is the outcome of running Go code: it returns, or it panics. *)

Inductive panic :=
| BoundsOutOfRange
| NilDereference
| MakeLenOutOfRange
| PanicValue (e : error).

Inductive go (A : Type) :=
| Ret (a : A)
| Panic (p : panic).
Arguments Ret {A} a.
Arguments Panic {A} p.

#[export] Instance go_ret : MRet go := fun A a => Ret a.
#[export] Instance go_bind : MBind go := fun A B f c =>
  match c with Ret a => f a | Panic p => Panic p end.

Definition panics {A} (c : go A) : bool :=
  match c with Panic _ => true | Ret _ => false end.

(** ** Slices

    A [[]byte] is the bytes up to its length followed by the spare part of
    its backing array up to its capacity.  Re-slicing is checked against the
    capacity, not the length, so it can expose spare bytes. *)

Record slice := Slice { s_data : list byte; s_spare : list byte }.

Definition s_len (s : slice) : nat := length (s_data s).
Definition s_array (s : slice) : list byte := s_data s ++ s_spare s.
Definition s_cap (s : slice) : nat := length (s_array s).

(** A slice without spare capacity. *)
Definition full (l : list byte) : slice := Slice l [].

(** [s[lo:hi]] *)
Definition s_slice (s : slice) (lo hi : nat) : go slice :=
  if bool_decide (lo <= hi)%nat && bool_decide (hi <= s_cap s)%nat
  then Ret (Slice (take (hi - lo) (drop lo (s_array s))) (drop hi (s_array s)))
  else Panic BoundsOutOfRange.

(** [s[lo:]] *)
Definition s_from (s : slice) (lo : nat) : go slice := s_slice s lo (s_len s).

(** [s[i]] *)
Definition s_index (s : slice) (i : nat) : go byte :=
  match s_data s !! i with
  | Some b => Ret b
  | None => Panic BoundsOutOfRange
  end.

(** ** [bytes.Buffer]

    The buffers of the program are only written, truncated and read out as a
    whole, so their read offset stays 0 and a buffer is its [buf] slice; the
    nil slice of a fresh buffer is the one with capacity 0. *)

Definition Buffer := slice.

Definition new_buffer : Buffer := Slice [] [].

Definition smallBufferSize : nat := 64.

(** [Buffer.Write]: reslice when the capacity suffices, else allocate 64
    bytes for a first small write, else twice the capacity plus the bytes
    written.  (The branch that slides data down needs [n <= cap/2 - len],
    which never holds once [n > cap - len].) *)
Definition buf_Write (b : Buffer) (p : list byte) : Buffer :=
  let m := s_len b in
  let n := length p in
  if bool_decide (n <= s_cap b - m)%nat
  then Slice (s_data b ++ p) (drop n (s_spare b))
  else if bool_decide (s_cap b = 0%nat) && bool_decide (n <= smallBufferSize)%nat
  then Slice p (zeros (smallBufferSize - n))
  else Slice (s_data b ++ p) (zeros (2 * s_cap b - m)).

Definition buf_Len (b : Buffer) : nat := s_len b.

(** [Buffer.Truncate]: the bytes cut off stay in the backing array. *)
Definition buf_Truncate (b : Buffer) (n : nat) : go Buffer :=
  if bool_decide (n <= buf_Len b)%nat
  then Ret (Slice (take n (s_data b)) (drop n (s_data b) ++ s_spare b))
  else Panic (PanicValue (Errorf "bytes.Buffer: truncation out of range" [])).

(** ** [encoding/binary]

    [binary.Read] into a struct of [n] bytes starts with [io.ReadFull]. *)

Definition io_EOF : error := Sentinel "EOF".
Definition io_ErrUnexpectedEOF : error := Sentinel "unexpected EOF".

Definition read_full (n : nat) (data : list byte) : result (list byte) :=
  if bool_decide (data = []) && bool_decide (n <> 0%nat) then Err io_EOF
  else if bool_decide (n <= length data)%nat then Ok (take n data)
  else Err io_ErrUnexpectedEOF.

(** [binary.LittleEndian.Uint32(b)]: reads [b[0..3]] after checking [b[3]]. *)
Definition le_Uint32 (b : slice) : go Z :=
  if bool_decide (4 <= s_len b)%nat
  then Ret (le_combine (take 4 (s_data b)))
  else Panic BoundsOutOfRange.

(** [make([]byte, n)] panics past the largest allocation of the platform. *)
Definition make_bytes (maxAlloc n : Z) : go (list byte) :=
  if bool_decide (n <= maxAlloc) then Ret (zeros (Z.to_nat n))
  else Panic MakeLenOutOfRange.

(** ** Lemmas *)

Section outcome.
Context {A B : Type}.

Lemma go_bind_ret (a : A) (f : A -> go B) : (Ret a ≫= f) = f a.
Proof. done. Qed.

Lemma go_bind_panic p (f : A -> go B) : (Panic p ≫= f) = Panic p.
Proof. done. Qed.

Lemma go_bind_Ret_inv (c : go A) (f : A -> go B) b :
  (c ≫= f) = Ret b -> exists a, c = Ret a /\ f a = Ret b.
Proof. destruct c; [eauto|done]. Qed.

Lemma go_bind_Panic_inv (c : go A) (f : A -> go B) p :
  (c ≫= f) = Panic p -> c = Panic p \/ exists a, c = Ret a /\ f a = Panic p.
Proof. destruct c; [eauto|]. intros [= ->]. auto. Qed.

End outcome.

Section errors.

Lemma errors_Is_refl e : errors_Is e e = true.
Proof. destruct e; simpl; by rewrite bool_decide_true by done. Qed.

Lemma errors_Is_wrap f a e t : errors_Is e t = true -> errors_Is (Wrapf f a e) t = true.
Proof. intros H. simpl. rewrite H. apply orb_true_r. Qed.

End errors.

Section slices.
Implicit Types s : slice.

Lemma s_cap_len s : s_cap s = (s_len s + length (s_spare s))%nat.
Proof. unfold s_cap, s_array, s_len. by rewrite length_app. Qed.

Lemma s_slice_ok s lo hi :
  (lo <= hi <= s_cap s)%nat ->
  s_slice s lo hi = Ret (Slice (take (hi - lo) (drop lo (s_array s))) (drop hi (s_array s))).
Proof. intros []. unfold s_slice. by rewrite !bool_decide_true. Qed.

Lemma s_slice_panic s lo hi :
  (hi < lo)%nat \/ (s_cap s < hi)%nat -> s_slice s lo hi = Panic BoundsOutOfRange.
Proof.
  intros [?|?]; unfold s_slice.
  - by rewrite bool_decide_false by lia.
  - rewrite (bool_decide_false (hi <= s_cap s)%nat) by lia. by rewrite andb_false_r.
Qed.

(** Below the length, slicing never looks at the spare bytes. *)
Lemma s_slice_within s lo hi :
  (lo <= hi <= s_len s)%nat ->
  exists spare, s_slice s lo hi = Ret (Slice (take (hi - lo) (drop lo (s_data s))) spare).
Proof.
  intros H. exists (drop hi (s_array s)). rewrite s_slice_ok.
  - unfold s_array, s_len in *. rewrite drop_app_le by lia. rewrite take_app_le; [done|].
    rewrite length_drop. lia.
  - rewrite s_cap_len. lia.
Qed.

Lemma s_slice_data_length s lo hi s' :
  s_slice s lo hi = Ret s' -> s_len s' = (hi - lo)%nat.
Proof.
  unfold s_slice. case_match eqn:E; [|done]. intros [= <-].
  apply andb_prop in E as [E1 E2]. apply bool_decide_eq_true in E1, E2.
  unfold s_len, s_cap in *; simpl. rewrite length_take, length_drop. lia.
Qed.

Lemma s_from_ok s lo :
  (lo <= s_len s)%nat ->
  s_from s lo = Ret (Slice (drop lo (s_data s)) (s_spare s)).
Proof.
  intros H. unfold s_from. rewrite s_slice_ok by (rewrite s_cap_len; lia).
  unfold s_array, s_len in *. rewrite drop_app_length, drop_app_le by lia.
  rewrite take_app_exact; [done|]. rewrite length_drop. lia.
Qed.

Lemma s_from_panic s lo : (s_len s < lo)%nat -> s_from s lo = Panic BoundsOutOfRange.
Proof. intros. apply s_slice_panic. lia. Qed.

Lemma s_index_ok s i : (i < s_len s)%nat -> exists b, s_index s i = Ret b /\ s_data s !! i = Some b.
Proof.
  intros [b Hb]%lookup_lt_is_Some_2. exists b. unfold s_index. by rewrite Hb.
Qed.

Lemma le_Uint32_ok s : (4 <= s_len s)%nat -> le_Uint32 s = Ret (le_combine (take 4 (s_data s))).
Proof. intros. unfold le_Uint32. by rewrite bool_decide_true. Qed.

End slices.

Section buffers.
Implicit Types b : Buffer.

Lemma buf_Write_data b p : s_data (buf_Write b p) = s_data b ++ p.
Proof.
  unfold buf_Write. repeat case_match; try done; simpl.
  apply andb_prop in H0 as [H0 _]. apply bool_decide_eq_true in H0.
  rewrite s_cap_len in H0. unfold s_len in H0.
  by rewrite (nil_length_inv (s_data b)) by lia.
Qed.

Lemma buf_Truncate_ok b n :
  (n <= buf_Len b)%nat ->
  buf_Truncate b n = Ret (Slice (take n (s_data b)) (drop n (s_data b) ++ s_spare b)).
Proof. intros. unfold buf_Truncate. by rewrite bool_decide_true. Qed.

(** The 64 bytes of the first allocation survive every later operation. *)
Lemma buf_Write_cap b p : (s_cap b <= s_cap (buf_Write b p))%nat.
Proof.
  rewrite !s_cap_len. unfold buf_Write, s_len. repeat case_match; simpl.
  - apply bool_decide_eq_true in H. rewrite length_app, length_drop. lia.
  - apply andb_prop in H0 as [H0 _]. apply bool_decide_eq_true in H0.
    rewrite s_cap_len in H0. unfold s_len in H0. lia.
  - rewrite s_cap_len. unfold s_len. rewrite length_app, length_zeros. lia.
Qed.

Lemma buf_Write_first_cap p :
  p <> [] -> (length p <= smallBufferSize)%nat -> s_cap (buf_Write new_buffer p) = smallBufferSize.
Proof.
  intros Hp ?. unfold buf_Write; simpl. destruct p; [done|]. simpl in *.
  rewrite bool_decide_true by done. rewrite s_cap_len. unfold s_len; simpl.
  rewrite length_zeros. unfold smallBufferSize in *. lia.
Qed.

Lemma buf_Truncate_cap b n b' : buf_Truncate b n = Ret b' -> s_cap b' = s_cap b.
Proof.
  unfold buf_Truncate. case_match; [|done]. intros [= <-].
  unfold s_cap, s_array; simpl. by rewrite app_assoc, take_drop.
Qed.

Lemma buf_Truncate_array b n b' : buf_Truncate b n = Ret b' -> s_array b' = s_array b.
Proof.
  unfold buf_Truncate. case_match; [|done]. intros [= <-].
  unfold s_array; simpl. by rewrite app_assoc, take_drop.
Qed.

End buffers.

Section reads.

Lemma read_full_ok n data :
  (0 < n <= length data)%nat -> read_full n data = Ok (take n data).
Proof.
  intros. unfold read_full. rewrite (bool_decide_false (data = [])) by (by intros ->; simpl in *; lia).
  simpl. by rewrite bool_decide_true by lia.
Qed.

Lemma read_full_short n data :
  data <> [] -> (length data < n)%nat -> read_full n data = Err io_ErrUnexpectedEOF.
Proof.
  intros ? ?. unfold read_full. rewrite (bool_decide_false (data = [])) by done.
  simpl. by rewrite bool_decide_false by lia.
Qed.

End reads.

#[export] Hint Rewrite buf_Write_data @go_bind_ret @go_bind_panic : wallera.
#[export] Hint Resolve s_slice_ok s_from_ok le_Uint32_ok : wallera.
