(* ===== verification/Usb.v ===== *)
(** * The HID transport: [src/usb/usb.go]

    Frames of 64 bytes, the reassembly session of one message and the
    segmentation of a response.  The logger field of [Session] is left out:
    the code only writes to it. *)

From S2P Require Import Prelude GoRuntime.

(** The HID report descriptor the device announces (USB usage page FFA0,
    64-byte input and output reports). *)
Definition LedgerNanoXReport : list byte := bytes_of
  [0x06; 0xA0; 0xFF; 0x09; 0x01; 0xA1; 0x01; 0x09; 0x03; 0x15; 0x00; 0x26;
   0xFF; 0x00; 0x75; 0x08; 0x95; 0x40; 0x81; 0x08; 0x09; 0x04; 0x15; 0x00;
   0x26; 0xFF; 0x00; 0x75; 0x08; 0x95; 0x40; 0x91; 0x08; 0xC0].

Definition hidFrameMaxDataSize : Z := 57.
Definition hidFrameTag : Z := 0x05.

(** ** Frames *)

Record HIDFrame := mkHIDFrame {
  hf_ChannelIDInner : Z;
  hf_TagInner : Z;
  hf_PacketIndexInner : Z;
  hf_DataLengthInner : Z;
  hf_DataInner : list byte
}.

Record HIDFrameNext := mkHIDFrameNext {
  hn_ChannelIDInner : Z;
  hn_TagInner : Z;
  hn_PacketIndexInner : Z;
  hn_DataInner : list byte
}.

(** The [Frame] interface and its two implementations; the dynamic type is
    what [Type()] reports. *)
Inductive Frame :=
| FrameFirst (f : HIDFrame)
| FrameNext (f : HIDFrameNext).

Inductive FrameType := typeFrame | typeFrameNext.
#[export] Instance FrameType_eq_dec : EqDecision FrameType.
Proof. solve_decision. Defined.

Definition frame_Type (f : Frame) : FrameType :=
  match f with FrameFirst _ => typeFrame | FrameNext _ => typeFrameNext end.

Definition ChannelID (f : Frame) : Z :=
  match f with FrameFirst h => hf_ChannelIDInner h | FrameNext h => hn_ChannelIDInner h end.

Definition Tag (f : Frame) : Z :=
  match f with FrameFirst h => hf_TagInner h | FrameNext h => hn_TagInner h end.

Definition PacketIndex (f : Frame) : Z :=
  match f with FrameFirst h => hf_PacketIndexInner h | FrameNext h => hn_PacketIndexInner h end.

Definition DataLength (f : Frame) : Z :=
  match f with FrameFirst h => hf_DataLengthInner h | FrameNext _ => 0 end.

Definition frame_Data (f : Frame) : list byte :=
  match f with FrameFirst h => hf_DataInner h | FrameNext h => hn_DataInner h end.

(** [validate], the same for both frame types. *)
Definition validate (f : Frame) : option error :=
  if negb (Tag f =? hidFrameTag) then Some (Errorf "invalid frame tag" [])
  else if ChannelID f =? 0 then Some (Errorf "channel id cannot be zero" [])
  else None.

(** ** The big-endian layout [encoding/binary] gives the two structs *)

Definition decode_HIDFrame (l : list byte) : HIDFrame :=
  mkHIDFrame (be_combine (take 2 l)) (be_combine (take 1 (drop 2 l)))
    (be_combine (take 2 (drop 3 l))) (be_combine (take 2 (drop 5 l)))
    (take 57 (drop 7 l)).

Definition decode_HIDFrameNext (l : list byte) : HIDFrameNext :=
  mkHIDFrameNext (be_combine (take 2 l)) (be_combine (take 1 (drop 2 l)))
    (be_combine (take 2 (drop 3 l))) (take 59 (drop 5 l)).

Definition encode_HIDFrame (f : HIDFrame) : list byte :=
  be_split 2 (hf_ChannelIDInner f) ++ be_split 1 (hf_TagInner f) ++
  be_split 2 (hf_PacketIndexInner f) ++ be_split 2 (hf_DataLengthInner f) ++
  hf_DataInner f.

Definition encode_HIDFrameNext (f : HIDFrameNext) : list byte :=
  be_split 2 (hn_ChannelIDInner f) ++ be_split 1 (hn_TagInner f) ++
  be_split 2 (hn_PacketIndexInner f) ++ hn_DataInner f.

Definition encode_Frame (f : Frame) : list byte :=
  match f with
  | FrameFirst h => encode_HIDFrame h
  | FrameNext h => encode_HIDFrameNext h
  end.

#[global] Arguments encode_HIDFrame : simpl never.
#[global] Arguments encode_HIDFrameNext : simpl never.
#[global] Arguments decode_HIDFrame : simpl never.
#[global] Arguments decode_HIDFrameNext : simpl never.

(** [binary.Read] of 64 bytes into the struct [dest] points to. *)
Definition binary_Read_Frame (dest : FrameType) (data : list byte) : result Frame :=
  match read_full 64 data with
  | Ok l =>
      Ok (match dest with
          | typeFrame => FrameFirst (decode_HIDFrame l)
          | typeFrameNext => FrameNext (decode_HIDFrameNext l)
          end)
  | Err e => Err e
  end.

(** The package-level [readFrame]. *)
Definition readFrame (data : list byte) (dest : FrameType) : result Frame :=
  if bool_decide (64 < length data)%nat || bool_decide (length data = 0)%nat
  then Err (Errorf "data must be exactly 64 bytes long" [])
  else match binary_Read_Frame dest data with
       | Ok f => Ok f
       | Err e => Err (Wrapf "invalid data, %w" [] e)
       end.

(** ** Sessions *)

Record Session := mkSession {
  channelID : Z;
  lastReadFrameIndex : Z;
  data_ : Buffer;
  ShouldReadMore : bool;
  amountToRead : Z
}.

(** The method [(s *Session) readFrame]. *)
Definition session_readFrame (s : Session) (frame : Frame) : go (Session * option error) :=
  if negb (channelID s =? 0) && (PacketIndex frame =? 0)
  then Ret (s, Some (Errorf "cannot read init packet in already initialized session" []))
  else
    let s := mkSession (ChannelID frame) (PacketIndex frame)
               (buf_Write (data_ s) (frame_Data frame)) (ShouldReadMore s) (amountToRead s) in
    let s :=
      if bool_decide (frame_Type frame = typeFrame)
      then mkSession (channelID s) (lastReadFrameIndex s) (data_ s)
             (negb (DataLength frame <=? hidFrameMaxDataSize)) (DataLength frame)
      else s in
    if amountToRead s <=? Z.of_nat (buf_Len (data_ s))
    then d ← buf_Truncate (data_ s) (Z.to_nat (amountToRead s));
         Ret (mkSession (channelID s) (lastReadFrameIndex s) d false (amountToRead s), None)
    else Ret (s, None).

(** [(s *Session) ReadFrame]: on an initialised session the error of
    [readFrame] is dropped. *)
Definition ReadFrame (s : Session) (frame : Frame) : go (Session * option error) :=
  if channelID s =? 0 then session_readFrame s frame
  else if negb (ShouldReadMore s)
  then Ret (s, Some (Errorf "cannot read any more data in this session" []))
  else if negb (channelID s =? ChannelID frame)
  then Ret (s, Some (Errorf "different channel ID: expecting %v, received %v"
                       [channelID s; ChannelID frame]))
  else if negb (u16 (PacketIndex frame - lastReadFrameIndex s) =? 1)
  then Ret (s, Some (Errorf "received out-of-order packet: expecting %v, received %v"
                       [u16 (lastReadFrameIndex s + 1); PacketIndex frame]))
  else '(s', _) ← session_readFrame s frame; Ret (s', None).

(** [(s *Session) ReadData] *)
Definition ReadData (s : Session) (input : list byte) : go (Session * option error) :=
  let dest := if negb (channelID s =? 0) then typeFrameNext else typeFrame in
  match readFrame input dest with
  | Err e => Ret (s, Some e)
  | Ok f =>
      match validate f with
      | Some e => Ret (s, Some e)
      | None => ReadFrame s f
      end
  end.

(** [(s *Session) Data] *)
Definition session_Data (s : Session) : slice := data_ s.

Definition fresh_session : Session := mkSession 0 0 new_buffer true 0.

(** [NewSession] *)
Definition NewSession (input : list byte) : go (result Session) :=
  '(s, err) ← ReadData fresh_session input;
  match err with
  | Some e => Ret (Err e)
  | None => Ret (Ok s)
  end.

(** ** Segmentation of a response *)

Definition defaultChunkSize : nat := 57.
Definition nextChunkSize : nat := 59.

(** [int(math.Ceil(float64(n) / float64(size)))]: the double-precision
    quotient is exact enough for its ceiling to be the integer one as long as
    [n < 2^46], far above what fits in the device's memory. *)
Definition ceil_div (n size : nat) : nat := ((n + size - 1) / size)%nat.

(** The loop of [chunkFunc], [left] iterations before its end. *)
Fixpoint chunk_loop (d : slice) (size chunks : nat) (left idx start finish : nat)
    : go (list slice) :=
  match left with
  | O => Ret []
  | S left' =>
      let finish := if bool_decide (idx + 1 = chunks)%nat then s_len d else finish in
      c ← s_slice d start finish;
      rest ← chunk_loop d size chunks left' (idx + 1) (start + size) (finish + size);
      Ret (c :: rest)
  end.

Definition chunkFunc (d : slice) (size : nat) : go (list slice) :=
  if bool_decide (s_len d <= size)%nat then Ret [d]
  else
    let chunks := ceil_div (s_len d) size in
    chunk_loop d size chunks chunks 0 0 size.

Definition chunk (d : slice) : go (list slice) := chunkFunc d nextChunkSize.

(** The follow-up frames, [i] being the range variable of the loop. *)
Fixpoint format_next (channel : Z) (i : Z) (chunks : list (list byte)) : list (list byte) :=
  match chunks with
  | [] => []
  | c :: rest =>
      encode_HIDFrameNext (mkHIDFrameNext channel hidFrameTag (u16 (i + 1))
                             (copy_into 59 c))
      :: format_next channel (i + 1) rest
  end.

(** [(s *Session) FormatResponse] *)
Definition FormatResponse (s : Session) (d : slice) : go (list (list byte)) :=
  if bool_decide (s_len d <= defaultChunkSize)%nat then
    Ret [encode_HIDFrame (mkHIDFrame (channelID s) hidFrameTag (u16 0)
                            (u16 (Z.of_nat (s_len d))) (copy_into 57 (s_data d)))]
  else
    firstChunk ← s_slice d 0 defaultChunkSize;
    d ← s_from d defaultChunkSize;
    chunks ← chunk d;
    let hf := mkHIDFrame (channelID s) hidFrameTag (u16 0)
                (u16 (Z.of_nat (s_len d) + Z.of_nat (s_len firstChunk)))
                (copy_into 57 (s_data firstChunk)) in
    Ret (encode_HIDFrame hf :: format_next (channelID s) 0 (map s_data chunks)).
