(* ===== verification/UsbTheory.v ===== *)
(** * Properties of the HID transport

    Frame codec, segmentation, the invariant of a reassembly session, and the
    round trip through [FormatResponse] and [ReadData]. *)

From S2P Require Import Prelude GoRuntime Usb.

(** ** Well-formed frames *)

Definition wf_Frame (f : Frame) : Prop :=
  0 <= ChannelID f < 65536 /\ 0 <= Tag f < 256 /\ 0 <= PacketIndex f < 65536 /\
  0 <= DataLength f < 65536 /\
  length (frame_Data f) = (match frame_Type f with typeFrame => 57 | typeFrameNext => 59 end)%nat.

(** ** Reference segmentation: [k] pieces of [size] bytes, the last one
    taking whatever is left. *)

Fixpoint cut (size k : nat) (l : list byte) : list (list byte) :=
  match k with
  | O => []
  | S O => [l]
  | S k' => take size l :: cut size k' (drop size l)
  end.

(** ** The invariant of a session *)

Record session_ok (s : Session) : Prop := {
  ok_channel : 0 < channelID s < 65536;
  ok_index : 0 <= lastReadFrameIndex s < 65536;
  ok_amount : 0 <= amountToRead s < 65536;
  ok_bound : Z.of_nat (buf_Len (data_ s)) <= amountToRead s;
  ok_more : ShouldReadMore s = negb (Z.of_nat (buf_Len (data_ s)) =? amountToRead s);
  ok_progress : ShouldReadMore s = true -> (57 <= buf_Len (data_ s))%nat;
  ok_cap : (64 <= s_cap (data_ s))%nat
}.

(** Feeding the reports of one message to a receiver: the first one opens the
    session, the others are read into it; the first error stops it. *)

Fixpoint read_rest (s : Session) (frames : list (list byte)) : go (result Session) :=
  match frames with
  | [] => Ret (Ok s)
  | f :: rest =>
      '(s', err) ← ReadData s f;
      match err with
      | Some e => Ret (Err e)
      | None => read_rest s' rest
      end
  end.

Definition receive (frames : list (list byte)) : go (result Session) :=
  match frames with
  | [] => Ret (Err (Errorf "no frame" []))
  | f :: rest =>
      r ← NewSession f;
      match r with
      | Ok s => read_rest s rest
      | Err e => Ret (Err e)
      end
  end.

(** ** Frame codec *)

Lemma segments_64 (l : list byte) :
  length l = 64%nat ->
  exists c t i n d, l = c ++ t ++ i ++ n ++ d /\ length c = 2%nat /\ length t = 1%nat /\
    length i = 2%nat /\ length n = 2%nat /\ length d = 57%nat.
Proof.
  intros H.
  destruct (take_drop_app 2 l) as (c & l1 & -> & Hc); [lia|].
  destruct (take_drop_app 1 l1) as (t & l2 & -> & Ht); [len_solve|].
  destruct (take_drop_app 2 l2) as (i & l3 & -> & Hi); [len_solve|].
  destruct (take_drop_app 2 l3) as (n & d & -> & Hn); [len_solve|].
  exists c, t, i, n, d. rewrite !length_app in H. repeat split; auto; lia.
Qed.

Lemma decode_HIDFrame_segments c t i n d :
  length c = 2%nat -> length t = 1%nat -> length i = 2%nat -> length n = 2%nat ->
  length d = 57%nat ->
  decode_HIDFrame (c ++ t ++ i ++ n ++ d) =
  mkHIDFrame (be_combine c) (be_combine t) (be_combine i) (be_combine n) d.
Proof.
  intros Hc Ht Hi Hn Hd. unfold decode_HIDFrame.
  rewrite (drop_app_exact 2 c), (drop_app_skip 2 3 c), (drop_app_skip 2 5 c),
    (drop_app_skip 2 7 c) by lia; simpl Nat.sub.
  rewrite (drop_app_exact 1 t), (drop_app_skip 1 3 t), (drop_app_skip 1 5 t) by lia; simpl Nat.sub.
  rewrite (drop_app_exact 2 i), (drop_app_skip 2 4 i), (drop_app_exact 2 n) by lia.
  rewrite !(take_app_exact 2 c), !(take_app_exact 1 t), !(take_app_exact 2 i),
    !(take_app_exact 2 n) by done.
  by rewrite take_ge by lia.
Qed.

Lemma decode_HIDFrameNext_segments c t i d :
  length c = 2%nat -> length t = 1%nat -> length i = 2%nat -> length d = 59%nat ->
  decode_HIDFrameNext (c ++ t ++ i ++ d) =
  mkHIDFrameNext (be_combine c) (be_combine t) (be_combine i) d.
Proof.
  intros Hc Ht Hi Hd. unfold decode_HIDFrameNext.
  rewrite (drop_app_exact 2 c), (drop_app_skip 2 3 c), (drop_app_skip 2 5 c) by lia; simpl Nat.sub.
  rewrite (drop_app_exact 1 t), (drop_app_skip 1 3 t), (drop_app_exact 2 i) by lia.
  rewrite !(take_app_exact 2 c), !(take_app_exact 1 t), !(take_app_exact 2 i) by done.
  by rewrite take_ge by lia.
Qed.

(** The index field has the same place in both frame types. *)
Lemma shared_index l : hn_PacketIndexInner (decode_HIDFrameNext l) = hf_PacketIndexInner (decode_HIDFrame l).
Proof. reflexivity. Qed.

Lemma be_combine_split_small n z :
  0 <= z < 2 ^ (Z.of_nat n * 8) -> be_combine (be_split n z) = z.
Proof. intros. rewrite be_combine_split. by apply Z.mod_small. Qed.

Lemma length_encode_HIDFrame h : length (hf_DataInner h) = 57%nat -> length (encode_HIDFrame h) = 64%nat.
Proof. intros H. unfold encode_HIDFrame. rewrite !length_app, !length_be_split, H. done. Qed.

Lemma length_encode_HIDFrameNext h :
  length (hn_DataInner h) = 59%nat -> length (encode_HIDFrameNext h) = 64%nat.
Proof. intros H. unfold encode_HIDFrameNext. rewrite !length_app, !length_be_split, H. done. Qed.

Lemma length_encode_Frame f : wf_Frame f -> length (encode_Frame f) = 64%nat.
Proof.
  intros (_ & _ & _ & _ & H).
  destruct f; [apply length_encode_HIDFrame | apply length_encode_HIDFrameNext]; exact H.
Qed.

Lemma decode_encode_HIDFrame h :
  wf_Frame (FrameFirst h) -> decode_HIDFrame (encode_HIDFrame h) = h.
Proof.
  intros (? & ? & ? & ? & ?); simpl in *. unfold encode_HIDFrame.
  rewrite decode_HIDFrame_segments by (rewrite ?length_be_split; done).
  rewrite !be_combine_split_small by (simpl; lia). by destruct h.
Qed.

Lemma decode_encode_HIDFrameNext h :
  wf_Frame (FrameNext h) -> decode_HIDFrameNext (encode_HIDFrameNext h) = h.
Proof.
  intros (? & ? & ? & ? & ?); simpl in *. unfold encode_HIDFrameNext.
  rewrite decode_HIDFrameNext_segments by (rewrite ?length_be_split; done).
  rewrite !be_combine_split_small by (simpl; lia). by destruct h.
Qed.

(** A wrong-sized report is refused, a 64-byte one always parses. *)
Lemma readFrame_64 input dest :
  length input = 64%nat ->
  readFrame input dest =
  Ok (match dest with
      | typeFrame => FrameFirst (decode_HIDFrame input)
      | typeFrameNext => FrameNext (decode_HIDFrameNext input)
      end).
Proof.
  intros H. unfold readFrame, binary_Read_Frame. rewrite H; simpl.
  rewrite read_full_ok by lia. by rewrite take_ge by lia.
Qed.

Lemma readFrame_bad_size input dest :
  length input <> 64%nat -> exists e, readFrame input dest = Err e.
Proof.
  intros H. unfold readFrame. case_match eqn:E; [eauto|].
  apply orb_false_iff in E as [E1 E2]. apply bool_decide_eq_false in E1, E2.
  unfold binary_Read_Frame. rewrite read_full_short; [eauto| |lia]. by intros ->.
Qed.

Lemma readFrame_encode f :
  wf_Frame f -> readFrame (encode_Frame f) (frame_Type f) = Ok f.
Proof.
  intros Hf. rewrite readFrame_64 by (by apply length_encode_Frame).
  destruct f; simpl; by rewrite ?decode_encode_HIDFrame, ?decode_encode_HIDFrameNext.
Qed.

Lemma encode_decode_HIDFrame l : length l = 64%nat -> encode_HIDFrame (decode_HIDFrame l) = l.
Proof.
  intros (c & t & i & n & d & -> & Hc & Ht & Hi & Hn & Hd)%segments_64.
  rewrite decode_HIDFrame_segments by done. unfold encode_HIDFrame; simpl.
  by rewrite !be_split_combine.
Qed.

Lemma encode_decode_HIDFrameNext l :
  length l = 64%nat -> encode_HIDFrameNext (decode_HIDFrameNext l) = l.
Proof.
  intros (c & t & i & n & d & -> & Hc & Ht & Hi & Hn & Hd)%segments_64.
  rewrite decode_HIDFrameNext_segments by (rewrite ?length_app; lia).
  unfold encode_HIDFrameNext; simpl. by rewrite !be_split_combine.
Qed.

Lemma wf_decode_HIDFrame l : length l = 64%nat -> wf_Frame (FrameFirst (decode_HIDFrame l)).
Proof.
  intros (c & t & i & n & d & -> & Hc & Ht & Hi & Hn & Hd)%segments_64.
  rewrite decode_HIDFrame_segments by done.
  pose proof (be_combine_range c). pose proof (be_combine_range t).
  pose proof (be_combine_range i). pose proof (be_combine_range n).
  rewrite ?Hc, ?Ht, ?Hi, ?Hn in *. unfold wf_Frame; simpl in *. lia.
Qed.

Lemma wf_decode_HIDFrameNext l : length l = 64%nat -> wf_Frame (FrameNext (decode_HIDFrameNext l)).
Proof.
  intros (c & t & i & n & d & -> & Hc & Ht & Hi & Hn & Hd)%segments_64.
  rewrite decode_HIDFrameNext_segments by (rewrite ?length_app; lia).
  pose proof (be_combine_range c). pose proof (be_combine_range t).
  pose proof (be_combine_range i). rewrite ?Hc, ?Ht, ?Hi in *.
  unfold wf_Frame; simpl in *. rewrite ?length_app. lia.
Qed.

Lemma readFrame_wf input dest f :
  readFrame input dest = Ok f -> length input = 64%nat /\ wf_Frame f /\ frame_Type f = dest.
Proof.
  intros H. destruct (decide (length input = 64%nat)) as [E|E].
  - rewrite readFrame_64 in H by done. split; [done|].
    destruct dest; simplify_eq; auto using wf_decode_HIDFrame, wf_decode_HIDFrameNext.
  - destruct (readFrame_bad_size input dest E) as [e He]. congruence.
Qed.

#[export] Hint Resolve length_encode_HIDFrame length_encode_HIDFrameNext length_encode_Frame
  wf_decode_HIDFrame wf_decode_HIDFrameNext : wallera.

#[global] Opaque decode_HIDFrame decode_HIDFrameNext encode_HIDFrame encode_HIDFrameNext.

(** ** Segmentation *)

Section cutting.
Variable size : nat.
Hypothesis size_pos : (0 < size)%nat.

Lemma ceil_div_bounds n :
  (0 < n)%nat -> ((ceil_div n size - 1) * size < n <= ceil_div n size * size)%nat.
Proof.
  intros Hn. unfold ceil_div.
  pose proof (Nat.div_mod_eq (n + size - 1) size).
  pose proof (Nat.mod_upper_bound (n + size - 1) size). nia.
Qed.

Lemma ceil_div_pos n : (0 < n)%nat -> (0 < ceil_div n size)%nat.
Proof. intros. pose proof (ceil_div_bounds n). nia. Qed.

Lemma length_cut k l : length (cut size k l) = k.
Proof. revert l. induction k as [|[|k] IH]; intros l; [done..|]. simpl in *. by rewrite IH. Qed.

Lemma concat_cut k l : (0 < k)%nat -> concat (cut size k l) = l.
Proof.
  revert l. induction k as [|[|k] IH]; intros l ?; [lia|apply app_nil_r|].
  change (take size l ++ concat (cut size (S k) (drop size l)) = l).
  rewrite IH by lia. apply take_drop.
Qed.

(** Every piece but the last is full, and none is empty or too long. *)
Lemma cut_lengths k l c i :
  ((k - 1) * size < length l <= k * size)%nat -> cut size k l !! i = Some c ->
  (0 < length c <= size)%nat /\ ((S i < k)%nat -> length c = size).
Proof.
  revert l i. induction k as [|[|k] IH]; intros l i Hl Hc; [done| |].
  - destruct i; simplify_eq/=. lia.
  - change (cut size (S (S k)) l) with (take size l :: cut size (S k) (drop size l)) in Hc.
    destruct i as [|i]; simplify_eq/=.
    + rewrite length_take. nia.
    + apply IH in Hc; [split; [apply Hc|intros; apply Hc; lia]|]. rewrite length_drop. nia.
Qed.

(** The loop of [chunkFunc] computes the reference segmentation and never
    slices out of range. *)
Lemma chunk_loop_cut d chunks left idx start :
  (idx + left = chunks)%nat -> start = (idx * size)%nat ->
  (0 < left -> start <= s_len d)%nat -> ((chunks - 1) * size < s_len d)%nat ->
  exists cs, chunk_loop d size chunks left idx start (start + size) = Ret cs /\
    map s_data cs = cut size left (drop start (s_data d)).
Proof.
  revert idx start. induction left as [|left IH]; intros idx start Hidx -> Hle Hlast; [by exists []|].
  simpl. destruct left as [|left].
  - rewrite bool_decide_true by lia.
    destruct (s_slice_within d (idx * size) (s_len d)) as [sp ->]; [lia|]. simpl.
    eexists; split; [done|]. simpl. rewrite take_ge; [done|].
    unfold s_len. rewrite length_drop. lia.
  - rewrite bool_decide_false by lia.
    destruct (s_slice_within d (idx * size) (idx * size + size)) as [sp ->]; [nia|].
    rewrite go_bind_ret.
    destruct (IH (idx + 1)%nat (idx * size + size)%nat) as (cs & -> & Hcs); [lia|lia|nia|done|].
    rewrite go_bind_ret. eexists; split; [done|].
    change (take (idx * size + size - idx * size) (drop (idx * size) (s_data d)) :: map s_data cs =
      take size (drop (idx * size) (s_data d)) ::
      cut size (S left) (drop size (drop (idx * size) (s_data d)))).
    rewrite Hcs, drop_drop. do 2 f_equal; lia.
Qed.

Lemma chunkFunc_cut d :
  exists cs, chunkFunc d size = Ret cs /\
    map s_data cs = cut size (Nat.max 1 (ceil_div (s_len d) size)) (s_data d).
Proof.
  unfold chunkFunc. case_bool_decide as Hd.
  - exists [d]. split; [done|].
    destruct (decide (s_len d = 0%nat)) as [E|E].
    + rewrite E. unfold ceil_div. rewrite Nat.div_small by lia. done.
    + pose proof (ceil_div_bounds (s_len d)). 
      replace (ceil_div (s_len d) size) with 1%nat by nia. done.
  - pose proof (ceil_div_bounds (s_len d)). 
    destruct (chunk_loop_cut d (ceil_div (s_len d) size) (ceil_div (s_len d) size) 0 0)
      as (cs & E & Hcs); [lia|lia|lia|nia|].
    exists cs. split; [exact E|]. rewrite Hcs, drop_0. f_equal. nia.
Qed.

End cutting.

#[global] Opaque ceil_div.

(** ** The reassembly session *)

(** What reading a valid first report does. *)
Definition opened (h : HIDFrame) (s : Session) : Prop :=
  channelID s = hf_ChannelIDInner h /\ lastReadFrameIndex s = hf_PacketIndexInner h /\
  amountToRead s = hf_DataLengthInner h /\
  s_data (data_ s) = take (Z.to_nat (hf_DataLengthInner h)) (hf_DataInner h) /\
  s_cap (data_ s) = 64%nat /\
  ShouldReadMore s = (57 <? hf_DataLengthInner h).

Lemma session_readFrame_first h :
  wf_Frame (FrameFirst h) ->
  exists s, session_readFrame fresh_session (FrameFirst h) = Ret (s, None) /\ opened h s.
Proof.
  intros (_ & _ & _ & Hlen & Hdata); simpl in *. unfold session_readFrame, opened; simpl.
  assert (Hcap : s_cap (buf_Write new_buffer (hf_DataInner h)) = 64%nat).
  { apply buf_Write_first_cap; [by intros E; rewrite E in Hdata|unfold smallBufferSize; lia]. }
  assert (Hb : buf_Len (buf_Write new_buffer (hf_DataInner h)) = 57%nat).
  { unfold buf_Len, s_len. by rewrite buf_Write_data. }
  rewrite Hb. unfold hidFrameMaxDataSize.
  destruct (Z.leb_spec (hf_DataLengthInner h) (Z.of_nat 57)).
  - destruct (buf_Truncate (buf_Write new_buffer (hf_DataInner h)) (Z.to_nat (hf_DataLengthInner h)))
      as [b|p] eqn:Hd.
    + eexists; split; [done|]; simpl. rewrite (buf_Truncate_cap _ _ _ Hd), Hcap.
      rewrite buf_Truncate_ok in Hd by lia. simplify_eq. simpl. rewrite buf_Write_data.
      repeat split; auto. symmetry. apply Z.ltb_ge. lia.
    + by rewrite buf_Truncate_ok in Hd by lia.
  - eexists; split; [done|]; simpl. rewrite buf_Write_data, take_ge by (simpl; lia).
    repeat split; auto. rewrite (proj2 (Z.leb_gt _ _)) by lia. symmetry. apply Z.ltb_lt. lia.
Qed.

Lemma opened_ok h s :
  wf_Frame (FrameFirst h) -> validate (FrameFirst h) = None -> opened h s -> session_ok s.
Proof.
  intros (Hc & _ & Hi & Hl & Hd) Hv (E1 & E2 & E3 & E4 & E5 & E6); simpl in *.
  unfold validate in Hv; simpl in Hv. destruct (negb _); [done|].
  destruct (Z.eqb_spec (hf_ChannelIDInner h) 0); [done|].
  assert (Hlen : buf_Len (data_ s) = (Z.to_nat (hf_DataLengthInner h) `min` 57)%nat).
  { unfold buf_Len, s_len. by rewrite E4, length_take, Hd. }
  constructor; rewrite ?E1, ?E2, ?E3, ?E5, ?E6, ?Hlen; try lia.
  destruct (Z.ltb_spec 57 (hf_DataLengthInner h)), (Z.eqb_spec
    (Z.of_nat (Z.to_nat (hf_DataLengthInner h) `min` 57)) (hf_DataLengthInner h)); simpl; lia.
Qed.

(** What reading an accepted follow-up report does. *)
Definition extended (s : Session) (h : HIDFrameNext) (s' : Session) : Prop :=
  channelID s' = channelID s /\ lastReadFrameIndex s' = hn_PacketIndexInner h /\
  amountToRead s' = amountToRead s /\
  s_data (data_ s') = take (Z.to_nat (amountToRead s)) (s_data (data_ s) ++ hn_DataInner h) /\
  (s_cap (data_ s) <= s_cap (data_ s'))%nat /\
  ShouldReadMore s' = (Z.of_nat (buf_Len (data_ s) + 59) <? amountToRead s).

Lemma session_readFrame_next s h :
  session_ok s -> ShouldReadMore s = true -> wf_Frame (FrameNext h) ->
  hn_ChannelIDInner h = channelID s -> hn_PacketIndexInner h <> 0 ->
  exists s', session_readFrame s (FrameNext h) = Ret (s', None) /\ extended s h s'.
Proof.
  intros Hs Hmore (_ & _ & _ & _ & Hd) Hc Hi; simpl in *. unfold session_readFrame, extended; simpl.
  rewrite (proj2 (Z.eqb_neq _ _) Hi), andb_false_r; simpl.
  assert (Hb : buf_Len (buf_Write (data_ s) (hn_DataInner h)) = (buf_Len (data_ s) + 59)%nat).
  { unfold buf_Len, s_len. by rewrite buf_Write_data, length_app, Hd. }
  pose proof (buf_Write_cap (data_ s) (hn_DataInner h)) as Hcap.
  rewrite Hb. destruct Hs as [? ? ? ? Hm ? ?].
  destruct (Z.leb_spec (amountToRead s) (Z.of_nat (buf_Len (data_ s) + 59))).
  - destruct (buf_Truncate (buf_Write (data_ s) (hn_DataInner h)) (Z.to_nat (amountToRead s)))
      as [b|p] eqn:Ht.
    + eexists; split; [done|]; simpl. rewrite (buf_Truncate_cap _ _ _ Ht).
      rewrite buf_Truncate_ok in Ht by lia. simplify_eq; simpl. rewrite buf_Write_data.
      repeat split; auto. symmetry. apply Z.ltb_ge. lia.
    + by rewrite buf_Truncate_ok in Ht by lia.
  - eexists; split; [done|]; simpl. rewrite buf_Write_data, take_ge.
    + repeat split; auto. rewrite Hmore. symmetry. apply Z.ltb_lt. lia.
    + rewrite length_app, Hd. unfold buf_Len, s_len in *. lia.
Qed.

Lemma extended_ok s h s' :
  session_ok s -> ShouldReadMore s = true -> wf_Frame (FrameNext h) ->
  extended s h s' -> session_ok s'.
Proof.
  intros [? ? ? ? Hm Hp ?] Hmore (_ & _ & Hi & _ & Hd) (E1 & E2 & E3 & E4 & E5 & E6); simpl in *.
  assert (Hlen : buf_Len (data_ s') = (Z.to_nat (amountToRead s) `min` (buf_Len (data_ s) + 59))%nat).
  { unfold buf_Len, s_len. by rewrite E4, length_take, length_app, Hd. }
  specialize (Hp Hmore).
  constructor; rewrite ?E1, ?E2, ?E3, ?E6, ?Hlen; try lia.
  destruct (Z.ltb_spec (Z.of_nat (buf_Len (data_ s) + 59)) (amountToRead s)), (Z.eqb_spec
    (Z.of_nat (Z.to_nat (amountToRead s) `min` (buf_Len (data_ s) + 59))) (amountToRead s));
    simpl; lia.
Qed.

(** When a session takes a report: right size, tag, channel and sequence
    number (modulo the 16 bits of the index). *)
Definition accepts (s : Session) (input : list byte) : bool :=
  let h := decode_HIDFrameNext input in
  bool_decide (length input = 64%nat) && (hn_TagInner h =? hidFrameTag) &&
  ShouldReadMore s && (channelID s =? hn_ChannelIDInner h) &&
  (u16 (hn_PacketIndexInner h - lastReadFrameIndex s) =? 1).

Lemma validate_None f : validate f = None <-> Tag f = hidFrameTag /\ ChannelID f <> 0.
Proof.
  unfold validate. 
  destruct (Z.eqb_spec (Tag f) hidFrameTag), (Z.eqb_spec (ChannelID f) 0); simpl; split;
    intros; try done; intuition congruence.
Qed.

(** Refused reports leave the session as it was. *)
Lemma ReadData_refused s input :
  session_ok s -> accepts s input = false -> exists e, ReadData s input = Ret (s, Some e).
Proof.
  intros [Hc _ _ _ _ _ _] Ha. unfold ReadData.
  rewrite (proj2 (Z.eqb_neq (channelID s) 0)) by lia; simpl.
  destruct (decide (length input = 64%nat)) as [Hl|Hl].
  - rewrite readFrame_64 by done. destruct (validate _) eqn:Hv; [eauto|].
    apply validate_None in Hv as [Ht _]; simpl in Ht.
    unfold accepts in Ha. rewrite Hl, Ht in Ha; simpl in Ha. unfold ReadFrame; simpl.
    rewrite (proj2 (Z.eqb_neq (channelID s) 0)) by lia.
    destruct (ShouldReadMore s), (channelID s =? _), (u16 _ =? 1); simpl in *; try done; eauto.
  - destruct (readFrame_bad_size input typeFrameNext Hl) as [e ->]. eauto.
Qed.

(** An accepted report goes through [session_readFrame], whose error is lost. *)
Lemma ReadData_accepted s input :
  session_ok s -> accepts s input = true ->
  wf_Frame (FrameNext (decode_HIDFrameNext input)) /\
  hn_ChannelIDInner (decode_HIDFrameNext input) = channelID s /\
  u16 (hn_PacketIndexInner (decode_HIDFrameNext input) - lastReadFrameIndex s) = 1 /\
  ReadData s input =
    ('(s', _) ← session_readFrame s (FrameNext (decode_HIDFrameNext input)); Ret (s', None)).
Proof.
  intros [Hc _ _ _ _ _ _] Ha. unfold accepts in Ha.
  apply andb_true_iff in Ha as [Ha Hi]. apply andb_true_iff in Ha as [Ha Hch].
  apply andb_true_iff in Ha as [Ha Hm]. apply andb_true_iff in Ha as [Hl Ht].
  apply bool_decide_eq_true in Hl. apply Z.eqb_eq in Ht, Hch, Hi.
  repeat split; [by apply wf_decode_HIDFrameNext..|done|done|].
  unfold ReadData. rewrite (proj2 (Z.eqb_neq (channelID s) 0)) by lia; simpl.
  rewrite readFrame_64 by done.
  rewrite (proj2 (validate_None _)) by (simpl; lia).
  unfold ReadFrame; simpl. rewrite (proj2 (Z.eqb_neq (channelID s) 0)) by lia.
  by rewrite Hm, Hch, Z.eqb_refl, Hi.
Qed.

Lemma ReadData_extends s input :
  session_ok s -> accepts s input = true ->
  hn_PacketIndexInner (decode_HIDFrameNext input) <> 0 ->
  exists s', ReadData s input = Ret (s', None) /\ extended s (decode_HIDFrameNext input) s'.
Proof.
  intros Hs Ha Hi. destruct (ReadData_accepted s input Hs Ha) as (Hwf & Hc & _ & ->).
  assert (ShouldReadMore s = true) as Hm.
  { unfold accepts in Ha. by destruct (ShouldReadMore s); rewrite ?andb_false_r in Ha. }
  destruct (session_readFrame_next s _ Hs Hm Hwf Hc Hi) as (s' & -> & He). eauto.
Qed.

Lemma accepts_more s input : accepts s input = true -> ShouldReadMore s = true.
Proof. unfold accepts. destruct (ShouldReadMore s); [done|]. by rewrite ?andb_false_r. Qed.

(** Index 0 is only in sequence after 65535: the report is then dropped, and
    the caller is told it was read. *)
Lemma ReadData_wrapped_index s input :
  session_ok s -> accepts s input = true ->
  hn_PacketIndexInner (decode_HIDFrameNext input) = 0 ->
  lastReadFrameIndex s = 65535 /\ ReadData s input = Ret (s, None).
Proof.
  intros Hs Ha Hi. destruct (ReadData_accepted s input Hs Ha) as (Hwf & Hc & Hu & ->).
  destruct Hs as [? Hl ? ? ? ? ?]. split.
  - rewrite Hi in Hu. unfold u16 in Hu. pose proof (Z.div_mod (0 - lastReadFrameIndex s) (2 ^ 16)). lia.
  - unfold session_readFrame; simpl. rewrite Hi.
    by rewrite (proj2 (Z.eqb_neq (channelID s) 0)) by lia.
Qed.

(** The invariant is kept by every call, whatever the report holds. *)
Lemma ReadData_ok s input :
  session_ok s -> exists s' err, ReadData s input = Ret (s', err) /\ session_ok s' /\
    channelID s' = channelID s /\ (err <> None -> s' = s).
Proof.
  intros Hs. destruct (accepts s input) eqn:Ha.
  - destruct (decide (hn_PacketIndexInner (decode_HIDFrameNext input) = 0)) as [Hi|Hi].
    + destruct (ReadData_wrapped_index s input Hs Ha Hi) as [_ ->]. eauto 10.
    + destruct (ReadData_extends s input Hs Ha Hi) as (s' & -> & He).
      exists s', None. split_and!; [done| |apply He|done].
      eapply extended_ok; eauto using accepts_more.
      by destruct (ReadData_accepted s input Hs Ha).
  - destruct (ReadData_refused s input Hs Ha) as [e ->]. eauto 10.
Qed.

(** ** Opening a session *)

Definition opens (input : list byte) : bool :=
  let h := decode_HIDFrame input in
  bool_decide (length input = 64%nat) && (hf_TagInner h =? hidFrameTag) &&
  negb (hf_ChannelIDInner h =? 0).

Lemma NewSession_opens input :
  opens input = true ->
  wf_Frame (FrameFirst (decode_HIDFrame input)) /\
  exists s, NewSession input = Ret (Ok s) /\ opened (decode_HIDFrame input) s /\ session_ok s.
Proof.
  intros H. unfold opens in H.
  apply andb_true_iff in H as [H Hc]. apply andb_true_iff in H as [Hl Ht].
  apply bool_decide_eq_true in Hl. apply Z.eqb_eq in Ht.
  apply negb_true_iff, Z.eqb_neq in Hc.
  assert (Hwf : wf_Frame (FrameFirst (decode_HIDFrame input))) by auto with wallera.
  assert (Hv : validate (FrameFirst (decode_HIDFrame input)) = None) by by apply validate_None.
  split; [done|].
  destruct (session_readFrame_first _ Hwf) as (s & E & Ho). exists s.
  split; [|eauto using opened_ok].
  unfold NewSession, ReadData; simpl. rewrite readFrame_64 by done. rewrite Hv.
  unfold ReadFrame; simpl. by rewrite E.
Qed.

Lemma NewSession_refused input :
  opens input = false -> exists e, NewSession input = Ret (Err e).
Proof.
  intros H. unfold NewSession, ReadData; simpl.
  destruct (decide (length input = 64%nat)) as [Hl|Hl].
  - rewrite readFrame_64 by done. destruct (validate _) eqn:Hv; [eexists; done|].
    apply validate_None in Hv as [Ht Hc]; simpl in *. unfold opens in H.
    rewrite Hl, Ht in H; simpl in H. apply negb_false_iff, Z.eqb_eq in H. done.
  - destruct (readFrame_bad_size input typeFrame Hl) as [e ->]. eexists; done.
Qed.

(** ** From a response to its reports and back *)

(** The reports of a message, without Go's slices. *)
Definition frames_of (channel : Z) (l : list byte) : list (list byte) :=
  encode_HIDFrame (mkHIDFrame channel hidFrameTag 0 (u16 (Z.of_nat (length l)))
                     (copy_into 57 (take 57 l)))
  :: (if bool_decide (length l <= 57)%nat then []
      else format_next channel 0 (cut 59 (ceil_div (length l - 57) 59) (drop 57 l))).

Lemma FormatResponse_frames s d :
  FormatResponse s d = Ret (frames_of (channelID s) (s_data d)).
Proof.
  unfold FormatResponse, frames_of, defaultChunkSize, s_len. case_bool_decide as Hd.
  - do 3 f_equal. by rewrite take_ge by done.
  - destruct (s_slice_within d 0 57) as [sp ->]; [unfold s_len; lia|]. rewrite go_bind_ret.
    rewrite s_from_ok by (unfold s_len; lia). rewrite go_bind_ret. unfold chunk, nextChunkSize.
    destruct (chunkFunc_cut 59 ltac:(lia) (Slice (drop 57 (s_data d)) (s_spare d))) as (cs & -> & Hcs).
    rewrite go_bind_ret. cbn [s_data] in Hcs |- *. unfold s_len in *; cbn [s_data] in *.
    rewrite Hcs, drop_0, length_take, length_drop.
    pose proof (ceil_div_pos 59 ltac:(lia) (length (s_data d) - 57) ltac:(lia)).
    rewrite Nat.max_r by lia. rewrite Nat.sub_0_r.
    replace (Z.of_nat (length (s_data d) - 57) + Z.of_nat (57 `min` length (s_data d)))
      with (Z.of_nat (length (s_data d))) by lia.
    done.
Qed.

Lemma ReadData_chunk s c :
  session_ok s -> ShouldReadMore s = true -> lastReadFrameIndex s + 1 < 65536 ->
  (0 < length c <= 59)%nat ->
  Z.of_nat (buf_Len (data_ s) + length c) <= amountToRead s ->
  length c = 59%nat \/ Z.of_nat (buf_Len (data_ s) + length c) = amountToRead s ->
  exists s',
    ReadData s (encode_HIDFrameNext (mkHIDFrameNext (channelID s) hidFrameTag
                  (u16 (lastReadFrameIndex s + 1)) (copy_into 59 c))) = Ret (s', None) /\
    session_ok s' /\ s_data (data_ s') = s_data (data_ s) ++ c /\
    channelID s' = channelID s /\ lastReadFrameIndex s' = lastReadFrameIndex s + 1 /\
    amountToRead s' = amountToRead s /\
    ShouldReadMore s' = (Z.of_nat (buf_Len (data_ s) + length c) <? amountToRead s).
Proof.
  intros Hs Hm Hi Hc Hle Hfull. pose proof Hs as [Hch Hix Ham ? ? ? ?].
  rewrite u16_small by lia.
  set (h := mkHIDFrameNext _ _ _ _).
  assert (Hwf : wf_Frame (FrameNext h)).
  { unfold wf_Frame, hidFrameTag; simpl. rewrite length_copy_into. unfold hidFrameTag. lia. }
  pose proof (decode_encode_HIDFrameNext h Hwf) as Hdec.
  assert (Ha : accepts s (encode_HIDFrameNext h) = true).
  { unfold accepts. rewrite Hdec, Hm; simpl. rewrite !Z.eqb_refl.
    rewrite bool_decide_true by (apply length_encode_HIDFrameNext; simpl; apply length_copy_into).
    simpl. apply Z.eqb_eq. rewrite u16_small; lia. }
  destruct (ReadData_extends s _ Hs Ha) as (s' & E & He); [rewrite Hdec; simpl; lia|].
  rewrite Hdec in He. exists s'. split; [done|].
  split; [by eapply extended_ok|]. destruct He as (E1 & E2 & E3 & E4 & _ & E6); simpl in *.
  unfold buf_Len, s_len in *. split_and!; try done.
  - rewrite E4, copy_into_prefix, app_assoc by lia. destruct Hfull as [Hf|Hf].
    + rewrite Hf, Nat.sub_diag, app_nil_r.
      rewrite take_ge; [done|]. rewrite length_app. lia.
    + rewrite take_app_exact; [done|]. rewrite length_app. lia.
  - rewrite E6. destruct Hfull as [->|Hf]; [done|].
    rewrite (proj2 (Z.ltb_ge _ _)) by lia. symmetry. apply Z.ltb_ge. lia.
Qed.

Lemma read_rest_cut k rest s :
  session_ok s -> ShouldReadMore s = true -> lastReadFrameIndex s + Z.of_nat k < 65536 ->
  ((k - 1) * 59 < length rest <= k * 59)%nat ->
  Z.of_nat (buf_Len (data_ s) + length rest) = amountToRead s ->
  exists s', read_rest s (format_next (channelID s) (lastReadFrameIndex s) (cut 59 k rest)) = Ret (Ok s') /\
    session_ok s' /\ s_data (data_ s') = s_data (data_ s) ++ rest /\
    channelID s' = channelID s /\ ShouldReadMore s' = false.
Proof.
  revert rest s. induction k as [|[|k] IH]; intros rest s Hs Hm Hi Hr Ham; [lia| |].
  - simpl. destruct (ReadData_chunk s rest) as (s' & -> & Hs' & Hd & Hc & _ & _ & Hm'); auto; [lia..|].
    rewrite go_bind_ret. exists s'. split_and!; try done. rewrite Hm'. apply Z.ltb_ge. lia.
  - change (cut 59 (S (S k)) rest) with (take 59 rest :: cut 59 (S k) (drop 59 rest)).
    assert (Ht : length (take 59 rest) = 59%nat) by (rewrite length_take; lia).
    pose proof (length_drop rest 59) as Hdr.
    cbn [format_next read_rest].
    destruct (ReadData_chunk s (take 59 rest)) as (s' & -> & Hs' & Hd & Hc & Hi' & Ha' & Hm');
      auto; [lia..|].
    rewrite go_bind_ret, <- Hc, <- Hi'.
    assert (Hb : buf_Len (data_ s') = (buf_Len (data_ s) + 59)%nat).
    { unfold buf_Len, s_len. by rewrite Hd, length_app, Ht. }
    destruct (IH (drop 59 rest) s') as (s2 & -> & Hs2 & Hd2 & Hc2 & Hm2); auto; try lia.
    { rewrite Hm'. apply Z.ltb_lt. lia. }
    exists s2. split_and!; try done. by rewrite Hd2, Hd, <- app_assoc, take_drop.
Qed.

(** A message of up to 65535 bytes survives segmentation and reassembly, and
    is complete with the last report. *)
Lemma receive_frames_of channel l :
  0 < channel < 65536 -> Z.of_nat (length l) < 65536 ->
  exists s, receive (frames_of channel l) = Ret (Ok s) /\ session_ok s /\
    s_data (data_ s) = l /\ channelID s = channel /\ ShouldReadMore s = false.
Proof.
  intros Hch Hl. unfold frames_of, receive. rewrite u16_small by lia.
  set (h := mkHIDFrame _ _ _ _ _).
  assert (Hwf : wf_Frame (FrameFirst h)).
  { unfold wf_Frame; simpl. rewrite length_copy_into. unfold hidFrameTag. lia. }
  pose proof (decode_encode_HIDFrame h Hwf) as Hdec.
  destruct (NewSession_opens (encode_HIDFrame h)) as (_ & s & -> & Ho & Hs).
  { unfold opens. rewrite Hdec; simpl.
    rewrite bool_decide_true by (apply length_encode_HIDFrame; simpl; apply length_copy_into).
    simpl. apply negb_true_iff, Z.eqb_neq. lia. }
  rewrite Hdec in Ho. destruct Ho as (E1 & E2 & E3 & E4 & _ & E6); simpl in *.
  rewrite Nat2Z.id in E4. case_bool_decide as Hs57.
  - simpl. exists s. rewrite (take_ge l), take_copy_into in E4 by lia. split_and!; try done.
    rewrite E6. apply Z.ltb_ge. lia.
  - rewrite <- E1.
    replace (format_next (channelID s) 0) with (format_next (channelID s) (lastReadFrameIndex s))
      by (by rewrite E2).
    assert (Hd0 : s_data (data_ s) = take 57 l).
    { rewrite E4, copy_into_exact by (rewrite length_take; lia). rewrite take_ge; [done|].
      rewrite length_take. lia. }
    assert (Hb : buf_Len (data_ s) = 57%nat).
    { unfold buf_Len, s_len. rewrite Hd0, length_take. lia. }
    pose proof (length_drop l 57).
    pose proof (ceil_div_bounds 59 ltac:(lia) (length l - 57) ltac:(lia)).
    destruct (read_rest_cut (ceil_div (length l - 57) 59) (drop 57 l) s)
      as (s' & -> & Hs' & Hd & Hc & Hm); auto; try lia.
    { rewrite E6. apply Z.ltb_lt. lia. }
    exists s'. split_and!; try done. by rewrite Hd, Hd0, take_drop.
Qed.

Lemma format_next_64 channel i cs : Forall (fun f => length f = 64%nat) (format_next channel i cs).
Proof.
  revert i. induction cs as [|c cs IH]; intros i; constructor; [|done].
  apply length_encode_HIDFrameNext; simpl. apply length_copy_into.
Qed.

Lemma length_format_next channel i cs : length (format_next channel i cs) = length cs.
Proof. revert i. induction cs as [|c cs IH]; intros i; [done|]. simpl. by rewrite IH. Qed.

Lemma frames_of_64 channel l : Forall (fun f => length f = 64%nat) (frames_of channel l).
Proof.
  unfold frames_of. constructor.
  - apply length_encode_HIDFrame; simpl. apply length_copy_into.
  - case_bool_decide; [constructor|apply format_next_64].
Qed.

#[export] Hint Resolve frames_of_64 : wallera.

(** The first report of a message carries packet index 0. *)
Lemma frames_of_first_index channel l :
  0 < channel < 65536 -> hn_PacketIndexInner (decode_HIDFrameNext (hd [] (frames_of channel l))) = 0.
Proof.
  intros Hc. rewrite shared_index. unfold frames_of. cbn [hd]. rewrite decode_encode_HIDFrame; [done|].
  unfold wf_Frame; simpl. rewrite length_copy_into. pose proof (u16_range (Z.of_nat (length l))).
  unfold hidFrameTag. lia.
Qed.

(** ** Reachable sessions *)

(** Sessions the code can hold: opened from a report, then fed any reports. *)
Inductive session_reach : Session -> Prop :=
| reach_open input s : NewSession input = Ret (Ok s) -> session_reach s
| reach_read s input s' err :
    session_reach s -> ReadData s input = Ret (s', err) -> session_reach s'.

Lemma session_reach_ok s : session_reach s -> session_ok s.
Proof.
  induction 1 as [input s H|s input s' err _ IH H].
  - destruct (opens input) eqn:E.
    + destruct (NewSession_opens input E) as (_ & s0 & H0 & _ & ?). rewrite H in H0. by simplify_eq.
    + destruct (NewSession_refused input E) as [e He]. rewrite H in He. by simplify_eq.
  - destruct (ReadData_ok s input IH) as (s0 & e & H0 & ? & _). rewrite H in H0. by simplify_eq.
Qed.

(** The first report of a message that needs more than one. *)
Lemma first_report_of channel l :
  0 < channel < 65536 -> (57 < length l)%nat -> Z.of_nat (length l) < 65536 ->
  exists s, NewSession (hd [] (frames_of channel l)) = Ret (Ok s) /\ session_reach s /\
    channelID s = channel /\ ShouldReadMore s = true.
Proof.
  intros Hch H57 Hl. unfold frames_of. cbn [hd]. rewrite u16_small by lia.
  set (h := mkHIDFrame _ _ _ _ _).
  assert (Hdec : decode_HIDFrame (encode_HIDFrame h) = h).
  { apply decode_encode_HIDFrame. unfold wf_Frame; simpl. rewrite length_copy_into. unfold hidFrameTag. lia. }
  destruct (NewSession_opens (encode_HIDFrame h)) as (_ & s & E & Ho & _).
  { unfold opens. rewrite Hdec; simpl.
    rewrite bool_decide_true by (apply length_encode_HIDFrame; simpl; apply length_copy_into).
    simpl. apply negb_true_iff, Z.eqb_neq. lia. }
  rewrite Hdec in Ho. destruct Ho as (E1 & _ & _ & _ & _ & E6); simpl in *.
  exists s. split_and!; [done|by eapply reach_open|done|]. rewrite E6. apply Z.ltb_lt. lia.
Qed.

Lemma receive_reach frames s : receive frames = Ret (Ok s) -> session_reach s.
Proof.
  destruct frames as [|f rest]; [done|]; simpl.
  destruct (NewSession f) as [[s0|e]|p] eqn:E0; simpl; [|done..].
  assert (session_reach s0) as Hs0 by (by eapply reach_open). clear E0. revert s0 Hs0.
  induction rest as [|g rest IH]; intros s0 Hs0 H; simpl in H; [by simplify_eq|].
  destruct (ReadData s0 g) as [[s1 [e|]]|p] eqn:E1; simpl in H; [done| |done].
  eapply IH; [|done]. by eapply reach_read.
Qed.

(** Runs of reports that each extend the session. *)
Inductive extends_run : Session -> list (list byte) -> Session -> Prop :=
| run_nil s : extends_run s [] s
| run_cons s input s1 rest s2 :
    accepts s input = true -> hn_PacketIndexInner (decode_HIDFrameNext input) <> 0 ->
    ReadData s input = Ret (s1, None) -> extends_run s1 rest s2 ->
    extends_run s (input :: rest) s2.

(** Bytes still to come. *)
Definition outstanding (s : Session) : nat := Z.to_nat (amountToRead s) - buf_Len (data_ s).

Lemma extends_run_outstanding s inputs s' :
  extends_run s inputs s' -> session_ok s ->
  session_ok s' /\ outstanding s' = (outstanding s - 59 * length inputs)%nat /\
  (inputs <> [] -> 59 * (length inputs - 1) < outstanding s)%nat.
Proof.
  induction 1 as [s|s input s1 rest s2 Ha Hi Hr Hrun IH]; intros Hs; [split_and!; [done|simpl; lia|done]|].
  destruct (ReadData_extends s input Hs Ha Hi) as (s0 & E0 & He). rewrite Hr in E0. simplify_eq.
  destruct (ReadData_accepted s input Hs Ha) as (Hwf & _).
  pose proof (accepts_more _ _ Ha) as Hm.
  pose proof (extended_ok _ _ _ Hs Hm Hwf He) as Hs0.
  destruct (IH Hs0) as (Hs2 & Ho & Hlt). pose proof Hs as [? ? ? ? Hmore ? ?].
  destruct He as (_ & _ & E3 & E4 & _ & E6). destruct Hwf as (_ & _ & _ & _ & Hd); simpl in Hd.
  assert (Hout : outstanding s0 = (outstanding s - 59)%nat).
  { unfold outstanding, buf_Len, s_len in *. rewrite E3, E4, length_take, length_app, Hd. lia. }
  assert (0 < outstanding s)%nat.
  { unfold outstanding. rewrite Hm in Hmore.
    apply eq_sym, negb_true_iff, Z.eqb_neq in Hmore. lia. }
  split_and!; [done|simpl; lia|]. intros _. simpl.
  destruct rest as [|r rest]; [simpl; lia|]. specialize (Hlt ltac:(done)). simpl in *. lia.
Qed.

(** ** Properties *)

(** C8: Transport round trip.  A response of a session on a nonzero channel
    is cut into 64-byte reports; a receiver that starts a new session on the
    first report and reads the others into it ends with exactly the bytes of
    the response and a session that wants no more data if and only if the
    response is shorter than 65536 bytes (the length travels in 16 bits). *)
Theorem usb_roundtrip s d :
  0 < channelID s < 65536 ->
  exists frames, FormatResponse s d = Ret frames /\
    Forall (fun f => length f = 64%nat) frames /\
    ((exists s', receive frames = Ret (Ok s') /\ s_data (session_Data s') = s_data d /\
        channelID s' = channelID s /\ ShouldReadMore s' = false)
     <-> Z.of_nat (s_len d) < 65536).
Proof.
  intros Hc. exists (frames_of (channelID s) (s_data d)).
  split_and!; [apply FormatResponse_frames|auto with wallera|]. split.
  - intros (s' & Hr & Hd & _). apply receive_reach, session_reach_ok in Hr.
    destruct Hr as [? ? ? Hb ? ? ?]. unfold session_Data, buf_Len, s_len in *. rewrite Hd in Hb. lia.
  - intros Hl. destruct (receive_frames_of (channelID s) (s_data d)) as (s' & ? & _ & ?); [done..|].
    exists s'. tauto.
Qed.

Lemma usb_roundtrip_witness :
  exists frames,
    FormatResponse (mkSession 0x0101 0 new_buffer false 0) (full (zeros 355)) = Ret frames /\
    Forall (fun f => length f = 64%nat) frames /\
    ((exists s', receive frames = Ret (Ok s') /\ s_data (session_Data s') = zeros 355 /\
        channelID s' = 0x0101 /\ ShouldReadMore s' = false)
     <-> Z.of_nat 355 < 65536).
Proof. apply (usb_roundtrip (mkSession 0x0101 0 new_buffer false 0) (full (zeros 355))). simpl. lia. Defined.

(** Frame codec.  Reading the 64 bytes of an encoded frame gives the
    frame back, and every 64-byte report is the encoding of the frame it
    decodes to, for both frame types; reports of any other size are errors. *)
Theorem frame_codec f input dest :
  (wf_Frame f -> readFrame (encode_Frame f) (frame_Type f) = Ok f) /\
  (length input = 64%nat ->
     exists g, readFrame input dest = Ok g /\ wf_Frame g /\ frame_Type g = dest /\ encode_Frame g = input) /\
  (length input <> 64%nat -> exists e, readFrame input dest = Err e).
Proof.
  split_and!; [apply readFrame_encode| |apply readFrame_bad_size].
  intros Hl. rewrite readFrame_64 by done. eexists; split; [done|].
  destruct dest; simpl; auto using wf_decode_HIDFrame, wf_decode_HIDFrameNext,
    encode_decode_HIDFrame, encode_decode_HIDFrameNext.
Qed.

Lemma frame_codec_witness :
  readFrame (encode_Frame (FrameFirst (mkHIDFrame 0x0101 5 0 3 (copy_into 57 (bytes_of [1;2;3])))))
    typeFrame = Ok (FrameFirst (mkHIDFrame 0x0101 5 0 3 (copy_into 57 (bytes_of [1;2;3])))).
Proof.
  apply (frame_codec (FrameFirst (mkHIDFrame 0x0101 5 0 3 (copy_into 57 (bytes_of [1;2;3])))) [] typeFrame).
  unfold wf_Frame; simpl. rewrite length_copy_into. lia.
Defined.

(** [chunkFunc] cuts data into consecutive pieces without slicing out of
    range: their concatenation is the data, there are [max 1 (ceil (n/size))]
    of them, all but the last hold [size] bytes, and none of the pieces of
    nonempty data is empty or longer than [size]. *)
Theorem chunkFunc_spec d size :
  (0 < size)%nat ->
  exists cs, chunkFunc d size = Ret cs /\ concat (map s_data cs) = s_data d /\
    length cs = Nat.max 1 (ceil_div (s_len d) size) /\
    (0 < s_len d -> forall i c, cs !! i = Some c ->
       0 < s_len c <= size /\ (S i < length cs -> s_len c = size))%nat.
Proof.
  intros Hs. destruct (chunkFunc_cut size Hs d) as (cs & E & Hcs). exists cs.
  assert (Hlen : length cs = Nat.max 1 (ceil_div (s_len d) size)).
  { rewrite <- (length_map s_data cs), Hcs. by apply length_cut. }
  split_and!; [done| |done|].
  - rewrite Hcs. apply concat_cut; lia.
  - intros Hd i c Hc.
    pose proof (ceil_div_bounds size Hs (s_len d) Hd). pose proof (ceil_div_pos size Hs (s_len d) Hd).
    assert (Hl : map s_data cs !! i = Some (s_data c)).
    { change (map s_data cs) with (s_data <$> cs). by rewrite list_lookup_fmap, Hc. }
    rewrite Nat.max_r in Hcs, Hlen by lia.
    rewrite Hcs in Hl. apply cut_lengths in Hl; [|unfold s_len in *; lia..].
    unfold s_len in *. rewrite Hlen. exact Hl.
Qed.

Lemma chunkFunc_spec_witness :
  exists cs, chunkFunc (full (zeros 120)) 59 = Ret cs /\ concat (map s_data cs) = zeros 120 /\
    length cs = Nat.max 1 (ceil_div (s_len (full (zeros 120))) 59) /\
    (0 < s_len (full (zeros 120)) -> forall i c, cs !! i = Some c ->
       0 < s_len c <= 59 /\ (S i < length cs -> s_len c = 59))%nat.
Proof. apply (chunkFunc_spec (full (zeros 120)) 59). lia. Defined.

(** C12: Session invariant.  In every session the code can hold, the buffer
    never exceeds the announced length, [ShouldReadMore] says exactly whether
    bytes are missing, and reading any further report, however malformed,
    neither panics nor changes the channel; if it is refused with an error the
    session is unchanged. *)
Theorem session_invariant s input :
  session_reach s ->
  session_ok s /\
  exists s' err, ReadData s input = Ret (s', err) /\ session_reach s' /\
    channelID s' = channelID s /\ (err <> None -> s' = s).
Proof.
  intros Hr. pose proof (session_reach_ok s Hr) as Hs. split; [done|].
  destruct (ReadData_ok s input Hs) as (s' & err & E & _ & Hc & Hsame).
  exists s', err. split_and!; try done. by eapply reach_read.
Qed.

Lemma session_invariant_witness :
  exists s, session_reach s /\ session_ok s /\
    exists s' err, ReadData s [] = Ret (s', err) /\ session_reach s' /\
      channelID s' = channelID s /\ (err <> None -> s' = s).
Proof.
  destruct (NewSession_opens (encode_HIDFrame (mkHIDFrame 1 5 0 100 (zeros 57)))) as (_ & s & Hs & _).
  { vm_compute. reflexivity. }
  exists s. assert (Hr : session_reach s) by (eapply reach_open; exact Hs).
  split; [exact Hr|]. exact (session_invariant s [] Hr).
Defined.

(** C13: Follow-up reports.  A session takes a report exactly when it is 64
    bytes long, carries the tag and the channel of the session, is next in
    sequence, and data is still missing; unless its index has wrapped around to
    0, it then appends the 59 data bytes and cuts the buffer at the announced
    length.  Every other report is an error. *)
Theorem ReadData_followup s input :
  session_reach s ->
  (accepts s input = true -> hn_PacketIndexInner (decode_HIDFrameNext input) <> 0 ->
     exists s', ReadData s input = Ret (s', None) /\ extended s (decode_HIDFrameNext input) s') /\
  (accepts s input = false -> exists e, ReadData s input = Ret (s, Some e)).
Proof.
  intros Hs%session_reach_ok. split.
  - intros. by apply ReadData_extends.
  - by apply ReadData_refused.
Qed.

Lemma ReadData_followup_witness :
  exists s, session_reach s /\
  (accepts s (encode_HIDFrameNext (mkHIDFrameNext 1 5 1 (zeros 59))) = true ->
   hn_PacketIndexInner (decode_HIDFrameNext (encode_HIDFrameNext (mkHIDFrameNext 1 5 1 (zeros 59)))) <> 0 ->
     exists s', ReadData s (encode_HIDFrameNext (mkHIDFrameNext 1 5 1 (zeros 59))) = Ret (s', None) /\
       extended s (decode_HIDFrameNext (encode_HIDFrameNext (mkHIDFrameNext 1 5 1 (zeros 59)))) s').
Proof.
  destruct (NewSession_opens (encode_HIDFrame (mkHIDFrame 1 5 0 100 (zeros 57)))) as (_ & s & Hs & _).
  { vm_compute. reflexivity. }
  exists s. assert (Hr : session_reach s) by (eapply reach_open; exact Hs).
  split; [exact Hr|].
  exact (proj1 (ReadData_followup s (encode_HIDFrameNext (mkHIDFrameNext 1 5 1 (zeros 59))) Hr)).
Defined.

(** C25: Termination.  A session that lacks [n] bytes is complete after
    exactly [ceil (n/59)] follow-up reports that extend it, so after at most
    1111 of them, and takes none after that. *)
Theorem session_completes s inputs s' :
  session_reach s -> extends_run s inputs s' ->
  (length inputs <= ceil_div (outstanding s) 59 <= 1111)%nat /\
  (ShouldReadMore s' = false <-> length inputs = ceil_div (outstanding s) 59).
Proof.
  intros Hs%session_reach_ok Hrun.
  destruct (extends_run_outstanding s inputs s' Hrun Hs) as (Hs' & Ho & Hlt).
  pose proof Hs as [? ? ? ? ? ? ?]. pose proof Hs' as [? ? ? ? Hm' ? ?].
  assert (Hbound : Z.of_nat (outstanding s) < 65536) by (unfold outstanding; lia).
  assert (Hmore : ShouldReadMore s' = false <-> outstanding s' = 0%nat).
  { rewrite Hm'. unfold outstanding. rewrite negb_false_iff, Z.eqb_eq. lia. }
  rewrite Hmore, Ho. destruct (decide (outstanding s = 0%nat)) as [E|E].
  - rewrite E. destruct inputs; [|specialize (Hlt ltac:(done)); lia]. 
    replace (ceil_div 0 59) with 0%nat by (vm_compute; done). simpl. lia.
  - pose proof (ceil_div_bounds 59 ltac:(lia) (outstanding s) ltac:(lia)).
    destruct inputs as [|i inputs]; [simpl; lia|]. specialize (Hlt ltac:(done)). simpl in *. lia.
Qed.

(** A message of 100 bytes after its first report, and its second report. *)
Definition half_session : Session := mkSession 1 0 (Slice (zeros 57) (zeros 7)) true 100.
Definition second_report : list byte := encode_HIDFrameNext (mkHIDFrameNext 1 5 1 (zeros 59)).
Definition whole_session : Session :=
  match ReadData half_session second_report with Ret (s, _) => s | Panic _ => half_session end.

Lemma session_completes_witness :
  (length [second_report] <= ceil_div (outstanding half_session) 59 <= 1111)%nat /\
  (ShouldReadMore whole_session = false <-> length [second_report] = ceil_div (outstanding half_session) 59).
Proof.
  apply (session_completes half_session [second_report] whole_session).
  - apply (reach_open (encode_HIDFrame (mkHIDFrame 1 5 0 100 (zeros 57)))). vm_compute. reflexivity.
  - apply run_cons with (s1 := whole_session).
    + vm_compute. reflexivity.
    + vm_compute. congruence.
    + vm_compute. reflexivity.
    + apply run_nil.
Defined.

(** C39: The error of [readFrame] is lost.  The first report may carry any
    packet index; if it is 65535 and data is missing, a follow-up report with
    index 0 passes the sequence check, is dropped by [readFrame] with an error
    that [ReadFrame] discards, and the caller is told that it was read. *)
Theorem wrapped_index_dropped s input :
  session_reach s -> accepts s input = true ->
  hn_PacketIndexInner (decode_HIDFrameNext input) = 0 ->
  lastReadFrameIndex s = 65535 /\ ReadData s input = Ret (s, None).
Proof. intros Hs%session_reach_ok. by apply ReadData_wrapped_index. Qed.

Lemma wrapped_index_dropped_witness :
  exists s, session_reach s /\ ShouldReadMore s = true /\
    lastReadFrameIndex s = 65535 /\
    ReadData s (encode_HIDFrameNext (mkHIDFrameNext 1 5 0 (zeros 59))) = Ret (s, None).
Proof.
  pose (f := encode_HIDFrame (mkHIDFrame 1 5 65535 100 (zeros 57))).
  pose (g := encode_HIDFrameNext (mkHIDFrameNext 1 5 0 (zeros 59))).
  destruct (NewSession_opens f) as (_ & s & Hs & Ho & _); [vm_compute; reflexivity|].
  exists s. assert (Hr : session_reach s) by (eapply reach_open; exact Hs).
  assert (Hd : decode_HIDFrame f = mkHIDFrame 1 5 65535 100 (zeros 57)) by (vm_compute; reflexivity).
  assert (Hg : decode_HIDFrameNext g = mkHIDFrameNext 1 5 0 (zeros 59)) by (vm_compute; reflexivity).
  rewrite Hd in Ho. destruct Ho as (E1 & E2 & E3 & _ & _ & E6); simpl in *.
  split; [exact Hr|]. split; [exact E6|].
  apply (wrapped_index_dropped s g Hr).
  - unfold accepts. rewrite Hg, E1, E2, E6. vm_compute. reflexivity.
  - rewrite Hg. reflexivity.
Defined.
