(* ===== verification/Sha256.v ===== *)
(** * SHA-256 and HMAC-SHA-256

    The functions [crypto/sha256.Sum256] and [crypto/hmac] compute for the
    firmware, from FIPS 180-4 and RFC 2104, on [Z] words of 32 bits. *)

From S2P Require Import Prelude.

Module Sha256.

Definition mask32 : Z := 0xffffffff.

Definition add32 (a b : Z) : Z := Z.land (a + b) mask32.

Definition rotr (x n : Z) : Z :=
  Z.lor (Z.shiftr x n) (Z.land (Z.shiftl x (32 - n)) mask32).

(** The constants are the first 32 fractional bits of the cube roots of the
    first 64 primes and of the square roots of the first 8. *)

Definition is_prime (n : Z) : bool :=
  forallb (fun d => negb (n mod d =? 0)) (map Z.of_nat (seq 2 (Z.to_nat (Z.sqrt n) - 1))).

Definition primes : list Z := List.filter is_prime (map Z.of_nat (seq 2 310)).

(** The integer cube root below [2 ^ bits], bit by bit. *)
Fixpoint cube_root (bits : nat) (n acc : Z) : Z :=
  match bits with
  | O => acc
  | S b =>
      let r := acc + 2 ^ Z.of_nat b in
      cube_root b n (if r * r * r <=? n then r else acc)
  end.

Definition K : list Z :=
  Eval vm_compute in map (fun p => cube_root 36 (p * 2 ^ 96) 0 mod 2 ^ 32) (take 64 primes).

Definition H0 : list Z :=
  Eval vm_compute in map (fun p => Z.sqrt (p * 2 ^ 64) mod 2 ^ 32) (take 8 primes).

Definition ssig0 x := Z.lxor (rotr x 7) (Z.lxor (rotr x 18) (Z.shiftr x 3)).
Definition ssig1 x := Z.lxor (rotr x 17) (Z.lxor (rotr x 19) (Z.shiftr x 10)).
Definition bsig0 x := Z.lxor (rotr x 2) (Z.lxor (rotr x 13) (rotr x 22)).
Definition bsig1 x := Z.lxor (rotr x 6) (Z.lxor (rotr x 11) (rotr x 25)).
Definition ch x y z := Z.lxor (Z.land x y) (Z.land (Z.lxor x mask32) z).
Definition maj x y z := Z.lxor (Z.land x y) (Z.lxor (Z.land x z) (Z.land y z)).

(** The message schedule, newest word first. *)
Fixpoint expand (n : nat) (w : list Z) : list Z :=
  match n with
  | O => w
  | S n' =>
      expand n'
        (add32 (add32 (ssig1 (nth 1 w 0)) (nth 6 w 0))
               (add32 (ssig0 (nth 14 w 0)) (nth 15 w 0)) :: w)
  end.

Definition round (st : list Z) (kw : Z * Z) : list Z :=
  match st with
  | [a; b; c; d; e; f; g; h] =>
      let t1 := add32 (add32 h (bsig1 e)) (add32 (ch e f g) (add32 kw.1 kw.2)) in
      let t2 := add32 (bsig0 a) (maj a b c) in
      [add32 t1 t2; a; b; c; add32 d t1; e; f; g]
  | _ => st
  end.

(** The sixteen big-endian words of a 64-byte block. *)
Fixpoint words (n : nat) (l : list byte) : list Z :=
  match n with
  | O => []
  | S n' => be_combine (take 4 l) :: words n' (drop 4 l)
  end.

Definition compress (st : list Z) (block : list byte) : list Z :=
  let w := rev (expand 48 (rev (words 16 block))) in
  zip_with add32 st (fold_left round (combine K w) st).

Fixpoint blocks (n : nat) (st : list Z) (l : list byte) : list Z :=
  match n with
  | O => st
  | S n' => blocks n' (compress st (take 64 l)) (drop 64 l)
  end.

(** Padding: 0x80, zeros up to 56 modulo 64, the bit length in 8 bytes. *)
Definition pad (l : list byte) : list byte :=
  let n := length l in
  let z := ((119 - n mod 64) mod 64)%nat in
  l ++ bytes_of [0x80] ++ zeros z ++ be_split 8 (8 * Z.of_nat n).

(** [sha256.Sum256] *)
Definition Sum256 (l : list byte) : list byte :=
  let m := pad l in
  flat_map (be_split 4) (blocks (length m / 64) H0 m).

Definition xor_pad (c : Z) (key : list byte) : list byte :=
  map (fun b => byte.of_Z (Z.lxor (byte.unsigned b) c)) key.

(** [hmac.New(sha256.New, key)], one [Write] and [Sum(nil)]. *)
Definition hmac_sha256 (key msg : list byte) : list byte :=
  let k := if bool_decide (64 < length key)%nat then Sum256 key else key in
  let k := copy_into 64 k in
  Sum256 (xor_pad 0x5c k ++ Sum256 (xor_pad 0x36 k ++ msg)).

(** ** Digests have 32 bytes *)

Lemma round_length st kw : length st = 8%nat -> length (round st kw) = 8%nat.
Proof. intros. by destruct st as [|? [|? [|? [|? [|? [|? [|? [|? [|]]]]]]]]]. Qed.

Lemma fold_round_length l st : length st = 8%nat -> length (fold_left round l st) = 8%nat.
Proof. revert st. induction l; intros st H; [done|]. simpl. auto using round_length. Qed.

Lemma compress_length st b : length st = 8%nat -> length (compress st b) = 8%nat.
Proof.
  intros H. unfold compress. rewrite length_zip_with, (fold_round_length _ _ H), H. done.
Qed.

Lemma blocks_length n st l : length st = 8%nat -> length (blocks n st l) = 8%nat.
Proof. revert st l. induction n; intros st l H; [done|]. simpl. auto using compress_length. Qed.

Lemma Sum256_length l : length (Sum256 l) = 32%nat.
Proof.
  unfold Sum256. pose proof (blocks_length (length (pad l) / 64) H0 (pad l) eq_refl) as H.
  by destruct (blocks _ _ _) as [|? [|? [|? [|? [|? [|? [|? [|? [|]]]]]]]]].
Qed.

Lemma hmac_sha256_length key msg : length (hmac_sha256 key msg) = 32%nat.
Proof. apply Sum256_length. Qed.

(** The FIPS 180-4 example and a two-block message. *)

Definition hex_digest (l : list byte) : Z := be_combine l.

Example sha256_abc : hex_digest (Sum256 (bytes_of [97; 98; 99])) = 0xba7816bf8f01cfea414140de5dae2223b00361a396177a9cb410ff61f20015ad.
Proof. vm_compute. reflexivity. Qed.

Example sha256_two_blocks : hex_digest (Sum256 (replicate 120 (byte.of_Z 97))) = 0x2f3d335432c70b580af0e8e1b3674a7c020d683aa5f73aaaedfdc55af904c21c.
Proof. vm_compute. reflexivity. Qed.

End Sha256.

#[global] Opaque Sha256.Sum256 Sha256.hmac_sha256.
#[export] Hint Resolve Sha256.Sum256_length Sha256.hmac_sha256_length : wallera.
