(* ===== verification/Crypto.v ===== *)
(** * Keys and tokens: [src/crypto]

    Derivation paths, the derivation of a child key, the [Token] interface
    and [dumbToken].  The key chain ([hdkeychain], [btcec], [go-bip39]) and the
    system's random source are parameters; HMAC-SHA-256 is computed. *)

From stdpp Require Import pretty.
From S2P Require Import Prelude GoRuntime Sha256.

(** ** Algorithms *)

(** [type Algorithm uint] *)
Definition Algorithm := Z.
Definition AlgoSecp256K1 : Algorithm := 0.

(** [strconv.FormatInt(int64(i), 10)] for an [i] that fits in 63 bits. *)
Definition FormatInt (z : Z) : string := pretty z.

(** A Go substring [s[lo:hi]] with in-range constant bounds. *)
Definition str_slice (s : string) (lo hi : nat) : string := String.substring lo (hi - lo) s.

Definition _Algorithm_name : string := "AlgoSecp256K1".
Definition _Algorithm_index : list nat := [0; 13]%nat.

(** [(i Algorithm) String()], generated by stringer. *)
Definition Algorithm_String (i : Algorithm) : string :=
  if Z.of_nat (length _Algorithm_index) - 1 <=? i
  then "Algorithm(" +:+ FormatInt i +:+ ")"
  else str_slice _Algorithm_name (nth (Z.to_nat i) _Algorithm_index 0%nat)
         (nth (Z.to_nat i + 1) _Algorithm_index 0%nat).

(** ** Derivation paths *)

Record DerivationPath := mkPath {
  Purpose : Z;
  CoinType : Z;
  Account : Z;
  Change : Z;
  AddressIndex : Z
}.

#[export] Instance DerivationPath_eq_dec : EqDecision DerivationPath.
Proof. solve_decision. Defined.

Definition zero_path : DerivationPath := mkPath 0 0 0 0 0.

Definition NewDerivationPathFromBytes
    (purpose coinType account change addressIndex : slice) : go DerivationPath :=
  p ← le_Uint32 purpose;
  c ← le_Uint32 coinType;
  a ← le_Uint32 account;
  ch ← le_Uint32 change;
  ai ← le_Uint32 addressIndex;
  Ret (mkPath (Z.lxor 0x80000000 p) (Z.lxor 0x80000000 c) (Z.lxor 0x80000000 a) ch ai).

(** [(d DerivationPath) String()] *)
Definition path_String (d : DerivationPath) : string :=
  "m/" +:+ pretty (Purpose d) +:+ "'/" +:+ pretty (CoinType d) +:+ "'/" +:+
  pretty (Account d) +:+ "'/" +:+ pretty (Change d) +:+ "/" +:+ pretty (AddressIndex d).

Definition InOrder (d : DerivationPath) : list Z :=
  [Purpose d; CoinType d; Account d; Change d; AddressIndex d].

(** ** The third-party key chain *)

Class HDKeychain := {
  ExtendedKey : Type;
  PrivateKey : Type;
  PublicKeyPoint : Type;
  Signature : Type;
  HardenedKeyStart : Z;
  (** [hdkeychain.NewMaster(seed, params)], of whose parameters the code only
      sets [HDCoinType]. *)
  NewMaster : list byte -> Z -> result ExtendedKey;
  Child : ExtendedKey -> Z -> result ExtendedKey;
  ECPrivKey : ExtendedKey -> result PrivateKey;
  ec_Sign : PrivateKey -> list byte -> result Signature;
  Serialize : Signature -> list byte;
  Neuter : ExtendedKey -> result ExtendedKey;
  ECPubKey : ExtendedKey -> result PublicKeyPoint;
  SerializeCompressed : PublicKeyPoint -> list byte;
  NewMnemonic : list byte -> result string
}.

(** BIP-32: hardened children start at 2^31. *)
Class HDKeychainLaws (HD : HDKeychain) : Prop := {
  hardened_start : HardenedKeyStart = 2 ^ 31
}.

(** ** The random source of the system ([crypto/rand.Read]) *)

Class Entropy (W : Type) := {
  rand_Read : nat -> W -> W * result (list byte)
}.

(** [rand.Read] fills the whole buffer when it does not fail. *)
Class EntropyLaws (W : Type) (E : Entropy W) : Prop := {
  rand_Read_length n w w' l : rand_Read n w = (w', Ok l) -> length l = n
}.

(** ** The [Token] interface

    [W] is the part of the world the implementation talks to, [T] the struct
    behind the interface value; a method with a pointer receiver returns the
    struct it leaves. *)

Class Token (W T : Type) := {
  RandomBytes : T -> Z -> W -> go (W * result (list byte));
  DeriveSecret : T -> W -> go (W * result (list byte));
  Initialize : T -> DerivationPath -> W -> go (W * T * option error);
  Sign : T -> list byte -> Algorithm -> W -> go (W * result (list byte));
  PublicKey : T -> W -> go (W * result (list byte));
  Mnemonic : T -> W -> go (W * result (list string));
  Clone : T -> T;
  SupportedSignAlgorithms : T -> list Algorithm
}.

Definition diversifier : list byte := bytes_of
  [116; 101; 110; 103; 32; 101; 32; 115; 111; 114; 100; 10; 116; 101; 110; 103;
   32; 101; 32; 115; 111; 114; 100; 10; 116; 101; 110; 103; 32; 101; 32; 115;
   111; 114; 100; 32; 111; 32; 118; 101; 114; 10; 102; 97; 99; 105; 116; 109;
   32; 115; 116; 97; 32; 113; 117; 105; 101; 116; 10; 109; 32; 109; 97; 103;
   110; 32; 109; 105; 108; 108; 39; 101; 117; 114; 32; 111; 32; 106; 117; 111;
   114; 110].

Definition Diversifier : list byte := diversifier.

Section keys.
Context {HD : HDKeychain}.

(** The loop of [KeyFromPath] at index [idx]: [k] is [child], or the private
    key in the first iteration. *)
Fixpoint key_loop (components : list Z) (idx : nat) (rest : list Z) (k : ExtendedKey)
    : result ExtendedKey :=
  match rest with
  | [] => Ok k
  | component :: rest' =>
      let mustHarden := bool_decide (idx <= 2)%nat in
      let component := if mustHarden then u32 (component + HardenedKeyStart) else component in
      match Child k component with
      | Err _ => Err (Errorf "cannot generate child key for path %v" (take idx components))
      | Ok child => key_loop components (idx + 1) rest' child
      end
  end.

Definition KeyFromPath (privateKey : ExtendedKey) (path : DerivationPath) : result ExtendedKey :=
  key_loop (InOrder path) 0 (InOrder path) privateKey.

End keys.

(** ** [dumbToken] *)

Module dumbToken.

Definition defaultEntropy : list byte := bytes_of
  [118; 252; 209; 103; 94; 240; 60; 245; 18; 224; 156; 240; 11; 232; 52; 25;
   31; 134; 125; 135; 192; 2; 31; 206; 216; 100; 159; 234; 150; 9; 236; 57].

Section dumbToken.
Context {HD : HDKeychain} {W : Type} {E : Entropy W}.
(** The largest allocation of the platform ([make] panics beyond it). *)
Context (maxAlloc : Z).

Record t := mkToken { privKey : option ExtendedKey }.

Definition NewDumbToken : t := mkToken None.

Definition RandomBytes (_ : t) (amount : Z) (w : W) : go (W * result (list byte)) :=
  if amount =? 0 then Ret (w, Err (Errorf "requested bytes amount is zero" []))
  else
    b ← make_bytes maxAlloc amount;
    Ret (rand_Read (length b) w).

(** The error and nil checks on the hash cannot fire: [hash.Hash.Write] never
    fails and [Sum(nil)] is the 32-byte digest. *)
Definition secret : list byte :=
  copy_into 32 (Sha256.hmac_sha256 Diversifier defaultEntropy).

Definition DeriveSecret (_ : t) (w : W) : go (W * result (list byte)) :=
  Ret (w, Ok secret).

Definition Initialize (dt : t) (path : DerivationPath) (w : W) : go (W * t * option error) :=
  '(w, r) ← DeriveSecret dt w;
  match r with
  | Err e => Ret (w, dt, Some e)
  | Ok secret =>
      match NewMaster secret (CoinType path) with
      | Err e => Ret (w, dt, Some e)
      | Ok sb =>
          match KeyFromPath sb path with
          | Err e => Ret (w, mkToken None, Some e)
          | Ok k => Ret (w, mkToken (Some k), None)
          end
      end
  end.

(** A method call on the nil key dereferences it. *)
Definition key_of (dt : t) : go ExtendedKey :=
  match privKey dt with
  | Some k => Ret k
  | None => Panic NilDereference
  end.

Definition Sign (dt : t) (data : list byte) (_ : Algorithm) (w : W)
    : go (W * result (list byte)) :=
  k ← key_of dt;
  match ECPrivKey k with
  | Err e => Ret (w, Err e)
  | Ok pk =>
      match ec_Sign pk data with
      | Err e => Ret (w, Err e)
      | Ok signature => Ret (w, Ok (Serialize signature))
      end
  end.

Definition PublicKey (dt : t) (w : W) : go (W * result (list byte)) :=
  k ← key_of dt;
  match Neuter k with
  | Err e => Ret (w, Err e)
  | Ok epubk =>
      match ECPubKey epubk with
      | Err e => Ret (w, Err e)
      | Ok pp => Ret (w, Ok (SerializeCompressed pp))
      end
  end.

(** [strings.Split(s, " ")] *)
Fixpoint split_spaces (s cur : string) : list string :=
  match s with
  | EmptyString => [cur]
  | String a s' =>
      if bool_decide (a = Ascii.ascii_of_nat 32) then cur :: split_spaces s' EmptyString
      else split_spaces s' (cur +:+ String a EmptyString)
  end.

Definition Mnemonic (dt : t) (w : W) : go (W * result (list string)) :=
  '(w, r) ← DeriveSecret dt w;
  match r with
  | Err e => Ret (w, Err e)
  | Ok secret =>
      match NewMnemonic secret with
      | Err e => Ret (w, Err e)
      | Ok mnemonic => Ret (w, Ok (split_spaces mnemonic EmptyString))
      end
  end.

Definition SupportedSignAlgorithms (_ : t) : list Algorithm := [AlgoSecp256K1].

Definition Clone (dt : t) : t := mkToken (privKey dt).

#[export] Instance token : Token W t := {
  RandomBytes := RandomBytes;
  DeriveSecret := DeriveSecret;
  Initialize := Initialize;
  Sign := Sign;
  PublicKey := PublicKey;
  Mnemonic := Mnemonic;
  Clone := Clone;
  SupportedSignAlgorithms := SupportedSignAlgorithms
}.

End dumbToken.
End dumbToken.

(** ** Reference definitions *)

(** Child derivation along raw BIP-32 indexes. *)
Fixpoint derive {HD : HDKeychain} (k : ExtendedKey) (indexes : list Z) : option ExtendedKey :=
  match indexes with
  | [] => Some k
  | i :: rest =>
      match Child k i with
      | Ok k' => derive k' rest
      | Err _ => None
      end
  end.

Definition result_option {A} (r : result A) : option A :=
  match r with Ok a => Some a | Err _ => None end.

(** The key a freshly cloned and initialised token uses for a path. *)
Definition key_at {HD : HDKeychain} (path : DerivationPath) : option ExtendedKey :=
  match result_option (NewMaster dumbToken.secret (CoinType path)) with
  | Some master => result_option (KeyFromPath master path)
  | None => None
  end.

(** The five little-endian words of a 20-byte path on the wire. *)
Definition wire_words (l : list byte) : list Z :=
  [le_combine (take 4 l); le_combine (take 4 (drop 4 l)); le_combine (take 4 (drop 8 l));
   le_combine (take 4 (drop 12 l)); le_combine (take 4 (drop 16 l))].

(** Reading a path the way both users of [NewDerivationPathFromBytes] slice
    their input. *)
Definition path_of_slice (base : slice) : go DerivationPath :=
  a ← s_slice base 0 4; b ← s_slice base 4 8; c ← s_slice base 8 12;
  d ← s_slice base 12 16; e ← s_slice base 16 20;
  NewDerivationPathFromBytes a b c d e.

(** The decoded path: the three first components have bit 31 flipped. *)
Definition path_of_wire (l : list byte) : DerivationPath :=
  mkPath (Z.lxor (2 ^ 31) (le_combine (take 4 l)))
    (Z.lxor (2 ^ 31) (le_combine (take 4 (drop 4 l))))
    (Z.lxor (2 ^ 31) (le_combine (take 4 (drop 8 l))))
    (le_combine (take 4 (drop 12 l))) (le_combine (take 4 (drop 16 l))).

(** ** Lemmas *)

Lemma land_pow31_small r : 0 <= r < 2 ^ 31 -> Z.land (2 ^ 31) r = 0.
Proof.
  intros Hr. apply Z.bits_inj'. intros n Hn. rewrite Z.land_spec, Z.bits_0, Z.pow2_bits_eqb by lia.
  destruct (Z.eqb_spec 31 n) as [<-|]; [|done].
  rewrite andb_true_l, Z.testbit_eqb, Z.div_small by lia. done.
Qed.

(** Flipping bit 31 and then hardening gives the word back. *)
Lemma flip_harden p : 0 <= p < 2 ^ 32 -> u32 (Z.lxor (2 ^ 31) p + 2 ^ 31) = p.
Proof.
  intros Hp. unfold u32. destruct (Z.lt_ge_cases p (2 ^ 31)) as [H|H].
  - rewrite <- Z.add_nocarry_lxor by (apply land_pow31_small; lia).
    replace (2 ^ 31 + p + 2 ^ 31) with (p + 1 * 2 ^ 32) by lia.
    rewrite Z.mod_add by lia. apply Z.mod_small. lia.
  - replace p with (2 ^ 31 + (p - 2 ^ 31)) at 1 by lia.
    rewrite (Z.add_nocarry_lxor (2 ^ 31) (p - 2 ^ 31)) by (apply land_pow31_small; lia).
    rewrite <- Z.lxor_assoc, Z.lxor_nilpotent, Z.lxor_0_l. rewrite Z.mod_small by lia. lia.
Qed.

Section key_lemmas.
Context {HD : HDKeychain}.

Definition harden (idx : nat) (c : Z) : Z :=
  if bool_decide (idx <= 2)%nat then u32 (c + HardenedKeyStart) else c.

Lemma key_loop_derive comps rest idx k :
  result_option (key_loop comps idx rest k) = derive k (imap (fun i c => harden (idx + i) c) rest).
Proof.
  revert idx k. induction rest as [|c rest IH]; intros idx k; [done|]. simpl.
  rewrite Nat.add_0_r. fold (harden idx c). destruct (Child k (harden idx c)) as [k'|e]; [|done].
  rewrite IH. f_equal. apply imap_ext. intros i x _. simpl. f_equal. lia.
Qed.

Lemma KeyFromPath_derive k path :
  result_option (KeyFromPath k path) =
  derive k [u32 (Purpose path + HardenedKeyStart); u32 (CoinType path + HardenedKeyStart);
            u32 (Account path + HardenedKeyStart); Change path; AddressIndex path].
Proof. unfold KeyFromPath. rewrite key_loop_derive. done. Qed.

Lemma key_loop_error comps rest idx k e :
  comps = take idx comps ++ rest ->
  key_loop comps idx rest k = Err e ->
  exists j, (idx <= j < length comps)%nat /\
    e = Errorf "cannot generate child key for path %v" (take j comps).
Proof.
  revert idx k. induction rest as [|c rest IH]; intros idx k Hc He; [done|].
  assert (Hidx : (idx < length comps)%nat).
  { apply (f_equal length) in Hc. rewrite length_app, length_take in Hc. simpl in Hc. lia. }
  simpl in He. destruct (Child _ _) as [k'|]; [|simplify_eq; exists idx; split; [lia|done]].
  destruct (IH (idx + 1)%nat k') as (j & Hj & ->); [|done|exists j; split; [lia|done]].
  rewrite Hc at 1. rewrite Hc at 2.
  assert (length (take idx comps) = idx) as Hl by (rewrite length_take; lia).
  rewrite take_app_ge by lia. rewrite Hl.
  replace (idx + 1 - idx)%nat with 1%nat by lia. simpl. rewrite take_0. by rewrite <- app_assoc.
Qed.

End key_lemmas.

Lemma path_of_slice_ok base :
  (20 <= s_cap base)%nat -> path_of_slice base = Ret (path_of_wire (s_array base)).
Proof.
  intros H. unfold path_of_slice. rewrite !s_slice_ok by lia. rewrite !go_bind_ret.
  unfold s_cap in H. generalize dependent (s_array base). intros l H.
  unfold NewDerivationPathFromBytes. rewrite !le_Uint32_ok; [|unfold s_len; cbn [s_data]; len_simpl; lia..].
  rewrite !go_bind_ret. cbn [s_data]. rewrite drop_0, !take_take. done.
Qed.

Lemma path_of_slice_panic base :
  (s_cap base < 20)%nat -> panics (path_of_slice base) = true.
Proof.
  intros H. unfold path_of_slice. rewrite (s_slice_panic base 16 20) by lia.
  by destruct (s_slice base 0 4), (s_slice base 4 8), (s_slice base 8 12), (s_slice base 12 16).
Qed.

#[global] Opaque path_of_slice.

(** A concrete key chain for the witnesses: a key is its path of indexes, a
    signature is the key and the message, and index 2^32 - 1 has no child. *)
Definition path_keychain : HDKeychain := {|
  ExtendedKey := list Z;
  PrivateKey := list Z;
  PublicKeyPoint := list Z;
  Signature := list Z * list byte;
  HardenedKeyStart := 2 ^ 31;
  NewMaster := fun _ _ => Ok [];
  Child := fun k i => if i =? 2 ^ 32 - 1 then Err (External "hdkeychain") else Ok (k ++ [i]);
  ECPrivKey := fun k => Ok k;
  ec_Sign := fun k m => Ok (k, m);
  Serialize := fun s => flat_map (be_split 4) s.1 ++ s.2;
  Neuter := fun k => Ok k;
  ECPubKey := fun k => Ok k;
  SerializeCompressed := fun k => flat_map (be_split 4) k;
  NewMnemonic := fun _ => Ok "awkward funny novel"
|}.

Lemma path_keychain_laws : HDKeychainLaws path_keychain.
Proof. constructor. reflexivity. Qed.

(** A random source that yields zeros, [w] counting the calls. *)
Definition zero_entropy : Entropy nat := {| rand_Read := fun n w => (S w, Ok (zeros n)) |}.

Lemma zero_entropy_laws : EntropyLaws nat zero_entropy.
Proof. constructor. intros n w w' l [= <- <-]. apply length_zeros. Qed.

(** ** Properties *)

(** C24: Paths from the wire.  Decoding the 20 bytes of a derivation path and
    deriving the key along it uses exactly the five little-endian words sent
    by the host as child indexes: flipping bit 31 in the decoder and adding
    2^31 in [KeyFromPath] cancel modulo 2^32, so a component is hardened if
    and only if the host sent it hardened. *)
Theorem wire_path_indexes {HD : HDKeychain} {L : HDKeychainLaws HD} base k :
  (20 <= s_cap base)%nat ->
  exists path, path_of_slice base = Ret path /\
    result_option (KeyFromPath k path) = derive k (wire_words (s_array base)).
Proof.
  intros H. eexists. split; [by apply path_of_slice_ok|].
  rewrite KeyFromPath_derive, hardened_start. unfold path_of_wire, wire_words. simpl.
  unfold s_cap in H. generalize dependent (s_array base). intros l H.
  rewrite !flip_harden; [done|apply le_combine_u32_range; len_simpl; lia..].
Qed.

Lemma wire_path_indexes_witness :
  exists path, path_of_slice (full (flat_map (le_split 4) [2^31 + 44; 2^31 + 118; 2^31; 0; 7])) = Ret path /\
    result_option (KeyFromPath (HD := path_keychain) [] path)
    = Some [2^31 + 44; 2^31 + 118; 2^31; 0; 7].
Proof.
  destruct (wire_path_indexes (HD := path_keychain) (L := path_keychain_laws)
    (full (flat_map (le_split 4) [2^31 + 44; 2^31 + 118; 2^31; 0; 7])) []) as (p & Hp & Hk).
  { vm_compute. lia. }
  exists p. split; [exact Hp|]. rewrite Hk. vm_compute. reflexivity.
Defined.

(** [KeyFromPath] derives the purpose, coin type and account children
    hardened, the change and address-index children as given, for components
    below 2^31; when a child cannot be derived the error names the components
    before it. *)
Theorem KeyFromPath_hardens {HD : HDKeychain} {L : HDKeychainLaws HD} k path :
  Forall (fun c => 0 <= c < 2 ^ 31) (InOrder path) ->
  result_option (KeyFromPath k path) =
    derive k [Purpose path + 2 ^ 31; CoinType path + 2 ^ 31; Account path + 2 ^ 31;
              Change path; AddressIndex path] /\
  (forall e, KeyFromPath k path = Err e -> exists j, (j < 5)%nat /\
     e = Errorf "cannot generate child key for path %v" (take j (InOrder path))).
Proof.
  intros Hc. unfold InOrder in Hc. rewrite !Forall_cons_iff in Hc. destruct Hc as (?&?&?&?&?&_). split.
  - rewrite KeyFromPath_derive, hardened_start. by rewrite !u32_small by lia.
  - intros e He. apply key_loop_error in He as (j & Hj & ->); [|done]. exists j. simpl in Hj. split; [lia|done].
Qed.

Lemma KeyFromPath_hardens_witness :
  result_option (KeyFromPath (HD := path_keychain) [] (mkPath 44 118 0 0 3))
  = Some [44 + 2^31; 118 + 2^31; 0 + 2^31; 0; 3].
Proof.
  destruct (KeyFromPath_hardens (HD := path_keychain) (L := path_keychain_laws) []
    (mkPath 44 118 0 0 3)) as [H _].
  { repeat constructor; vm_compute; intros; discriminate. }
  rewrite H. vm_compute. reflexivity.
Defined.

(** The development token's secret.  Whatever the token and the world,
    [DeriveSecret] returns the 32 bytes HMAC-SHA-256 gives for the built-in
    entropy under the diversifier, which are the ones
    [crypto_token_test.go] expects. *)
Theorem dumbToken_secret {HD : HDKeychain} {W : Type} (dt : dumbToken.t) (w : W) :
  exists secret, dumbToken.DeriveSecret dt w = Ret (w, Ok secret) /\ length secret = 32%nat /\
    be_combine secret = 0x10cbc65c342e07b730ffb0f48fe2c41e9776363c73ade5e699c4cccb1257188d.
Proof.
  exists dumbToken.secret. split; [done|]. split; [apply length_copy_into|]. vm_compute. reflexivity.
Qed.

(** A cloned and initialised [dumbToken] signs and publishes with the
    key of the path, whatever the state of the token it was cloned from and
    without changing the world; if the key cannot be derived [Initialize]
    fails, and using the clone afterwards panics on its nil key unless the
    master key failed first. *)
Theorem dumbToken_at_path {HD : HDKeychain} {W : Type} {E : Entropy W} dt path data a (w : W) :
  match key_at path with
  | Some k =>
      exists dt', dumbToken.Initialize (dumbToken.Clone dt) path w = Ret (w, dt', None) /\
        dumbToken.Sign dt' data a w =
          Ret (w, match ECPrivKey k with
                  | Err e => Err e
                  | Ok pk => match ec_Sign pk data with
                             | Err e => Err e
                             | Ok s => Ok (Serialize s)
                             end
                  end) /\
        dumbToken.PublicKey dt' w =
          Ret (w, match Neuter k with
                  | Err e => Err e
                  | Ok n => match ECPubKey n with
                            | Err e => Err e
                            | Ok p => Ok (SerializeCompressed p)
                            end
                  end)
  | None =>
      exists dt' e, dumbToken.Initialize (dumbToken.Clone dt) path w = Ret (w, dt', Some e) /\
        (dt' = dumbToken.Clone dt \/ dumbToken.Sign dt' data a w = Panic NilDereference)
  end.
Proof.
  unfold key_at, dumbToken.Initialize. simpl.
  destruct (NewMaster _ _) as [master|e]; simpl; [|eauto].
  destruct (KeyFromPath master path) as [k|e]; simpl; [|eauto 6].
  eexists; split; [done|]. unfold dumbToken.Sign, dumbToken.PublicKey; simpl.
  split; repeat case_match; congruence.
Qed.

(** [RandomBytes] refuses a zero amount, panics past the platform's
    allocation limit, and otherwise asks the random source for exactly that
    many bytes; on success the result has that length. *)
Theorem dumbToken_RandomBytes {HD : HDKeychain} {W : Type} {E : Entropy W} {L : EntropyLaws W E}
    maxAlloc dt amount w :
  0 <= amount ->
  match dumbToken.RandomBytes maxAlloc dt amount w with
  | Panic p => p = MakeLenOutOfRange /\ maxAlloc < amount
  | Ret (w', r) =>
      (amount = 0 /\ w' = w /\ r = Err (Errorf "requested bytes amount is zero" [])) \/
      (0 < amount <= Z.max 0 maxAlloc /\ (w', r) = rand_Read (Z.to_nat amount) w /\
       forall l, r = Ok l -> Z.of_nat (length l) = amount)
  end.
Proof.
  intros Ha. unfold dumbToken.RandomBytes, make_bytes.
  destruct (Z.eqb_spec amount 0) as [->|Hn]; [auto|].
  case_bool_decide as Hm; simpl; [|split; [done|lia]].
  rewrite length_zeros. destruct (rand_Read _ w) as [w' r] eqn:Er. right.
  split_and!; [lia..|done|]. intros l ->. apply rand_Read_length in Er. lia.
Qed.

Lemma dumbToken_RandomBytes_witness :
  match dumbToken.RandomBytes (HD := path_keychain) (E := zero_entropy) (2 ^ 31)
          (@dumbToken.NewDumbToken path_keychain) 42 0%nat with
  | Panic p => p = MakeLenOutOfRange /\ 2 ^ 31 < 42
  | Ret (w', r) =>
      (42 = 0 /\ w' = 0%nat /\ r = Err (Errorf "requested bytes amount is zero" [])) \/
      (0 < 42 <= Z.max 0 (2 ^ 31) /\ (w', r) = (1%nat, Ok (zeros 42)) /\
       forall l, r = Ok l -> Z.of_nat (length l) = 42)
  end.
Proof.
  apply (dumbToken_RandomBytes (HD := path_keychain) (E := zero_entropy) (L := zero_entropy_laws)
    (2 ^ 31) (@dumbToken.NewDumbToken path_keychain) 42 0%nat).
  lia.
Defined.
