(* ===== verification/JsonScan.v ===== *)
(** * JSON validity

    [json.Unmarshal(data, &json.RawMessage{})] succeeds exactly when the
    scanner of [encoding/json] accepts the data.  This is that scanner (Go
    1.17, [scanner.go]): one transition per byte, a stack of open brackets and
    a nesting limit. *)

From S2P Require Import Prelude GoRuntime.

Module JsonScan.

Inductive step :=
| BeginValueOrEmpty | BeginValue | BeginStringOrEmpty | BeginString
| EndValue | EndTop
| InString | InStringEsc | InStringEscU | InStringEscU1 | InStringEscU12 | InStringEscU123
| Neg | State1 | State0 | Dot | Dot0 | StateE | ESign | E0
| T | Tr | Tru | F | Fa | Fal | Fals | N | Nu | Nul.

Inductive parse_state := ObjectKey | ObjectValue | ArrayValue.

Record scanner := mkScanner {
  scan_step : step;
  scan_stack : list parse_state;  (** innermost first *)
  scan_endTop : bool
}.

Definition maxNestingDepth : nat := Eval vm_compute in (100 * 100)%nat.

Definition reset : scanner := mkScanner BeginValue [] false.

(** Character classes, on the code of a byte. *)
Definition isSpace (c : Z) : bool :=
  (c =? 32) || (c =? 9) || (c =? 13) || (c =? 10).
Definition isDigit (c : Z) : bool := (48 <=? c) && (c <=? 57).
Definition isDigit19 (c : Z) : bool := (49 <=? c) && (c <=? 57).
Definition isHex (c : Z) : bool :=
  isDigit c || ((97 <=? c) && (c <=? 102)) || ((65 <=? c) && (c <=? 70)).

Definition goto (s : scanner) (st : step) : option scanner :=
  Some (mkScanner st (scan_stack s) (scan_endTop s)).

Definition pushParseState (s : scanner) (st : step) (p : parse_state) : option scanner :=
  if bool_decide (S (length (scan_stack s)) <= maxNestingDepth)%nat
  then Some (mkScanner st (p :: scan_stack s) (scan_endTop s))
  else None.

Definition popParseState (s : scanner) : option scanner :=
  match tail (scan_stack s) with
  | [] => Some (mkScanner EndTop [] true)
  | ps => Some (mkScanner EndValue ps (scan_endTop s))
  end.

Definition stateEndTop (s : scanner) (c : Z) : option scanner :=
  if isSpace c then Some s else None.

Definition stateEndValue (s : scanner) (c : Z) : option scanner :=
  match scan_stack s with
  | [] => stateEndTop (mkScanner EndTop [] true) c
  | ps :: rest =>
      if isSpace c then goto s EndValue
      else match ps with
           | ObjectKey =>
               if c =? 58 (* : *)
               then Some (mkScanner BeginValue (ObjectValue :: rest) (scan_endTop s))
               else None
           | ObjectValue =>
               if c =? 44 (* , *)
               then Some (mkScanner BeginString (ObjectKey :: rest) (scan_endTop s))
               else if c =? 125 (* } *) then popParseState s else None
           | ArrayValue =>
               if c =? 44 then goto s BeginValue
               else if c =? 93 (* ] *) then popParseState s else None
           end
  end.

Definition stateBeginValue (s : scanner) (c : Z) : option scanner :=
  if isSpace c then goto s BeginValue
  else if c =? 123 (* { *) then pushParseState s BeginStringOrEmpty ObjectKey
  else if c =? 91 (* [ *) then pushParseState s BeginValueOrEmpty ArrayValue
  else if c =? 34 (* double quote *) then goto s InString
  else if c =? 45 (* - *) then goto s Neg
  else if c =? 48 (* 0 *) then goto s State0
  else if c =? 116 (* t *) then goto s T
  else if c =? 102 (* f *) then goto s F
  else if c =? 110 (* n *) then goto s N
  else if isDigit19 c then goto s State1
  else None.

Definition stateBeginString (s : scanner) (c : Z) : option scanner :=
  if isSpace c then goto s BeginString
  else if c =? 34 then goto s InString else None.

Definition state0 (s : scanner) (c : Z) : option scanner :=
  if c =? 46 (* . *) then goto s Dot
  else if (c =? 101) || (c =? 69) (* e E *) then goto s StateE
  else stateEndValue s c.

Definition stateESign (s : scanner) (c : Z) : option scanner :=
  if isDigit c then goto s E0 else None.

Definition expect (code : Z) (next : step) (s : scanner) (c : Z) : option scanner :=
  if c =? code then goto s next else None.

Definition escapes : list Z := [98; 102; 110; 114; 116; 92; 47; 34].

(** One call of [s.step(s, c)]; [None] is [scanError]. *)
Definition scan1 (s : scanner) (c : Z) : option scanner :=
  match scan_step s with
  | BeginValueOrEmpty =>
      if isSpace c then Some s
      else if c =? 93 then stateEndValue s c else stateBeginValue s c
  | BeginValue => stateBeginValue s c
  | BeginStringOrEmpty =>
      if isSpace c then Some s
      else if c =? 125
      then stateEndValue (mkScanner (scan_step s) (ObjectValue :: tail (scan_stack s)) (scan_endTop s)) c
      else stateBeginString s c
  | BeginString => stateBeginString s c
  | EndValue => stateEndValue s c
  | EndTop => stateEndTop s c
  | InString =>
      if c =? 34 then goto s EndValue
      else if c =? 92 then goto s InStringEsc
      else if c <? 32 then None else Some s
  | InStringEsc =>
      if bool_decide (c ∈ escapes) then goto s InString
      else if c =? 117 then goto s InStringEscU else None
  | InStringEscU => if isHex c then goto s InStringEscU1 else None
  | InStringEscU1 => if isHex c then goto s InStringEscU12 else None
  | InStringEscU12 => if isHex c then goto s InStringEscU123 else None
  | InStringEscU123 => if isHex c then goto s InString else None
  | Neg => if c =? 48 then goto s State0 else if isDigit19 c then goto s State1 else None
  | State1 => if isDigit c then goto s State1 else state0 s c
  | State0 => state0 s c
  | Dot => if isDigit c then goto s Dot0 else None
  | Dot0 =>
      if isDigit c then Some s
      else if (c =? 101) || (c =? 69) then goto s StateE else stateEndValue s c
  | StateE => if (c =? 43) || (c =? 45) then goto s ESign else stateESign s c
  | ESign => stateESign s c
  | E0 => if isDigit c then Some s else stateEndValue s c
  | T => expect 114 Tr s c
  | Tr => expect 117 Tru s c
  | Tru => expect 101 EndValue s c
  | F => expect 97 Fa s c
  | Fa => expect 108 Fal s c
  | Fal => expect 115 Fals s c
  | Fals => expect 101 EndValue s c
  | N => expect 117 Nu s c
  | Nu => expect 108 Nul s c
  | Nul => expect 108 EndValue s c
  end.

Fixpoint scan (s : scanner) (l : list byte) : option scanner :=
  match l with
  | [] => Some s
  | b :: l' =>
      match scan1 s (byte.unsigned b) with
      | Some s' => scan s' l'
      | None => None
      end
  end.

(** [s.eof()]: complete, or complete after one more blank. *)
Definition eof (s : scanner) : bool :=
  scan_endTop s ||
  match scan1 s 32 with
  | Some s' => scan_endTop s'
  | None => false
  end.

(** [checkValid]: the data is one JSON value surrounded by blanks. *)
Definition json_Valid (l : list byte) : bool :=
  match scan reset l with
  | Some s => eof s
  | None => false
  end.

Example valid_object : json_Valid (bytes_of
  [123; 34; 97; 34; 58; 91; 49; 44; 45; 50; 46; 53; 101; 51; 44; 116; 114; 117; 101; 93; 125; 10]) = true.
Proof. reflexivity. Qed.

Example invalid_trailing : json_Valid (bytes_of [123; 125; 44]) = false.
Proof. reflexivity. Qed.

Example invalid_empty : json_Valid [] = false.
Proof. reflexivity. Qed.

End JsonScan.
