(* ===== verification/JsonGrammar.v ===== *)
(** * The grammar of JSON

    The productions of RFC 8259 as inductive predicates, read on the bytes of a
    text, and the proof that the scanner of [encoding/json] accepts exactly the
    texts of this grammar whose arrays and objects are nested at most 10000 deep.
    The RFC speaks of code points of a UTF-8 text; here, as for the scanner, an
    unescaped character of a string is any byte from 32 up other than the quote
    and the backslash, so that strings whose bytes are not UTF-8 are accepted
    ([not_utf8_accepted]).

    The proof follows the derivatives of the grammar: [rest s] is the language
    of what may still follow in a state of the scanner; reading a byte turns
    it into the language of the next state. *)

From S2P Require Import Prelude GoRuntime JsonScan.
Import JsonScan.

Module JsonGrammar.

(** ** The grammar *)

Notation lang := (list Z -> Prop) (only parsing).

(** Concatenation. *)
Definition cat (P Q : lang) : lang := fun l => exists x y, l = x ++ y /\ P x /\ Q y.

Definition ws : lang := Forall (fun c => isSpace c = true).
Definition digits : lang := Forall (fun c => isDigit c = true).
Definition digits1 : lang := fun l => l <> [] /\ digits l.

(** [number = [ minus ] int [ frac ] [ exp ]] *)
Definition minus : lang := fun l => l = [] \/ l = [45].
Definition int : lang := fun l => l = [48] \/ exists c ds, l = c :: ds /\ isDigit19 c = true /\ digits ds.
Definition frac : lang := fun l => l = [] \/ exists ds, l = 46 :: ds /\ digits1 ds.
Definition sign : lang := fun l => l = [] \/ l = [43] \/ l = [45].
Definition exp : lang := fun l => l = [] \/ exists e l', l = e :: l' /\ (e = 101 \/ e = 69) /\ cat sign digits1 l'.
Definition number : lang := cat minus (cat int (cat frac exp)).

(** [string = quotation-mark *char quotation-mark], on bytes. *)
Inductive chars : lang :=
| chars_nil : chars []
| chars_unescaped c l : 32 <= c -> c <> 34 -> c <> 92 -> chars l -> chars (c :: l)
| chars_escape c l : c ∈ escapes -> chars l -> chars (92 :: c :: l)
| chars_unicode h1 h2 h3 h4 l :
    isHex h1 = true -> isHex h2 = true -> isHex h3 = true -> isHex h4 = true -> chars l ->
    chars (92 :: 117 :: h1 :: h2 :: h3 :: h4 :: l).

Definition str : lang := fun l => exists x, l = 34 :: x ++ [34] /\ chars x.

Definition scalar : lang := fun l =>
  str l \/ number l \/ l = [116; 114; 117; 101] \/ l = [102; 97; 108; 115; 101] \/ l = [110; 117; 108; 108].

(** Values with arrays and objects nested at most [n] deep. *)
Inductive value : nat -> lang :=
| value_scalar n l : scalar l -> value n l
| value_array_empty n w : ws w -> value (S n) (91 :: w ++ [93])
| value_array n l : elements n l -> value (S n) (91 :: l ++ [93])
| value_object_empty n w : ws w -> value (S n) (123 :: w ++ [125])
| value_object n l : members n l -> value (S n) (123 :: l ++ [125])
with elements : nat -> lang :=
| elements_last n a v b : ws a -> value n v -> ws b -> elements n (a ++ v ++ b)
| elements_more n a v b l : ws a -> value n v -> ws b -> elements n l -> elements n (a ++ v ++ b ++ 44 :: l)
with members : nat -> lang :=
| members_last n a k b c v d :
    ws a -> str k -> ws b -> ws c -> value n v -> ws d ->
    members n (a ++ k ++ b ++ 58 :: c ++ v ++ d)
| members_more n a k b c v d l :
    ws a -> str k -> ws b -> ws c -> value n v -> ws d -> members n l ->
    members n (a ++ k ++ b ++ 58 :: c ++ v ++ d ++ 44 :: l).

(** [JSON-text = ws value ws] *)
Definition text (n : nat) : lang := cat ws (cat (value n) ws).

(** ** What may follow in a state of the scanner *)

#[local] Opaque maxNestingDepth.

Definition budget (k : nat) : nat := (maxNestingDepth - k)%nat.

(** A text that begins with a code. *)
Definition lead (c : Z) (P : lang) : lang := fun l => exists l', l = c :: l' /\ P l'.

(** After an element of an array or object: its end, or more of them. *)
Definition after (close : Z) (more : lang) (K : lang) : lang :=
  cat ws (fun r => lead close K r \/ lead 44 (cat more (lead close K)) r).

(** After a key: the colon and the value. *)
Definition colon (n : nat) (K : lang) : lang :=
  cat ws (lead 58 (cat ws (cat (value n) K))).

(** After a value, by the open brackets. *)
Fixpoint tail (stack : list parse_state) : lang :=
  match stack with
  | [] => ws
  | ArrayValue :: k => after 93 (elements (budget (S (length k)))) (tail k)
  | ObjectValue :: k => after 125 (members (budget (S (length k)))) (tail k)
  | ObjectKey :: k =>
      colon (budget (S (length k))) (after 125 (members (budget (S (length k)))) (tail k))
  end.

Definition quote_end : lang := cat chars (eq [34]).

(** In the middle of a string, number or word: what completes it. *)
Definition completes (st : step) : lang :=
  match st with
  | InString => quote_end
  | InStringEsc => fun l =>
      (exists c l', l = c :: l' /\ c ∈ escapes /\ quote_end l') \/
      (exists h1 h2 h3 h4 l', l = 117 :: h1 :: h2 :: h3 :: h4 :: l' /\
         isHex h1 = true /\ isHex h2 = true /\ isHex h3 = true /\ isHex h4 = true /\ quote_end l')
  | InStringEscU => fun l => exists h1 h2 h3 h4 l', l = h1 :: h2 :: h3 :: h4 :: l' /\
      isHex h1 = true /\ isHex h2 = true /\ isHex h3 = true /\ isHex h4 = true /\ quote_end l'
  | InStringEscU1 => fun l => exists h2 h3 h4 l', l = h2 :: h3 :: h4 :: l' /\
      isHex h2 = true /\ isHex h3 = true /\ isHex h4 = true /\ quote_end l'
  | InStringEscU12 => fun l => exists h3 h4 l', l = h3 :: h4 :: l' /\
      isHex h3 = true /\ isHex h4 = true /\ quote_end l'
  | InStringEscU123 => fun l => exists h4 l', l = h4 :: l' /\ isHex h4 = true /\ quote_end l'
  | Neg => cat int (cat frac exp)
  | State1 => cat digits (cat frac exp)
  | State0 => cat frac exp
  | Dot => cat digits1 exp
  | Dot0 => cat digits exp
  | StateE => cat sign digits1
  | ESign => digits1
  | E0 => digits
  | T => eq [114; 117; 101] | Tr => eq [117; 101] | Tru => eq [101]
  | F => eq [97; 108; 115; 101] | Fa => eq [108; 115; 101] | Fal => eq [115; 101] | Fals => eq [101]
  | N => eq [117; 108; 108] | Nu => eq [108; 108] | Nul => eq [108]
  | _ => eq []
  end.

Definition rest (s : scanner) : lang :=
  match scan_step s, scan_stack s with
  | BeginValue, k => cat ws (cat (value (budget (length k))) (tail k))
  | BeginValueOrEmpty, k =>
      fun l => cat ws (lead 93 (tail (List.tl k))) l \/ cat ws (cat (value (budget (length k))) (tail k)) l
  | BeginString, k => cat ws (cat str (tail k))
  | BeginStringOrEmpty, k => fun l => cat ws (lead 125 (tail (List.tl k))) l \/ cat ws (cat str (tail k)) l
  | st, k => cat (completes st) (tail k)
  end.

(** What is on the stack in a state. *)
Definition scanner_ok (s : scanner) : Prop :=
  (length (scan_stack s) <= maxNestingDepth)%nat /\
  (scan_endTop s = true <-> scan_step s = EndTop) /\
  match scan_step s, scan_stack s with
  | BeginValueOrEmpty, ArrayValue :: _ => True
  | (BeginString | BeginStringOrEmpty), ObjectKey :: _ => True
  | EndTop, [] => True
  | (BeginValueOrEmpty | BeginString | BeginStringOrEmpty | EndTop), _ => False
  | _, _ => True
  end.

(** ** Derivatives of the pieces *)

#[local] Instance cat_proper :
  Proper (pointwise_relation _ iff ==> pointwise_relation _ iff ==> eq ==> iff) cat.
Proof. intros P P' HP Q Q' HQ l _ <-. unfold cat. by setoid_rewrite (HP _); setoid_rewrite (HQ _). Qed.

Lemma cat_nil P Q : cat P Q [] <-> P [] /\ Q [].
Proof.
  split; [intros (x & y & E & HP & HQ)|intros []; by exists [], []].
  symmetry in E. by apply app_nil in E as [-> ->].
Qed.

Lemma cat_cons P Q c l : cat P Q (c :: l) <-> P [] /\ Q (c :: l) \/ cat (fun x => P (c :: x)) Q l.
Proof.
  split.
  - intros ([|c' x] & y & E & HP & HQ); simplify_eq/=; [by left|right; by exists x, y].
  - intros [[HP HQ]|(x & y & -> & HP & HQ)]; [by exists [], (c :: l)|by exists (c :: x), y].
Qed.

Lemma cat_assoc P Q R l : cat (cat P Q) R l <-> cat P (cat Q R) l.
Proof.
  split.
  - intros (? & z & -> & (x & y & -> & HP & HQ) & HR). exists x, (y ++ z). rewrite <- app_assoc. split_and!; [done..|].
    by exists y, z.
  - intros (x & ? & -> & HP & (y & z & -> & HQ & HR)). exists (x ++ y), z. rewrite <- app_assoc. split_and!; [done| |done].
    by exists x, y.
Qed.

Lemma cat_empty Q l : cat (eq []) Q l <-> Q l.
Proof. split; [by intros (x & y & -> & <- & HQ)|intros HQ; by exists [], l]. Qed.

Lemma cat_empty' Q l : cat (fun x => x = []) Q l <-> Q l.
Proof. split; [by intros (x & y & -> & -> & HQ)|intros HQ; by exists [], l]. Qed.

Lemma cat_false Q l : cat (fun _ => False) Q l <-> False.
Proof. split; [by intros (? & ? & _ & [] & _)|done]. Qed.

(** Constant factors of a derivative. *)
Lemma cat_and (A : Prop) P Q l : cat (fun x => A /\ P x) Q l <-> A /\ cat P Q l.
Proof. unfold cat. naive_solver. Qed.

Lemma cat_or P P' Q l : cat (fun x => P x \/ P' x) Q l <-> cat P Q l \/ cat P' Q l.
Proof. unfold cat. naive_solver. Qed.

Lemma cat_ex {A} (P : A -> lang) Q l : cat (fun x => exists a, P a x) Q l <-> exists a, cat (P a) Q l.
Proof. unfold cat. naive_solver. Qed.

Lemma ws_cons c l : ws (c :: l) <-> isSpace c = true /\ ws l.
Proof. apply Forall_cons_iff. Qed.

Lemma cat_ws_cons Q c l : cat ws Q (c :: l) <-> isSpace c = true /\ cat ws Q l \/ Q (c :: l).
Proof.
  rewrite cat_cons, <- cat_and. setoid_rewrite ws_cons. split; [intros [[_ ?]|?]|intros [?|?]]; auto.
  left. split; [constructor|done].
Qed.

Lemma digits_cons c l : digits (c :: l) <-> isDigit c = true /\ digits l.
Proof. apply Forall_cons_iff. Qed.

Lemma digits1_cons c l : digits1 (c :: l) <-> isDigit c = true /\ digits l.
Proof. unfold digits1. rewrite digits_cons. naive_solver. Qed.

Lemma int_cons c l : int (c :: l) <-> c = 48 /\ l = [] \/ isDigit19 c = true /\ digits l.
Proof. unfold int. naive_solver. Qed.

Lemma frac_cons c l : frac (c :: l) <-> c = 46 /\ digits1 l.
Proof. unfold frac. naive_solver. Qed.

Lemma exp_cons c l : exp (c :: l) <-> (c = 101 \/ c = 69) /\ cat sign digits1 l.
Proof. unfold exp. naive_solver. Qed.

Lemma sign_cons c l : sign (c :: l) <-> (c = 43 \/ c = 45) /\ l = [].
Proof. unfold sign. naive_solver. Qed.

Lemma chars_cons c l :
  chars (c :: l) <->
  (32 <= c /\ c <> 34 /\ c <> 92 /\ chars l) \/
  (c = 92 /\ ((exists e l', l = e :: l' /\ e ∈ escapes /\ chars l') \/
     exists h1 h2 h3 h4 l', l = 117 :: h1 :: h2 :: h3 :: h4 :: l' /\
       isHex h1 = true /\ isHex h2 = true /\ isHex h3 = true /\ isHex h4 = true /\ chars l')).
Proof.
  split.
  - inversion 1; subst; naive_solver.
  - intros [(? & ? & ? & ?)|(-> & [(e & l' & -> & ? & ?)|(h1 & h2 & h3 & h4 & l' & -> & ? & ? & ? & ? & ?)])];
      by constructor.
Qed.

(** ** Strings, numbers and words *)

(** The part of the scanner inside a scalar: the next state, [EndValue] where
    the byte completes it, and where it may end without a further byte. *)
Definition inner (st : step) (c : Z) : option step :=
  match st with
  | InString => if c =? 34 then Some EndValue else if c =? 92 then Some InStringEsc
                else if c <? 32 then None else Some InString
  | InStringEsc => if bool_decide (c ∈ escapes) then Some InString
                   else if c =? 117 then Some InStringEscU else None
  | InStringEscU => if isHex c then Some InStringEscU1 else None
  | InStringEscU1 => if isHex c then Some InStringEscU12 else None
  | InStringEscU12 => if isHex c then Some InStringEscU123 else None
  | InStringEscU123 => if isHex c then Some InString else None
  | Neg => if c =? 48 then Some State0 else if isDigit19 c then Some State1 else None
  | State1 => if isDigit c then Some State1 else if c =? 46 then Some Dot
              else if (c =? 101) || (c =? 69) then Some StateE else None
  | State0 => if c =? 46 then Some Dot else if (c =? 101) || (c =? 69) then Some StateE else None
  | Dot => if isDigit c then Some Dot0 else None
  | Dot0 => if isDigit c then Some Dot0 else if (c =? 101) || (c =? 69) then Some StateE else None
  | StateE => if (c =? 43) || (c =? 45) then Some ESign else if isDigit c then Some E0 else None
  | ESign => if isDigit c then Some E0 else None
  | E0 => if isDigit c then Some E0 else None
  | T => if c =? 114 then Some Tr else None
  | Tr => if c =? 117 then Some Tru else None
  | Tru => if c =? 101 then Some EndValue else None
  | F => if c =? 97 then Some Fa else None
  | Fa => if c =? 108 then Some Fal else None
  | Fal => if c =? 115 then Some Fals else None
  | Fals => if c =? 101 then Some EndValue else None
  | N => if c =? 117 then Some Nu else None
  | Nu => if c =? 108 then Some Nul else None
  | Nul => if c =? 108 then Some EndValue else None
  | _ => None
  end.

Definition in_scalar (st : step) : bool :=
  match st with
  | BeginValueOrEmpty | BeginValue | BeginStringOrEmpty | BeginString | EndValue | EndTop => false
  | _ => true
  end.

Definition final (st : step) : bool :=
  match st with State1 | State0 | Dot0 | E0 => true | _ => false end.

(** The scanner inside a scalar. *)
Lemma scan1_scalar s c :
  in_scalar (scan_step s) = true ->
  scan1 s c = match inner (scan_step s) c with
              | Some st => goto s st
              | None => if final (scan_step s) then stateEndValue s c else None
              end.
Proof.
  destruct s as [st k e]. unfold scan1, goto, expect, state0, stateESign. cbn [scan_step scan_stack scan_endTop].
  destruct st; intros Hs; try done; cbn [inner final]; repeat case_match; done.
Qed.

(** The character classes a proof compares codes with. *)
Ltac codes :=
  repeat match goal with
  | H : (_ || _) = true |- _ => apply orb_true_iff in H
  | H : (_ || _) = false |- _ => apply orb_false_iff in H as [? ?]
  | H : (_ =? _) = true |- _ => apply Z.eqb_eq in H
  | H : (_ =? _) = false |- _ => apply Z.eqb_neq in H
  | H : (_ <? _) = true |- _ => apply Z.ltb_lt in H
  | H : (_ <? _) = false |- _ => apply Z.ltb_ge in H
  | H : bool_decide _ = true |- _ => apply bool_decide_eq_true in H
  | H : bool_decide _ = false |- _ => apply bool_decide_eq_false in H
  end.

Ltac classes := unfold isSpace, isDigit, isDigit19, isHex, escapes in *; lia.

Lemma quote_end_cons c l :
  quote_end (c :: l) <-> c = 34 /\ l = [] \/ (32 <= c /\ c <> 34 /\ c <> 92 /\ quote_end l) \/
    (c = 92 /\ completes InStringEsc l).
Proof.
  unfold quote_end. rewrite cat_cons. setoid_rewrite chars_cons. rewrite cat_or, !cat_and. cbn [completes].
  unfold quote_end. assert (HQ : chars [] /\ [34] = c :: l <-> c = 34 /\ l = []).
  { split; [naive_solver|]. intros [-> ->]. split; [constructor|done]. }
  rewrite HQ. clear HQ. do 2 (apply or_iff_compat_l). apply and_iff_compat_l. split.
  - intros (? & ? & -> & [(e & x & -> & He & Hx)|(h1 & h2 & h3 & h4 & x & -> & ? & ? & ? & ? & Hx)] & <-); [left|right].
    + exists e, (x ++ [34]). split_and!; [done..|]. by exists x, [34].
    + exists h1, h2, h3, h4, (x ++ [34]). split_and!; [done..|]. by exists x, [34].
  - intros [(e & ? & -> & He & (x & ? & -> & Hx & <-))|
            (h1 & h2 & h3 & h4 & ? & -> & ? & ? & ? & ? & (x & ? & -> & Hx & <-))].
    + exists (e :: x), [34]. split_and!; [done| |done]. left. by exists e, x.
    + exists (117 :: h1 :: h2 :: h3 :: h4 :: x), [34]. split_and!; [done| |done]. right. by exists h1, h2, h3, h4, x.
Qed.

Lemma completes_nil st : in_scalar st = true -> completes st [] <-> final st = true.
Proof.
  assert (Hd : digits []) by constructor. assert (Hf : frac []) by (by left). assert (He : exp []) by (by left).
  destruct st; intros Hs; try done; cbn [completes final]; unfold quote_end; rewrite ?cat_nil; unfold digits1, int;
    naive_solver.
Qed.

(** A number continues with digits, a point or an exponent. *)
Lemma digits_then Q c l : cat digits Q (c :: l) <-> isDigit c = true /\ cat digits Q l \/ Q (c :: l).
Proof.
  rewrite cat_cons. setoid_rewrite digits_cons. rewrite cat_and.
  assert (digits []) by constructor. naive_solver.
Qed.

Lemma digits1_then Q c l : cat digits1 Q (c :: l) <-> isDigit c = true /\ cat digits Q l.
Proof.
  rewrite cat_cons. setoid_rewrite digits1_cons. rewrite cat_and. unfold digits1. naive_solver.
Qed.

Lemma frac_exp_cons c l :
  cat frac exp (c :: l) <-> c = 46 /\ cat digits1 exp l \/ (c = 101 \/ c = 69) /\ cat sign digits1 l.
Proof.
  rewrite cat_cons. setoid_rewrite frac_cons. rewrite cat_and, exp_cons.
  assert (frac []) by (by left). naive_solver.
Qed.

Lemma next_some st x : (exists st', Some st = Some st' /\ completes st' x) <-> completes st x.
Proof. naive_solver. Qed.

Lemma next_none x : (exists st', None = Some st' /\ completes st' x) <-> False.
Proof. naive_solver. Qed.

Lemma int_then Q c l : cat int Q (c :: l) <-> c = 48 /\ Q l \/ isDigit19 c = true /\ cat digits Q l.
Proof.
  rewrite cat_cons. setoid_rewrite int_cons. rewrite cat_or, !cat_and.
  rewrite cat_empty'.
  unfold int. naive_solver.
Qed.

Lemma sign_digits_cons c l :
  cat sign digits1 (c :: l) <-> (c = 43 \/ c = 45) /\ digits1 l \/ isDigit c = true /\ digits l.
Proof.
  rewrite cat_cons. setoid_rewrite sign_cons. rewrite cat_and, digits1_cons.
  rewrite cat_empty'.
  assert (sign []) by (by left). naive_solver.
Qed.

Lemma completes_cons st c x :
  in_scalar st = true ->
  completes st (c :: x) <-> exists st', inner st c = Some st' /\ completes st' x.
Proof.
  destruct st; intros Hs; try done; cbn [completes inner];
    rewrite ?quote_end_cons, ?int_then, ?digits_then, ?digits1_then, ?frac_exp_cons, ?exp_cons, ?sign_digits_cons,
      ?digits1_cons, ?digits_cons;
    repeat case_match; codes; rewrite ?next_some, ?next_none; cbn [completes].
  all: try (naive_solver classes).
  all: try (split; [intros Hx; decompose [ex and] Hx; simplify_eq; congruence|done]).
  split; [|intros Hx; left; by exists c, x].
  intros [(? & ? & [= <- <-] & _ & ?)|(? & ? & ? & ? & ? & [= -> ->] & _)]; [done|].
  exfalso. revert H. apply (bool_decide_unpack _). by vm_compute.
Qed.

(** Every scalar but a sign-less number is told by its first byte. *)
Definition start (c : Z) : option step :=
  if c =? 34 then Some InString else if c =? 45 then Some Neg else if c =? 48 then Some State0
  else if c =? 116 then Some T else if c =? 102 then Some F else if c =? 110 then Some N
  else if isDigit19 c then Some State1 else None.

Lemma str_cons c x : str (c :: x) <-> c = 34 /\ quote_end x.
Proof.
  unfold str, quote_end, cat. split.
  - intros (y & [= -> ->] & Hy). split; [done|]. by exists y, [34].
  - intros [-> (y & ? & -> & Hy & <-)]. by exists y.
Qed.

Lemma number_cons c x : number (c :: x) <-> c = 45 /\ completes Neg x \/ cat int (cat frac exp) (c :: x).
Proof.
  unfold number. rewrite cat_cons. assert (minus []) by (by left).
  assert (Hm : cat (fun y => minus (c :: y)) (cat int (cat frac exp)) x <-> c = 45 /\ completes Neg x).
  { cbn [completes]. unfold minus. rewrite <- (cat_empty' (cat int (cat frac exp)) x), <- cat_and.
    apply cat_proper; [|done..]. intros y. naive_solver. }
  rewrite Hm. naive_solver.
Qed.

Lemma scalar_cons c x : scalar (c :: x) <-> exists st, start c = Some st /\ completes st x.
Proof.
  unfold scalar. rewrite str_cons, number_cons, int_then. unfold start.
  repeat case_match; codes; subst; rewrite ?next_some, ?next_none; cbn [completes]; naive_solver classes.
Qed.

Lemma scalar_nil : ~ scalar [].
Proof.
  unfold scalar, str, number. rewrite !cat_nil. unfold int. intros Hs. decompose [ex and or] Hs; done.
Qed.

(** ** Arrays and objects *)

(** What follows an element in its list. *)
Definition item (more : lang) : lang := cat ws (fun r => r = [] \/ lead 44 more r).

Lemma elements_inv n l :
  elements n l <-> cat ws (cat (value n) (item (elements n))) l.
Proof.
  split.
  - destruct 1 as [n a v b Ha Hv Hb|n a v b l Ha Hv Hb Hl].
    + exists a, (v ++ b). split_and!; [done..|]. exists v, b. split_and!; [done..|].
      exists b, []. rewrite app_nil_r. auto.
    + exists a, (v ++ b ++ 44 :: l). split_and!; [done..|]. exists v, (b ++ 44 :: l). split_and!; [done..|].
      exists b, (44 :: l). split_and!; [done..|]. right. by exists l.
  - intros (a & ? & -> & Ha & v & ? & -> & Hv & b & ? & -> & Hb & [->|(l' & -> & Hl)]).
    + rewrite app_nil_r. by constructor.
    + by constructor.
Qed.

Lemma members_inv n l :
  members n l <->
  cat ws (cat str (colon n (item (members n)))) l.
Proof.
  split.
  - destruct 1 as [n a k b c v d Ha Hk Hb Hc Hv Hd|n a k b c v d l Ha Hk Hb Hc Hv Hd Hl].
    + exists a, (k ++ b ++ 58 :: c ++ v ++ d). split_and!; [done..|].
      exists k, (b ++ 58 :: c ++ v ++ d). split_and!; [done..|]. exists b, (58 :: c ++ v ++ d). split_and!; [done..|].
      exists (c ++ v ++ d). split; [done|]. exists c, (v ++ d). split_and!; [done..|]. exists v, d. split_and!; [done..|].
      exists d, []. rewrite app_nil_r. auto.
    + exists a, (k ++ b ++ 58 :: c ++ v ++ d ++ 44 :: l). split_and!; [done..|].
      exists k, (b ++ 58 :: c ++ v ++ d ++ 44 :: l). split_and!; [done..|].
      exists b, (58 :: c ++ v ++ d ++ 44 :: l). split_and!; [done..|].
      exists (c ++ v ++ d ++ 44 :: l). split; [done|]. exists c, (v ++ d ++ 44 :: l). split_and!; [done..|].
      exists v, (d ++ 44 :: l). split_and!; [done..|]. exists d, (44 :: l). split_and!; [done..|]. right. by exists l.
  - intros (a & ? & -> & Ha & k & ? & -> & Hk & b & ? & -> & Hb & ? & -> & c & ? & -> & Hc & v & ? & -> & Hv &
            d & ? & -> & Hd & [->|(l' & -> & Hl)]).
    + rewrite app_nil_r. by constructor.
    + by constructor.
Qed.

#[local] Instance lead_proper : Proper (eq ==> pointwise_relation _ iff ==> eq ==> iff) lead.
Proof. intros c _ <- P P' HP l _ <-. unfold lead. by setoid_rewrite (HP _). Qed.

Lemma lead_cons c P d l : lead c P (d :: l) <-> d = c /\ P l.
Proof. unfold lead. naive_solver. Qed.

Lemma cat_lead c P Q l : cat (lead c P) Q l <-> lead c (cat P Q) l.
Proof.
  split.
  - intros (? & y & -> & (x & -> & HP) & HQ). exists (x ++ y). split; [done|]. by exists x, y.
  - intros (? & -> & (x & y & -> & HP & HQ)). exists (c :: x), y. split_and!; [done| |done]. by exists x.
Qed.

Lemma item_after more close K l : cat (item more) (lead close K) l <-> after close more K l.
Proof.
  unfold item, after. rewrite cat_assoc. apply cat_proper; [done| |done]. intros r.
  rewrite cat_or, cat_empty', cat_lead. done.
Qed.

(** A list of elements up to the closing bracket, read from its start. *)
Lemma elements_rest n K l :
  cat (elements n) (lead 93 K) l <-> cat ws (cat (value n) (after 93 (elements n) K)) l.
Proof.
  etransitivity; [apply cat_proper; [intros x; apply elements_inv|done..]|].
  rewrite cat_assoc. apply cat_proper; [done| |done]. intros r.
  rewrite cat_assoc. apply cat_proper; [done| |done]. intros r'. apply item_after.
Qed.

Lemma members_rest n K l :
  cat (members n) (lead 125 K) l <-> cat ws (cat str (colon n (after 125 (members n) K))) l.
Proof.
  etransitivity; [apply cat_proper; [intros x; apply members_inv|done..]|].
  rewrite cat_assoc. apply cat_proper; [done| |done]. intros r.
  rewrite cat_assoc. apply cat_proper; [done| |done]. clear r. intros r. unfold colon.
  rewrite cat_assoc. apply cat_proper; [done| |done]. clear r. intros r.
  rewrite cat_lead. apply lead_proper; [done| |done]. clear r. intros r.
  rewrite cat_assoc. apply cat_proper; [done| |done]. clear r. intros r.
  rewrite cat_assoc. apply cat_proper; [done| |done]. intros r'. apply item_after.
Qed.

Lemma after_cons close more K c l :
  after close more K (c :: l) <->
  isSpace c = true /\ after close more K l \/ c = close /\ K l \/ c = 44 /\ cat more (lead close K) l.
Proof. unfold after at 1. rewrite cat_ws_cons, !lead_cons. done. Qed.

Lemma colon_cons n K c l :
  colon n K (c :: l) <-> isSpace c = true /\ colon n K l \/ c = 58 /\ cat ws (cat (value n) K) l.
Proof. unfold colon at 1. by rewrite cat_ws_cons, lead_cons. Qed.

(** A value begins with a bracket, or is a scalar. *)
Lemma value_cons n c x :
  value n (c :: x) <->
  scalar (c :: x) \/
  exists n', n = S n' /\
    (c = 91 /\ cat (fun y => ws y \/ elements n' y) (eq [93]) x \/
     c = 123 /\ cat (fun y => ws y \/ members n' y) (eq [125]) x).
Proof.
  split.
  - inversion 1; subst; [by left|right; eexists; (split; [done|])..].
    1-2: left. 3-4: right.
    all: split; [done|]; eexists _, _; split_and!; [done| |done]; auto.
  - intros [?|(n' & -> & [(-> & y & ? & -> & [Hy|Hy] & <-)|(-> & y & ? & -> & [Hy|Hy] & <-)])]; by constructor.
Qed.

Lemma value_nil n : ~ value n [].
Proof. inversion 1; subst; by apply scalar_nil. Qed.

(** ** The language of a state *)

(** What follows a value begins with a blank or a delimiter. *)
Lemma tail_head k c l : tail k (c :: l) -> isSpace c = true \/ c = 44 \/ c = 58 \/ c = 93 \/ c = 125.
Proof.
  destruct k as [|[] k]; cbn [tail]; rewrite ?after_cons, ?colon_cons, ?ws_cons; naive_solver.
Qed.

Lemma final_stops st c st' k l : final st = true -> inner st c = Some st' -> ~ tail k (c :: l).
Proof.
  intros Hf Hi Ht%tail_head. destruct st; try done; cbn [inner] in Hi; repeat case_match; try done; codes; classes.
Qed.

Lemma accept_some s l : (exists s', Some s = Some s' /\ rest s' l) <-> rest s l.
Proof. naive_solver. Qed.

Lemma accept_none l : (exists s', None = Some s' /\ rest s' l) <-> False.
Proof. naive_solver. Qed.

Lemma rest_ended k e l : rest (mkScanner EndValue k e) l <-> tail k l.
Proof. apply cat_empty. Qed.

Lemma rest_top e l : rest (mkScanner EndTop [] e) l <-> ws l.
Proof. apply cat_empty. Qed.

Lemma rest_popped st p k e l :
  (exists s', popParseState (mkScanner st (p :: k) e) = Some s' /\ rest s' l) <-> tail k l.
Proof.
  unfold popParseState. cbn [scan_stack scan_endTop List.tl]. destruct k as [|q k]; rewrite accept_some.
  - apply rest_top.
  - apply rest_ended.
Qed.

(** After a value. *)
Lemma tail_cons st k e c l :
  tail k (c :: l) <-> exists s', stateEndValue (mkScanner st k e) c = Some s' /\ rest s' l.
Proof.
  unfold stateEndValue, stateEndTop, goto. cbn [scan_stack scan_endTop].
  destruct k as [|p k]; cbn [tail].
  { rewrite ws_cons. destruct (isSpace c); rewrite ?accept_some, ?accept_none, ?rest_top; naive_solver. }
  destruct (isSpace c) eqn:Hs.
  { rewrite accept_some, rest_ended. destruct p; cbn [tail]; rewrite ?after_cons, ?colon_cons, Hs; naive_solver classes. }
  destruct p; rewrite ?after_cons, ?colon_cons, ?elements_rest, ?members_rest; repeat case_match; codes; subst;
    rewrite ?rest_popped, ?accept_some, ?accept_none; cbn [rest scan_step scan_stack tail length]; rewrite ?Hs; naive_solver.
Qed.

Lemma bracketed (P : lang) c K l : cat (cat P (eq [c])) K l <-> cat P (lead c K) l.
Proof.
  rewrite cat_assoc. apply cat_proper; [done| |done]. intros r. split.
  - intros (? & y & -> & <- & HK). by exists y.
  - intros (y & -> & HK). by exists [c], y.
Qed.

Lemma value_then n K c l :
  cat (value n) K (c :: l) <->
  (exists st, start c = Some st /\ cat (completes st) K l) \/
  exists n', n = S n' /\
    (c = 91 /\ (cat ws (lead 93 K) l \/ cat (elements n') (lead 93 K) l) \/
     c = 123 /\ (cat ws (lead 125 K) l \/ cat (members n') (lead 125 K) l)).
Proof.
  rewrite cat_cons. setoid_rewrite value_cons. setoid_rewrite scalar_cons. rewrite cat_or, !cat_ex.
  setoid_rewrite cat_and. setoid_rewrite cat_or. setoid_rewrite cat_and.
  setoid_rewrite bracketed. setoid_rewrite cat_or.
  pose proof (value_nil n). tauto.
Qed.

Lemma budget_S k n : budget k = S n <-> (S k <= maxNestingDepth)%nat /\ n = budget (S k).
Proof. unfold budget. lia. Qed.

(** At the start of a value. *)
Lemma value_start st k e c l :
  (length k <= maxNestingDepth)%nat ->
  cat ws (cat (value (budget (length k))) (tail k)) (c :: l) <->
  exists s', stateBeginValue (mkScanner st k e) c = Some s' /\ rest s' l.
Proof.
  intros Hk. rewrite cat_ws_cons, value_then. unfold stateBeginValue, goto, start. cbn [scan_stack scan_endTop].
  destruct (isSpace c) eqn:Hs.
  { rewrite accept_some. unfold rest; cbn [scan_step scan_stack].
    repeat case_match; codes; naive_solver classes. }
  setoid_rewrite budget_S. setoid_rewrite elements_rest. setoid_rewrite members_rest. unfold pushParseState.
  cbn [scan_stack scan_endTop].
  destruct (Z.eqb_spec c 123) as [->|H123].
  { case_bool_decide; rewrite ?accept_some, ?accept_none; cbn; naive_solver lia. }
  destruct (Z.eqb_spec c 91) as [->|H91].
  { case_bool_decide; rewrite ?accept_some, ?accept_none; cbn; naive_solver lia. }
  repeat case_match; rewrite ?accept_some, ?accept_none; cbn [rest scan_step scan_stack]; naive_solver.
Qed.

(** At the start of a key. *)
Lemma key_start st k e c l :
  cat ws (cat str (tail k)) (c :: l) <->
  exists s', stateBeginString (mkScanner st k e) c = Some s' /\ rest s' l.
Proof.
  rewrite cat_ws_cons, cat_cons. setoid_rewrite str_cons. rewrite cat_and. unfold stateBeginString, goto.
  cbn [scan_stack scan_endTop].
  assert (Hn : str [] <-> False) by (split; [by intros (? & ? & _)|done]). rewrite Hn.
  repeat case_match; codes; rewrite ?accept_some, ?accept_none; cbn [rest scan_step scan_stack completes]; naive_solver classes.
Qed.

(** Inside a scalar, and right behind it. *)
Lemma rest_scalar st k e l : in_scalar st = true \/ st = EndValue -> rest (mkScanner st k e) l <-> cat (completes st) (tail k) l.
Proof. by destruct st; intros [?| ?]. Qed.

Lemma inner_range st c st' : inner st c = Some st' -> in_scalar st' = true \/ st' = EndValue.
Proof. destruct st; cbn [inner]; repeat case_match; naive_solver. Qed.

Lemma scalar_step st k e c l :
  in_scalar st = true ->
  rest (mkScanner st k e) (c :: l) <-> exists s', scan1 (mkScanner st k e) c = Some s' /\ rest s' l.
Proof.
  intros Hi. rewrite scan1_scalar, rest_scalar, cat_cons, completes_nil by auto. cbn [scan_step].
  etransitivity; [apply or_iff_compat_l, cat_proper; [intros x; by apply completes_cons|done..]|].
  rewrite cat_ex. setoid_rewrite cat_and. destruct (inner st c) as [st'|] eqn:En.
  - unfold goto. cbn [scan_stack scan_endTop]. rewrite accept_some, rest_scalar by (by eapply inner_range).
    pose proof (final_stops st c st' k l). naive_solver.
  - destruct (final st); rewrite ?accept_none; [rewrite <- tail_cons|]; naive_solver.
Qed.

(** Reading a byte. *)
Lemma rest_cons s c l :
  scanner_ok s -> rest s (c :: l) <-> exists s', scan1 s c = Some s' /\ rest s' l.
Proof.
  destruct s as [st k e]. intros (Hk & _ & Hs). cbn [scan_step scan_stack scan_endTop] in *.
  destruct (in_scalar st) eqn:Hi; [by apply scalar_step|].
  destruct st; try done; unfold scan1; cbn [scan_step].
  - destruct k as [|[] k]; try done. unfold rest at 1. cbn [scan_step scan_stack List.tl].
    rewrite cat_ws_cons, lead_cons, (value_start BeginValueOrEmpty _ e) by done.
    destruct (isSpace c) eqn:Hsp.
    { unfold stateBeginValue, goto. rewrite Hsp, !accept_some. cbn. naive_solver classes. }
    destruct (Z.eqb_spec c 93) as [->|Hc]; [|naive_solver].
    unfold stateEndValue, stateBeginValue. cbn [scan_stack]. rewrite Hsp. cbn [Z.eqb Pos.eqb].
    rewrite rest_popped. cbn. naive_solver.
  - by apply value_start.
  - destruct k as [|[] k]; try done. unfold rest at 1. cbn [scan_step scan_stack List.tl].
    rewrite cat_ws_cons, lead_cons, (key_start BeginStringOrEmpty _ e) by done.
    destruct (isSpace c) eqn:Hsp.
    { unfold stateBeginString, goto. rewrite Hsp, !accept_some. cbn. naive_solver classes. }
    destruct (Z.eqb_spec c 125) as [->|Hc]; [|naive_solver].
    unfold stateEndValue, stateBeginString. cbn [scan_stack List.tl]. rewrite Hsp. cbn [Z.eqb Pos.eqb].
    rewrite rest_popped. cbn. naive_solver.
  - by apply key_start.
  - rewrite rest_ended. apply tail_cons.
  - destruct k; [|done]. unfold stateEndTop. rewrite rest_top, ws_cons.
    destruct (isSpace c); rewrite ?accept_some, ?accept_none, ?rest_top; naive_solver.
Qed.

(** ** The scanner accepts the grammar *)

Lemma stateEndValue_ok st k c s' :
  (length k <= maxNestingDepth)%nat -> stateEndValue (mkScanner st k false) c = Some s' -> scanner_ok s'.
Proof.
  intros Hk. unfold stateEndValue, stateEndTop, popParseState, goto. cbn [scan_stack scan_endTop].
  destruct k as [|p [|q k]]; repeat case_match; intros [= <-]; split_and!; simplify_eq/=; try naive_solver; lia.
Qed.

Lemma stateBeginValue_ok st k c s' :
  (length k <= maxNestingDepth)%nat -> stateBeginValue (mkScanner st k false) c = Some s' -> scanner_ok s'.
Proof.
  intros Hk. unfold stateBeginValue, pushParseState, goto. cbn [scan_stack scan_endTop].
  repeat case_match; intros [= <-]; split_and!; cbn in *; try naive_solver; codes; lia.
Qed.

(** Only [EndTop] is marked as the end. *)
Lemma scanner_ok_inv s :
  scanner_ok s ->
  (length (scan_stack s) <= maxNestingDepth)%nat /\
  (s = mkScanner EndTop [] true \/ scan_step s <> EndTop /\ s = mkScanner (scan_step s) (scan_stack s) false).
Proof.
  destruct s as [st k e]. intros (Hk & He & Hs). cbn in *. split; [done|].
  destruct e.
  - left. destruct st; try by destruct He as [He _]; specialize (He eq_refl). by destruct k.
  - right. split; [|done]. intros ->. destruct He as [_ He]. by specialize (He eq_refl).
Qed.

Lemma scan1_ok s c s' : scanner_ok s -> scan1 s c = Some s' -> scanner_ok s'.
Proof.
  intros Hok. destruct (scanner_ok_inv s Hok) as (Hk & [->|[Hne Es]]).
  { cbn. unfold stateEndTop. case_match; naive_solver. }
  destruct Hok as (_ & _ & Hs). destruct s as [st k e]. cbn [scan_step scan_stack] in *. injection Es as ->.
  destruct (in_scalar st) eqn:Hi.
  { rewrite scan1_scalar by done. cbn [scan_step]. destruct (inner st c) as [st'|] eqn:En.
    - intros [= <-]. split_and!; [done| |]; cbn; apply inner_range in En as [En| ->]; try done; by destruct st'.
    - destruct (final st); [by apply stateEndValue_ok|done]. }
  destruct st; try done; unfold scan1; cbn [scan_step].
  - destruct k as [|[] k]; try done. repeat case_match; [by intros [= <-]|by apply stateEndValue_ok|by apply stateBeginValue_ok].
  - by apply stateBeginValue_ok.
  - destruct k as [|[] k]; try done. cbn [scan_stack List.tl scan_endTop].
    repeat case_match; [by intros [= <-]|by apply stateEndValue_ok|].
    unfold stateBeginString, goto. repeat case_match; by intros [= <-].
  - destruct k as [|[] k]; try done. unfold stateBeginString, goto. repeat case_match; by intros [= <-].
  - by apply stateEndValue_ok.
Qed.

Lemma tail_nil k : tail k [] <-> k = [].
Proof.
  destruct k as [|[] k]; cbn [tail]; unfold after, colon; rewrite ?cat_nil; unfold lead; try naive_solver.
  split; [done|constructor].
Qed.

Lemma rest_nil s : scanner_ok s -> rest s [] <-> eof s = true.
Proof.
  intros Hok. destruct (scanner_ok_inv s Hok) as (Hk & [->|[Hne Es]]).
  { rewrite rest_top. split; [done|constructor]. }
  destruct Hok as (_ & _ & Hs). destruct s as [st k e]. cbn [scan_step scan_stack] in *. injection Es as ->.
  unfold eof. cbn [scan_endTop orb]. destruct (in_scalar st) eqn:Hi.
  { rewrite scan1_scalar, rest_scalar, cat_nil, completes_nil, tail_nil by auto. cbn [scan_step].
    destruct st, k; try done; cbn; naive_solver. }
  destruct st; try done.
  - destruct k as [|[] k]; try done. unfold rest. cbn. rewrite !cat_nil. unfold lead.
    pose proof (value_nil (budget (S (length k)))). naive_solver.
  - unfold rest. cbn. rewrite !cat_nil. pose proof (value_nil (budget (length k))). naive_solver.
  - destruct k as [|[] k]; try done. unfold rest. cbn. rewrite !cat_nil. unfold lead, str. naive_solver.
  - unfold rest. cbn. rewrite !cat_nil. unfold str. naive_solver.
  - rewrite rest_ended, tail_nil. destruct k; cbn; naive_solver.
Qed.

Lemma scan_rest l : forall s, scanner_ok s ->
  rest s (map byte.unsigned l) <-> exists s', scan s l = Some s' /\ eof s' = true.
Proof.
  induction l as [|b l IH]; intros s Hs; cbn [map scan].
  { rewrite rest_nil by done. naive_solver. }
  rewrite rest_cons by done. destruct (scan1 s (byte.unsigned b)) as [s1|] eqn:E; [|naive_solver].
  rewrite accept_some. apply IH. by eapply scan1_ok.
Qed.

(** The scanner accepts exactly the texts of the grammar within the limit. *)
Lemma json_Valid_text l : json_Valid l = true <-> text maxNestingDepth (map byte.unsigned l).
Proof.
  assert (Ht : forall x, text maxNestingDepth x <-> rest reset x).
  { intros x. unfold text, rest, reset, budget. cbn [scan_step scan_stack length tail]. by rewrite Nat.sub_0_r. }
  rewrite Ht, scan_rest.
  - unfold json_Valid. destruct (scan reset l); naive_solver.
  - split_and!; cbn; [lia|done..].
Qed.

(** A string of one byte that is no UTF-8. *)
Example not_utf8_accepted : text maxNestingDepth [34; 255; 34].
Proof. apply (json_Valid_text (bytes_of [34; 255; 34])). vm_compute. reflexivity. Qed.

End JsonGrammar.
