(* ===== verification/Base64.v ===== *)
(** * Base64: the [StdEncoding] of [encoding/base64]

    Encoding with padding, and Go's decoder: line ends are skipped, padding is
    required and must be followed by nothing else, unused bits of the last
    character are ignored. *)

From S2P Require Import Prelude GoRuntime.

Module Base64.

(** ** Encoding *)

(** The alphabet: A-Z a-z 0-9 + /. *)
Definition enc_char (v : Z) : Z :=
  if v <? 26 then 65 + v
  else if v <? 52 then 97 + (v - 26)
  else if v <? 62 then 48 + (v - 52)
  else if v =? 62 then 43 else 47.

Definition dec_char (c : Z) : option Z :=
  if (65 <=? c) && (c <=? 90) then Some (c - 65)
  else if (97 <=? c) && (c <=? 122) then Some (c - 97 + 26)
  else if (48 <=? c) && (c <=? 57) then Some (c - 48 + 52)
  else if c =? 43 then Some 62
  else if c =? 47 then Some 63
  else None.

Definition padChar : Z := 61.

(** The [i]-th group of six bits of 24 bits, most significant first. *)
Definition sextet (val i : Z) : Z := Z.land (Z.shiftr val (18 - 6 * i)) 0x3F.

Definition enc_byte (val i : Z) : byte := byte.of_Z (enc_char (sextet val i)).

Fixpoint Encode (src : list byte) : list byte :=
  match src with
  | [] => []
  | [a] =>
      let val := byte.unsigned a * 2 ^ 16 in
      [enc_byte val 0; enc_byte val 1; byte.of_Z padChar; byte.of_Z padChar]
  | [a; b] =>
      let val := byte.unsigned a * 2 ^ 16 + byte.unsigned b * 2 ^ 8 in
      [enc_byte val 0; enc_byte val 1; enc_byte val 2; byte.of_Z padChar]
  | a :: b :: c :: rest =>
      let val := byte.unsigned a * 2 ^ 16 + byte.unsigned b * 2 ^ 8 + byte.unsigned c in
      enc_byte val 0 :: enc_byte val 1 :: enc_byte val 2 :: enc_byte val 3 :: Encode rest
  end.

(** ** Decoding *)

Definition isNewline (c : Z) : bool := (c =? 10) || (c =? 13).

Fixpoint skip_newlines (src : list byte) : list byte :=
  match src with
  | c :: rest => if isNewline (byte.unsigned c) then skip_newlines rest else src
  | [] => []
  end.

(** The [n] first bytes of the 24 bits of up to four groups. *)
Definition quantum (n : nat) (digits : list Z) : list byte :=
  let val := nth 0 digits 0 * 2 ^ 18 + nth 1 digits 0 * 2 ^ 12 + nth 2 digits 0 * 2 ^ 6 + nth 3 digits 0 in
  take n [byte.of_Z (Z.shiftr val 16); byte.of_Z (Z.shiftr val 8); byte.of_Z val].

Definition CorruptInputError : error := StructError "base64.CorruptInputError" [].

(** [DecodeString]; [digits] are the groups of the quantum read so far. *)
Fixpoint decode_from (digits : list Z) (src : list byte) : option (list byte) :=
  match src with
  | [] => match digits with [] => Some [] | _ => None end
  | c :: rest =>
      let c := byte.unsigned c in
      match dec_char c with
      | Some v =>
          match digits with
          | [_; _; _] => app (quantum 3 (digits ++ [v])) <$> decode_from [] rest
          | _ => decode_from (digits ++ [v]) rest
          end
      | None =>
          if isNewline c then decode_from digits rest
          else if negb (c =? padChar) then None
          else match digits with
               | [_; _] =>
                   match skip_newlines rest with
                   | p :: rest =>
                       if (byte.unsigned p =? padChar) && bool_decide (skip_newlines rest = [])
                       then Some (quantum 1 digits) else None
                   | [] => None
                   end
               | [_; _; _] =>
                   if bool_decide (skip_newlines rest = []) then Some (quantum 2 digits) else None
               | _ => None
               end
      end
  end.

Definition DecodeString (src : list byte) : result (list byte) :=
  match decode_from [] src with
  | Some l => Ok l
  | None => Err CorruptInputError
  end.

(** [DecodedLen]: the size of the buffer a decoder needs. *)
Definition DecodedLen (n : nat) : nat := (n / 4 * 3)%nat.

(** ** Lemmas *)

Definition sextets : list Z := map Z.of_nat (seq 0 64).

Lemma in_sextets v : 0 <= v < 64 -> In v sextets.
Proof. intros. unfold sextets. apply in_map_iff. exists (Z.to_nat v). rewrite in_seq. lia. Qed.

Lemma dec_enc_char v : 0 <= v < 64 -> dec_char (enc_char v) = Some v.
Proof.
  intros Hv%in_sextets.
  assert (H : forallb (fun v => bool_decide (dec_char (enc_char v) = Some v)) sextets = true)
    by (vm_compute; reflexivity).
  rewrite forallb_forall in H. specialize (H v Hv). by apply bool_decide_eq_true in H.
Qed.

Lemma enc_char_range v : 0 <= v < 64 -> 43 <= enc_char v < 123.
Proof.
  intros Hv. unfold enc_char.
  destruct (Z.ltb_spec v 26), (Z.ltb_spec v 52), (Z.ltb_spec v 62), (Z.eqb_spec v 62); lia.
Qed.

Lemma sextet_range val i : 0 <= sextet val i < 64.
Proof.
  unfold sextet. change 0x3F with (Z.ones 6). rewrite Z.land_ones by lia.
  apply Z.mod_pos_bound. lia.
Qed.

Lemma sextet_div val i : 0 <= i <= 3 -> sextet val i = val / 2 ^ (18 - 6 * i) mod 64.
Proof.
  intros Hi. unfold sextet. change 0x3F with (Z.ones 6). rewrite Z.land_ones by lia.
  by rewrite Z.shiftr_div_pow2 by lia.
Qed.

Lemma unsigned_enc_byte val i : byte.unsigned (enc_byte val i) = enc_char (sextet val i).
Proof.
  unfold enc_byte. rewrite byte.unsigned_of_Z. unfold byte.wrap.
  pose proof (enc_char_range _ (sextet_range val i)). apply Z.mod_small. lia.
Qed.

Lemma dec_enc_byte val i : dec_char (byte.unsigned (enc_byte val i)) = Some (sextet val i).
Proof. rewrite unsigned_enc_byte. apply dec_enc_char, sextet_range. Qed.

Lemma of_Z_eq z b : z mod 256 = byte.unsigned b -> byte.of_Z z = b.
Proof.
  intros H. rewrite <- (byte.of_Z_unsigned b), <- H.
  apply byte.unsigned_inj. rewrite !byte.unsigned_of_Z. unfold byte.wrap.
  by rewrite Z.mod_mod.
Qed.

(** Reading the groups of 24 bits back. *)
Lemma quantum_sextets n val a b c rest :
  val = byte.unsigned a * 2 ^ 16 + byte.unsigned b * 2 ^ 8 + byte.unsigned c ->
  rest = [] \/ rest = [sextet val 3] ->
  (n = 3%nat -> rest = [sextet val 3]) -> (n <= 3)%nat ->
  quantum n (sextet val 0 :: sextet val 1 :: sextet val 2 :: rest) = take n [a; b; c].
Proof.
  intros Hval Hrest Hn H3.
  pose proof (unsigned_range_256 a). pose proof (unsigned_range_256 b). pose proof (unsigned_range_256 c).
  pose proof (sextet_div val 0 ltac:(lia)) as E0. pose proof (sextet_div val 1 ltac:(lia)) as E1.
  pose proof (sextet_div val 2 ltac:(lia)) as E2. pose proof (sextet_div val 3 ltac:(lia)) as E3.
  change (18 - 6 * 0) with 18 in E0. change (18 - 6 * 1) with 12 in E1.
  change (18 - 6 * 2) with 6 in E2. change (18 - 6 * 3) with 0 in E3.
  unfold quantum.
  set (v := nth 0 _ 0 * 2 ^ 18 + _ + _ + _).
  assert (Hv : v / 64 = val / 64 /\ (rest = [sextet val 3] -> v = val)).
  { subst v. cbn [nth]. rewrite E0, E1, E2.
    destruct Hrest as [-> | ->]; cbn [nth]; rewrite ?E3; split; try done; intros;
      Z.to_euclidean_division_equations; lia. }
  destruct Hv as [Hv Hv3]. clearbody v.
  assert (H16 : Z.shiftr v 16 mod 256 = byte.unsigned a /\ Z.shiftr v 8 mod 256 = byte.unsigned b).
  { rewrite !Z.shiftr_div_pow2 by lia. clear E0 E1 E2 E3 Hv3 Hn.
    Z.to_euclidean_division_equations. lia. }
  rewrite (of_Z_eq _ a), (of_Z_eq _ b) by tauto.
  destruct n as [|[|[|[|n]]]]; try reflexivity; [|lia].
  rewrite (of_Z_eq v c); [done|]. rewrite Hv3 by auto. subst val. Z.to_euclidean_division_equations. lia.
Qed.

Lemma list_ind3 {A} (P : list A -> Prop) :
  P [] -> (forall a, P [a]) -> (forall a b, P [a; b]) ->
  (forall a b c l, P l -> P (a :: b :: c :: l)) -> forall l, P l.
Proof.
  intros H0 H1 H2 H3. fix IH 1. intros [|a [|b [|c l]]]; [exact H0|exact (H1 a)|exact (H2 a b)|].
  apply H3, IH.
Qed.

(** Decoding what was encoded gives the bytes back. *)
Lemma decode_Encode l : decode_from [] (Encode l) = Some l.
Proof.
  assert (Z0 : byte.unsigned (byte.of_Z 0) = 0) by reflexivity.
  induction l as [|a|a b|a b c l IH] using list_ind3; [done|..]; cbn [Encode decode_from];
    rewrite !dec_enc_byte; cbn [app].
  - pose proof (unsigned_range_256 a).
    assert (E : sextet (byte.unsigned a * 2 ^ 16) 2 = 0).
    { rewrite sextet_div by lia. Z.to_euclidean_division_equations. lia. }
    pose proof (quantum_sextets 1 (byte.unsigned a * 2 ^ 16) a (byte.of_Z 0) (byte.of_Z 0) []) as Hq.
    rewrite E in Hq. cbn [dec_char]. simpl. f_equal. apply Hq; auto; rewrite ?Z0; lia.
  - pose proof (quantum_sextets 2 (byte.unsigned a * 2 ^ 16 + byte.unsigned b * 2 ^ 8) a b (byte.of_Z 0) []) as Hq.
    simpl. f_equal. apply Hq; auto; rewrite ?Z0; lia.
  - rewrite IH.
    pose proof (quantum_sextets 3 (byte.unsigned a * 2 ^ 16 + byte.unsigned b * 2 ^ 8 + byte.unsigned c)
      a b c [sextet (byte.unsigned a * 2 ^ 16 + byte.unsigned b * 2 ^ 8 + byte.unsigned c) 3]) as Hq.
    by rewrite Hq; auto.
Qed.

(** The encoding consists of printable characters that need no escape. *)
Definition is_b64 (c : Z) : bool := bool_decide (is_Some (dec_char c)) || (c =? padChar).

Lemma Encode_alphabet l : Forall (fun c => is_b64 (byte.unsigned c) = true) (Encode l).
Proof.
  assert (He : forall val i, is_b64 (byte.unsigned (enc_byte val i)) = true).
  { intros. unfold is_b64. rewrite dec_enc_byte, bool_decide_true by eauto. done. }
  induction l as [|a|a b|a b c l IH] using list_ind3; cbn [Encode]; repeat (constructor; [by auto|]);
    auto using Forall_nil.
Qed.

Lemma length_Encode l : length (Encode l) = (4 * ((length l + 2) / 3))%nat.
Proof.
  induction l as [|a|a b|a b c l IH] using list_ind3; [done..|]. cbn [Encode length]. rewrite IH.
  replace (S (S (S (length l))) + 2)%nat with (length l + 2 + 1 * 3)%nat by lia.
  rewrite Nat.div_add by lia. lia.
Qed.

Example encode_words : Encode (bytes_of_string "light wo") = bytes_of_string "bGlnaHQgd28=".
Proof. vm_compute. reflexivity. Qed.

Example decode_broken : DecodeString (bytes_of_string "bGlnaHQgd28") = Err CorruptInputError.
Proof. vm_compute. reflexivity. Qed.

End Base64.
