(* ===== verification/JsonTree.v ===== *)
(** * JSON texts as trees

    The scanner of [encoding/json] tells its caller, byte by byte, where
    literals, arrays and objects begin and end; the decoder follows these
    codes.  Here the codes build the tree of the text, and printing a tree is
    its inverse.  Literals are kept as the bytes of the text. *)

From S2P Require Import Prelude GoRuntime JsonScan.
Import JsonScan.

Module JsonTree.

(** ** Trees *)

#[local] Unset Elimination Schemes.

Inductive json :=
| JLit (raw : list byte)
| JArr (elems : list json)
| JObj (members : list (list byte * json)).

#[local] Set Elimination Schemes.

Lemma json_ind (P : json -> Prop)
  (HLit : forall raw, P (JLit raw))
  (HArr : forall elems, Forall P elems -> P (JArr elems))
  (HObj : forall members, Forall (fun kv => P kv.2) members -> P (JObj members)) : forall j, P j.
Proof.
  fix IH 1. intros [raw|elems|members]; [apply HLit|apply HArr|apply HObj].
  - induction elems; constructor; [apply IH|assumption].
  - induction members as [|[k v] ms IHms]; constructor; [apply IH|assumption].
Qed.

(** ** Scan codes *)

Inductive opcode :=
| scanContinue | scanBeginLiteral | scanBeginObject | scanObjectKey | scanObjectValue
| scanEndObject | scanBeginArray | scanArrayValue | scanEndArray | scanSkipSpace.

Definition begin_op (c : Z) : opcode :=
  if isSpace c then scanSkipSpace
  else if c =? 123 then scanBeginObject
  else if c =? 91 then scanBeginArray
  else scanBeginLiteral.

Definition end_op (stack : list parse_state) (c : Z) : opcode :=
  if isSpace c then scanSkipSpace
  else match stack with
       | [] => scanSkipSpace
       | ObjectKey :: _ => scanObjectKey
       | ObjectValue :: _ => if c =? 44 then scanObjectValue else scanEndObject
       | ArrayValue :: _ => if c =? 44 then scanArrayValue else scanEndArray
       end.

(** The code [s.step(s, c)] returns where [scan1 s c] does not fail. *)
Definition op (s : scanner) (c : Z) : opcode :=
  match scan_step s with
  | BeginValueOrEmpty =>
      if isSpace c then scanSkipSpace else if c =? 93 then scanEndArray else begin_op c
  | BeginValue => begin_op c
  | BeginStringOrEmpty =>
      if isSpace c then scanSkipSpace else if c =? 125 then scanEndObject else scanBeginLiteral
  | BeginString => if isSpace c then scanSkipSpace else scanBeginLiteral
  | EndValue => end_op (scan_stack s) c
  | EndTop => scanSkipSpace
  | State1 =>
      if isDigit c || (c =? 46) || (c =? 101) || (c =? 69) then scanContinue else end_op (scan_stack s) c
  | State0 => if (c =? 46) || (c =? 101) || (c =? 69) then scanContinue else end_op (scan_stack s) c
  | Dot0 => if isDigit c || (c =? 101) || (c =? 69) then scanContinue else end_op (scan_stack s) c
  | E0 => if isDigit c then scanContinue else end_op (scan_stack s) c
  | _ => scanContinue
  end.

(** ** Building the tree *)

(** An open array or object; an object whose last key waits for its value. *)
Inductive frame :=
| FArr (elems : list json)
| FObj (members : list (list byte * json)) (key : option (list byte)).

Record builder := mkBuilder { frames : list frame; cur : option json }.

Definition act (o : opcode) (c : byte) (b : builder) : option builder :=
  match o, frames b, cur b with
  | scanSkipSpace, _, _ => Some b
  | scanBeginLiteral, fs, _ => Some (mkBuilder fs (Some (JLit [c])))
  | scanContinue, fs, Some (JLit raw) => Some (mkBuilder fs (Some (JLit (raw ++ [c]))))
  | scanBeginObject, fs, _ => Some (mkBuilder (FObj [] None :: fs) None)
  | scanBeginArray, fs, _ => Some (mkBuilder (FArr [] :: fs) None)
  | scanObjectKey, FObj ms None :: fs, Some (JLit k) => Some (mkBuilder (FObj ms (Some k) :: fs) None)
  | scanObjectValue, FObj ms (Some k) :: fs, Some v => Some (mkBuilder (FObj (ms ++ [(k, v)]) None :: fs) None)
  | scanEndObject, FObj ms (Some k) :: fs, Some v => Some (mkBuilder fs (Some (JObj (ms ++ [(k, v)]))))
  | scanEndObject, FObj ms None :: fs, None => Some (mkBuilder fs (Some (JObj ms)))
  | scanArrayValue, FArr es :: fs, Some v => Some (mkBuilder (FArr (es ++ [v]) :: fs) None)
  | scanEndArray, FArr es :: fs, Some v => Some (mkBuilder fs (Some (JArr (es ++ [v]))))
  | scanEndArray, FArr es :: fs, None => Some (mkBuilder fs (Some (JArr es)))
  | _, _, _ => None
  end.

Fixpoint build (s : scanner) (b : builder) (l : list byte) : option (scanner * builder) :=
  match l with
  | [] => Some (s, b)
  | c :: rest =>
      match scan1 s (byte.unsigned c) with
      | None => None
      | Some s' =>
          match act (op s (byte.unsigned c)) c b with
          | None => None
          | Some b' => build s' b' rest
          end
      end
  end.

(** The tree of a valid text. *)
Definition json_tree (l : list byte) : option json :=
  match build reset (mkBuilder [] None) l with
  | Some (s, b) => if eof s then cur b else None
  | None => None
  end.

(** ** Printing *)

Definition chr (c : Z) : byte := byte.of_Z c.

Fixpoint sep_concat (ls : list (list byte)) : list byte :=
  match ls with
  | [] => []
  | [l] => l
  | l :: rest => l ++ chr 44 :: sep_concat rest
  end.

Fixpoint print (j : json) : list byte :=
  match j with
  | JLit raw => raw
  | JArr elems => chr 91 :: sep_concat (map print elems) ++ [chr 93]
  | JObj members =>
      chr 123 :: sep_concat (map (fun kv => kv.1 ++ chr 58 :: print kv.2) members) ++ [chr 125]
  end.

(** ** The builder follows the scanner *)

Definition matching (p : parse_state) (f : frame) : Prop :=
  match p, f with
  | ArrayValue, FArr _ | ObjectKey, FObj _ None | ObjectValue, FObj _ (Some _) => True
  | _, _ => False
  end.

Definition is_lit (v : option json) : Prop := exists raw, v = Some (JLit raw).

Definition is_key (stk : list parse_state) : Prop := exists rest, stk = ObjectKey :: rest.

(** What the builder holds at each step of the scanner. *)
Definition holding (st : step) (stk : list parse_state) (v : option json) : Prop :=
  match st with
  | BeginValue => v = None /\ ~ is_key stk
  | BeginValueOrEmpty => v = None /\ exists rest, stk = ArrayValue :: rest
  | BeginString | BeginStringOrEmpty => v = None /\ is_key stk
  | EndValue => is_Some v /\ (is_key stk -> is_lit v)
  | EndTop => is_Some v /\ stk = []
  | _ => is_lit v
  end.

Record follows (s : scanner) (b : builder) : Prop := {
  follows_frames : Forall2 matching (scan_stack s) (frames b);
  follows_values : Forall (fun p => p <> ObjectKey) (tail (scan_stack s));
  follows_holding : holding (scan_step s) (scan_stack s) (cur b);
  follows_top : scan_endTop s = true -> scan_step s = EndTop
}.

Lemma nokey_tail stk : Forall (fun p => p <> ObjectKey) stk -> ~ is_key stk.
Proof. intros H [rest ->]. apply Forall_cons_iff in H. tauto. Qed.

(** The end of a composite value. *)
Lemma pop_follows st p stk fs v s' :
  Forall2 matching stk fs -> Forall (fun p => p <> ObjectKey) stk ->
  popParseState (mkScanner st (p :: stk) false) = Some s' -> follows s' (mkBuilder fs (Some v)).
Proof.
  intros Hf Hv. unfold popParseState; cbn [scan_stack tail].
  destruct stk as [|q stk]; intros [= <-].
  { split; cbn; auto. }
  pose proof (nokey_tail _ Hv) as Hk. apply Forall_cons_iff in Hv as [_ Hv].
  split; cbn; auto; done.
Qed.

(** The end of a value, whatever kind of value it is. *)
Lemma end_follows st stk b c c' s' v :
  Forall2 matching stk (frames b) -> Forall (fun p => p <> ObjectKey) (tail stk) ->
  cur b = Some v -> (is_key stk -> is_lit (cur b)) ->
  stateEndValue (mkScanner st stk false) c = Some s' ->
  exists b', act (end_op stk c) c' b = Some b' /\ follows s' b'.
Proof.
  destruct b as [fs cu]; cbn [frames cur]. intros Hf Hv -> Hk. unfold stateEndValue, end_op; cbn [scan_stack].
  destruct stk as [|p stk].
  { unfold stateEndTop. destruct (isSpace c); [|done]. intros [= <-]. eexists; split; [done|].
    split; cbn; auto. }
  destruct (isSpace c) eqn:Hsp.
  { intros [= <-]. eexists; split; [done|]. split; cbn; auto; done. }
  apply Forall2_cons_inv_l in Hf as (f & fs' & Hpf & Hf & ->). cbn [tail] in Hv.
  destruct p, f as [es|ms [k|]]; cbn in Hpf; try done.
  - destruct (c =? 58); [|done]. intros [= <-]. destruct (Hk ltac:(by eexists)) as [raw [= ->]].
    eexists; split; [done|]. split; cbn; try done; [by constructor|].
    split; [done|]. by intros [? [=]].
  - destruct (c =? 44).
    + intros [= <-]. eexists; split; [done|]. split; cbn; try done; [by constructor|]. split; [done|by eexists].
    + destruct (c =? 125); [|done]. intros Hp. eexists; split; [done|]. by eapply (pop_follows EndValue ArrayValue).
  - destruct (c =? 44).
    + intros [= <-]. eexists; split; [done|]. split; cbn; try done; [by constructor|].
      split; [done|]. by intros [? [=]].
    + destruct (c =? 93); [|done]. intros Hp. eexists; split; [done|]. by eapply (pop_follows EndValue ArrayValue).
Qed.

(** The beginning of a value. *)
Lemma begin_follows st stk fs c c' s' :
  Forall2 matching stk fs -> Forall (fun p => p <> ObjectKey) stk ->
  stateBeginValue (mkScanner st stk false) c = Some s' ->
  exists b', act (begin_op c) c' (mkBuilder fs None) = Some b' /\ follows s' b'.
Proof.
  intros Hf Hv. unfold stateBeginValue, begin_op, pushParseState, goto; cbn [scan_stack scan_endTop].
  assert (Ht : Forall (fun p => p <> ObjectKey) (tail stk)) by (destruct Hv; by auto).
  destruct (isSpace c).
  { intros [= <-]. eexists; split; [done|]. split; cbn; try done. split; [done|by apply nokey_tail]. }
  destruct (c =? 123).
  { case_bool_decide; [|done]. intros [= <-]. eexists; split; [done|].
    split; cbn; try done; [by constructor|]. split; [done|by eexists]. }
  destruct (c =? 91).
  { case_bool_decide; [|done]. intros [= <-]. eexists; split; [done|].
    split; cbn; try done; [by constructor|]. split; [done|by eexists]. }
  intros H. eexists; split; [done|].
  repeat case_match; simplify_eq/=; split; cbn; try done; by eexists.
Qed.

(** A byte that continues a literal. *)
Lemma continue_follows st stk fs raw c' :
  Forall2 matching stk fs -> Forall (fun p => p <> ObjectKey) (tail stk) ->
  (forall v, is_lit v -> holding st stk v) -> st <> EndTop ->
  exists b', act scanContinue c' (mkBuilder fs (Some (JLit raw))) = Some b' /\
    follows (mkScanner st stk false) b'.
Proof. intros Hf Hv Hh Hst. eexists; split; [done|]. split; cbn; try done. apply Hh. by eexists. Qed.

Lemma lit_holding_end stk v : is_lit v -> holding EndValue stk v.
Proof. intros [raw ->]. split; [done|intros _; by eexists]. Qed.

(** A step inside a literal either continues it or ends it. *)
Ltac continue_step :=
  let E := fresh "E" in
  intros E; repeat (case_match; simplify_eq/=);
  first
    [ apply continue_follows; [done|done|first [apply lit_holding_end|intros ? Hl; exact Hl]|done]
    | eapply (end_follows EndValue); [done|done|reflexivity|intros _; by eexists|exact E] ].

(** One byte: if the scanner goes on, so does the builder. *)
Lemma step_follows s b c c' s' :
  follows s b -> scan1 s c = Some s' ->
  exists b', act (op s c) c' b = Some b' /\ follows s' b'.
Proof.
  destruct s as [st stk et], b as [fs v]. intros [Hf Hv Hh Ht]; cbn [scan_stack frames scan_step cur scan_endTop] in *.
  assert (Het : st <> EndTop -> et = false) by (destruct et; [intros []; auto|done]).
  unfold scan1, op, state0, stateESign, expect, goto; cbn [scan_step scan_stack scan_endTop].
  destruct st; try (rewrite (Het ltac:(done)) in *); cbn [holding] in Hh; clear Ht Het.
  all: try (destruct Hh as [raw ->]; continue_step).
  - (* BeginValueOrEmpty *) destruct Hh as [-> [rest ->]]; cbn [tail] in *.
    apply Forall2_cons_inv_l in Hf as (f & fs' & Hpf & Hf & ->). destruct f as [es|]; [|done].
    destruct (isSpace c) eqn:Hs.
    { intros [= <-]. eexists; split; [done|]. split; cbn; try done; [by constructor|]. split; [done|by eexists]. }
    destruct (c =? 93) eqn:Hc.
    + unfold stateEndValue; cbn [scan_stack]. rewrite Hs. apply Z.eqb_eq in Hc as ->.
      intros Hp. eexists; split; [done|]. by eapply (pop_follows EndValue ArrayValue).
    + intros Hb. eapply (begin_follows BeginValue); [..|exact Hb]; [by constructor|by constructor].
  - (* BeginValue *) destruct Hh as [-> Hk]. intros Hb. eapply (begin_follows BeginValue); [done| |exact Hb].
    destruct stk as [|p stk]; constructor; [|done]. intros ->. apply Hk. by eexists.
  - (* BeginStringOrEmpty *) destruct Hh as [-> [rest ->]]; cbn [tail] in *.
    apply Forall2_cons_inv_l in Hf as (f & fs' & Hpf & Hf & ->). destruct f as [|ms [k|]]; try done.
    destruct (isSpace c) eqn:Hs.
    { intros [= <-]. eexists; split; [done|]. split; cbn; try done; [by constructor|]. split; [done|by eexists]. }
    destruct (c =? 125) eqn:Hc.
    + unfold stateEndValue; cbn [scan_stack]. rewrite Hs. apply Z.eqb_eq in Hc as ->.
      intros Hp. eexists; split; [done|]. by eapply (pop_follows EndValue ArrayValue).
    + unfold stateBeginString, goto; cbn [scan_stack scan_endTop]. rewrite Hs. destruct (c =? 34); [|done].
      intros [= <-]. eexists; split; [done|]. split; cbn; try done; [by constructor|by eexists].
  - (* BeginString *) destruct Hh as [-> [rest ->]]; cbn [tail] in *.
    unfold stateBeginString, goto; cbn [scan_stack scan_endTop]. destruct (isSpace c).
    { intros [= <-]. eexists; split; [done|]. split; cbn; try done. split; [done|by eexists]. }
    destruct (c =? 34); [|done].
    intros [= <-]. eexists; split; [done|]. split; cbn; try done. by eexists.
  - (* EndValue *) destruct Hh as [[x ->] Hk]. by eapply (end_follows EndValue).
  - (* EndTop *) destruct Hh as [[x ->] ->]. unfold stateEndTop. destruct (isSpace c); [|done].
    intros [= <-]. eexists; split; [done|]. by split.
Qed.

Lemma build_app s b l1 l2 :
  build s b (l1 ++ l2) = '(s', b') ← build s b l1; build s' b' l2.
Proof.
  revert s b. induction l1 as [|c l1 IH]; intros s b; cbn [build app]; [done|].
  destruct (scan1 _ _); [|done]. destruct (act _ _ _); [|done]. apply IH.
Qed.

Lemma build_scan l : forall s b s' b', build s b l = Some (s', b') -> scan s l = Some s'.
Proof.
  induction l as [|c l IH]; cbn [build scan]; intros s b s' b'.
  - by intros [= -> _].
  - destruct (scan1 _ _); [|done]. destruct (act _ _ _); [|done]. apply IH.
Qed.

Lemma build_follows l : forall s b s',
  follows s b -> scan s l = Some s' -> exists b', build s b l = Some (s', b') /\ follows s' b'.
Proof.
  induction l as [|c l IH]; cbn [build scan]; intros s b s' Hf.
  - intros [= <-]. eauto.
  - destruct (scan1 _ _) as [s1|] eqn:E; [|done]. intros Hs.
    destruct (step_follows _ _ _ c _ Hf E) as (b' & -> & Hf'). eauto.
Qed.

Lemma follows_reset : follows reset (mkBuilder [] None).
Proof. split; cbn; try done. split; [done|]. by intros [? [=]]. Qed.

Lemma eof_cur s b : follows s b -> eof s = true -> is_Some (cur b).
Proof.
  destruct s as [st stk et], b as [fs v]. intros [_ _ Hh Ht]; cbn in Hh, Ht |- *. unfold eof; cbn.
  destruct et; cbn [orb].
  { rewrite (Ht eq_refl) in Hh. by destruct Hh. }
  destruct st; cbn in Hh |- *; try done.
  all: try (destruct Hh as [raw ->]; done).
  by destruct Hh.
Qed.

(** The texts with a tree are the valid ones. *)
Lemma json_Valid_tree l : json_Valid l = true <-> is_Some (json_tree l).
Proof.
  unfold json_Valid, json_tree. split.
  - destruct (scan reset l) as [s|] eqn:E; [|done]. intros Heof.
    destruct (build_follows _ _ _ _ follows_reset E) as (b & -> & Hf). rewrite Heof. by eapply eof_cur.
  - destruct (build _ _ l) as [[s b]|] eqn:E; [|by intros []].
    rewrite (build_scan _ _ _ _ _ E). destruct (eof s); [done|by intros []].
Qed.

(** ** Printing and building *)

(** The steps after which a literal may end. *)
Definition ready (st : step) : bool :=
  match st with
  | EndValue | State1 | State0 | Dot0 | E0 => true
  | _ => false
  end.

(** The scanner after a value inside [stk]. *)
Definition settled (stk : list parse_state) (s : scanner) : Prop :=
  (ready (scan_step s) = true /\ scan_stack s = stk /\ scan_endTop s = false) \/
  (stk = [] /\ s = mkScanner EndTop [] true).

Definition head_ok (raw : list byte) : Prop :=
  match raw with
  | [] => False
  | c :: _ => isSpace (byte.unsigned c) = false /\ byte.unsigned c <> 93 /\ byte.unsigned c <> 125
  end.

(** A literal the scanner reads as one value, from step [st]. *)
Definition lit_from (st : step) (raw : list byte) : Prop :=
  head_ok raw /\
  forall stk fs, exists s, settled stk s /\ scan_endTop s = false /\
    build (mkScanner st stk false) (mkBuilder fs None) raw = Some (s, mkBuilder fs (Some (JLit raw))).

Definition lit_ok (raw : list byte) : Prop := lit_from BeginValue raw.
Definition key_ok (raw : list byte) : Prop := lit_from BeginString raw.

Fixpoint wf (j : json) : Prop :=
  match j with
  | JLit raw => lit_ok raw
  | JArr elems => foldr (fun e P => wf e /\ P) True elems
  | JObj members => foldr (fun kv P => (key_ok kv.1 /\ wf kv.2) /\ P) True members
  end.

Fixpoint depth (j : json) : nat :=
  match j with
  | JLit _ => 0
  | JArr elems => S (foldr (fun e n => Nat.max (depth e) n) 0%nat elems)
  | JObj members => S (foldr (fun kv n => Nat.max (depth kv.2) n) 0%nat members)
  end.

(** After a value inside a bracket, a delimiter is read by [stateEndValue]. *)
Lemma settled_end p stk s c :
  settled (p :: stk) s -> c ∈ [44; 58; 93; 125] ->
  scan1 s c = stateEndValue (mkScanner EndValue (p :: stk) false) c /\ op s c = end_op (p :: stk) c.
Proof.
  destruct s as [st stk' et]. intros [(Hr & Hs & Ht)|[[=] _]] Hc; cbn in Hr, Hs, Ht; subst.
  assert (Hc' : c = 44 \/ c = 58 \/ c = 93 \/ c = 125).
  { rewrite !elem_of_cons, elem_of_nil in Hc. tauto. }
  destruct st; try done; destruct Hc' as [->|[->|[->| ->]]]; destruct p; split; reflexivity.
Qed.

(** The first element, or key, of a bracket. *)
Lemma build_first_value stk b l :
  head_ok l -> build (mkScanner BeginValueOrEmpty stk false) b l = build (mkScanner BeginValue stk false) b l.
Proof.
  destruct l as [|c l]; [done|]. intros (Hs & H93 & _). apply Z.eqb_neq in H93. cbn [build].
  assert (scan1 (mkScanner BeginValueOrEmpty stk false) (byte.unsigned c) =
          scan1 (mkScanner BeginValue stk false) (byte.unsigned c)) as ->.
  { unfold scan1; cbn [scan_step]. rewrite Hs, H93. unfold stateBeginValue. by rewrite Hs. }
  unfold op; cbn [scan_step]. by rewrite Hs, H93.
Qed.

Lemma build_first_key stk b l :
  head_ok l -> build (mkScanner BeginStringOrEmpty stk false) b l = build (mkScanner BeginString stk false) b l.
Proof.
  destruct l as [|c l]; [done|]. intros (Hs & _ & H125). apply Z.eqb_neq in H125. cbn [build].
  assert (scan1 (mkScanner BeginStringOrEmpty stk false) (byte.unsigned c) =
          scan1 (mkScanner BeginString stk false) (byte.unsigned c)) as ->.
  { unfold scan1; cbn [scan_step]. rewrite Hs, H125. unfold stateBeginString. by rewrite Hs. }
  unfold op; cbn [scan_step]. by rewrite Hs, H125.
Qed.

(** What printing promises of a tree: it is built again, inside any brackets. *)
Definition prints (j : json) : Prop :=
  forall stk fs, (length stk + depth j <= maxNestingDepth)%nat ->
  exists s, settled stk s /\
    build (mkScanner BeginValue stk false) (mkBuilder fs None) (print j) = Some (s, mkBuilder fs (Some j)).

Definition popped (stk : list parse_state) : scanner :=
  match stk with
  | [] => mkScanner EndTop [] true
  | _ => mkScanner EndValue stk false
  end.

Lemma settled_popped stk : settled stk (popped stk).
Proof. destruct stk; [by right|by left]. Qed.

Lemma head_ok_print j : wf j -> head_ok (print j).
Proof. destruct j; cbn; [by intros []|done|done]. Qed.

Lemma head_ok_app l1 l2 : head_ok l1 -> head_ok (l1 ++ l2).
Proof. by destruct l1. Qed.

Lemma unsigned_chr c : 0 <= c < 256 -> byte.unsigned (chr c) = c.
Proof. intros. unfold chr. rewrite byte.unsigned_of_Z. unfold byte.wrap. by apply Z.mod_small. Qed.

(** A delimiter after a value. *)
Lemma build_delim p stk s c fs v l s' b' :
  settled (p :: stk) s -> c ∈ [44; 58; 93; 125] ->
  stateEndValue (mkScanner EndValue (p :: stk) false) c = Some s' ->
  act (end_op (p :: stk) c) (chr c) (mkBuilder fs v) = Some b' ->
  build s (mkBuilder fs v) (chr c :: l) = build s' b' l.
Proof.
  intros Hs Hc Hst Ha. cbn [build].
  rewrite unsigned_chr by (rewrite !elem_of_cons, elem_of_nil in Hc; lia).
  destruct (settled_end _ _ _ _ Hs Hc) as [-> ->]. by rewrite Hst, Ha.
Qed.

Lemma elems_build stk fs elems : forall done,
  elems <> [] -> Forall prints elems ->
  (forall e, e ∈ elems -> S (length stk) + depth e <= maxNestingDepth)%nat ->
  build (mkScanner BeginValue (ArrayValue :: stk) false) (mkBuilder (FArr done :: fs) None)
    (sep_concat (map print elems) ++ [chr 93]) =
  Some (popped stk, mkBuilder fs (Some (JArr (done ++ elems)))).
Proof.
  induction elems as [|e elems IH]; [done|]. intros done _ [Hp Hps]%Forall_cons_iff Hd.
  destruct (Hp (ArrayValue :: stk) (FArr done :: fs)) as (s & Hs & Hb); [apply Hd; set_solver|].
  destruct elems as [|e' elems].
  - cbn [map sep_concat]. rewrite build_app, Hb. cbn [mbind option_bind].
    erewrite (build_delim _ _ _ _ _ _ [] (popped stk)); [done|exact Hs|set_solver|by destruct stk|done].
  - cbn [map sep_concat]. rewrite <-app_assoc, build_app, Hb. cbn [mbind option_bind app].
    erewrite build_delim; [|exact Hs|set_solver|reflexivity|reflexivity].
    etransitivity; [apply (IH (done ++ [e])); [done|done|]|by rewrite <-app_assoc].
    intros x Hx. apply Hd. set_solver.
Qed.

Lemma members_build stk fs members : forall done,
  members <> [] -> Forall (fun kv => key_ok kv.1 /\ prints kv.2) members ->
  (forall kv, kv ∈ members -> S (length stk) + depth kv.2 <= maxNestingDepth)%nat ->
  build (mkScanner BeginString (ObjectKey :: stk) false) (mkBuilder (FObj done None :: fs) None)
    (sep_concat (map (fun kv => kv.1 ++ chr 58 :: print kv.2) members) ++ [chr 125]) =
  Some (popped stk, mkBuilder fs (Some (JObj (done ++ members)))).
Proof.
  induction members as [|[k v] members IH]; [done|].
  intros done _ [[[_ Hk] Hp] Hps]%Forall_cons_iff Hd; cbn [fst snd] in *.
  destruct (Hk (ObjectKey :: stk) (FObj done None :: fs)) as (sk & Hsk & _ & Hbk).
  destruct (Hp (ObjectValue :: stk) (FObj done (Some k) :: fs)) as (s & Hs & Hb);
    [apply (Hd (k, v)); set_solver|].
  assert (Hkv : forall l, build (mkScanner BeginString (ObjectKey :: stk) false)
      (mkBuilder (FObj done None :: fs) None) ((k ++ chr 58 :: print v) ++ l) =
      build s (mkBuilder (FObj done (Some k) :: fs) (Some v)) l).
  { intros l. rewrite <-app_assoc, build_app, Hbk. cbn [mbind option_bind app].
    erewrite build_delim; [|exact Hsk|set_solver|reflexivity|reflexivity].
    cbn [scan_endTop]. by rewrite build_app, Hb. }
  destruct members as [|kv' members]; cbn [map sep_concat].
  - rewrite Hkv. erewrite (build_delim _ _ _ _ _ _ [] (popped stk)); [done|exact Hs|set_solver|by destruct stk|done].
  - rewrite <-app_assoc, Hkv; cbn [app fst snd].
    erewrite build_delim; [|exact Hs|set_solver|reflexivity|reflexivity].
    etransitivity; [apply (IH (done ++ [(k, v)])); [done|done|]|by rewrite <-app_assoc].
    intros x Hx. apply Hd. set_solver.
Qed.

Lemma depth_elem e elems : e ∈ elems -> (S (depth e) <= depth (JArr elems))%nat.
Proof.
  cbn [depth]. induction elems as [|x elems IH]; [set_solver|].
  intros [->|H]%elem_of_cons; cbn [foldr]; [lia|]. specialize (IH H). lia.
Qed.

Lemma depth_member kv members : kv ∈ members -> (S (depth kv.2) <= depth (JObj members))%nat.
Proof.
  cbn [depth]. induction members as [|x members IH]; [set_solver|].
  intros [->|H]%elem_of_cons; cbn [foldr]; [lia|]. specialize (IH H). lia.
Qed.

Lemma open_arr stk : (S (length stk) <= maxNestingDepth)%nat ->
  scan1 (mkScanner BeginValue stk false) 91 = Some (mkScanner BeginValueOrEmpty (ArrayValue :: stk) false).
Proof.
  intros H. transitivity (pushParseState (mkScanner BeginValue stk false) BeginValueOrEmpty ArrayValue); [done|].
  unfold pushParseState; cbn [scan_stack scan_endTop]. by rewrite bool_decide_true.
Qed.

Lemma open_obj stk : (S (length stk) <= maxNestingDepth)%nat ->
  scan1 (mkScanner BeginValue stk false) 123 = Some (mkScanner BeginStringOrEmpty (ObjectKey :: stk) false).
Proof.
  intros H. transitivity (pushParseState (mkScanner BeginValue stk false) BeginStringOrEmpty ObjectKey); [done|].
  unfold pushParseState; cbn [scan_stack scan_endTop]. by rewrite bool_decide_true.
Qed.

Lemma prints_arr elems :
  foldr (fun e P => wf e /\ P) True elems -> Forall prints elems -> prints (JArr elems).
Proof.
  intros Hwf Hp stk fs Hd. exists (popped stk). split; [apply settled_popped|]. cbn [print build].
  rewrite unsigned_chr by lia. rewrite open_arr by (cbn [depth] in Hd; lia).
  change (op _ 91) with scanBeginArray. cbn [act frames].
  destruct elems as [|e elems]; [by destruct stk|].
  rewrite build_first_value.
  - rewrite elems_build; [done|done|done|]. intros x Hx%depth_elem. lia.
  - destruct Hwf as [Hwf _]. apply head_ok_app. destruct elems; cbn; [by apply head_ok_print|].
    apply head_ok_app. by apply head_ok_print.
Qed.

Lemma prints_obj members :
  Forall (fun kv => key_ok kv.1 /\ prints kv.2) members -> prints (JObj members).
Proof.
  intros Hp stk fs Hd. exists (popped stk). split; [apply settled_popped|]. cbn [print build].
  rewrite unsigned_chr by lia. rewrite open_obj by (cbn [depth] in Hd; lia).
  change (op _ 123) with scanBeginObject. cbn [act frames].
  destruct members as [|[k v] members]; [by destruct stk|].
  rewrite build_first_key.
  - rewrite members_build; [done|done|done|]. intros x Hx%depth_member. lia.
  - apply Forall_cons_iff in Hp as [[[Hk _] _] _]; cbn [fst] in Hk. apply head_ok_app.
    destruct members; cbn [map sep_concat fst]; rewrite <-?app_assoc; by apply head_ok_app.
Qed.

Lemma wf_prints j : wf j -> prints j.
Proof.
  induction j as [raw|elems IH|members IH] using json_ind; cbn [wf]; intros Hwf.
  - intros stk fs _. destruct Hwf as [_ Hb]. destruct (Hb stk fs) as (s & Hs & _ & E). eauto.
  - apply prints_arr; [done|]. induction IH as [|e elems He IHs IH']; constructor; cbn in Hwf; [tauto|].
    apply IH'. tauto.
  - apply prints_obj. induction IH as [|kv members Hkv IHs IH']; constructor; cbn in Hwf; [tauto|].
    apply IH'. tauto.
Qed.

(** Printing a well-formed tree and reading it gives the tree back. *)
Lemma json_tree_print j : wf j -> (depth j <= maxNestingDepth)%nat -> json_tree (print j) = Some j.
Proof.
  intros Hwf Hd. destruct (wf_prints j Hwf [] []) as (s & Hs & E); [done|].
  unfold json_tree, reset. rewrite E.
  assert (eof s = true) as ->; [|done].
  destruct s as [st stk et], Hs as [(Hr & Hst & Ht)|[_ [= -> -> ->]]]; [|done].
  cbn in Hr, Hst, Ht; subst. by destruct st.
Qed.

End JsonTree.
