(* ===== verification/JsonString.v ===== *)
(** * JSON strings and numbers

    The literals of [encoding/json] (Go 1.17): how [Marshal] writes a string
    ([encodeState.string] with HTML escaping) and an unsigned integer, and how
    [Unmarshal] reads them back ([unquoteBytes], [strconv.ParseUint]).  A Go
    string is any list of bytes; bytes that are not UTF-8 become U+FFFD. *)

From S2P Require Import Prelude GoRuntime JsonScan JsonTree.
Import JsonScan JsonTree.

Module JsonString.

(** ** UTF-8: [unicode/utf8] *)

Definition between (lo c hi : Z) : bool := (lo <=? c) && (c <=? hi).
Definition cont (c : Z) : bool := between 0x80 c 0xBF.

Definition rune2 (a b : byte) : bool :=
  between 0xC2 (byte.unsigned a) 0xDF && cont (byte.unsigned b).

Definition rune3 (a b c : byte) : bool :=
  let a := byte.unsigned a in
  let b := byte.unsigned b in
  ((a =? 0xE0) && between 0xA0 b 0xBF
   || (between 0xE1 a 0xEC || between 0xEE a 0xEF) && cont b
   || (a =? 0xED) && between 0x80 b 0x9F) && cont (byte.unsigned c).

Definition rune4 (a b c d : byte) : bool :=
  let a := byte.unsigned a in
  let b := byte.unsigned b in
  ((a =? 0xF0) && between 0x90 b 0xBF
   || between 0xF1 a 0xF3 && cont b
   || (a =? 0xF4) && between 0x80 b 0x8F) && cont (byte.unsigned c) && cont (byte.unsigned d).

Definition ascii (a : byte) : bool := byte.unsigned a <? 0x80.

(** The string as [DecodeRune] cuts it: encoded runes, and bytes that start
    none. *)
Inductive piece :=
| Rune (l : list byte)
| Invalid.

Fixpoint pieces (s : list byte) : list piece :=
  match s with
  | [] => []
  | a :: s1 =>
      if ascii a then Rune [a] :: pieces s1
      else match s1 with
           | b :: s2 =>
               if rune2 a b then Rune [a; b] :: pieces s2
               else match s2 with
                    | c :: s3 =>
                        if rune3 a b c then Rune [a; b; c] :: pieces s3
                        else match s3 with
                             | d :: s4 =>
                                 if rune4 a b c d then Rune [a; b; c; d] :: pieces s4
                                 else Invalid :: pieces s1
                             | [] => Invalid :: pieces s1
                             end
                    | [] => Invalid :: pieces s1
                    end
           | [] => Invalid :: pieces s1
           end
  end.

Definition is_rune (p : piece) : bool := match p with Rune _ => true | Invalid => false end.

(** [utf8.Valid] *)
Definition valid_utf8 (s : list byte) : bool := forallb is_rune (pieces s).

(** [utf8.RuneError] and [utf8.EncodeRune]. *)
Definition RuneError : Z := 0xFFFD.

Definition EncodeRune (r : Z) : list byte :=
  let r := if (r <? 0) || (0x10FFFF <? r) || between 0xD800 r 0xDFFF then RuneError else r in
  let low n := 0x80 + Z.land (Z.shiftr r n) 0x3F in
  bytes_of (if r <=? 0x7F then [r]
            else if r <=? 0x7FF then [0xC0 + Z.shiftr r 6; low 0]
            else if r <=? 0xFFFF then [0xE0 + Z.shiftr r 12; low 6; low 0]
            else [0xF0 + Z.shiftr r 18; low 12; low 6; low 0]).

(** ** Escaping *)

Definition hex (v : Z) : byte := chr (if v <? 10 then 48 + v else 87 + v).

Definition quoteChr : byte := chr 34.
Definition backslash : byte := chr 92.

(** [htmlSafeSet]: printed as it is. *)
Definition htmlSafe (c : Z) : bool :=
  (32 <=? c) && (c <? 128) && negb (bool_decide (c ∈ [34; 92; 38; 60; 62])).

Definition escape_piece (p : piece) : list byte :=
  match p with
  | Invalid => backslash :: bytes_of_string "ufffd"
  | Rune [a] =>
      let c := byte.unsigned a in
      if htmlSafe c then [a]
      else if (c =? 92) || (c =? 34) then [backslash; a]
      else if c =? 10 then [backslash; chr 110]
      else if c =? 13 then [backslash; chr 114]
      else if c =? 9 then [backslash; chr 116]
      else [backslash; chr 117; chr 48; chr 48; hex (Z.shiftr c 4); hex (Z.land c 0xF)]
  | Rune l =>
      if bool_decide (l = bytes_of [0xE2; 0x80; 0xA8]) then backslash :: bytes_of_string "u2028"
      else if bool_decide (l = bytes_of [0xE2; 0x80; 0xA9]) then backslash :: bytes_of_string "u2029"
      else l
  end.

Definition escape (s : list byte) : list byte := flat_map escape_piece (pieces s).

(** The string literal [Marshal] writes. *)
Definition quote (s : list byte) : list byte := quoteChr :: escape s ++ [quoteChr].

(** ** Unquoting *)

Definition hex_value (c : byte) : option Z :=
  let c := byte.unsigned c in
  if between 48 c 57 then Some (c - 48)
  else if between 97 c 102 then Some (c - 87)
  else if between 65 c 70 then Some (c - 55)
  else None.

Definition hex4 (a b c d : byte) : option Z :=
  match hex_value a, hex_value b, hex_value c, hex_value d with
  | Some a, Some b, Some c, Some d => Some (a * 4096 + b * 256 + c * 16 + d)
  | _, _, _, _ => None
  end.

Definition IsSurrogate (r : Z) : bool := between 0xD800 r 0xDFFF.

(** [utf16.DecodeRune]; [None] is U+FFFD. *)
Definition utf16_DecodeRune (r1 r2 : Z) : option Z :=
  if between 0xD800 r1 0xDBFF && between 0xDC00 r2 0xDFFF
  then Some ((r1 - 0xD800) * 1024 + (r2 - 0xDC00) + 0x10000) else None.

(** What a backslash and one more character stand for. *)
Definition simple_escape (c : byte) : option byte :=
  let c' := byte.unsigned c in
  if bool_decide (c' ∈ [34; 92; 47; 39]) then Some c
  else if c' =? 98 then Some (chr 8)
  else if c' =? 102 then Some (chr 12)
  else if c' =? 110 then Some (chr 10)
  else if c' =? 114 then Some (chr 13)
  else if c' =? 116 then Some (chr 9)
  else None.

(** The body of [unquoteBytes] between the quotes; [None] is its failure. *)
Fixpoint unescape (s : list byte) : option (list byte) :=
  match s with
  | [] => Some []
  | a :: s1 =>
      if byte.unsigned a =? 92 then
        match s1 with
        | [] => None
        | e :: s2 =>
            if byte.unsigned e =? 117 then
              match s2 with
              | h1 :: h2 :: h3 :: h4 :: s3 =>
                  match hex4 h1 h2 h3 h4 with
                  | None => None
                  | Some rr =>
                      if IsSurrogate rr then
                        match s3 with
                        | b :: u :: g1 :: g2 :: g3 :: g4 :: s4 =>
                            match (if (byte.unsigned b =? 92) && (byte.unsigned u =? 117)
                                   then hex4 g1 g2 g3 g4 ≫= utf16_DecodeRune rr else None) with
                            | Some dec => app (EncodeRune dec) <$> unescape s4
                            | None => app (EncodeRune RuneError) <$> unescape s3
                            end
                        | _ => app (EncodeRune RuneError) <$> unescape s3
                        end
                      else app (EncodeRune rr) <$> unescape s3
                  end
              | _ => None
              end
            else match simple_escape e with
                 | Some c => cons c <$> unescape s2
                 | None => None
                 end
        end
      else if (byte.unsigned a =? 34) || (byte.unsigned a <? 32) then None
      else if ascii a then cons a <$> unescape s1
      else match s1 with
           | b :: s2 =>
               if rune2 a b then app [a; b] <$> unescape s2
               else match s2 with
                    | c :: s3 =>
                        if rune3 a b c then app [a; b; c] <$> unescape s3
                        else match s3 with
                             | d :: s4 =>
                                 if rune4 a b c d then app [a; b; c; d] <$> unescape s4
                                 else app (EncodeRune RuneError) <$> unescape s1
                             | [] => app (EncodeRune RuneError) <$> unescape s1
                             end
                    | [] => app (EncodeRune RuneError) <$> unescape s1
                    end
           | [] => app (EncodeRune RuneError) <$> unescape s1
           end
  end.

(** [unquoteBytes] *)
Definition unquote (raw : list byte) : option (list byte) :=
  match raw with
  | q :: rest =>
      match rev rest with
      | q' :: body =>
          if (byte.unsigned q =? 34) && (byte.unsigned q' =? 34) then unescape (rev body) else None
      | [] => None
      end
  | [] => None
  end.

(** ** Unsigned integers *)

(** [strconv.AppendUint(_, n, 10)]: 20 digits are enough for 64 bits. *)
Fixpoint digits (fuel : nat) (n : Z) (acc : list byte) : list byte :=
  match fuel with
  | O => acc
  | S fuel =>
      let acc := chr (48 + n mod 10) :: acc in
      if n <? 10 then acc else digits fuel (n / 10) acc
  end.

Definition FormatUint (n : Z) : list byte := digits 20 n [].

Definition digit_value (c : byte) : option Z :=
  let c := byte.unsigned c in if isDigit c then Some (c - 48) else None.

Fixpoint parse_digits (acc : Z) (l : list byte) : option Z :=
  match l with
  | [] => Some acc
  | c :: l => d ← digit_value c; parse_digits (10 * acc + d) l
  end.

(** [strconv.ParseUint(s, 10, 64)] *)
Definition ParseUint (l : list byte) : option Z :=
  match l with
  | [] => None
  | _ => n ← parse_digits 0 l; if n <? 2 ^ 64 then Some n else None
  end.

(** ** Lemmas on runes *)

Definition rune_ok (l : list byte) : bool :=
  match l with
  | [a] => ascii a
  | [a; b] => negb (ascii a) && rune2 a b
  | [a; b; c] => negb (ascii a) && negb (rune2 a b) && rune3 a b c
  | [a; b; c; d] => negb (ascii a) && negb (rune2 a b) && negb (rune3 a b c) && rune4 a b c d
  | _ => false
  end.

(** A valid string is the concatenation of its runes. *)
Lemma valid_runes s : valid_utf8 s = true ->
  exists ls, pieces s = map Rune ls /\ s = concat ls /\ Forall (fun l => rune_ok l = true) ls.
Proof.
  unfold valid_utf8. remember (length s) as n eqn:Hn. assert (Hl : (length s <= n)%nat) by lia. clear Hn.
  revert s Hl. induction n as [|n IH]; intros s Hl Hv.
  { destruct s; [by exists []|simpl in Hl; lia]. }
  assert (Hcons : forall l s', s = l ++ s' -> rune_ok l = true -> (length s' <= n)%nat ->
    pieces s = Rune l :: pieces s' -> forallb is_rune (pieces s') = true ->
    exists ls, pieces s = map Rune ls /\ s = concat ls /\ Forall (fun l => rune_ok l = true) ls).
  { intros l s' -> Hr Hs' -> Hv'. destruct (IH s' Hs' Hv') as (ls & -> & -> & Hls).
    exists (l :: ls). split_and!; [done|done|by constructor]. }
  destruct s as [|a s]; [by exists []|]. cbn [pieces length] in *.
  destruct (ascii a) eqn:Ha.
  { apply (Hcons [a] s); try done. lia. }
  destruct s as [|b s]; [done|]. destruct (rune2 a b) eqn:H2.
  { apply (Hcons [a; b] s); try done; [cbn; by rewrite Ha, H2|cbn in Hl; lia]. }
  destruct s as [|c s]; [done|]. destruct (rune3 a b c) eqn:H3.
  { apply (Hcons [a; b; c] s); try done; [cbn; by rewrite Ha, H2, H3|cbn in Hl; lia]. }
  destruct s as [|d s]; [done|]. destruct (rune4 a b c d) eqn:H4; [|done].
  apply (Hcons [a; b; c; d] s); try done; [cbn; by rewrite Ha, H2, H3, H4|cbn in Hl; lia].
Qed.

Lemma not_ascii a : ascii a = false ->
  128 <= byte.unsigned a /\ (byte.unsigned a =? 92) = false /\ (byte.unsigned a =? 34) = false /\
  (byte.unsigned a <? 32) = false.
Proof. unfold ascii. intros H%Z.ltb_ge. split_and!; [done|lia..]. Qed.

(** ** Unquoting what was quoted *)

Lemma unescape_ascii a rest :
  ascii a = true -> unescape (escape_piece (Rune [a]) ++ rest) = cons a <$> unescape rest.
Proof. intros H. destruct a; first [discriminate H|reflexivity]. Qed.

(** A longer rune is read as it is, whatever follows. *)
Lemma unescape_multi a l rest :
  ascii a = false -> rune_ok (a :: l) = true -> unescape ((a :: l) ++ rest) = app (a :: l) <$> unescape rest.
Proof.
  intros Ha Hr. destruct (not_ascii _ Ha) as (_ & E92 & E34 & E32).
  destruct l as [|b [|c [|d [|]]]]; cbn [rune_ok] in Hr; rewrite ?Ha in Hr; try done; cbn [app unescape negb andb] in *.
  - rewrite E92, E34, E32, Ha, Hr. done.
  - apply andb_prop in Hr as [H2%negb_true_iff H3]. rewrite E92, E34, E32, Ha, H2, H3. done.
  - apply andb_prop in Hr as [[H2%negb_true_iff H3%negb_true_iff]%andb_prop H4].
    rewrite E92, E34, E32, Ha, H2, H3, H4. done.
Qed.

Lemma unescape_rune l rest :
  rune_ok l = true -> unescape (escape_piece (Rune l) ++ rest) = app l <$> unescape rest.
Proof.
  intros Hr. destruct l as [|a l]; [done|]. destruct (ascii a) eqn:Ha.
  { destruct l as [|b [|c [|d [|e l]]]]; cbn [rune_ok] in Hr; rewrite ?Ha in Hr; try done.
    by apply unescape_ascii. }
  destruct l as [|b l]; [cbn in Hr; congruence|]. unfold escape_piece.
  case_bool_decide as E1; [rewrite E1; reflexivity|].
  case_bool_decide as E2; [rewrite E2; reflexivity|]. by apply unescape_multi.
Qed.

Lemma unescape_escape s : valid_utf8 s = true -> unescape (escape s) = Some s.
Proof.
  intros (ls & Hp & -> & Hls)%valid_runes. unfold escape. rewrite Hp. clear Hp.
  induction Hls as [|l ls Hl Hls IH]; [done|]. cbn [map flat_map concat].
  rewrite unescape_rune by done. by rewrite IH.
Qed.

Lemma unquote_body body : unquote (quoteChr :: body ++ [quoteChr]) = unescape body.
Proof. unfold unquote. rewrite rev_app_distr. cbn [rev app]. by rewrite rev_involutive. Qed.

Lemma unquote_quote s : valid_utf8 s = true -> unquote (quote s) = Some s.
Proof. intros. unfold quote. rewrite unquote_body. by apply unescape_escape. Qed.

Lemma ascii_valid s : Forall (fun a => ascii a = true) s -> valid_utf8 s = true.
Proof.
  unfold valid_utf8. induction 1 as [|a s Ha Hs IH]; [done|]. cbn [pieces]. rewrite Ha. exact IH.
Qed.

(** ** Quoted strings are literals for the scanner *)

(** Bytes that stay inside a string literal. *)
Definition stays (l : list byte) : Prop :=
  forall stk fs raw, build (mkScanner InString stk false) (mkBuilder fs (Some (JLit raw))) l =
    Some (mkScanner InString stk false, mkBuilder fs (Some (JLit (raw ++ l)))).

Lemma stays_nil : stays [].
Proof. intros stk fs raw. by rewrite app_nil_r. Qed.

Lemma stays_app l1 l2 : stays l1 -> stays l2 -> stays (l1 ++ l2).
Proof. intros H1 H2 stk fs raw. rewrite build_app, H1. cbn [mbind option_bind]. by rewrite H2, app_assoc. Qed.

Lemma stays_byte a : 128 <= byte.unsigned a -> stays [a].
Proof.
  intros Ha stk fs raw. cbn [build]. unfold scan1, op; cbn [scan_step].
  rewrite (proj2 (Z.eqb_neq _ 34)), (proj2 (Z.eqb_neq _ 92)), (proj2 (Z.ltb_ge _ 32)) by lia. done.
Qed.

Lemma stays_high l : Forall (fun a => 128 <= byte.unsigned a) l -> stays l.
Proof.
  induction 1 as [|a l Ha Hl IH]; [apply stays_nil|].
  apply (stays_app [a]); [by apply stays_byte|done].
Qed.

Lemma app_foldl (raw l : list byte) : raw ++ l = foldl (fun r c => r ++ [c]) raw l.
Proof.
  revert raw. induction l as [|c l IH]; intros raw; cbn [foldl]; [apply app_nil_r|].
  by rewrite <-IH, <-app_assoc.
Qed.

Lemma stays_ascii a : ascii a = true -> stays (escape_piece (Rune [a])).
Proof. intros H. destruct a; first [discriminate H|intros stk fs raw; rewrite app_foldl; reflexivity]. Qed.

Lemma cont_high b : cont (byte.unsigned b) = true -> 128 <= byte.unsigned b.
Proof. unfold cont, between. intros. lia. Qed.

Lemma rune_high a l : ascii a = false -> rune_ok (a :: l) = true ->
  Forall (fun a => 128 <= byte.unsigned a) (a :: l).
Proof.
  intros Ha. destruct (not_ascii _ Ha) as [H _].
  destruct l as [|b [|c [|d [|]]]]; cbn [rune_ok]; rewrite ?Ha; try done;
    unfold rune2, rune3, rune4, cont, between; intros; repeat constructor; lia.
Qed.

Lemma stays_rune l : rune_ok l = true -> stays (escape_piece (Rune l)).
Proof.
  intros Hr. destruct l as [|a l]; [done|]. destruct (ascii a) eqn:Ha.
  { destruct l as [|b [|c [|d [|e l]]]]; cbn [rune_ok] in Hr; rewrite ?Ha in Hr; try done.
    by apply stays_ascii. }
  destruct l as [|b l]; [cbn in Hr; congruence|]. unfold escape_piece.
  case_bool_decide as E1; [intros stk fs raw; by rewrite app_foldl|].
  case_bool_decide as E2; [intros stk fs raw; by rewrite app_foldl|].
  by apply stays_high, rune_high.
Qed.

Lemma stays_escape s : valid_utf8 s = true -> stays (escape s).
Proof.
  intros (ls & Hp & -> & Hls)%valid_runes. unfold escape. rewrite Hp. clear Hp.
  induction Hls as [|l ls Hl Hls IH]; [apply stays_nil|]. cbn [map flat_map].
  apply stays_app; [by apply stays_rune|done].
Qed.

Lemma quoted_lit st body :
  st = BeginValue \/ st = BeginString -> stays body -> lit_from st (quoteChr :: body ++ [quoteChr]).
Proof.
  intros Hst Hb. split; [by vm_compute|]. intros stk fs.
  exists (mkScanner EndValue stk false). split; [by left|]. split; [done|].
  assert (E : forall l, build (mkScanner st stk false) (mkBuilder fs None) (quoteChr :: l) =
              build (mkScanner InString stk false) (mkBuilder fs (Some (JLit [quoteChr]))) l).
  { intros l. by destruct Hst as [-> | ->]. }
  rewrite E, build_app, Hb. reflexivity.
Qed.

Lemma quote_lit s : valid_utf8 s = true -> lit_ok (quote s).
Proof. intros H. apply quoted_lit; [by left|by apply stays_escape]. Qed.

Lemma quote_key s : valid_utf8 s = true -> key_ok (quote s).
Proof. intros H. apply quoted_lit; [by right|by apply stays_escape]. Qed.

(** A string without characters to escape is printed as it is. *)
Lemma escape_safe s : Forall (fun a => htmlSafe (byte.unsigned a) = true) s -> escape s = s.
Proof.
  unfold escape. induction 1 as [|a s Ha Hs IH]; [done|]. cbn [pieces].
  assert (ascii a = true) as ->.
  { unfold htmlSafe in Ha. unfold ascii. apply andb_prop in Ha as [[_ H]%andb_prop _]. exact H. }
  cbn [flat_map escape_piece]. by rewrite Ha, IH.
Qed.

(** ** Integers *)

Lemma unsigned_digit n : byte.unsigned (chr (48 + n mod 10)) = 48 + n mod 10.
Proof. apply unsigned_chr. pose proof (Z.mod_pos_bound n 10). lia. Qed.

Lemma digit_value_chr n : digit_value (chr (48 + n mod 10)) = Some (n mod 10).
Proof.
  unfold digit_value. rewrite unsigned_digit. unfold isDigit. pose proof (Z.mod_pos_bound n 10).
  rewrite (proj2 (Z.leb_le 48 _)), (proj2 (Z.leb_le _ 57)) by lia. cbn. f_equal. lia.
Qed.

Lemma parse_digits_app l1 l2 acc :
  parse_digits acc (l1 ++ l2) = parse_digits acc l1 ≫= fun n => parse_digits n l2.
Proof.
  revert acc. induction l1 as [|c l1 IH]; intros acc; [done|]. cbn. destruct (digit_value c); [apply IH|done].
Qed.

Lemma digits_app fuel : forall n acc, digits fuel n acc = digits fuel n [] ++ acc.
Proof.
  induction fuel as [|fuel IH]; intros n acc; [done|]. cbn [digits]. destruct (n <? 10); [done|].
  rewrite IH, (IH _ [_]), <-app_assoc. done.
Qed.

Lemma parse_digits_digits fuel : forall n,
  0 <= n < 10 ^ Z.of_nat fuel -> parse_digits 0 (digits fuel n []) = Some n.
Proof.
  induction fuel as [|fuel IH]; intros n Hn; [simpl in Hn; cbn; f_equal; lia|].
  cbn [digits]. destruct (Z.ltb_spec n 10) as [Hlt|Hge].
  { cbn [parse_digits]. rewrite digit_value_chr, Z.mod_small by lia. cbn. f_equal; lia. }
  rewrite digits_app, parse_digits_app, IH.
  - cbn [mbind option_bind parse_digits]. rewrite digit_value_chr. cbn. f_equal.
    pose proof (Z.div_mod n 10). lia.
  - replace (Z.of_nat (S fuel)) with (1 + Z.of_nat fuel) in Hn by lia.
    rewrite Z.pow_add_r in Hn by lia. split; [apply Z.div_pos; lia|]. apply Z.div_lt_upper_bound; lia.
Qed.

Definition all_digits (l : list byte) : Prop := Forall (fun c => isDigit (byte.unsigned c) = true) l.

Lemma all_digits_digits fuel : forall n acc, all_digits acc -> all_digits (digits fuel n acc).
Proof.
  induction fuel as [|fuel IH]; intros n acc Ha; [done|]. cbn [digits].
  assert (Hd : all_digits (chr (48 + n mod 10) :: acc)).
  { constructor; [|done]. rewrite unsigned_digit. unfold isDigit. pose proof (Z.mod_pos_bound n 10). lia. }
  destruct (n <? 10); auto.
Qed.

(** No leading zero. *)
Lemma digits_head fuel : forall n acc,
  0 < n < 10 ^ Z.of_nat fuel ->
  exists c rest, digits fuel n acc = c :: rest /\ isDigit19 (byte.unsigned c) = true.
Proof.
  induction fuel as [|fuel IH]; intros n acc Hn; [simpl in Hn; lia|].
  cbn [digits]. destruct (Z.ltb_spec n 10) as [Hlt|Hge].
  - eexists _, _. split; [done|]. rewrite unsigned_digit, Z.mod_small by lia. unfold isDigit19. lia.
  - apply IH. replace (Z.of_nat (S fuel)) with (1 + Z.of_nat fuel) in Hn by lia.
    rewrite Z.pow_add_r in Hn by lia. split; [apply Z.div_str_pos; lia|]. apply Z.div_lt_upper_bound; lia.
Qed.

Lemma FormatUint_cases n : 0 <= n < 2 ^ 64 ->
  (n = 0 /\ FormatUint n = [chr 48]) \/
  (exists c rest, FormatUint n = c :: rest /\ isDigit19 (byte.unsigned c) = true /\ all_digits rest).
Proof.
  intros Hn. destruct (Z.eq_dec n 0) as [->|Hz]; [by left|]. right.
  destruct (digits_head 20 n []) as (c & rest & E & Hc); [simpl; lia|].
  exists c, rest. split_and!; [done|done|].
  pose proof (all_digits_digits 20 n [] ltac:(constructor)) as Hd. rewrite E in Hd.
  by apply Forall_cons_iff in Hd as [_ Hd].
Qed.

(** Reading a printed integer. *)
Lemma ParseUint_FormatUint n : 0 <= n < 2 ^ 64 -> ParseUint (FormatUint n) = Some n.
Proof.
  intros Hn. pose proof (parse_digits_digits 20 n ltac:(simpl; lia)) as E. fold (FormatUint n) in E.
  unfold ParseUint. rewrite E. cbn [mbind option_bind]. rewrite (proj2 (Z.ltb_lt n _)) by lia.
  by destruct (FormatUint_cases n Hn) as [[_ ->]|(c & rest & -> & _)].
Qed.

(** Printed integers are literals for the scanner. *)
Lemma digits_stay l : all_digits l -> forall stk fs raw,
  build (mkScanner State1 stk false) (mkBuilder fs (Some (JLit raw))) l =
  Some (mkScanner State1 stk false, mkBuilder fs (Some (JLit (raw ++ l)))).
Proof.
  induction 1 as [|c l Hc Hl IH]; intros stk fs raw; [by rewrite app_nil_r|].
  cbn [build]. unfold scan1, op; cbn [scan_step]. rewrite Hc. cbn [orb act frames cur goto scan_stack scan_endTop].
  unfold goto; cbn [scan_stack scan_endTop]. by rewrite IH, <-app_assoc.
Qed.

Lemma digit19_cases c : isDigit19 (byte.unsigned c) = true ->
  head_ok [c] /\ forall stk fs l, build (mkScanner BeginValue stk false) (mkBuilder fs None) (c :: l) =
    build (mkScanner State1 stk false) (mkBuilder fs (Some (JLit [c]))) l.
Proof. intros H. destruct c; first [discriminate H|split; [by vm_compute|intros; reflexivity]]. Qed.

Lemma FormatUint_lit n : 0 <= n < 2 ^ 64 -> lit_ok (FormatUint n).
Proof.
  intros Hn. destruct (FormatUint_cases n Hn) as [[_ ->]|(c & rest & -> & Hc & Hr)].
  - split; [by vm_compute|]. intros stk fs. exists (mkScanner State0 stk false). split; [by left|]. split; reflexivity.
  - destruct (digit19_cases c Hc) as [Hh Hb]. split; [exact Hh|]. intros stk fs.
    exists (mkScanner State1 stk false). split; [by left|]. split; [done|]. by rewrite Hb, digits_stay.
Qed.

(** The literal of a nil slice. *)
Definition null : list byte := bytes_of_string "null".

Lemma null_lit : lit_ok null.
Proof.
  split; [by vm_compute|]. intros stk fs. exists (mkScanner EndValue stk false). split; [by left|]. split; reflexivity.
Qed.

Example quote_html : quote (bytes_of_string "a<b") = bytes_of [34; 97; 92; 117; 48; 48; 51; 99; 98; 34].
Proof. vm_compute. reflexivity. Qed.

(** A surrogate pair, and a lone surrogate followed by a letter. *)
Example unquote_surrogates :
  unquote (bytes_of ([34; 92; 117; 100; 56; 51; 52; 92; 117; 100; 100; 49; 101; 34]))
    = Some (bytes_of [0xF0; 0x9D; 0x84; 0x9E]) /\
  unquote (bytes_of ([34; 92; 117; 100; 56; 51; 52; 97; 34])) = Some (bytes_of [0xEF; 0xBF; 0xBD; 97]).
Proof. split; vm_compute; reflexivity. Qed.

End JsonString.
