(* ===== verification/JsonCodec.v ===== *)
(** * [json.Marshal] and [json.Unmarshal]

    The encoder and decoder of [encoding/json] (Go 1.17) for the types the
    program exchanges: unsigned integers, strings, slices and structs.  A
    type is described by [ty], a Go value by [gv].  Embedded structs without
    a tag are flattened into their parent, as [typeFields] does.

    Decoding goes into an existing value: fields that are absent, or null,
    keep it, and the elements of a slice are decoded over those the backing
    array holds.  A value of the wrong kind is an error, but decoding goes on;
    the first error is reported. *)

From S2P Require Import Prelude GoRuntime Base64 JsonScan JsonTree JsonString.
Import Base64 JsonScan JsonTree JsonString.

Module JsonCodec.

(** ** Types and values *)

#[local] Unset Elimination Schemes.

Inductive ty :=
| TUint (bits : Z)
| TString
| TSlice (elem : ty)
| TStruct (fields : list (string * ty)).

(** A slice is nil, or a length and a backing array. *)
Inductive gv :=
| VUint (n : Z)
| VString (s : list byte)
| VSlice (s : option (nat * list gv))
| VStruct (fields : list gv).

#[local] Set Elimination Schemes.

Lemma ty_ind (P : ty -> Prop)
  (HUint : forall bits, P (TUint bits)) (HString : P TString)
  (HSlice : forall elem, P elem -> P (TSlice elem))
  (HStruct : forall fields, Forall (fun f => P f.2) fields -> P (TStruct fields)) : forall t, P t.
Proof.
  fix IH 1. intros [bits| |elem|fields]; [apply HUint|apply HString|apply HSlice, IH|apply HStruct].
  induction fields as [|[k t] fs IHfs]; constructor; [apply IH|assumption].
Qed.

Fixpoint zero (t : ty) : gv :=
  match t with
  | TUint _ => VUint 0
  | TString => VString []
  | TSlice _ => VSlice None
  | TStruct fields => VStruct (map (fun f => zero f.2) fields)
  end.

Definition isByte (t : ty) : bool := match t with TUint bits => bits =? 8 | _ => false end.

(** ** Encoding *)

Definition byte_of (v : gv) : byte := match v with VUint n => byte.of_Z n | _ => byte.of_Z 0 end.
Definition value_of_byte (b : byte) : gv := VUint (byte.unsigned b).

Section members.
Context (value : ty -> gv -> json).

Fixpoint members (fields : list (string * ty)) (vs : list gv) : list (list byte * json) :=
  match fields, vs with
  | (name, t) :: fields, v :: vs => (quote (bytes_of_string name), value t v) :: members fields vs
  | _, _ => []
  end.

End members.

Fixpoint tree (t : ty) (v : gv) {struct t} : json :=
  match t, v with
  | TUint _, VUint n => JLit (FormatUint n)
  | TString, VString s => JLit (quote s)
  | TSlice elem, VSlice (Some (n, arr)) =>
      if isByte elem
      then JLit (quoteChr :: Encode (map byte_of (take n arr)) ++ [quoteChr])
      else JArr (map (tree elem) (take n arr))
  | TStruct fields, VStruct vs => JObj (members tree fields vs)
  | _, _ => JLit null
  end.

Definition Marshal (t : ty) (v : gv) : list byte := print (tree t v).

(** ** Decoding *)

(** The kind of the JSON value found, as the error reports it. *)
Definition UnmarshalTypeError (value : string) : error := StructError "json.UnmarshalTypeError" [value].
Definition SyntaxError : error := StructError "json.SyntaxError" [].

(** [d.saveError] keeps the first error. *)
Definition saveError (e e' : option error) : option error :=
  match e with Some _ => e | None => e' end.

(** [literalStore] *)
Definition literalStore (raw : list byte) (t : ty) (old : gv) : gv * option error :=
  match raw with
  | [] => (old, None)
  | c :: _ =>
      let c := byte.unsigned c in
      if c =? 110 then (* null *)
        match t with TSlice _ => (VSlice None, None) | _ => (old, None) end
      else if (c =? 116) || (c =? 102) then (old, Some (UnmarshalTypeError "bool"))
      else if c =? 34 then
        match unquote raw with
        | None => (old, None)
        | Some s =>
            match t with
            | TString => (VString s, None)
            | TSlice elem =>
                if isByte elem then
                  match decode_from [] s with
                  | Some b =>
                      (VSlice (Some (length b, map value_of_byte (b ++ zeros (DecodedLen (length s) - length b)))),
                       None)
                  | None => (old, Some CorruptInputError)
                  end
                else (old, Some (UnmarshalTypeError "string"))
            | _ => (old, Some (UnmarshalTypeError "string"))
            end
        end
      else
        match t with
        | TUint bits =>
            match ParseUint raw with
            | Some n =>
                if n <? 2 ^ bits then (VUint n, None) else (old, Some (UnmarshalTypeError "number"))
            | None => (old, Some (UnmarshalTypeError "number"))
            end
        | _ => (old, Some (UnmarshalTypeError "number"))
        end
  end.

(** Making room for element [i] of a slice of length [n]. *)
Definition grow (t : ty) (i n : nat) (arr : list gv) : nat * list gv :=
  let cap := length arr in
  let arr :=
    if bool_decide (cap <= i)%nat
    then let newcap := Nat.max 4 (cap + cap / 2) in
         take n arr ++ replicate (newcap - n) (zero t)
    else arr in
  (if bool_decide (n <= i)%nat then S i else n, arr).

(** ** Field names: [fold.go] *)

Definition caseMask (c : Z) : Z := Z.land c 0xDF.
Definition isUpper (c : Z) : bool := between 65 c 90.

Definition fold_byte (sb tb : byte) : bool :=
  let s := byte.unsigned sb in
  let t := byte.unsigned tb in
  (s =? t) || isUpper (caseMask s) && (caseMask s =? caseMask t).

Fixpoint asciiEqualFold (s t : list byte) : bool :=
  match s, t with
  | [], [] => true
  | sb :: s, tb :: t => fold_byte sb tb && asciiEqualFold s t
  | _, _ => false
  end.

Fixpoint simpleLetterEqualFold (s t : list byte) : bool :=
  match s, t with
  | [], [] => true
  | sb :: s, tb :: t =>
      (caseMask (byte.unsigned sb) =? caseMask (byte.unsigned tb)) && simpleLetterEqualFold s t
  | _, _ => false
  end.

(** The long s and the Kelvin sign fold to ASCII letters. *)
Definition smallLongEss : list byte := bytes_of [0xC5; 0xBF].
Definition kelvin : list byte := bytes_of [0xE2; 0x84; 0xAA].

Fixpoint equalFoldRight (s t : list byte) : bool :=
  match s with
  | [] => bool_decide (t = [])
  | sb :: s =>
      match t with
      | [] => false
      | tb :: t' =>
          if ascii tb then fold_byte sb tb && equalFoldRight s t'
          else
            let S := caseMask (byte.unsigned sb) in
            if S =? 83 then bool_decide (take 2 t = smallLongEss) && equalFoldRight s (drop 2 t)
            else if S =? 75 then bool_decide (take 3 t = kelvin) && equalFoldRight s (drop 3 t)
            else false
      end
  end.

(** [foldFunc], for names in ASCII. *)
Definition equalFold (name key : list byte) : bool :=
  let special b := let u := caseMask (byte.unsigned b) in (u =? 75) || (u =? 83) in
  let letter b := isUpper (caseMask (byte.unsigned b)) in
  if existsb special name then equalFoldRight name key
  else if forallb letter name then simpleLetterEqualFold name key
  else asciiEqualFold name key.

Fixpoint find_index {A} (p : A -> bool) (l : list A) : option nat :=
  match l with
  | [] => None
  | x :: l => if p x then Some O else S <$> find_index p l
  end.

(** The field a key is stored in: of exactly that name, or the first one of
    that name up to case. *)
Definition find_field (fields : list (string * ty)) (key : list byte) : option nat :=
  match find_index (fun f => bool_decide (bytes_of_string f.1 = key)) fields with
  | Some i => Some i
  | None => find_index (fun f => equalFold (bytes_of_string f.1) key) fields
  end.

(** The loops of [d.array] and [d.object], over the decoder of one value. *)
Section loops.
Context (value : json -> ty -> gv -> gv * option error).

Fixpoint array (elem : ty) (es : list json) (i n : nat) (arr : list gv) (err : option error)
    : nat * nat * list gv * option error :=
  match es with
  | [] => (i, n, arr, err)
  | e :: es =>
      let '(n, arr) := grow elem i n arr in
      let '(x, err') := value e elem (nth i arr (zero elem)) in
      array elem es (S i) n (<[i := x]> arr) (saveError err err')
  end.

Fixpoint object (fields : list (string * ty)) (ms : list (list byte * json)) (vs : list gv)
    (err : option error) : list gv * option error :=
  match ms with
  | [] => (vs, err)
  | (k, v) :: ms =>
      match unquote k ≫= find_field fields with
      | Some i =>
          match fields !! i, vs !! i with
          | Some (_, t), Some old =>
              let '(x, err') := value v t old in
              object fields ms (<[i := x]> vs) (saveError err err')
          | _, _ => object fields ms vs err
          end
      | None => object fields ms vs err
      end
  end.

End loops.

(** [d.value] *)
Fixpoint decode (j : json) (t : ty) (old : gv) {struct j} : gv * option error :=
  match j with
  | JLit raw => literalStore raw t old
  | JArr elems =>
      match t, old with
      | TSlice elem, VSlice s =>
          let '(n, arr) := match s with Some (n, arr) => (n, arr) | None => (O, []) end in
          let '(i, n, arr, err) := array decode elem elems O n arr None in
          if bool_decide (i = O) then (VSlice (Some (O, [])), err)
          else (VSlice (Some (Nat.min i n, arr)), err)
      | _, _ => (old, Some (UnmarshalTypeError "array"))
      end
  | JObj members =>
      match t, old with
      | TStruct fields, VStruct vs =>
          let '(vs, err) := object decode fields members vs None in (VStruct vs, err)
      | _, _ => (old, Some (UnmarshalTypeError "object"))
      end
  end.

(** [json.Unmarshal(data, &v)]: the value [v] has afterwards, and the error. *)
Definition Unmarshal (t : ty) (data : list byte) (v : gv) : gv * option error :=
  match json_tree data with
  | None => (v, Some SyntaxError)
  | Some j => decode j t v
  end.

(** ** Typing *)

Fixpoint all2 {A B} (P : A -> B -> Prop) (l : list A) (l' : list B) : Prop :=
  match l, l' with
  | [], [] => True
  | x :: l, y :: l' => P x y /\ all2 P l l'
  | _, _ => False
  end.

Lemma all2_Forall2 {A B} (P : A -> B -> Prop) l l' : all2 P l l' <-> Forall2 P l l'.
Proof.
  revert l'. induction l as [|x l IH]; intros [|y l']; cbn; split; try done; try (by intros H; inversion H).
  - intros [H1 H2]. constructor; [done|by apply IH].
  - intros H; inversion H; subst. split; [done|by apply IH].
Qed.

(** Values of a type: integers fit their width, structs have their fields,
    strings satisfy [okstr]. *)
Fixpoint typed (okstr : list byte -> bool) (t : ty) (v : gv) {struct t} : Prop :=
  match t, v with
  | TUint bits, VUint n => 0 <= n < 2 ^ bits
  | TString, VString s => okstr s = true
  | TSlice _, VSlice None => True
  | TSlice elem, VSlice (Some (n, arr)) => (n <= length arr)%nat /\ Forall (typed okstr elem) arr
  | TStruct fields, VStruct vs => all2 (fun f v => typed okstr f.2 v) fields vs
  | _, _ => False
  end.

(** A value of the Go type. *)
Definition has_type : ty -> gv -> Prop := typed (fun _ => true).

(** Types whose integers have a width. *)
Fixpoint sized (t : ty) : Prop :=
  match t with
  | TUint bits => 0 < bits <= 64
  | TString => True
  | TSlice elem => sized elem
  | TStruct fields => foldr (fun f P => sized f.2 /\ P) True fields
  end.

Lemma sized_fields fields : sized (TStruct fields) <-> Forall (fun f => sized f.2) fields.
Proof.
  cbn [sized]. induction fields as [|f fs IH]; cbn [foldr]; [by split|].
  by rewrite IH, Forall_cons_iff.
Qed.

Lemma zero_typed okstr t : okstr [] = true -> sized t -> typed okstr t (zero t).
Proof.
  intros Hs. induction t as [bits| |elem IH|fields IH] using ty_ind; cbn [typed zero].
  - cbn. intros. split; [lia|]. apply Z.pow_pos_nonneg; lia.
  - done.
  - done.
  - intros Hz%sized_fields. apply all2_Forall2. induction IH as [|f fs Hf IH' IH]; cbn [map]; [constructor|].
    apply Forall_cons_iff in Hz as [Hz1 Hz2]. constructor; [by apply Hf|by apply IH].
Qed.

Lemma value_of_byte_typed b : has_type (TUint 8) (value_of_byte b).
Proof. cbn. pose proof (unsigned_range_256 b). lia. Qed.

Lemma ParseUint_range l n : ParseUint l = Some n -> 0 <= n < 2 ^ 64.
Proof.
  unfold ParseUint. destruct l as [|c l]; [done|].
  destruct (parse_digits 0 (c :: l)) as [m|] eqn:E; [|done]. cbn.
  destruct (Z.ltb_spec m (2 ^ 64)); [|done]. intros [= <-]. split; [|lia].
  assert (forall l acc m, 0 <= acc -> parse_digits acc l = Some m -> 0 <= m) as H'; [|by eapply H' in E].
  clear. induction l as [|c l IH]; intros acc m Ha; cbn; [by intros [= <-]|].
  unfold digit_value, isDigit. destruct (_ && _) eqn:Hd; [|done]. cbn. apply IH. lia.
Qed.

Lemma literalStore_typed raw t v : has_type t v -> has_type t (literalStore raw t v).1.
Proof.
  intros Hv. unfold literalStore. destruct raw as [|c raw]; [done|].
  destruct (_ =? 110); [by destruct t|]. destruct (_ || _); [done|]. destruct (_ =? 34).
  - destruct (unquote _) as [s|]; [|done]. destruct t as [bits| |elem|]; try done.
    destruct elem as [bits| | |]; cbn [isByte]; try done. destruct (Z.eqb_spec bits 8) as [->|]; [|done].
    destruct (decode_from _ _) as [b|]; [|done]. cbn [fst]. split.
    + rewrite length_map, length_app. lia.
    + apply List.Forall_map, Forall_true. apply value_of_byte_typed.
  - destruct t as [bits| |elem|]; try done. destruct (ParseUint _) as [n|] eqn:E; [|done].
    destruct (Z.ltb_spec n (2 ^ bits)); [|done]. apply ParseUint_range in E. cbn. lia.
Qed.

Lemma grow_bounds t i n arr n' arr' :
  grow t i n arr = (n', arr') -> (n <= length arr)%nat -> (i <= length arr)%nat ->
  (n' <= length arr' /\ i < n' /\ n <= n')%nat.
Proof.
  pose proof (Nat.div_mod_eq (length arr) 2). pose proof (Nat.mod_upper_bound (length arr) 2 ltac:(lia)).
  unfold grow. generalize dependent (length arr / 2)%nat. intros half Hh E Hn Hi. injection E as <- <-.
  case_bool_decide as H1; case_bool_decide as H2; rewrite ?length_app, ?length_take, ?length_replicate; lia.
Qed.

Lemma grow_typed okstr t i n arr :
  typed okstr t (zero t) -> Forall (typed okstr t) arr -> Forall (typed okstr t) (grow t i n arr).2.
Proof.
  intros Hz Ha. unfold grow; cbn [snd]. case_bool_decide; [|done].
  apply Forall_app. split; [by apply Forall_take|by apply Forall_replicate].
Qed.

Lemma array_typed value elem es :
  has_type elem (zero elem) ->
  Forall (fun e => forall v, has_type elem v -> has_type elem (value e elem v).1) es ->
  forall i n arr err i' n' arr' err',
  (n <= length arr)%nat -> (i <= length arr)%nat -> Forall (has_type elem) arr ->
  array value elem es i n arr err = (i', n', arr', err') ->
  (n' <= length arr')%nat /\ Forall (has_type elem) arr'.
Proof.
  intros Hz. induction 1 as [|e es He Hes IH]; intros i n arr err i' n' arr' err' Hn Hi Ha; cbn [array].
  { by intros [= <- <- <- <-]. }
  pose proof (grow_typed _ _ i n _ Hz Ha) as Hg.
  destruct (grow elem i n arr) as [n1 arr1] eqn:Eg. cbn [snd] in Hg.
  destruct (grow_bounds _ _ _ _ _ _ Eg Hn Hi) as (Hn1 & Hi1 & _).
  assert (Hx : has_type elem (nth i arr1 (zero elem))).
  { destruct (nth_in_or_default i arr1 (zero elem)) as [Hin| ->]; [|done].
    rewrite List.Forall_forall in Hg. by apply Hg. }
  specialize (He _ Hx). destruct (value e elem _) as [x err1]; cbn [fst] in He.
  apply IH; rewrite ?length_insert; [lia..|]. by apply Forall_insert.
Qed.

Lemma object_typed value fields ms :
  Forall (fun m => forall t v, sized t -> has_type t v -> has_type t (value m.2 t v).1) ms ->
  sized (TStruct fields) -> forall vs err,
  has_type (TStruct fields) (VStruct vs) ->
  has_type (TStruct fields) (VStruct (object value fields ms vs err).1).
Proof.
  intros Hms Hz%sized_fields. induction Hms as [|[k j] ms Hm Hms IH]; intros vs err Hv; [done|].
  cbn [object]. destruct (_ ≫= _) as [i|]; [|by apply IH].
  destruct (fields !! i) as [[name t]|] eqn:Ef; [|by apply IH].
  destruct (vs !! i) as [old|] eqn:Ev; [|by apply IH].
  destruct (value j t old) as [x err1] eqn:Ex. apply IH.
  apply all2_Forall2. apply all2_Forall2 in Hv.
  pose proof (Forall2_lookup_lr _ _ _ _ _ _ Hv Ef Ev) as Hold; cbn [snd] in Hold.
  rewrite Forall_lookup in Hz. pose proof (Hz _ _ Ef) as Ht; cbn [snd] in Ht.
  specialize (Hm t old Ht Hold). cbn [snd] in Hm. rewrite Ex in Hm.
  rewrite <-(list_insert_id fields i (name, t)) by done. by apply Forall2_insert.
Qed.

(** Decoding never leaves the type of the destination. *)
Lemma decode_typed j : forall t v, sized t -> has_type t v -> has_type t (decode j t v).1.
Proof.
  induction j as [raw|elems IH|members IH] using json_ind; intros t v Hz Hv; cbn [decode].
  - by apply literalStore_typed.
  - destruct t as [| |elem|]; try done. destruct v as [| |s|]; try done.
    destruct (match s with Some (n, arr) => _ | None => _ end) as [n arr] eqn:Es.
    destruct (array decode elem elems 0 n arr None) as [[[i n'] arr'] err] eqn:Ea.
    assert (Hs : (n <= length arr)%nat /\ Forall (has_type elem) arr).
    { destruct s as [[n0 arr0]|]; simplify_eq; [exact Hv|split; [done|constructor]]. }
    destruct Hs as [Hn Harr]. cbn [sized] in Hz.
    destruct (array_typed decode elem elems (zero_typed _ _ eq_refl Hz)
      ltac:(apply Forall_impl with (2 := IH); auto) _ _ _ _ _ _ _ _ Hn (Nat.le_0_l _) Harr Ea) as [Hn' Harr'].
    case_bool_decide; cbn [fst]; [split; [done|constructor]|]. split; [lia|done].
  - destruct t as [| | |fields]; try done. destruct v as [| | |vs]; try done.
    pose proof (object_typed decode fields members IH Hz vs None Hv) as H.
    by destruct (object decode fields members vs None) as [vs' err].
Qed.

(** ** Round trip *)

(** A value without the spare capacity of its slices. *)
Fixpoint strip (v : gv) : gv :=
  match v with
  | VSlice (Some (n, arr)) => VSlice (Some (n, take n (map strip arr)))
  | VStruct vs => VStruct (map strip vs)
  | _ => v
  end.

(** Types with distinct field names. *)
Fixpoint codable (t : ty) : Prop :=
  match t with
  | TUint bits => 0 < bits <= 64
  | TString => True
  | TSlice elem => codable elem
  | TStruct fields =>
      NoDup (map fst fields) /\
      foldr (fun f P => (valid_utf8 (bytes_of_string f.1) = true /\ codable f.2) /\ P) True fields
  end.

Lemma codable_fields fields : codable (TStruct fields) <->
  NoDup (map fst fields) /\
  Forall (fun f => valid_utf8 (bytes_of_string f.1) = true /\ codable f.2) fields.
Proof.
  cbn [codable]. apply and_iff_compat_l.
  induction fields as [|f fs IH]; cbn [foldr]; [by split|]. by rewrite IH, Forall_cons_iff.
Qed.

(** Values that survive the trip: their strings are UTF-8. *)
Definition storable : ty -> gv -> Prop := typed valid_utf8.

(** What decoding promises of the tree of a value. *)
Definition restores (t : ty) (v : gv) : Prop :=
  exists v', decode (tree t v) t (zero t) = (v', None) /\ strip v' = strip v.

Lemma find_index_at {A} (p : A -> bool) l i x :
  l !! i = Some x -> p x = true -> (forall j y, (j < i)%nat -> l !! j = Some y -> p y = false) ->
  find_index p l = Some i.
Proof.
  revert i. induction l as [|y l IH]; intros [|i] Hi Hp Hj; try done; cbn in Hi |- *.
  - simplify_eq. by rewrite Hp.
  - rewrite (Hj O y) by (done || lia). rewrite (IH i); [done|done|done|].
    intros j z Hlt Hz. apply (Hj (S j)); [lia|done].
Qed.

Lemma find_field_at fields i name t :
  NoDup (map fst fields) -> fields !! i = Some (name, t) ->
  find_field fields (bytes_of_string name) = Some i.
Proof.
  intros Hnd Hi. unfold find_field.
  rewrite (find_index_at _ fields i (name, t)); [done|done|by apply bool_decide_true|].
  intros j [name' t'] Hlt Hj. apply bool_decide_false. intros E%bytes_of_string_inj; cbn in E; subst name'.
  assert (i = j); [|lia]. eapply (NoDup_lookup (map fst fields)); [done|..].
  - change (map fst fields) with (fst <$> fields). by rewrite list_lookup_fmap, Hi.
  - change (map fst fields) with (fst <$> fields). by rewrite list_lookup_fmap, Hj.
Qed.

Lemma object_restores fields : NoDup (map fst fields) ->
  Forall (fun f => valid_utf8 (bytes_of_string f.1) = true) fields ->
  forall fs2 vs2 fs1 done,
  fields = fs1 ++ fs2 -> length done = length fs1 -> Forall2 (fun f v => restores f.2 v) fs2 vs2 ->
  exists vs', object decode fields (members tree fs2 vs2) (done ++ map (fun f => zero f.2) fs2) None
      = (done ++ vs', None) /\ map strip vs' = map strip vs2.
Proof.
  intros Hnd Hok fs2. induction fs2 as [|[name t] fs2 IH]; intros vs2 fs1 done Hf Hl Hr.
  { inversion Hr; subst. by exists []. }
  inversion Hr as [|? v ? vs2' [x [Hd Hx]] Hr']; subst vs2. cbn [members object map snd] in *.
  assert (Hi : fields !! length done = Some (name, t)).
  { by rewrite Hf, Hl, lookup_app_r, Nat.sub_diag by lia. }
  rewrite unquote_quote by (rewrite Forall_lookup in Hok; by apply (Hok _ _ Hi)).
  cbn [mbind option_bind]. rewrite (find_field_at _ _ _ _ Hnd Hi), Hi.
  rewrite lookup_app_r, Nat.sub_diag by lia. cbn [lookup list_lookup]. rewrite Hd.
  rewrite insert_app_r_alt, Nat.sub_diag by lia. cbn [insert list_insert saveError].
  destruct (IH vs2' (fs1 ++ [(name, t)]) (done ++ [x])) as (vs' & Hvs & Hs);
    [by rewrite <-app_assoc|rewrite !length_app; cbn; lia|done|].
  exists (x :: vs'). rewrite <-app_assoc in Hvs. cbn [app] in Hvs. rewrite Hvs, <-app_assoc.
  split; [done|]. cbn [map]. by rewrite Hx, Hs.
Qed.

Lemma grow_restores elem done k : exists k',
  grow elem (length done) (length done) (done ++ replicate k (zero elem)) =
  (S (length done), done ++ replicate (S k') (zero elem)).
Proof.
  unfold grow. rewrite (bool_decide_true (length done <= length done)%nat) by lia.
  rewrite length_app, length_replicate, take_app_length. destruct k as [|k].
  - rewrite bool_decide_true by lia. rewrite Nat.add_0_r.
    set (newcap := Nat.max 4 (length done + length done / 2)).
    assert (length done < newcap)%nat.
    { subst newcap. pose proof (Nat.div_mod_eq (length done) 2).
      pose proof (Nat.mod_upper_bound (length done) 2 ltac:(lia)).
      generalize dependent (length done / 2)%nat. intros. lia. }
    exists (newcap - length done - 1)%nat. do 3 f_equal. lia.
  - rewrite bool_decide_false by lia. by exists k.
Qed.

Lemma array_restores elem vs : Forall (restores elem) vs -> forall done k,
  exists done' k', array decode elem (map (tree elem) vs) (length done) (length done)
      (done ++ replicate k (zero elem)) None =
    (length done + length vs, length done + length vs, done ++ done' ++ replicate k' (zero elem), None)%nat /\
    map strip done' = map strip vs.
Proof.
  induction 1 as [|v vs (x & Hd & Hx) Hvs IH]; intros done k; cbn [map array].
  { exists [], k. by rewrite Nat.add_0_r. }
  destruct (grow_restores elem done k) as (k1 & ->).
  rewrite app_nth2, Nat.sub_diag by lia. cbn [replicate nth]. rewrite Hd.
  rewrite insert_app_r_alt, Nat.sub_diag by lia. cbn [insert list_insert saveError].
  destruct (IH (done ++ [x]) k1) as (done' & k' & Ha & Hs).
  rewrite length_app in Ha; cbn [length] in Ha. rewrite <-!app_assoc in Ha. cbn [app] in Ha.
  rewrite Nat.add_1_r in Ha. rewrite Ha. exists (x :: done'), k'. cbn [app length map].
  split; [|by rewrite Hx, Hs]. by rewrite Nat.add_succ_r, Nat.add_succ_l.
Qed.

Lemma b64_safe l : Forall (fun a => htmlSafe (byte.unsigned a) = true) (Encode l).
Proof.
  eapply Forall_impl; [|apply Encode_alphabet]. intros a H. cbv beta in *.
  destruct a; vm_compute in H; first [discriminate H|reflexivity].
Qed.

Lemma safe_ascii s :
  Forall (fun a => htmlSafe (byte.unsigned a) = true) s -> Forall (fun a => ascii a = true) s.
Proof. apply Forall_impl. intros a H. destruct a; first [discriminate H|reflexivity]. Qed.

Lemma b64_valid l : valid_utf8 (Encode l) = true.
Proof. apply ascii_valid, safe_ascii, b64_safe. Qed.

Lemma quote_b64 l : quoteChr :: Encode l ++ [quoteChr] = quote (Encode l).
Proof. unfold quote. by rewrite escape_safe by apply b64_safe. Qed.

Lemma bytes_restored n arr :
  Forall (typed valid_utf8 (TUint 8)) arr ->
  map strip (map value_of_byte (map byte_of (take n arr))) = take n (map strip arr).
Proof.
  intros Ha. revert n. induction Ha as [|v arr Hv Ha IH]; intros n; [by destruct n|].
  destruct n as [|n]; [done|]. cbn [take map]. rewrite IH. f_equal.
  destruct v as [k| | |]; try done. cbn in Hv |- *. unfold value_of_byte. cbn.
  rewrite byte.unsigned_of_Z. unfold byte.wrap. by rewrite Z.mod_small by lia.
Qed.

Lemma isByte_8 t : isByte t = true -> t = TUint 8.
Proof. destruct t; cbn; try done. by intros ->%Z.eqb_eq. Qed.

Lemma literalStore_string c rest t old s :
  byte.unsigned c = 34 -> unquote (c :: rest) = Some s ->
  literalStore (c :: rest) t old = match t with
    | TString => (VString s, None)
    | TSlice elem =>
        if isByte elem then
          match decode_from [] s with
          | Some b => (VSlice (Some (length b, map value_of_byte (b ++ zeros (DecodedLen (length s) - length b)))), None)
          | None => (old, Some CorruptInputError)
          end
        else (old, Some (UnmarshalTypeError "string"))
    | _ => (old, Some (UnmarshalTypeError "string"))
    end.
Proof. intros Hc Hu. unfold literalStore. rewrite Hc, Hu. done. Qed.

Lemma literalStore_uint bits n :
  0 < bits <= 64 -> 0 <= n < 2 ^ bits -> literalStore (FormatUint n) (TUint bits) (VUint 0) = (VUint n, None).
Proof.
  intros Hb Hn. assert (H64 : 0 <= n < 2 ^ 64).
  { split; [lia|]. apply Z.lt_le_trans with (2 ^ bits); [lia|]. apply Z.pow_le_mono_r; lia. }
  pose proof (ParseUint_FormatUint n H64) as Hp. pose proof (proj2 (Z.ltb_lt n (2 ^ bits)) ltac:(lia)) as Hlt.
  unfold literalStore. destruct (FormatUint_cases n H64) as [[-> E]|(c & rest & E & Hc & _)]; rewrite E in *.
  - cbn [byte.unsigned]. change (byte.unsigned (chr 48)) with 48. cbn [Z.eqb Pos.eqb orb]. by rewrite Hp, Hlt.
  - destruct c; try discriminate Hc; rewrite Hp, Hlt; reflexivity.
Qed.

Lemma bytes_restores n arr :
  (n <= length arr)%nat -> Forall (typed valid_utf8 (TUint 8)) arr ->
  restores (TSlice (TUint 8)) (VSlice (Some (n, arr))).
Proof.
  intros Hn Ha. unfold restores. cbn [tree isByte Z.eqb Pos.eqb decode]. set (bs := map byte_of (take n arr)).
  rewrite quote_b64. unfold quote.
  erewrite literalStore_string; [|reflexivity|].
  2: { rewrite unquote_body. apply unescape_escape, b64_valid. }
  cbn [isByte Z.eqb Pos.eqb]. rewrite decode_Encode. eexists. split; [done|].
  assert (Hl : length bs = n) by (subst bs; rewrite length_map, length_take; lia).
  cbn [strip]. rewrite Hl, !map_app. rewrite take_app_le by (rewrite !length_map; lia).
  rewrite take_ge by (rewrite !length_map; lia). subst bs. by rewrite bytes_restored.
Qed.

Lemma slice_restores elem n arr :
  isByte elem = false -> (n <= length arr)%nat -> Forall (restores elem) (take n arr) ->
  restores (TSlice elem) (VSlice (Some (n, arr))).
Proof.
  intros Hb Hn Hr. unfold restores. cbn [tree]. rewrite Hb. cbn [decode zero].
  destruct (array_restores elem (take n arr) Hr [] 0) as (done' & k' & Ha & Hs).
  cbn [length app replicate] in Ha. rewrite Ha. rewrite length_take, Nat.min_l by done. cbn [Nat.add].
  assert (Hld : length done' = n).
  { apply (f_equal length) in Hs. rewrite !length_map, length_take in Hs. lia. }
  case_bool_decide as H0.
  - eexists. split; [done|]. cbn [strip]. subst n. by rewrite H0.
  - eexists. split; [done|]. cbn [strip]. rewrite Nat.min_id, map_app.
    rewrite take_app_le by (rewrite length_map; lia). rewrite take_ge by (rewrite length_map; lia).
    rewrite Hs. by rewrite firstn_map.
Qed.

(** The tree of a value is decoded to that value. *)
Lemma decode_tree t : forall v, codable t -> storable t v -> restores t v.
Proof.
  induction t as [bits| |elem IH|fields IH] using ty_ind; intros v Hc Hv; destruct v as [n|s|s|vs]; try done.
  - eexists. split; [|done]. cbn [tree decode zero]. by apply literalStore_uint.
  - exists (VString s). split; [|done]. cbn [tree decode zero]. unfold quote.
    erewrite literalStore_string; [done|done|]. rewrite unquote_body. by apply unescape_escape.
  - destruct s as [[n arr]|]; [|by exists (VSlice None)]. destruct Hv as [Hn Ha].
    destruct (isByte elem) eqn:Hb.
    { apply isByte_8 in Hb. subst elem. by apply bytes_restores. }
    apply slice_restores; [done|done|]. apply Forall_take.
    eapply Forall_impl; [|exact Ha]. intros x Hx. by apply IH.
  - apply codable_fields in Hc as [Hnd Hc]. cbn in Hv. apply all2_Forall2 in Hv.
    assert (Hr : Forall2 (fun f v => restores f.2 v) fields vs).
    { clear Hnd. induction Hv as [|f x fs xs Hx Hv IHv]; [constructor|].
      apply Forall_cons_iff in IH as [IH1 IH2]. apply Forall_cons_iff in Hc as [[_ Hc1] Hc2].
      constructor; [by apply IH1|by apply IHv]. }
    assert (Hn : Forall (fun f => valid_utf8 (bytes_of_string f.1) = true) fields).
    { eapply Forall_impl; [|exact Hc]. by intros f []. }
    destruct (object_restores fields Hnd Hn fields vs [] [] eq_refl eq_refl Hr) as (vs' & Ho & Hs).
    unfold restores. cbn [tree decode zero]. cbn [app] in Ho. rewrite Ho. eexists. split; [done|].
    cbn [strip]. by rewrite Hs.
Qed.

(** ** Texts *)

Lemma tree_wf t : forall v, codable t -> storable t v -> wf (tree t v).
Proof.
  induction t as [bits| |elem IH|fields IH] using ty_ind; intros v Hc Hv; destruct v as [n|s|s|vs]; try done.
  - cbn in Hc, Hv |- *. apply FormatUint_lit. split; [lia|].
    apply Z.lt_le_trans with (2 ^ bits); [lia|]. apply Z.pow_le_mono_r; lia.
  - by apply quote_lit.
  - destruct s as [[n arr]|]; [|apply null_lit]. destruct Hv as [Hn Ha]. cbn [tree].
    destruct (isByte elem) eqn:Hb.
    { cbn [wf]. rewrite quote_b64. apply quote_lit, b64_valid. }
    cbn [wf]. cbn in Hc. apply (Forall_take _ n) in Ha. induction Ha as [|x xs Hx Ha IH']; [done|].
    cbn [map foldr]. split; [by apply IH|done].
  - apply codable_fields in Hc as [_ Hc]. cbn in Hv. apply all2_Forall2 in Hv. cbn [tree wf].
    induction Hv as [|[name t] x fs xs Hx Hv IHv]; [done|]. cbn [members foldr fst snd] in *.
    apply Forall_cons_iff in IH as [IH1 IH2]. apply Forall_cons_iff in Hc as [[Hk Hc1] Hc2].
    split; [split; [by apply quote_key|by apply IH1]|by apply IHv].
Qed.

(** The nesting of a text is that of its type. *)
Fixpoint ty_depth (t : ty) : nat :=
  match t with
  | TUint _ | TString => 0
  | TSlice elem => S (ty_depth elem)
  | TStruct fields => S (foldr (fun f n => Nat.max (ty_depth f.2) n) 0%nat fields)
  end.

Lemma tree_depth t : forall v, (depth (tree t v) <= ty_depth t)%nat.
Proof.
  induction t as [bits| |elem IH|fields IH] using ty_ind; intros v;
    destruct v as [n|s|s|vs]; cbn [tree depth]; try lia.
  - destruct s as [[n arr]|]; cbn [depth]; [|lia]. destruct (isByte elem); cbn [depth ty_depth]; [lia|].
    apply le_n_S. induction (take n arr) as [|x xs IH']; cbn; [lia|]. specialize (IH x). lia.
  - cbn [ty_depth]. apply le_n_S. revert vs. induction IH as [|[name t] fs Hf IH' IH'']; intros vs; [done|].
    destruct vs as [|v vs]; cbn [members foldr snd]; [lia|]. specialize (IH'' vs). specialize (Hf v). cbn in Hf. lia.
Qed.

(** What was marshalled is unmarshalled again. *)
Lemma Unmarshal_Marshal t v :
  codable t -> (ty_depth t <= maxNestingDepth)%nat -> storable t v ->
  exists v', Unmarshal t (Marshal t v) (zero t) = (v', None) /\ strip v' = strip v.
Proof.
  intros Hc Hd Hv. unfold Unmarshal, Marshal.
  rewrite json_tree_print; [by apply decode_tree|by apply tree_wf|]. pose proof (tree_depth t v). lia.
Qed.

Lemma Unmarshal_typed t data v : sized t -> has_type t v -> has_type t (Unmarshal t data v).1.
Proof. intros Hz Hv. unfold Unmarshal. destruct (json_tree data); [by apply decode_typed|done]. Qed.

End JsonCodec.
