(* ===== verification/Codec.v ===== *)
(** * Records with a JSON form

    [Codec] ties a record of the model to the Go struct type it stands for;
    [CodecLaws] is what [PackageRequest] and [UnpackResponse] rely on.  In a
    record a slice is the list of its elements; the slices that are sent are
    never nil. *)

From S2P Require Import Prelude GoRuntime JsonScan JsonTree JsonString JsonCodec.
Import JsonCodec.

(** ** Parts of a Go value *)

Definition field (i : nat) (v : gv) : gv :=
  match v with VStruct vs => nth i vs (VUint 0) | _ => VUint 0 end.

Definition get_uint (v : gv) : Z := match v with VUint n => n | _ => 0 end.
Definition get_string (v : gv) : list byte := match v with VString s => s | _ => [] end.

Definition get_slice {A} (f : gv -> A) (v : gv) : list A :=
  match v with VSlice (Some (n, arr)) => map f (take n arr) | _ => [] end.

Definition put_slice {A} (f : A -> gv) (l : list A) : gv := VSlice (Some (length l, map f l)).

Definition get_bytes : gv -> list byte := get_slice byte_of.
Definition put_bytes : list byte -> gv := put_slice value_of_byte.
Definition put_strings : list string -> gv := put_slice (fun s => VString (bytes_of_string s)).
Definition get_strings : gv -> list string := get_slice (fun v => string_of_bytes (get_string v)).

Lemma field_strip i v : field i (strip v) = strip (field i v).
Proof.
  destruct v as [n|s|[[n arr]|]|vs]; try done. cbn. by rewrite <-(map_nth strip).
Qed.

Lemma get_uint_strip v : get_uint (strip v) = get_uint v.
Proof. by destruct v as [n|s|[[n arr]|]|vs]. Qed.

Lemma get_string_strip v : get_string (strip v) = get_string v.
Proof. by destruct v as [n|s|[[n arr]|]|vs]. Qed.

Lemma byte_of_strip v : byte_of (strip v) = byte_of v.
Proof. by destruct v as [n|s|[[n arr]|]|vs]. Qed.

Lemma get_slice_strip {A} (f : gv -> A) v : (forall x, f (strip x) = f x) -> get_slice f (strip v) = get_slice f v.
Proof.
  intros Hf. destruct v as [n|s|[[n arr]|]|vs]; try done. cbn.
  rewrite take_take, Nat.min_id, firstn_map, map_map. by apply map_ext.
Qed.

Lemma get_bytes_strip v : get_bytes (strip v) = get_bytes v.
Proof. apply get_slice_strip, byte_of_strip. Qed.

Lemma get_strings_strip v : get_strings (strip v) = get_strings v.
Proof. apply get_slice_strip. intros x. by rewrite get_string_strip. Qed.

Lemma get_uints_strip v : get_slice get_uint (strip v) = get_slice get_uint v.
Proof. apply get_slice_strip, get_uint_strip. Qed.

Lemma get_put_slice {A} (g : gv -> A) (f : A -> gv) l : Forall (fun x => g (f x) = x) l -> get_slice g (put_slice f l) = l.
Proof.
  intros H. cbn. rewrite take_ge by (by rewrite length_map). rewrite map_map.
  induction H as [|x l Hx Hl IH]; cbn; [done|]. by rewrite Hx, IH.
Qed.

Lemma byte_of_value b : byte_of (value_of_byte b) = b.
Proof. cbn. apply byte.of_Z_unsigned. Qed.

Lemma get_put_bytes l : get_bytes (put_bytes l) = l.
Proof. apply get_put_slice, Forall_true, byte_of_value. Qed.

Lemma get_put_strings l : get_strings (put_strings l) = l.
Proof. apply get_put_slice, Forall_true. intros s. cbn. apply string_of_bytes_of_string. Qed.

Lemma put_bytes_storable l : storable (TSlice (TUint 8)) (put_bytes l).
Proof.
  split; [by rewrite length_map|]. apply List.Forall_map, Forall_true. intros b. cbn.
  pose proof (unsigned_range_256 b). lia.
Qed.

Lemma put_slice_storable {A} (f : A -> gv) t l : Forall (fun x => storable t (f x)) l -> storable (TSlice t) (put_slice f l).
Proof. intros H. split; [by rewrite length_map|]. by apply List.Forall_map. Qed.

Lemma storable_struct fields vs :
  Forall2 (fun f v => storable f.2 v) fields vs -> storable (TStruct fields) (VStruct vs).
Proof. intros H. by apply all2_Forall2. Qed.

Lemma field_typed fields v i name t :
  has_type (TStruct fields) v -> fields !! i = Some (name, t) -> has_type t (field i v).
Proof.
  destruct v as [| | |vs]; try done. cbn. intros Hv%all2_Forall2 Hi.
  destruct (Forall2_lookup_l _ _ _ _ _ Hv Hi) as (x & Hx & Ht).
  by rewrite (nth_lookup_Some _ _ _ x).
Qed.

Lemma get_uint_typed bits v : has_type (TUint bits) v -> 0 <= get_uint v < 2 ^ bits.
Proof. by destruct v. Qed.

(** ** Codecs *)

Class Codec (A : Type) := {
  go_type : ty;
  to_gv : A -> gv;
  of_gv : gv -> A
}.

(** [fits a]: the record's integers have their widths and its strings are
    UTF-8. *)
Class CodecLaws (A : Type) {C : Codec A} := {
  fits : A -> Prop;
  type_codable : codable go_type;
  type_flat : (ty_depth go_type <= 10)%nat;
  to_gv_storable a : fits a -> storable go_type (to_gv a);
  of_gv_strip v : of_gv (strip v) = of_gv v;
  of_to_gv a : of_gv (to_gv a) = a
}.

Section codec.
Context {A : Type} {C : Codec A}.

(** [json.Marshal(a)]: it cannot fail on these types. *)
Definition encode (a : A) : list byte := Marshal (go_type (A := A)) (to_gv a).

Definition marshal (a : A) : result (list byte) := Ok (encode a).

(** [var a A; err := json.Unmarshal(data, &a)] *)
Definition unmarshal (data : list byte) : A * option error :=
  let '(v, err) := Unmarshal (go_type (A := A)) data (zero (go_type (A := A))) in (of_gv v, err).

Context {L : CodecLaws A}.

Lemma unmarshal_encode a : fits a -> unmarshal (encode a) = (a, None).
Proof.
  intros Ha. unfold unmarshal, encode.
  destruct (Unmarshal_Marshal go_type (to_gv a)) as (v & -> & Hv); [apply type_codable| |by apply to_gv_storable|].
  { etrans; [apply type_flat|]. unfold JsonScan.maxNestingDepth. lia. }
  f_equal. by rewrite <-of_gv_strip, Hv, of_gv_strip, of_to_gv.
Qed.

Lemma unmarshal_marshal a data : fits a -> marshal a = Ok data -> unmarshal data = (a, None).
Proof. intros Ha [= <-]. by apply unmarshal_encode. Qed.

End codec.

(** Deciding [codable] on a concrete type. *)
Ltac check_type :=
  cbn;
  repeat match goal with |- _ /\ _ => split end;
  first [ exact I | lia | by vm_compute | apply (bool_decide_unpack _); by vm_compute ].
