(* ===== verification/Apps.v ===== *)
(** * The application layer: [src/apps]

    Status codes, the [App] interface, and the handler that registers apps
    and routes an APDU to one of them.  The APDU parser
    ([go-nfctype4/apdu]) is a parameter. *)

From S2P Require Import Prelude GoRuntime Crypto.

(** ** Status codes: [apdu.go] *)

Definition APDUCode := Z.
Definition APDUExecutionError : APDUCode := 0x6400.
Definition APDUEmptyBuffer : APDUCode := 0x6982.
Definition APDUOutputBufferTooSmall : APDUCode := 0x6983.
Definition APDUCommandNotAllowed : APDUCode := 0x6986.
Definition APDUINSNotSupported : APDUCode := 0x6D00.
Definition APDUCLANotSupported : APDUCode := 0x6E00.
Definition APDUUnknown : APDUCode := 0x6F00.
Definition APDUSuccess : APDUCode := 0x9000.
Definition APDUWrongLength : APDUCode := 0x6700.
Definition APDUDataInvalid : APDUCode := 0x6984.

(** The generated [String] method of [apducode_string.go]. *)
Definition _APDUCode_name_2 : string := "APDUEmptyBufferAPDUOutputBufferTooSmallAPDUDataInvalid".
Definition _APDUCode_index_2 : list nat := [0; 15; 39; 54]%nat.

Definition APDUCode_String (i : APDUCode) : string :=
  if i =? 25600 then "APDUExecutionError"
  else if i =? 26368 then "APDUWrongLength"
  else if (27010 <=? i) && (i <=? 27012) then
    let i := i - 27010 in
    str_slice _APDUCode_name_2 (nth (Z.to_nat i) _APDUCode_index_2 0%nat)
      (nth (Z.to_nat (i + 1)) _APDUCode_index_2 0%nat)
  else if i =? 27014 then "APDUCommandNotAllowed"
  else if i =? 27904 then "APDUINSNotSupported"
  else if i =? 28160 then "APDUCLANotSupported"
  else if i =? 28416 then "APDUUnknown"
  else if i =? 36864 then "APDUSuccess"
  else "APDUCode(" +:+ FormatInt i +:+ ")".

(** ** The third-party APDU parser *)

Record CAPDU := mkCAPDU { CLA : Z; INS : Z }.

Class CAPDUCodec := {
  CAPDU_Unmarshal : list byte -> result CAPDU
}.

(** ISO 7816-4: a command APDU starts with its CLA and INS bytes. *)
Class CAPDULaws (C : CAPDUCodec) : Prop := {
  capdu_header l c : CAPDU_Unmarshal l = Ok c ->
    exists b0 b1 rest, l = b0 :: b1 :: rest /\ CLA c = byte.unsigned b0 /\ INS c = byte.unsigned b1
}.

(** ** The [App] interface *)

Class App (W A : Type) := {
  Name : A -> string;
  ID : A -> Z;
  Commands : A -> list Z;
  app_Handle : A -> Z -> slice -> W -> go (W * A * (list byte * APDUCode * option error))
}.

(** What the handler relies on: handling a command changes neither the
    identity of an app nor its list of commands. *)
Class AppLaws (W A : Type) (I : App W A) : Prop := {
  app_ID_stable (a a' : A) cmd d w w' r :
    app_Handle a cmd d w = Ret (w', a', r) -> ID a' = ID a /\ Commands a' = Commands a
}.

(** ** The handler *)

(** The Go maps hold interface values that point to the apps; an app is
    reachable from one key only (its ID), so the map holds its state. *)
Record Handler (A : Type) := mkHandler {
  appMap : gmap Z A;
  commandAppMap : gset (Z * Z)
}.
Arguments mkHandler {A}.
Arguments appMap {A}.
Arguments commandAppMap {A}.

Definition NewHandler {A} : Handler A := mkHandler ∅ ∅.

Definition mappingExists {A} (h : Handler A) (appID : Z) : bool :=
  bool_decide (is_Some (appMap h !! appID)).

Definition commandAppMappingExists {A} (h : Handler A) (appID command : Z) : bool :=
  bool_decide ((appID, command) ∈ commandAppMap h).

(** [PackageResponse]: writing bytes and a [uint16] to a buffer cannot fail. *)
Definition PackageResponse (data : list byte) (code : APDUCode) : list byte :=
  data ++ be_split 2 code.

Section handler.
Context {W A : Type} {I : App W A} {C : CAPDUCodec}.

(** One iteration of the loop of [Register]. *)
Definition register1 (h : Handler A) (app : A) : Handler A * option error :=
  let appID := ID app in
  let cmds := Commands app in
  if mappingExists h appID
  then (h, Some (Errorf ("mapping for " +:+ Name app +:+ " already exists") []))
  else (mkHandler (<[appID := app]> (appMap h))
          (commandAppMap h ∪ list_to_set (map (pair appID) cmds)), None).

Fixpoint Register (h : Handler A) (apps : list A) : Handler A * option error :=
  match apps with
  | [] => (h, None)
  | app :: rest =>
      match register1 h app with
      | (h', Some e) => (h', Some e)
      | (h', None) => Register h' rest
      end
  end.

(** A parse error is turned into the zero packet and a nil error. *)
Definition UnmarshalCAPDU (data : list byte) : CAPDU * option error :=
  match CAPDU_Unmarshal data with
  | Err _ => (mkCAPDU 0 0, None)
  | Ok packet => (packet, None)
  end.

(** [(h *Handler) Handle]; [None] is a nil response. *)
Definition Handle (h : Handler A) (data : slice) (w : W)
    : go (W * Handler A * (option (list byte) * option error)) :=
  match UnmarshalCAPDU (s_data data) with
  | (_, Some err) => Ret (w, h, (None, Some err))
  | (capdu, None) =>
      let appID := CLA capdu in
      let command := INS capdu in
      if negb (mappingExists h appID) then
        Ret (w, h, (Some (PackageResponse [] APDUCLANotSupported),
                    Some (Errorf "appID %v not supported" [appID])))
      else if negb (commandAppMappingExists h appID command) then
        Ret (w, h, (Some (PackageResponse [] APDUCLANotSupported),
                    Some (Errorf "command ID %v not supported in app %v" [command; appID])))
      else
        match appMap h !! appID with
        | None => Panic NilDereference
        | Some app =>
            '(w', app', (respData, respCode, err)) ← app_Handle app command data w;
            Ret (w', mkHandler (<[appID := app']> (appMap h)) (commandAppMap h),
                 (Some (PackageResponse respData respCode), err))
        end
  end.

(** ** The invariant of the handler *)

Record handler_ok (h : Handler A) : Prop := {
  ok_ids id app : appMap h !! id = Some app -> ID app = id;
  ok_commands id cmd : (id, cmd) ∈ commandAppMap h <->
    exists app, appMap h !! id = Some app /\ cmd ∈ Commands app
}.

Lemma NewHandler_ok : handler_ok NewHandler.
Proof. split; simpl; [set_solver|]. intros. set_solver. Qed.

Lemma mappingExists_true (h : Handler A) id :
  mappingExists h id = true <-> exists app, appMap h !! id = Some app.
Proof. unfold mappingExists. rewrite bool_decide_eq_true. done. Qed.

Lemma mappingExists_false (h : Handler A) id : mappingExists h id = false <-> appMap h !! id = None.
Proof. unfold mappingExists. rewrite bool_decide_eq_false. symmetry. apply eq_None_not_Some. Qed.

Lemma register1_ok h app h' :
  handler_ok h -> register1 h app = (h', None) ->
  handler_ok h' /\ appMap h !! ID app = None /\ appMap h' = <[ID app := app]> (appMap h).
Proof.
  intros [Hi Hc]. unfold register1. destruct (mappingExists h (ID app)) eqn:Hm; [done|].
  intros [= <-]. apply mappingExists_false in Hm. split; [split|done]; simpl.
  - intros id a. rewrite lookup_insert. case_decide; [naive_solver|apply Hi].
  - intros id cmd. rewrite elem_of_union, elem_of_list_to_set, list_elem_of_In, in_map_iff, Hc.
    rewrite lookup_insert. case_decide as E.
    + subst id. setoid_rewrite list_elem_of_In. split.
      * intros [(a & Ha & _)|(x & Hx & ?)]; [congruence|]. simplify_eq. eauto.
      * intros (a & Ha & ?). simplify_eq. right. eauto.
    + split; [|naive_solver]. intros [?|(x & Hx & _)]; [done|]. simplify_eq.
Qed.

Lemma register1_dup h app h' e :
  register1 h app = (h', Some e) -> h' = h /\ is_Some (appMap h !! ID app).
Proof.
  unfold register1. destruct (mappingExists h (ID app)) eqn:Hm; [|done].
  intros [= <- _]. by apply mappingExists_true in Hm.
Qed.

Lemma Register_ok h apps h' err :
  handler_ok h -> Register h apps = (h', err) ->
  handler_ok h' /\ (forall id a, appMap h !! id = Some a -> appMap h' !! id = Some a).
Proof.
  revert h. induction apps as [|app apps IH]; intros h Hok H; simpl in H; [by simplify_eq|].
  destruct (register1 h app) as [h1 [e|]] eqn:E.
  - simplify_eq. apply register1_dup in E as [-> _]. done.
  - destruct (register1_ok h app h1 Hok E) as (Hok1 & Hn & Hm).
    destruct (IH h1 Hok1 H) as [? Hpres]. split; [done|].
    intros id a Ha. apply Hpres. rewrite Hm, lookup_insert_ne; [done|congruence].
Qed.

Lemma Register_all h apps h' :
  handler_ok h -> Register h apps = (h', None) ->
  Forall (fun app => appMap h' !! ID app = Some app) apps /\ NoDup (map ID apps) /\
  Forall (fun app => appMap h !! ID app = None) apps.
Proof.
  revert h. induction apps as [|app apps IH]; intros h Hok H; simpl in H; [by repeat constructor|].
  destruct (register1 h app) as [h1 [e|]] eqn:E; [done|].
  destruct (register1_ok h app h1 Hok E) as (Hok1 & Hn & Hm).
  destruct (IH h1 Hok1 H) as (Hall & Hnd & Hfresh).
  destruct (Register_ok h1 apps h' None Hok1 H) as [_ Hpres]. split_and!.
  - constructor; [|done]. apply Hpres. rewrite Hm. apply lookup_insert_eq.
  - simpl. constructor; [|done]. rewrite list_elem_of_In, in_map_iff.
    intros (b & Hb & Hin). rewrite List.Forall_forall in Hfresh. specialize (Hfresh b Hin).
    rewrite Hb, Hm, lookup_insert_eq in Hfresh. done.
  - constructor; [done|]. eapply List.Forall_impl; [|exact Hfresh]. simpl. intros b Hb.
    rewrite Hm in Hb. apply lookup_insert_None in Hb. tauto.
Qed.

Lemma Register_first_duplicate h apps h' e :
  handler_ok h -> Register h apps = (h', Some e) ->
  exists pre app post, apps = pre ++ app :: post /\
    Register h pre = (h', None) /\ is_Some (appMap h' !! ID app) /\
    e = Errorf ("mapping for " +:+ Name app +:+ " already exists") [].
Proof.
  revert h. induction apps as [|app apps IH]; intros h Hok H; simpl in H; [done|].
  destruct (register1 h app) as [h1 [e1|]] eqn:E.
  - simplify_eq. exists [], app, apps. pose proof (register1_dup _ _ _ _ E) as [-> Hs].
    split_and!; try done. unfold register1 in E. destruct (mappingExists _ _); by simplify_eq.
  - destruct (register1_ok h app h1 Hok E) as (Hok1 & _).
    destruct (IH h1 Hok1 H) as (pre & a & post & -> & Hr & Hs & ->).
    exists (app :: pre), a, post. split_and!; try done. simpl. by rewrite E.
Qed.

Lemma UnmarshalCAPDU_nil data : (UnmarshalCAPDU data).2 = None.
Proof. unfold UnmarshalCAPDU. by destruct (CAPDU_Unmarshal data). Qed.

(** Whatever it is asked, the handler answers with at least a status code. *)
Lemma Handle_responds h data w w' h' resp err :
  Handle h data w = Ret (w', h', (resp, err)) ->
  exists body code, resp = Some (PackageResponse body code).
Proof.
  unfold Handle. destruct (UnmarshalCAPDU (s_data data)) as [capdu [e|]] eqn:E.
  { pose proof (UnmarshalCAPDU_nil (s_data data)). by rewrite E in *. }
  destruct (negb (mappingExists _ _)); [intros; simplify_eq; eauto|].
  destruct (negb (commandAppMappingExists _ _ _)); [intros; simplify_eq; eauto|].
  destruct (appMap h !! CLA capdu) as [app|]; [|done].
  intros ([[w1 a1] [[d c] e1]] & _ & H)%go_bind_Ret_inv; simplify_eq; eauto.
Qed.

Lemma Handle_ok `{!AppLaws W A I} h data w w' h' r :
  handler_ok h -> Handle h data w = Ret (w', h', r) -> handler_ok h'.
Proof.
  intros [Hi Hc]. unfold Handle. destruct (UnmarshalCAPDU _) as [capdu [e|]]; [by intros; simplify_eq|].
  destruct (negb (mappingExists _ _)); [by intros; simplify_eq|].
  destruct (negb (commandAppMappingExists _ _ _)); [by intros; simplify_eq|].
  destruct (appMap h !! CLA capdu) as [app|] eqn:Ha; [|done].
  intros ([[w1 a1] [[d c] e1]] & Hh & H)%go_bind_Ret_inv; simplify_eq.
  destruct (app_ID_stable _ _ _ _ _ _ _ Hh) as [Hid Hcmd].
  split; simpl.
  - intros id a. rewrite lookup_insert. case_decide; [|apply Hi]. intros; simplify_eq.
    rewrite Hid. by apply Hi.
  - intros id cmd. rewrite Hc, lookup_insert. case_decide; [|done]. subst.
    rewrite Ha. split; intros (a & ? & Hin); simplify_eq; eexists; split; try done; congruence.
Qed.

(** The three outcomes of routing, for a handler in its invariant. *)
Definition routed (h : Handler A) (data : slice) : option (Z * Z * A) :=
  let capdu := (UnmarshalCAPDU (s_data data)).1 in
  match appMap h !! CLA capdu with
  | Some app => if bool_decide (INS capdu ∈ Commands app) then Some (CLA capdu, INS capdu, app) else None
  | None => None
  end.

Lemma Handle_routed h data w id cmd app :
  handler_ok h -> routed h data = Some (id, cmd, app) ->
  Handle h data w =
    ('(w', app', (respData, respCode, err)) ← app_Handle app cmd data w;
     Ret (w', mkHandler (<[id := app']> (appMap h)) (commandAppMap h),
          (Some (PackageResponse respData respCode), err))).
Proof.
  intros [Hi Hc]. unfold routed, Handle. pose proof (UnmarshalCAPDU_nil (s_data data)) as Hn.
  destruct (UnmarshalCAPDU _) as [capdu e]; simpl in *; subst e.
  destruct (appMap h !! CLA capdu) as [a|] eqn:Ha; [|done].
  case_bool_decide as Hin; [|done]. intros; simplify_eq.
  unfold mappingExists, commandAppMappingExists. rewrite Ha, !bool_decide_true; [done| |done].
  apply Hc. eauto.
Qed.

Lemma Handle_unrouted h data w :
  handler_ok h -> routed h data = None ->
  exists e, Handle h data w = Ret (w, h, (Some (PackageResponse [] APDUCLANotSupported), Some e)).
Proof.
  intros [Hi Hc]. unfold routed, Handle. pose proof (UnmarshalCAPDU_nil (s_data data)) as Hn.
  destruct (UnmarshalCAPDU _) as [capdu e]; simpl in *; subst e.
  unfold mappingExists, commandAppMappingExists.
  destruct (appMap h !! CLA capdu) as [a|] eqn:Ha.
  - case_bool_decide as Hin; [done|]. intros _.
    rewrite (bool_decide_true (is_Some _)) by done.
    rewrite (bool_decide_false ((CLA capdu, INS capdu) ∈ _)); [simpl; eauto|].
    rewrite Hc. intros (b & ? & ?). by simplify_eq.
  - intros _. rewrite bool_decide_false by (by intros [? ?]). simpl. eauto.
Qed.

End handler.

#[export] Hint Resolve NewHandler_ok : wallera.

(** ** Concrete instances for the witnesses *)

(** A parser that reads the two first bytes of any APDU of five bytes or more. *)
Definition header_codec : CAPDUCodec := {|
  CAPDU_Unmarshal := fun l =>
    match l with
    | b0 :: b1 :: _ :: _ :: _ :: _ => Ok (mkCAPDU (byte.unsigned b0) (byte.unsigned b1))
    | _ => Err (External "apdu")
    end
|}.

Lemma header_codec_laws : CAPDULaws header_codec.
Proof.
  constructor. intros l c H. destruct l as [|b0 [|b1 [|b2 [|b3 [|b4 l]]]]]; simplify_eq/=.
  by exists b0, b1, (b2 :: b3 :: b4 :: l).
Qed.

(** An app that echoes its input: its ID and commands are its state. *)
Definition echo_app : App unit (Z * list Z) := {|
  Name := fun _ => "echo";
  ID := fst;
  Commands := snd;
  app_Handle := fun a _ d w => Ret (w, a, (s_data d, APDUSuccess, None))
|}.

Lemma echo_app_laws : AppLaws unit (Z * list Z) echo_app.
Proof. constructor. intros a a' cmd d w w' r [= <- <- <-]. done. Qed.

Definition echo_handler : Handler (Z * list Z) :=
  (Register (I := echo_app) NewHandler [(85, [0; 2; 4])]).1.

Lemma echo_handler_ok : handler_ok (I := echo_app) echo_handler.
Proof.
  apply (Register_ok (I := echo_app) NewHandler [(85, [0; 2; 4])] echo_handler None);
    [apply NewHandler_ok|reflexivity].
Qed.

(** ** Properties *)

(** Registration.  [Register] keeps the handler's invariant and every
    app already registered.  It succeeds only if the IDs of the new apps are
    distinct and free, and then each app is found under its ID; otherwise it
    stops at the first app whose ID is taken, having registered exactly those
    before it. *)
Theorem Register_spec {W A : Type} {I : App W A} (h : Handler A) apps h' err :
  handler_ok h -> Register h apps = (h', err) ->
  handler_ok h' /\ (forall id a, appMap h !! id = Some a -> appMap h' !! id = Some a) /\
  match err with
  | None => NoDup (map ID apps) /\
      Forall (fun app => appMap h !! ID app = None /\ appMap h' !! ID app = Some app) apps
  | Some e => exists pre app post, apps = pre ++ app :: post /\
      Register h pre = (h', None) /\ is_Some (appMap h' !! ID app)
  end.
Proof.
  intros Hok H. destruct (Register_ok h apps h' err Hok H) as [Hok' Hpres]. split_and!; [done..|].
  destruct err as [e|].
  - destruct (Register_first_duplicate h apps h' e Hok H) as (pre & app & post & ? & ? & ? & _). eauto 6.
  - destruct (Register_all h apps h' Hok H) as (H1 & H2 & H3). split; [done|].
    apply List.Forall_forall. intros a Ha. rewrite List.Forall_forall in H1, H3. auto.
Qed.

Lemma Register_spec_witness :
  handler_ok (I := echo_app)
    (Register (I := echo_app) NewHandler [(85, [0; 2; 4]); (86, [1]); (85, [7])]).1 /\
  exists pre app post,
    [(85, [0; 2; 4]); (86, [1]); (85, [7])] = pre ++ app :: post /\
    Register (I := echo_app) NewHandler pre
      = ((Register (I := echo_app) NewHandler [(85, [0; 2; 4]); (86, [1]); (85, [7])]).1, None).
Proof.
  destruct (Register_spec (I := echo_app) NewHandler [(85, [0; 2; 4]); (86, [1]); (85, [7])]
    (Register (I := echo_app) NewHandler [(85, [0; 2; 4]); (86, [1]); (85, [7])]).1
    (Register (I := echo_app) NewHandler [(85, [0; 2; 4]); (86, [1]); (85, [7])]).2)
    as (Hok & _ & pre & app & post & H1 & H2 & _).
  - apply NewHandler_ok.
  - reflexivity.
  - split; [exact Hok|]. exists pre, app, post. split; [exact H1|exact H2].
Defined.

(** Routing.  For a handler in its invariant, a command goes to the app
    registered for its CLA byte if that app lists its INS byte, and the answer
    is the app's data followed by the app's status code; any other input, in
    particular one the APDU parser rejects when no app has ID 0, leaves
    everything unchanged and is answered with the status CLA-not-supported. *)
Theorem Handle_routing {W A : Type} {I : App W A} {C : CAPDUCodec} (h : Handler A) data w :
  handler_ok h ->
  match routed h data with
  | Some (id, cmd, app) =>
      Handle h data w =
        ('(w', app', (respData, respCode, err)) ← app_Handle app cmd data w;
         Ret (w', mkHandler (<[id := app']> (appMap h)) (commandAppMap h),
              (Some (PackageResponse respData respCode), err)))
  | None =>
      exists e, Handle h data w =
        Ret (w, h, (Some (PackageResponse [] APDUCLANotSupported), Some e))
  end /\
  (forall e, CAPDU_Unmarshal (s_data data) = Err e -> appMap h !! 0 = None -> routed h data = None).
Proof.
  intros Hok. split.
  - destruct (routed h data) as [[[id cmd] app]|] eqn:E;
      [by apply Handle_routed|by apply Handle_unrouted].
  - intros e He Hn. unfold routed, UnmarshalCAPDU. rewrite He; simpl. by rewrite Hn.
Qed.

Lemma Handle_routing_witness :
  Handle (I := echo_app) (C := header_codec) echo_handler (full (bytes_of [85; 2; 0; 0; 0])) tt
  = Ret (tt, mkHandler (<[85 := (85, [0; 2; 4])]> (appMap echo_handler)) (commandAppMap echo_handler),
         (Some (PackageResponse (bytes_of [85; 2; 0; 0; 0]) APDUSuccess), None)).
Proof.
  exact (proj1 (Handle_routing (I := echo_app) (C := header_codec) echo_handler
    (full (bytes_of [85; 2; 0; 0; 0])) tt echo_handler_ok)).
Defined.

(** The handler always answers.  Handling any input keeps the invariant,
    and unless the app panics the response is never nil: it ends with a
    two-byte status code, from which body and code can be read back. *)
Theorem Handle_answers {W A : Type} {I : App W A} {L : AppLaws W A I} {C : CAPDUCodec}
    (h : Handler A) data w w' h' resp err :
  handler_ok h -> Handle h data w = Ret (w', h', (resp, err)) ->
  handler_ok h' /\
  exists body code, resp = Some (PackageResponse body code) /\
    take (length (PackageResponse body code) - 2) (PackageResponse body code) = body /\
    be_combine (drop (length (PackageResponse body code) - 2) (PackageResponse body code)) = u16 code.
Proof.
  intros Hok H. split; [by eapply Handle_ok|].
  destruct (Handle_responds h data w w' h' resp err H) as (body & code & ->).
  exists body, code. split; [done|]. unfold PackageResponse.
  rewrite length_app, length_be_split. replace (length body + 2 - 2)%nat with (length body) by lia.
  rewrite take_app_length, drop_app_length, be_combine_2_u16. done.
Qed.

Lemma Handle_answers_witness :
  handler_ok (I := echo_app) echo_handler /\
  exists body code, Some (PackageResponse [] APDUCLANotSupported) = Some (PackageResponse body code) /\
    take (length (PackageResponse body code) - 2) (PackageResponse body code) = body /\
    be_combine (drop (length (PackageResponse body code) - 2) (PackageResponse body code)) = u16 code.
Proof.
  apply (Handle_answers (I := echo_app) (L := echo_app_laws) (C := header_codec) echo_handler
    (full (bytes_of [85; 3; 0; 0; 0])) tt tt echo_handler (Some (PackageResponse [] APDUCLANotSupported))
    (Some (Errorf "command ID %v not supported in app %v" [3; 85]))).
  - exact echo_handler_ok.
  - vm_compute. reflexivity.
Defined.
