(* ===== verification/Cosmos.v ===== *)
(** * The Cosmos app: [src/apps/cosmos]

    The three commands, the signature session that persists between them, and
    the address computation.  RIPEMD-160 and bech32 are third-party and stay
    parameters, as does the token behind the [crypto.Token] interface. *)

From S2P Require Import Prelude GoRuntime Sha256 Crypto JsonScan Apps.

(** ** Third-party functions of the address computation *)

Class AddressDeps := {
  (** [ripemd160.New], one [Write] (whose error is kept) and [Sum(nil)]. *)
  ripemd160_Sum : list byte -> result (list byte);
  ConvertBits : list byte -> Z -> Z -> bool -> result (list byte);
  bech32_Encode : string -> list byte -> result string
}.

(** ** Constants *)

Definition appName : string := "COSMOS".
Definition appID : Z := 85.
Definition minDataLen : nat := 5.
Definition claGetVersion : Z := 0x00.
Definition claSignSecp256K1 : Z := 0x02.
Definition claGetAddrSecp256K1 : Z := 0x04.

Definition signInit : Z := 0.
Definition signAdd : Z := 1.
Definition signLast : Z := 2.

(** The generated [String] methods, used in log and error messages. *)
Definition command_String (i : Z) : string :=
  if i =? 0 then "claGetVersion"
  else if i =? 2 then "claSignSecp256K1"
  else if i =? 4 then "claGetAddrSecp256K1"
  else "command(" +:+ FormatInt i +:+ ")".

Definition _signPayloadDescr_name : string := "signInitsignAddsignLast".
Definition _signPayloadDescr_index : list nat := [0; 8; 15; 23]%nat.

Definition signPayloadDescr_String (i : Z) : string :=
  if Z.of_nat (length _signPayloadDescr_index) - 1 <=? i
  then "signPayloadDescr(" +:+ FormatInt i +:+ ")"
  else str_slice _signPayloadDescr_name (nth (Z.to_nat i) _signPayloadDescr_index 0%nat)
         (nth (Z.to_nat i + 1) _signPayloadDescr_index 0%nat).

(** ** State *)

Record signatureSession := mkSigSession {
  derivationPath : DerivationPath;
  sig_data : Buffer
}.

(** [c_l] says whether the logger has been created. *)
Record Cosmos (T : Type) := mkCosmos {
  c_Token : T;
  currentSignatureSession : option signatureSession;
  c_l : bool
}.
Arguments mkCosmos {T}.
Arguments c_Token {T}.
Arguments currentSignatureSession {T}.
Arguments c_l {T}.

Definition with_session {T} (c : Cosmos T) (s : option signatureSession) : Cosmos T :=
  mkCosmos (c_Token c) s (c_l c).

Definition initLog {T} (c : Cosmos T) : Cosmos T :=
  if c_l c then c else mkCosmos (c_Token c) (currentSignatureSession c) true.

Definition cosmos_Name : string := appName.
Definition cosmos_ID : Z := appID.
Definition cosmos_Commands : list Z := [claGetVersion; claSignSecp256K1; claGetAddrSecp256K1].

(** ** Get version *)

Record version := mkVersion { Major : Z; Minor : Z; Patch : Z }.
Record getVersionResponse := mkGetVersionResponse {
  TestMode : Z;
  Version : version;
  DeviceLocked : Z
}.

Definition getVersionResponse_Marshal (g : getVersionResponse) : list byte :=
  be_split 1 (TestMode g) ++ be_split 1 (Major (Version g)) ++ be_split 1 (Minor (Version g)) ++
  be_split 1 (Patch (Version g)) ++ be_split 1 (DeviceLocked g).

Definition handleGetVersion : list byte * APDUCode * option error :=
  (getVersionResponse_Marshal (mkGetVersionResponse 0 (mkVersion 2 0 0) 0), APDUSuccess, None).

(** ** Get address: the request *)

Record getAddressRequest := mkGetAddressRequest {
  P1 : Z;
  P2 : Z;
  PayloadLength : Z;
  HRPLength : Z
}.

(** [binary.Read] of the 6-byte struct, whose two first bytes are blank. *)
Definition read_getAddressRequest (data : list byte) : result getAddressRequest :=
  match read_full 6 data with
  | Err e => Err e
  | Ok l =>
      Ok (mkGetAddressRequest (be_combine (take 1 (drop 2 l))) (be_combine (take 1 (drop 3 l)))
            (be_combine (take 1 (drop 4 l))) (be_combine (take 1 (drop 5 l))))
  end.

Definition getAddressRequest_validate (g : getAddressRequest) : option error :=
  if 1 <? P1 g then Some (Errorf "first parameter cannot be greater than 1" [])
  else if 255 <? PayloadLength g
  then Some (Errorf "total APDU payload length cannot exceed 255 bytes" [])
  else if PayloadLength g =? 0
  then Some (Errorf "no payload specified but should be present" [])
  else if (HRPLength g <? 1) || (83 <? HRPLength g)
  then Some (Errorf "hrp length cannot be less than 1 or exceed 83, found %v" [HRPLength g])
  else None.

(** The offsets are [uint8] expressions. *)
Definition hrpFromGetAddressRequest (r : getAddressRequest) (data : slice) : go string :=
  s ← s_slice data 6 (Z.to_nat (u8 (6 + HRPLength r)));
  Ret (string_of_bytes (s_data s)).

Definition derivationPathFromGetAddressRequest (r : getAddressRequest) (data : slice)
    : go DerivationPath :=
  let offset := u8 (6 + HRPLength r) in
  base ← s_slice data (Z.to_nat offset) (Z.to_nat (u8 (offset + 20)));
  path_of_slice base.

Definition displayAddrOnDevice (r : getAddressRequest) : bool := P1 r =? 0x01.

Definition buildGetAddressResponse (pubkey : list byte) (address : string) : list byte :=
  pubkey ++ bytes_of_string address.

Section address.
Context {D : AddressDeps}.

Definition addressFromPubkey (pubkey : list byte) (hrp : string) : result string :=
  match ripemd160_Sum (Sha256.Sum256 pubkey) with
  | Err e => Err e
  | Ok pub =>
      match ConvertBits pub 8 5 true with
      | Err e => Err e
      | Ok converted => bech32_Encode hrp converted
      end
  end.

End address.

(** ** The commands that use the token *)

Section cosmos.
Context {W T : Type} {Tok : Token W T} {D : AddressDeps}.

(** What a command returns: the world, the app, and the Go results. *)
Abbreviation outcome := (go (W * Cosmos T * (list byte * APDUCode * option error))).

Definition fail (w : W) (c : Cosmos T) (code : APDUCode) (e : error) : outcome :=
  Ret (w, c, ([], code, Some e)).

(** The part of [handleSignSecp256K1] after a [signLast] packet; the deferred
    function clears the session on every return. *)
Definition finish_signature (c : Cosmos T) (s : signatureSession) (w : W) : outcome :=
  let c' := with_session c None in
  '(w, sessionToken, err) ← Initialize (Clone (c_Token c)) (derivationPath s) w;
  match err with
  | Some e => fail w c' APDUExecutionError e
  | None =>
      let sigBytes := s_data (sig_data s) in
      if negb (JsonScan.json_Valid sigBytes)
      then fail w c' APDUDataInvalid (Errorf "provided signature data isn't JSON" [])
      else
        '(w, resp) ← Sign sessionToken (Sha256.Sum256 sigBytes) AlgoSecp256K1 w;
        match resp with
        | Err e => fail w c' APDUExecutionError e
        | Ok sig => Ret (w, c', (sig, APDUSuccess, None))
        end
  end.

Definition handleSignSecp256K1 (c : Cosmos T) (data : slice) (w : W) : outcome :=
  b ← s_index data 2;
  let payloadDescription := byte.unsigned b in
  if bool_decide (currentSignatureSession c = None) && negb (payloadDescription =? signInit)
  then fail w c APDUExecutionError
         (Errorf "wrong signature description with no session initialized, %v" [payloadDescription])
  else
    let c := if payloadDescription =? signInit
             then with_session c (Some (mkSigSession zero_path new_buffer)) else c in
    data ← s_from data 5;
    match currentSignatureSession c with
    | None => Panic NilDereference
    | Some s =>
        s ← (if payloadDescription =? signInit then
               path ← path_of_slice data;
               Ret (mkSigSession path (sig_data s))
             else if (payloadDescription =? signAdd) || (payloadDescription =? signLast) then
               Ret (mkSigSession (derivationPath s) (buf_Write (sig_data s) (s_data data)))
             else Ret s);
        let c := with_session c (Some s) in
        if negb (payloadDescription =? signLast)
        then Ret (w, c, ([], APDUSuccess, None))
        else finish_signature c s w
    end.

Definition handleGetAddrSecp256K1 (c : Cosmos T) (data : slice) (w : W) : outcome :=
  match read_getAddressRequest (s_data data) with
  | Err e => fail w c APDUExecutionError e
  | Ok req =>
      match getAddressRequest_validate req with
      | Some e => fail w c APDUExecutionError e
      | None =>
          hrp ← hrpFromGetAddressRequest req data;
          dp ← derivationPathFromGetAddressRequest req data;
          '(w, sessionToken, err) ← Initialize (Clone (c_Token c)) dp w;
          match err with
          | Some e => fail w c APDUExecutionError e
          | None =>
              '(w, pk) ← PublicKey sessionToken w;
              match pk with
              | Err e => fail w c APDUExecutionError e
              | Ok pubkey =>
                  match addressFromPubkey pubkey hrp with
                  | Err e => fail w c APDUExecutionError e
                  | Ok address =>
                      Ret (w, c, (buildGetAddressResponse pubkey address, APDUSuccess, None))
                  end
              end
          end
      end
  end.

(** [(c *Cosmos) Handle] *)
Definition cosmos_Handle (c : Cosmos T) (cmd : Z) (data : slice) (w : W) : outcome :=
  let c := initLog c in
  if bool_decide (s_len data < minDataLen)%nat
  then fail w c APDUWrongLength (Errorf "data is too small to be processed" [])
  else if cmd =? claGetVersion then Ret (w, c, handleGetVersion)
  else if cmd =? claSignSecp256K1 then handleSignSecp256K1 c data w
  else if cmd =? claGetAddrSecp256K1 then handleGetAddrSecp256K1 c data w
  else fail w c APDUINSNotSupported (Errorf "command not found" []).

#[export] Instance cosmos_app : App W (Cosmos T) := {
  Name := fun _ => cosmos_Name;
  ID := fun _ => cosmos_ID;
  Commands := fun _ => cosmos_Commands;
  app_Handle := cosmos_Handle
}.

#[export] Instance cosmos_app_laws : AppLaws W (Cosmos T) cosmos_app.
Proof. constructor. done. Qed.

End cosmos.
