(* ===== verification/CosmosTheory.v ===== *)
(** * Properties of the Cosmos app

    The signing protocol as an abstract state machine and the proof that the
    command implements it; the address command; bounds of the slices both
    take from the message. *)

From S2P Require Import Prelude GoRuntime Sha256 Crypto JsonScan JsonGrammar Apps Cosmos.

(** ** The signing protocol, abstractly *)

Module SigSpec.

(** No session, or the path of the session and the payload received so far. *)
Inductive state :=
| Idle
| Collecting (path : DerivationPath) (payload : list byte).

Inductive packet :=
| Init (path : DerivationPath)
| Add (chunk : list byte)
| Last (chunk : list byte)
| Other.

(** What the device does: acknowledge, refuse, or sign a payload. *)
Inductive action :=
| Ack
| Refuse
| Finish (path : DerivationPath) (payload : list byte).

Definition step (s : state) (p : packet) : state * action :=
  match p, s with
  | Init path, _ => (Collecting path [], Ack)
  | _, Idle => (Idle, Refuse)
  | Add c, Collecting path d => (Collecting path (d ++ c), Ack)
  | Last c, Collecting path d => (Idle, Finish path (d ++ c))
  | Other, Collecting path d => (Collecting path d, Ack)
  end.

Fixpoint run (s : state) (ps : list packet) : state * list action :=
  match ps with
  | [] => (s, [])
  | p :: rest =>
      let '(s1, a) := step s p in
      let '(s2, al) := run s1 rest in
      (s2, a :: al)
  end.

Lemma run_adds path d chunks :
  run (Collecting path d) (map Add chunks) =
  (Collecting path (d ++ concat chunks), map (fun _ => Ack) chunks).
Proof.
  revert d. induction chunks as [|c chunks IH]; intros d; simpl; [by rewrite app_nil_r|].
  rewrite IH. by rewrite <- app_assoc.
Qed.

Lemma run_app s ps qs :
  run s (ps ++ qs) =
  let '(s1, a1) := run s ps in let '(s2, a2) := run s1 qs in (s2, a1 ++ a2).
Proof.
  revert s. induction ps as [|p ps IH]; intros s; simpl; [by destruct (run s qs)|].
  destruct (step s p) as [s0 a0]. rewrite IH. destruct (run s0 ps) as [s1 a1].
  by destruct (run s1 qs).
Qed.

End SigSpec.

(** ** Abstraction functions *)

(** The description byte of a sign command and its payload. *)
Definition sign_descr (d : slice) : Z :=
  match s_data d !! 2%nat with Some b => byte.unsigned b | None => 0 end.

Definition sign_payload (d : slice) : list byte := drop 5 (s_data d).

Definition sign_packet (d : slice) : SigSpec.packet :=
  if sign_descr d =? signInit then SigSpec.Init (path_of_wire (drop 5 (s_array d)))
  else if sign_descr d =? signAdd then SigSpec.Add (sign_payload d)
  else if sign_descr d =? signLast then SigSpec.Last (sign_payload d)
  else SigSpec.Other.

(** A sign command the app can read: a header, and room for the path. *)
Definition sign_sized (d : slice) : Prop :=
  (5 <= s_len d)%nat /\ (sign_descr d = signInit -> 25 <= s_cap d)%nat.

#[export] Instance sign_sized_dec d : Decision (sign_sized d).
Proof. unfold sign_sized. apply _. Defined.

Definition abs_session {T} (c : Cosmos T) : SigSpec.state :=
  match currentSignatureSession c with
  | None => SigSpec.Idle
  | Some s => SigSpec.Collecting (derivationPath s) (s_data (sig_data s))
  end.

Section cosmos_theory.
Context {W T : Type} {Tok : Token W T} {D : AddressDeps}.
Implicit Types (c : Cosmos T) (d : slice) (w : W).

(** Signing [payload] with the key of [path], as one function of the token
    interface: the code an error is answered with, or the signature. *)
Definition sign_at (tok : T) (path : DerivationPath) (payload : list byte) (w : W)
    : go (W * (list byte * APDUCode * option error)) :=
  '(w, t, err) ← Initialize (Clone tok) path w;
  match err with
  | Some e => Ret (w, ([], APDUExecutionError, Some e))
  | None =>
      if JsonScan.json_Valid payload then
        '(w, r) ← Sign t (Sha256.Sum256 payload) AlgoSecp256K1 w;
        match r with
        | Ok sig => Ret (w, (sig, APDUSuccess, None))
        | Err e => Ret (w, ([], APDUExecutionError, Some e))
        end
      else Ret (w, ([], APDUDataInvalid, Some (Errorf "provided signature data isn't JSON" [])))
  end.

Lemma finish_signature_sign_at c s w :
  finish_signature c s w =
  ('(w', r) ← sign_at (c_Token c) (derivationPath s) (s_data (sig_data s)) w;
   Ret (w', with_session c None, r)).
Proof.
  unfold finish_signature, sign_at, fail.
  destruct (Initialize _ _ w) as [[[w1 t1] [e|]]|p]; simpl; [done| |done].
  destruct (JsonScan.json_Valid _); simpl; [|done].
  by destruct (Sign t1 _ _ w1) as [[w2 [sig|e]]|p].
Qed.

Lemma sign_index d : (5 <= s_len d)%nat ->
  exists b, s_index d 2 = Ret b /\ byte.unsigned b = sign_descr d.
Proof.
  intros H. destruct (s_index_ok d 2) as (b & Hb & Hl); [lia|]. exists b.
  unfold sign_descr. by rewrite Hl.
Qed.

Lemma sign_path d :
  (5 <= s_len d)%nat -> (25 <= s_cap d)%nat ->
  path_of_slice (Slice (drop 5 (s_data d)) (s_spare d)) = Ret (path_of_wire (drop 5 (s_array d))).
Proof.
  intros H5 H25. assert (E : s_array (Slice (drop 5 (s_data d)) (s_spare d)) = drop 5 (s_array d)).
  { unfold s_array; simpl. rewrite drop_app_le; [done|]. unfold s_len in *. lia. }
  rewrite path_of_slice_ok; [by rewrite E|]. unfold s_cap. rewrite E, length_drop.
  unfold s_cap in H25. lia.
Qed.

(** One sign command, on every branch. *)
Lemma handleSign_step c d w :
  sign_sized d ->
  match SigSpec.step (abs_session c) (sign_packet d) with
  | (_, SigSpec.Refuse) =>
      abs_session c = SigSpec.Idle /\
      exists e, handleSignSecp256K1 c d w = Ret (w, c, ([], APDUExecutionError, Some e))
  | (st, SigSpec.Ack) =>
      exists c', handleSignSecp256K1 c d w = Ret (w, c', ([], APDUSuccess, None)) /\
        abs_session c' = st /\ c_Token c' = c_Token c /\ c_l c' = c_l c
  | (st, SigSpec.Finish path payload) =>
      st = SigSpec.Idle /\
      handleSignSecp256K1 c d w =
        ('(w', r) ← sign_at (c_Token c) path payload w; Ret (w', with_session c None, r))
  end.
Proof.
  intros [H5 H25]. destruct (sign_index d H5) as (b & Hb & Hd).
  unfold sign_packet, handleSignSecp256K1. rewrite Hb, go_bind_ret, Hd. clear b Hb Hd.
  rewrite s_from_ok by done.
  destruct (Z.eqb_spec (sign_descr d) signInit) as [Ei|Ei].
  - simpl. rewrite andb_false_r; simpl. rewrite sign_path by auto; simpl.
    rewrite Ei; simpl. eexists; split; [done|]. done.
  - unfold abs_session at 1 2. destruct (currentSignatureSession c) as [s|] eqn:Es; simpl; [rewrite ?Es|].
    2: { unfold fail. destruct (sign_descr d =? signAdd), (sign_descr d =? signLast); simpl;
           (split; [unfold abs_session; by rewrite Es|eauto]). }
    destruct (Z.eqb_spec (sign_descr d) signAdd) as [Ea|Ea]; simpl.
    { rewrite Ea; simpl. eexists; split_and!; try done. unfold abs_session; simpl.
      by rewrite buf_Write_data. }
    destruct (Z.eqb_spec (sign_descr d) signLast) as [El|El]; simpl.
    { split; [done|]. rewrite finish_signature_sign_at; simpl. by rewrite buf_Write_data. }
    eexists; split_and!; try done.
Qed.
(** ** Sequences of sign commands *)

Definition response : Type := list byte * APDUCode * option error.

Definition ack : response := ([], APDUSuccess, None).

Fixpoint run_sign (c : Cosmos T) (ds : list slice) (w : W) : go (W * Cosmos T * list response) :=
  match ds with
  | [] => Ret (w, c, [])
  | d :: rest =>
      '(w1, c1, r) ← cosmos_Handle c claSignSecp256K1 d w;
      '(w2, c2, rs) ← run_sign c1 rest w1;
      Ret (w2, c2, r :: rs)
  end.

(** A response that the protocol allows for an action. *)
Definition conforms (tok : T) (a : SigSpec.action) (r : response) : Prop :=
  match a with
  | SigSpec.Ack => r = ack
  | SigSpec.Refuse => exists e, r = ([], APDUExecutionError, Some e)
  | SigSpec.Finish path payload => exists w w', sign_at tok path payload w = Ret (w', r)
  end.

Lemma cosmos_Handle_sign c d w :
  (5 <= s_len d)%nat -> cosmos_Handle c claSignSecp256K1 d w = handleSignSecp256K1 (initLog c) d w.
Proof. intros. unfold cosmos_Handle, minDataLen. by rewrite bool_decide_false by lia. Qed.

Lemma initLog_abs c : abs_session (initLog c) = abs_session c.
Proof. unfold initLog. by destruct (c_l c). Qed.

Lemma initLog_Token c : c_Token (initLog c) = c_Token c.
Proof. unfold initLog. by destruct (c_l c). Qed.

Lemma initLog_l c : c_l (initLog c) = true.
Proof. unfold initLog. by destruct (c_l c) eqn:E. Qed.

Lemma run_sign_conforms ds : forall c w,
  Forall sign_sized ds ->
  match run_sign c ds w with
  | Ret (_, c', rs) =>
      abs_session c' = (SigSpec.run (abs_session c) (map sign_packet ds)).1 /\
      c_Token c' = c_Token c /\
      Forall2 (conforms (c_Token c)) (SigSpec.run (abs_session c) (map sign_packet ds)).2 rs
  | Panic p =>
      exists path payload w0, sign_at (c_Token c) path payload w0 = Panic p
  end.
Proof.
  induction ds as [|d ds IH]; intros c w Hds; [by simpl|].
  apply Forall_cons_iff in Hds as [Hd Hds]. cbn [run_sign map SigSpec.run].
  rewrite cosmos_Handle_sign by apply Hd.
  pose proof (handleSign_step (initLog c) d w Hd) as Hstep. rewrite initLog_abs, initLog_Token in Hstep.
  destruct (SigSpec.step (abs_session c) (sign_packet d)) as [st a] eqn:Est.
  assert (Hnext : forall c1 w1 r, abs_session c1 = st -> c_Token c1 = c_Token c ->
    conforms (c_Token c) a r ->
    match ('(w2, c2, rs) ← run_sign c1 ds w1; Ret (w2, c2, r :: rs)) with
    | Ret (_, c', rs) =>
        abs_session c' = (let '(s2, al) := SigSpec.run st (map sign_packet ds) in (s2, a :: al)).1 /\
        c_Token c' = c_Token c /\
        Forall2 (conforms (c_Token c)) (let '(s2, al) := SigSpec.run st (map sign_packet ds) in (s2, a :: al)).2 rs
    | Panic p => exists path payload w0, sign_at (c_Token c) path payload w0 = Panic p
    end).
  { intros c1 w1 r <- Ht Hr. specialize (IH c1 w1 Hds). rewrite Ht in IH.
    destruct (run_sign c1 ds w1) as [[[w2 c2] rs]|p]; simpl; [|done].
    destruct (SigSpec.run _ _) as [s2 al]; simpl in *. naive_solver. }
  destruct a as [| |path payload].
  - destruct Hstep as (c1 & -> & Ha & Ht & _). rewrite go_bind_ret. by apply Hnext.
  - destruct Hstep as (Ha & e & ->). rewrite go_bind_ret. apply Hnext; [|apply initLog_Token|by eexists].
    rewrite initLog_abs, Ha. rewrite Ha in Est. unfold SigSpec.step in Est.
    by destruct (sign_packet d); simplify_eq.
  - destruct Hstep as (-> & ->).
    destruct (sign_at (c_Token c) path payload w) as [[w1 r]|p] eqn:Es; simpl; [|by eauto].
    apply Hnext; [done|apply initLog_Token|]. simpl. eauto.
Qed.

Lemma run_sign_adds adds dl : forall c w path payload,
  abs_session c = SigSpec.Collecting path payload -> c_l c = true ->
  Forall (fun d => sign_sized d /\ sign_descr d = signAdd) adds ->
  sign_sized dl -> sign_descr dl = signLast ->
  run_sign c (adds ++ [dl]) w =
    ('(w', r) ← sign_at (c_Token c) path
                  (payload ++ concat (map sign_payload adds) ++ sign_payload dl) w;
     Ret (w', mkCosmos (c_Token c) None true, map (fun _ => ack) adds ++ [r])).
Proof.
  induction adds as [|d adds IH]; intros c w path payload Habs Hl Hadds Hdl Hlast.
  - cbn [app run_sign map concat]. rewrite cosmos_Handle_sign by apply Hdl.
    pose proof (handleSign_step (initLog c) dl w Hdl) as Hstep.
    rewrite initLog_abs, initLog_Token, Habs in Hstep. unfold sign_packet in Hstep.
    rewrite Hlast in Hstep; simpl in Hstep. destruct Hstep as [_ ->].
    destruct (sign_at _ _ _ w) as [[w1 r]|p]; [|done]. simpl.
    unfold with_session. by rewrite initLog_Token, initLog_l.
  - apply Forall_cons_iff in Hadds as [[Hd Hadd] Hadds].
    cbn [app run_sign map concat]. rewrite cosmos_Handle_sign by apply Hd.
    pose proof (handleSign_step (initLog c) d w Hd) as Hstep.
    rewrite initLog_abs, initLog_Token, Habs in Hstep. unfold sign_packet in Hstep.
    rewrite Hadd in Hstep; simpl in Hstep. destruct Hstep as (c1 & -> & Ha & Ht & Hl1).
    rewrite go_bind_ret, (IH c1 w path (payload ++ sign_payload d)); try done.
    2: { by rewrite Hl1, initLog_l. }
    rewrite Ht, <- !app_assoc. by destruct (sign_at _ _ _ w) as [[w1 r]|p].
Qed.

(** ** The address command *)

Definition hrp_of (d : slice) (n : nat) : string := string_of_bytes (take n (drop 6 (s_array d))).

(** The address command as one function of the token interface. *)
Definition address_at (tok : T) (path : DerivationPath) (hrp : string) (w : W) : go (W * response) :=
  '(w, t, err) ← Initialize (Clone tok) path w;
  match err with
  | Some e => Ret (w, ([], APDUExecutionError, Some e))
  | None =>
      '(w, pk) ← PublicKey t w;
      match pk with
      | Err e => Ret (w, ([], APDUExecutionError, Some e))
      | Ok pubkey =>
          match addressFromPubkey pubkey hrp with
          | Err e => Ret (w, ([], APDUExecutionError, Some e))
          | Ok address => Ret (w, (pubkey ++ bytes_of_string address, APDUSuccess, None))
          end
      end
  end.

Lemma read_getAddressRequest_6 l :
  (6 <= length l)%nat ->
  read_getAddressRequest l =
  Ok (mkGetAddressRequest (be_combine (take 1 (drop 2 l))) (be_combine (take 1 (drop 3 l)))
        (be_combine (take 1 (drop 4 l))) (be_combine (take 1 (drop 5 l)))).
Proof.
  intros H. unfold read_getAddressRequest. rewrite read_full_ok by lia.
  rewrite !skipn_firstn_comm, !take_take. done.
Qed.

Lemma validate_HRP r :
  getAddressRequest_validate r = None ->
  P1 r <= 1 /\ PayloadLength r <> 0 /\ 1 <= HRPLength r <= 83.
Proof.
  unfold getAddressRequest_validate. intros H.
  destruct (Z.ltb_spec 1 (P1 r)); [done|]. destruct (255 <? _); [done|].
  destruct (Z.eqb_spec (PayloadLength r) 0); [done|].
  destruct (Z.ltb_spec (HRPLength r) 1), (Z.ltb_spec 83 (HRPLength r)); simpl in H; first [done|lia].
Qed.

Lemma hrp_and_path d r :
  1 <= HRPLength r <= 83 ->
  let n := Z.to_nat (HRPLength r) in
  ((26 + n <= s_cap d)%nat ->
     hrpFromGetAddressRequest r d = Ret (hrp_of d n) /\
     derivationPathFromGetAddressRequest r d = Ret (path_of_wire (drop (6 + n) (s_array d)))) /\
  ((s_cap d < 26 + n)%nat ->
     hrpFromGetAddressRequest r d = Panic BoundsOutOfRange \/
     derivationPathFromGetAddressRequest r d = Panic BoundsOutOfRange).
Proof.
  intros Hr n. unfold hrpFromGetAddressRequest, derivationPathFromGetAddressRequest.
  rewrite (u8_small (6 + HRPLength r)) by lia. rewrite (u8_small (6 + HRPLength r + 20)) by lia.
  replace (Z.to_nat (6 + HRPLength r)) with (6 + n)%nat by lia.
  replace (Z.to_nat (6 + HRPLength r + 20)) with (26 + n)%nat by lia. split; intros Hc.
  - rewrite !s_slice_ok by lia. rewrite !go_bind_ret. split.
    + unfold hrp_of. cbn [s_data]. by replace (6 + n - 6)%nat with n by lia.
    + assert (E : s_array (Slice (take (26 + n - (6 + n)) (drop (6 + n) (s_array d)))
                             (drop (26 + n) (s_array d))) = drop (6 + n) (s_array d)).
      { unfold s_array at 1. cbn [s_data s_spare].
        replace (drop (26 + n) (s_array d)) with (drop (26 + n - (6 + n)) (drop (6 + n) (s_array d)))
          by (rewrite drop_drop; f_equal; lia).
        apply take_drop. }
      rewrite path_of_slice_ok; [by rewrite E|]. unfold s_cap. rewrite E, length_drop.
      unfold s_cap in Hc. lia.
  - right. by rewrite s_slice_panic by lia.
Qed.

Lemma handleSign_frame c d w w' c' r :
  handleSignSecp256K1 c d w = Ret (w', c', r) -> c_Token c' = c_Token c /\ c_l c' = c_l c.
Proof.
  unfold handleSignSecp256K1. destruct (s_index d 2) as [b|]; simpl; [|done].
  destruct (_ && _); [intros [= _ <- _]; done|].
  destruct (s_from d 5) as [d'|]; simpl; [|done].
  set (c0 := if byte.unsigned b =? signInit then _ else c).
  assert (c_Token c0 = c_Token c /\ c_l c0 = c_l c) as [<- <-] by (unfold c0; by case_match).
  clearbody c0. destruct (currentSignatureSession c0) as [s|]; [|done].
  intros (s' & _ & H)%go_bind_Ret_inv. destruct (negb _); [by simplify_eq|].
  rewrite finish_signature_sign_at in H. apply go_bind_Ret_inv in H as ([w1 r1] & _ & H).
  by simplify_eq.
Qed.

Lemma cosmos_Handle_isolation c cmd d w w' c' r :
  cosmos_Handle c cmd d w = Ret (w', c', r) ->
  c_Token c' = c_Token c /\ c_l c' = true /\
  (cmd <> claSignSecp256K1 \/ (s_len d < 5)%nat ->
   currentSignatureSession c' = currentSignatureSession c).
Proof.
  unfold cosmos_Handle, fail, minDataLen. intros H.
  assert (Hs : currentSignatureSession (initLog c) = currentSignatureSession c)
    by (unfold initLog; by destruct (c_l c)).
  case_bool_decide as H5; [simplify_eq; auto using initLog_Token, initLog_l|].
  destruct (cmd =? claGetVersion); [simplify_eq; auto using initLog_Token, initLog_l|].
  destruct (Z.eqb_spec cmd claSignSecp256K1) as [->|].
  { apply handleSign_frame in H as [-> ->].
    split_and!; [apply initLog_Token|apply initLog_l|]. intros [?|?]; [done|lia]. }
  destruct (cmd =? claGetAddrSecp256K1); [|simplify_eq; auto using initLog_Token, initLog_l].
  assert (c' = initLog c) as ->; [|auto using initLog_Token, initLog_l].
  revert H. unfold handleGetAddrSecp256K1, fail.
  destruct (read_getAddressRequest _) as [req|]; [|intros; by simplify_eq].
  destruct (getAddressRequest_validate _); [intros; by simplify_eq|].
  intros (hrp & _ & (dp & _ & ([[w1 t] [e|]] & _ & H)%go_bind_Ret_inv)%go_bind_Ret_inv)%go_bind_Ret_inv;
    [by simplify_eq|].
  apply go_bind_Ret_inv in H as ([w2 [pk|e]] & _ & H); [|by simplify_eq].
  destruct (addressFromPubkey _ _); by simplify_eq.
Qed.

(** A complete session, from any state of the app. *)
Lemma run_sign_complete c di adds dl w :
  sign_sized di -> sign_descr di = signInit ->
  Forall (fun d => sign_sized d /\ sign_descr d = signAdd) adds ->
  sign_sized dl -> sign_descr dl = signLast ->
  run_sign c (di :: adds ++ [dl]) w =
    ('(w', r) ← sign_at (c_Token c) (path_of_wire (drop 5 (s_array di)))
                  (concat (map sign_payload adds) ++ sign_payload dl) w;
     Ret (w', mkCosmos (c_Token c) None true, ack :: map (fun _ => ack) adds ++ [r])).
Proof.
  intros Hi Hinit Hadds Hl Hlast. cbn [run_sign]. rewrite cosmos_Handle_sign by apply Hi.
  pose proof (handleSign_step (initLog c) di w Hi) as Hstep.
  unfold sign_packet in Hstep. rewrite Hinit, initLog_Token in Hstep; simpl in Hstep.
  destruct Hstep as (c1 & -> & Ha & Ht & Hl1). rewrite go_bind_ret.
  rewrite (run_sign_adds adds dl c1 w _ [] Ha); [|by rewrite Hl1, initLog_l|done..].
  rewrite Ht. by destruct (sign_at _ _ _ w) as [[w1 r]|p].
Qed.

(** An address command with a valid header. *)
Lemma handleGetAddr_valid c d w req :
  read_getAddressRequest (s_data d) = Ok req -> getAddressRequest_validate req = None ->
  let n := Z.to_nat (HRPLength req) in
  handleGetAddrSecp256K1 c d w =
    if bool_decide (26 + n <= s_cap d)%nat
    then '(w', resp) ← address_at (c_Token c) (path_of_wire (drop (6 + n) (s_array d))) (hrp_of d n) w; Ret (w', c, resp)
    else Panic BoundsOutOfRange.
Proof.
  intros Hr Hv n. unfold handleGetAddrSecp256K1. rewrite Hr, Hv.
  apply validate_HRP in Hv as (_ & _ & Hn). pose proof (hrp_and_path d req Hn) as [Hok Hpanic].
  case_bool_decide as Hc.
  - destruct (Hok Hc) as [-> ->]. rewrite !go_bind_ret. unfold address_at, fail.
    destruct (Initialize _ _ w) as [[[w1 t] [e|]]|p]; simpl; [done| |done].
    destruct (PublicKey t w1) as [[w2 [pk|e]]|p]; simpl; [|done..].
    by destruct (addressFromPubkey pk _).
  - destruct (Hpanic ltac:(lia)) as [-> | ->]; [done|].
    destruct (hrpFromGetAddressRequest req d) eqn:Eh; simpl; [done|].
    unfold hrpFromGetAddressRequest, s_slice in Eh. by case_match; simplify_eq/=.
Qed.

End cosmos_theory.

(** ** With the development token *)

Section dumb.
Context {HD : HDKeychain} {L : HDKeychainLaws HD} {W : Type} {E : Entropy W} {D : AddressDeps}.
Context (maxAlloc : Z).

(** The BIP-32 key at the raw indexes of a path on the wire. *)
Definition wire_key (l : list byte) : option ExtendedKey :=
  match NewMaster dumbToken.secret (CoinType (path_of_wire l)) with
  | Ok master => derive master (wire_words l)
  | Err _ => None
  end.

Lemma key_at_wire l : (20 <= length l)%nat -> key_at (path_of_wire l) = wire_key l.
Proof.
  intros Hl. unfold key_at, wire_key. destruct (NewMaster _ _) as [master|e]; [|done]. simpl.
  rewrite KeyFromPath_derive, hardened_start. unfold path_of_wire, wire_words. simpl.
  rewrite !flip_harden; [done|apply le_combine_u32_range; len_simpl; lia..].
Qed.

Lemma sign_at_dumb tok path payload (w : W) k pk sig :
  key_at path = Some k -> ECPrivKey k = Ok pk -> ec_Sign pk (Sha256.Sum256 payload) = Ok sig ->
  JsonScan.json_Valid payload = true ->
  sign_at (Tok := dumbToken.token maxAlloc) tok path payload w = Ret (w, (Serialize sig, APDUSuccess, None)).
Proof.
  unfold key_at, sign_at. simpl. unfold dumbToken.Initialize. simpl. intros Hk Hpk Hsig Hj.
  destruct (NewMaster _ _) as [master|e]; simplify_eq/=.
  destruct (KeyFromPath master path) as [k'|e]; simplify_eq/=.
  unfold dumbToken.Sign; simpl. by rewrite Hj, Hpk, Hsig.
Qed.

Lemma run_sign_signature (c : Cosmos dumbToken.t) di adds dl (w : W) payload k pk sig :
  sign_sized di -> sign_descr di = signInit ->
  Forall (fun d => sign_sized d /\ sign_descr d = signAdd) adds ->
  sign_sized dl -> sign_descr dl = signLast ->
  payload = concat (map sign_payload adds) ++ sign_payload dl ->
  JsonScan.json_Valid payload = true ->
  wire_key (drop 5 (s_array di)) = Some k -> ECPrivKey k = Ok pk ->
  ec_Sign pk (Sha256.Sum256 payload) = Ok sig ->
  run_sign (Tok := dumbToken.token maxAlloc) c (di :: adds ++ [dl]) w =
    Ret (w, mkCosmos (c_Token c) None true,
         ack :: map (fun _ => ack) adds ++ [(Serialize sig, APDUSuccess, None)]).
Proof.
  intros Hi Hinit Hadds Hl Hlast -> Hj Hk Hpk Hsig. rewrite run_sign_complete by done.
  erewrite sign_at_dumb; [done| |done..]. rewrite key_at_wire; [done|].
  destruct Hi as [_ Hc]. specialize (Hc Hinit). unfold s_cap in Hc. rewrite length_drop. lia.
Qed.

End dumb.

(** ** Concrete instances for the witnesses *)

Definition plain_address : AddressDeps := {|
  ripemd160_Sum := fun l => Ok (take 20 l);
  ConvertBits := fun l _ _ _ => Ok l;
  bech32_Encode := fun hrp l => Ok (hrp +:+ "1" +:+ string_of_bytes (take 4 l))
|}.

(** A sign command: header, then payload. *)
Definition sign_command (descr : Z) (payload : list byte) : slice :=
  full (bytes_of [85; 2; descr; 0; Z.of_nat (length payload)] ++ payload).

Definition demo_path : list byte :=
  flat_map (le_split 4) [2 ^ 31 + 44; 2 ^ 31 + 118; 2 ^ 31; 0; 7].

Definition demo_token : Token nat (@dumbToken.t path_keychain) :=
  @dumbToken.token path_keychain nat zero_entropy (2 ^ 31).

Definition demo_cosmos : Cosmos (@dumbToken.t path_keychain) :=
  mkCosmos (@dumbToken.NewDumbToken path_keychain) None false.

(** The app in the middle of a session. *)
Definition collecting : Cosmos dumbToken.t :=
  mkCosmos (@dumbToken.NewDumbToken path_keychain) (Some (mkSigSession zero_path (Slice (bytes_of [123]) []))) true.

(** ** Properties *)

(** C9: Refinement of the signing protocol.  Any sequence of sign commands
    (each with its header, and room for the path in an init command) drives
    the app through the states of the abstract protocol: after it, the app
    holds the session the protocol prescribes, its token is unchanged, and the
    answers are the prescribed ones (an empty success, a refusal with the
    execution-error code, or the token's signature of the collected payload).
    The commands only panic if the token does. *)
Theorem sign_refines {W T : Type} {Tok : Token W T} {D : AddressDeps} (c : Cosmos T) ds (w : W) :
  Forall sign_sized ds ->
  match run_sign c ds w with
  | Ret (_, c', rs) =>
      abs_session c' = (SigSpec.run (abs_session c) (map sign_packet ds)).1 /\
      c_Token c' = c_Token c /\
      Forall2 (conforms (c_Token c)) (SigSpec.run (abs_session c) (map sign_packet ds)).2 rs
  | Panic p => exists path payload w0, sign_at (c_Token c) path payload w0 = Panic p
  end.
Proof. apply run_sign_conforms. Qed.

Lemma sign_refines_witness :
  match run_sign (Tok := demo_token) (D := plain_address) demo_cosmos
          [sign_command 1 []; sign_command 0 demo_path; sign_command 1 (bytes_of [123])] 0%nat with
  | Ret (_, c', rs) =>
      abs_session c' = SigSpec.Collecting (mkPath 44 118 0 0 7) (bytes_of [123]) /\
      length rs = 3%nat
  | Panic _ => False
  end.
Proof.
  pose proof (sign_refines (Tok := demo_token) (D := plain_address) demo_cosmos
    [sign_command 1 []; sign_command 0 demo_path; sign_command 1 (bytes_of [123])] 0%nat) as H.
  assert (Hp : panics (run_sign (Tok := demo_token) (D := plain_address) demo_cosmos
    [sign_command 1 []; sign_command 0 demo_path; sign_command 1 (bytes_of [123])] 0%nat) = false)
    by (vm_compute; reflexivity).
  destruct (run_sign _ _ _) as [[[w c'] rs]|p].
  - destruct H as (Ha & _ & Hr).
    + apply (bool_decide_eq_true_1 _). vm_compute. reflexivity.
    + apply Forall2_length in Hr. split; [rewrite Ha|rewrite <- Hr]; vm_compute; reflexivity.
  - discriminate Hp.
Defined.

(** A complete signature.  From any state of the app, an init command,
    any number of add commands and a last command are acknowledged in turn,
    and the answer to the last one is what the token gives for the path of the
    init command and the concatenation of the payloads in order; afterwards
    there is no session. *)
Theorem sign_complete {W T : Type} {Tok : Token W T} {D : AddressDeps} (c : Cosmos T) di adds dl (w : W) :
  sign_sized di -> sign_descr di = signInit ->
  Forall (fun d => sign_sized d /\ sign_descr d = signAdd) adds ->
  sign_sized dl -> sign_descr dl = signLast ->
  run_sign c (di :: adds ++ [dl]) w =
    ('(w', r) ← sign_at (c_Token c) (path_of_wire (drop 5 (s_array di)))
                  (concat (map sign_payload adds) ++ sign_payload dl) w;
     Ret (w', mkCosmos (c_Token c) None true, ack :: map (fun _ => ack) adds ++ [r])).
Proof. apply run_sign_complete. Qed.

Lemma sign_complete_witness :
  run_sign (Tok := demo_token) (D := plain_address) demo_cosmos
    (sign_command 0 demo_path :: [sign_command 1 (bytes_of [123])] ++ [sign_command 2 (bytes_of [125])]) 0%nat
  = ('(w', r) ← sign_at (Tok := demo_token) (c_Token demo_cosmos)
                  (path_of_wire (drop 5 (s_array (sign_command 0 demo_path)))) (bytes_of [123; 125]) 0%nat;
     Ret (w', mkCosmos (c_Token demo_cosmos) None true, [ack; ack; r])).
Proof.
  apply (sign_complete (Tok := demo_token) (D := plain_address) demo_cosmos (sign_command 0 demo_path)
    [sign_command 1 (bytes_of [123])] (sign_command 2 (bytes_of [125])) 0%nat).
  all: try (vm_compute; reflexivity).
  all: apply (bool_decide_eq_true_1 _); vm_compute; reflexivity.
Defined.

(** The signing key.  With the development token, the signature answered
    to a complete session with a JSON payload is the one the private key at the
    five raw indexes of the init command gives for the SHA-256 digest of the
    whole payload. *)
Theorem cosmos_signature_key {HD : HDKeychain} {L : HDKeychainLaws HD} {W : Type} {E : Entropy W}
    {D : AddressDeps} maxAlloc (c : Cosmos dumbToken.t) di adds dl (w : W) payload k pk sig :
  sign_sized di -> sign_descr di = signInit ->
  Forall (fun d => sign_sized d /\ sign_descr d = signAdd) adds ->
  sign_sized dl -> sign_descr dl = signLast ->
  payload = concat (map sign_payload adds) ++ sign_payload dl ->
  JsonScan.json_Valid payload = true ->
  wire_key (drop 5 (s_array di)) = Some k -> ECPrivKey k = Ok pk ->
  ec_Sign pk (Sha256.Sum256 payload) = Ok sig ->
  run_sign (Tok := dumbToken.token maxAlloc) c (di :: adds ++ [dl]) w =
    Ret (w, mkCosmos (c_Token c) None true,
         ack :: map (fun _ => ack) adds ++ [(Serialize sig, APDUSuccess, None)]).
Proof.
  intros. by eapply run_sign_signature.
Qed.

Lemma cosmos_signature_key_witness :
  run_sign (Tok := demo_token) (D := plain_address) demo_cosmos
    (sign_command 0 demo_path :: [sign_command 1 (bytes_of [123])] ++ [sign_command 2 (bytes_of [125])]) 0%nat
  = Ret (0%nat, mkCosmos (@dumbToken.NewDumbToken path_keychain) None true,
      [ack; ack; (flat_map (be_split 4) [2 ^ 31 + 44; 2 ^ 31 + 118; 2 ^ 31; 0; 7]
                  ++ Sha256.Sum256 (bytes_of [123; 125]), APDUSuccess, None)]).
Proof.
  apply (cosmos_signature_key (HD := path_keychain) (L := path_keychain_laws) (E := zero_entropy)
    (D := plain_address) (2 ^ 31) demo_cosmos (sign_command 0 demo_path)
    [sign_command 1 (bytes_of [123])] (sign_command 2 (bytes_of [125])) 0%nat (bytes_of [123; 125])
    [2 ^ 31 + 44; 2 ^ 31 + 118; 2 ^ 31; 0; 7] [2 ^ 31 + 44; 2 ^ 31 + 118; 2 ^ 31; 0; 7]
    ([2 ^ 31 + 44; 2 ^ 31 + 118; 2 ^ 31; 0; 7], Sha256.Sum256 (bytes_of [123; 125]))).
  all: try (vm_compute; reflexivity).
  all: apply (bool_decide_eq_true_1 _); vm_compute; reflexivity.
Defined.

(** C15: Only what the JSON scanner accepts is signed.  Let a session be open
    and the token be initialised at its path without an error.  Then the
    sign-last command hands the whole payload to the token (as its SHA-256
    digest) exactly if the payload is a text of the grammar of JSON read on bytes,
    with arrays and objects nested at most 10000 deep; any other payload is
    answered with the data-invalid code and never reaches the token's [Sign].  The
    grammar has the productions of RFC 8259 but, like Go's scanner, does not ask
    that strings are UTF-8.  The session is over in both cases. *)
Theorem signs_only_json {W T : Type} {Tok : Token W T} {D : AddressDeps} (c : Cosmos T) d (w : W)
    path collected w1 t :
  sign_sized d -> sign_descr d = signLast -> abs_session c = SigSpec.Collecting path collected ->
  Initialize (Clone (c_Token c)) path w = Ret (w1, t, None) ->
  let payload := collected ++ sign_payload d in
  let c' := mkCosmos (c_Token c) None true in
  (JsonGrammar.text JsonScan.maxNestingDepth (map byte.unsigned payload) ->
     cosmos_Handle c claSignSecp256K1 d w =
       ('(w2, r) ← Sign t (Sha256.Sum256 payload) AlgoSecp256K1 w1;
        Ret (w2, c', match r with
                     | Ok sig => (sig, APDUSuccess, None)
                     | Err e => ([], APDUExecutionError, Some e)
                     end))) /\
  (~ JsonGrammar.text JsonScan.maxNestingDepth (map byte.unsigned payload) ->
     exists e, cosmos_Handle c claSignSecp256K1 d w = Ret (w1, c', ([], APDUDataInvalid, Some e))).
Proof.
  intros Hs Hd Hc Hi payload c'. pose proof (handleSign_step (initLog c) d w Hs) as Hstep.
  rewrite initLog_abs, Hc in Hstep. unfold sign_packet in Hstep. rewrite Hd in Hstep. cbn in Hstep.
  destruct Hstep as [_ Hstep]. rewrite cosmos_Handle_sign, Hstep by apply Hs. unfold sign_at.
  rewrite initLog_Token, Hi, go_bind_ret. fold payload. rewrite <- JsonGrammar.json_Valid_text.
  replace (with_session (initLog c) None) with c' by (unfold c', with_session; by rewrite initLog_Token, initLog_l).
  destruct (JsonScan.json_Valid payload); (split; [intros Hj|intros Hn]); try done.
  - by destruct (Sign t _ _ w1) as [[w2 [sig|e]]|p].
  - by eexists.
Qed.

Lemma signs_only_json_witness :
  exists e, cosmos_Handle (Tok := demo_token) (D := plain_address) collecting claSignSecp256K1
    (sign_command 2 (bytes_of [93])) 0%nat
  = Ret (0%nat, mkCosmos (@dumbToken.NewDumbToken path_keychain) None true, ([], APDUDataInvalid, Some e)).
Proof.
  refine (proj2 (signs_only_json (Tok := demo_token) (D := plain_address) collecting
    (sign_command 2 (bytes_of [93])) 0%nat zero_path (bytes_of [123]) 0%nat _ _ _ _ _) _).
  - apply (bool_decide_eq_true_1 _). vm_compute. reflexivity.
  - vm_compute. reflexivity.
  - reflexivity.
  - reflexivity.
  - intros Ht%JsonGrammar.json_Valid_text. vm_compute in Ht. discriminate Ht.
Defined.

(** C23: The address command.  A request of at least 6 bytes whose header is
    valid reads the human-readable prefix and the path right behind it from
    the message's backing array, and answers with the public key at that path
    followed by its address; it panics, before touching the token, exactly when
    prefix and path do not fit in the capacity of the slice.  An invalid header
    or a shorter request is answered with the execution-error code. *)
Theorem address_request {W T : Type} {Tok : Token W T} {D : AddressDeps} (c : Cosmos T) d (w : W) r :
  read_getAddressRequest (s_data d) = r ->
  match r with
  | Err e => (s_len d < 6)%nat /\ handleGetAddrSecp256K1 c d w = Ret (w, c, ([], APDUExecutionError, Some e))
  | Ok req =>
      match getAddressRequest_validate req with
      | Some e => handleGetAddrSecp256K1 c d w = Ret (w, c, ([], APDUExecutionError, Some e))
      | None =>
          let n := Z.to_nat (HRPLength req) in
          if bool_decide (26 + n <= s_cap d)%nat
          then handleGetAddrSecp256K1 c d w =
                 ('(w', resp) ← address_at (c_Token c) (path_of_wire (drop (6 + n) (s_array d)))
                                  (hrp_of d n) w;
                  Ret (w', c, resp))
          else handleGetAddrSecp256K1 c d w = Panic BoundsOutOfRange
      end
  end.
Proof.
  intros Hr. destruct r as [req|e].
  2: { split; [|unfold handleGetAddrSecp256K1; by rewrite Hr]. destruct (decide (6 <= s_len d)%nat) as [H|H]; [|lia].
       by rewrite read_getAddressRequest_6 in Hr by exact H. }
  destruct (getAddressRequest_validate req) eqn:Hv.
  - unfold handleGetAddrSecp256K1. by rewrite Hr, Hv.
  - cbv zeta. rewrite (handleGetAddr_valid c d w req Hr Hv). by case_bool_decide.
Qed.

(** A request for the prefix "cosmos" and the demonstration path. *)
Definition demo_request : slice :=
  full (bytes_of [85; 4; 0; 0; 27; 6; 99; 111; 115; 109; 111; 115] ++ demo_path).

Lemma address_request_witness :
  handleGetAddrSecp256K1 (Tok := demo_token) (D := plain_address) demo_cosmos demo_request 0%nat =
    ('(w', resp) ← address_at (Tok := demo_token) (D := plain_address)
        (@dumbToken.NewDumbToken path_keychain)
        (path_of_wire (drop (6 + 6) (s_array demo_request))) (hrp_of demo_request 6) 0%nat;
     Ret (w', demo_cosmos, resp)).
Proof.
  exact (address_request (Tok := demo_token) (D := plain_address) demo_cosmos demo_request 0%nat
    (Ok (mkGetAddressRequest 0 0 27 6)) ltac:(vm_compute; reflexivity)).
Defined.

(** Isolation.  No command changes the token the app was created with
    (signing and addresses work on clones), and only a sign command can change
    the signature session. *)
Theorem cosmos_isolation {W T : Type} {Tok : Token W T} {D : AddressDeps}
    (c : Cosmos T) cmd d (w w' : W) c' r :
  cosmos_Handle c cmd d w = Ret (w', c', r) ->
  c_Token c' = c_Token c /\
  (cmd <> claSignSecp256K1 \/ (s_len d < 5)%nat ->
   currentSignatureSession c' = currentSignatureSession c).
Proof. intros H. apply cosmos_Handle_isolation in H as (? & _ & ?). auto. Qed.

Lemma cosmos_isolation_witness :
  @dumbToken.NewDumbToken path_keychain = c_Token demo_cosmos /\
  (claGetVersion <> claSignSecp256K1 \/ (s_len (sign_command 0 demo_path) < 5)%nat ->
   @None signatureSession = currentSignatureSession demo_cosmos).
Proof.
  apply (cosmos_isolation (Tok := demo_token) (D := plain_address) demo_cosmos claGetVersion
    (sign_command 0 demo_path) 0%nat 0%nat
    (mkCosmos (@dumbToken.NewDumbToken path_keychain) None true) handleGetVersion).
  reflexivity.
Defined.

(** Dispatch.  Every call answers by length first (fewer than 5 bytes is
    a wrong length), then by command: the version command returns test mode 0,
    version 2.0.0 and an unlocked device, an unlisted command is an
    instruction that is not supported; sign and address commands of 5 bytes or
    more reach their handlers. *)
Theorem cosmos_dispatch {W T : Type} {Tok : Token W T} {D : AddressDeps} (c : Cosmos T) cmd d (w : W) :
  ((s_len d < 5)%nat -> exists e, cosmos_Handle c cmd d w = Ret (w, initLog c, ([], APDUWrongLength, Some e))) /\
  ((5 <= s_len d)%nat ->
     (cmd = claGetVersion ->
        cosmos_Handle c cmd d w = Ret (w, initLog c, (bytes_of [0; 2; 0; 0; 0], APDUSuccess, None))) /\
     (cmd = claSignSecp256K1 -> cosmos_Handle c cmd d w = handleSignSecp256K1 (initLog c) d w) /\
     (cmd = claGetAddrSecp256K1 -> cosmos_Handle c cmd d w = handleGetAddrSecp256K1 (initLog c) d w) /\
     (cmd ∉ cosmos_Commands ->
        exists e, cosmos_Handle c cmd d w = Ret (w, initLog c, ([], APDUINSNotSupported, Some e)))).
Proof.
  unfold cosmos_Handle, minDataLen. split; intros Hl.
  - rewrite bool_decide_true by done. unfold fail. eauto.
  - rewrite bool_decide_false by lia. split_and!; intros Hc; [subst; done..|].
    unfold cosmos_Commands in Hc. rewrite !not_elem_of_cons in Hc. destruct Hc as (H1 & H2 & H3 & _).
    apply Z.eqb_neq in H1, H2, H3. rewrite H1, H2, H3. unfold fail. eauto.
Qed.

Lemma cosmos_dispatch_witness :
  exists e, cosmos_Handle (Tok := demo_token) (D := plain_address) demo_cosmos 7
              (sign_command 0 demo_path) 0%nat
            = Ret (0%nat, initLog demo_cosmos, ([], APDUINSNotSupported, Some e)).
Proof.
  apply (cosmos_dispatch (Tok := demo_token) (D := plain_address) demo_cosmos 7
    (sign_command 0 demo_path) 0%nat).
  - vm_compute. lia.
  - apply (bool_decide_eq_true_1 _). vm_compute. reflexivity.
Defined.

(** C40: An init command is not checked for its length.  Whatever its length,
    as long as the slice's backing array has 25 bytes, the session's path is
    read from the array, so for a message shorter than 25 bytes it depends on
    bytes behind the end of the message. *)
Theorem short_init_reads_spare {W T : Type} {Tok : Token W T} {D : AddressDeps} (c : Cosmos T)
    header spare (w : W) :
  (5 <= length header)%nat -> header !! 2%nat = Some (byte.of_Z 0) ->
  (25 <= length (header ++ spare))%nat ->
  exists c', cosmos_Handle c claSignSecp256K1 (Slice header spare) w = Ret (w, c', ack) /\
    abs_session c' = SigSpec.Collecting (path_of_wire (drop 5 header ++ spare)) [].
Proof.
  intros H5 H2 H25.
  assert (Hd : sign_descr (Slice header spare) = signInit) by (unfold sign_descr; simpl; by rewrite H2).
  assert (Hs : sign_sized (Slice header spare)) by (split; [done|intros _; done]).
  rewrite cosmos_Handle_sign by apply Hs.
  pose proof (handleSign_step (initLog c) (Slice header spare) w Hs) as Hstep.
  unfold sign_packet in Hstep. rewrite Hd in Hstep; simpl in Hstep.
  destruct Hstep as (c' & -> & Ha & _). exists c'. split; [done|]. rewrite Ha. unfold s_array; simpl.
  by rewrite drop_app_le.
Qed.

Lemma short_init_reads_spare_witness :
  exists c', cosmos_Handle (Tok := demo_token) (D := plain_address) demo_cosmos claSignSecp256K1
      (Slice (bytes_of [85; 2; 0; 0; 0]) demo_path) 0%nat = Ret (0%nat, c', ack) /\
    abs_session c' = SigSpec.Collecting (mkPath 44 118 0 0 7) [].
Proof.
  destruct (short_init_reads_spare (Tok := demo_token) (D := plain_address) demo_cosmos
    (bytes_of [85; 2; 0; 0; 0]) demo_path 0%nat) as (c' & H1 & H2).
  - vm_compute. lia.
  - vm_compute. reflexivity.
  - vm_compute. lia.
  - exists c'. split; [exact H1|]. rewrite H2. vm_compute. reflexivity.
Defined.
