(* ===== verification/Firmware.v ===== *)
(** * The HID handler of the firmware: [src/firmware/wallera.go]

    Reports from the host arrive through [Rx], reports for the host leave
    through [Tx]; both sides meet on an unbuffered channel.  The file models
    both callbacks, the set-up of [main], and the device as a transition
    system in which the two endpoint goroutines interleave. *)

From S2P Require Import Prelude GoRuntime Sha256 Crypto Usb UsbTheory JsonScan Apps Cosmos CosmosTheory.

(** ** The handler *)

(** The channel and the logger are not part of the record: what is sent on
    the channel is a result of [Rx], and log lines have no effect. *)
Record hidHandler (A : Type) := mkHid {
  ah : Handler A;
  session : option Session
}.
Arguments mkHid {A}.
Arguments ah {A}.
Arguments session {A}.

Definition newHidHandler {A} (apps : Handler A) : hidHandler A := mkHid apps None.

(** [notErr]: zap's [Panic] logs, then panics. *)
Definition notErr (e : option error) : go unit :=
  match e with
  | Some e => Panic (PanicValue e)
  | None => Ret tt
  end.

Section rx.
Context {W A : Type} {I : App W A} {C : CAPDUCodec}.

(** The session part of [Rx]: the session after the report, the chunks sent
    on the way, and, if the function returns early, the error it returns. *)
Definition rx_session (hh : hidHandler A) (buf : list byte)
    : go (Session * list (list byte) * option (option error)) :=
  match session hh with
  | None =>
      r ← NewSession buf;
      match r with
      | Err e => _ ← notErr (Some e); Ret (fresh_session, [], None)
      | Ok s => _ ← notErr None; Ret (s, [], None)
      end
  | Some s =>
      '(s, err) ← ReadData s buf;
      sent ← match err with
             | Some _ => FormatResponse s (full (PackageResponse [] APDUCommandNotAllowed))
             | None => Ret []
             end;
      Ret (s, sent, if ShouldReadMore s then Some err else None)
  end.

(** The rest of [Rx], once the session holds the report: wait for more, or
    handle the message and send the response. *)
Definition rx_finish (h : Handler A) (s : Session) (sent : list (list byte)) (w : W)
    : go (W * hidHandler A * list (list byte) * option error) :=
  if ShouldReadMore s then Ret (w, mkHid h (Some s), sent, None)
  else
    '(w, h, (resp, _)) ← Handle h (session_Data s) w;
    match resp with
    | None => Ret (w, mkHid h None, sent, None)
    | Some resp =>
        chunks ← FormatResponse s (full resp);
        match chunks with
        | [] => Ret (w, mkHid h (Some s), sent, None)
        | _ :: _ => Ret (w, mkHid h None, sent ++ chunks, None)
        end
    end.

(** [(hh *hidHandler) Rx]: the handler after it, the chunks sent on the
    channel in order, and the returned error. *)
Definition Rx (hh : hidHandler A) (buf : list byte) (w : W)
    : go (W * hidHandler A * list (list byte) * option error) :=
  '(s, sent, stop) ← rx_session hh buf;
  match stop with
  | Some err => Ret (w, mkHid (ah hh) (Some s), sent, err)
  | None => rx_finish (ah hh) s sent w
  end.

(** Successive calls, with everything they send. *)
Fixpoint rx_all (hh : hidHandler A) (bufs : list (list byte)) (w : W)
    : go (W * hidHandler A * list (list byte)) :=
  match bufs with
  | [] => Ret (w, hh, [])
  | buf :: rest =>
      '(w1, hh1, sent, _) ← Rx hh buf w;
      '(w2, hh2, sents) ← rx_all hh1 rest w1;
      Ret (w2, hh2, sent ++ sents)
  end.

(** ** The device

    The two endpoint goroutines, with a transition for every point at which
    they can interleave.  [Rx] blocks at each send until [Tx] has taken the
    chunk; between two sends it runs alone, and the handler, the session and the
    world are what its statements have made of them so far: while the response
    is being sent the finished session is still stored. *)

(** Where the goroutine that calls [Rx] is: waiting for the next report, at
    the send of the first or of the second loop (with the chunks of the loop that
    are left), or ended by a panic. *)
Inductive rx_point :=
| Waiting
| Refusing (chunk : list byte) (rest : list (list byte))
| Answering (chunk : list byte) (rest : list (list byte))
| Panicked (p : panic).

(** From the second test of [ShouldReadMore] to the sends of the response. *)
Definition rx_handle (h : Handler A) (s : Session) (w : W) : go (W * hidHandler A * rx_point) :=
  if ShouldReadMore s then Ret (w, mkHid h (Some s), Waiting)
  else
    '(w, h, (resp, _)) ← Handle h (session_Data s) w;
    match resp with
    | None => Ret (w, mkHid h None, Waiting)
    | Some resp =>
        chunks ← FormatResponse s (full resp);
        match chunks with
        | [] => Ret (w, mkHid h (Some s), Waiting)
        | chunk :: rest => Ret (w, mkHid h (Some s), Answering chunk rest)
        end
    end.

(** From the test of [ShouldReadMore] behind the refusal. *)
Definition rx_resume (h : Handler A) (s : Session) (w : W) : go (W * hidHandler A * rx_point) :=
  if ShouldReadMore s then Ret (w, mkHid h (Some s), Waiting) else rx_handle h s w.

(** A call of [Rx], up to its first send or its return. *)
Definition rx_enter (hh : hidHandler A) (buf : list byte) (w : W) : go (W * hidHandler A * rx_point) :=
  match session hh with
  | None =>
      r ← NewSession buf;
      match r with
      | Err e => _ ← notErr (Some e); Ret (w, hh, Waiting)
      | Ok s => rx_handle (ah hh) s w
      end
  | Some s =>
      '(s, err) ← ReadData s buf;
      match err with
      | None => rx_resume (ah hh) s w
      | Some _ =>
          chunks ← FormatResponse s (full (PackageResponse [] APDUCommandNotAllowed));
          match chunks with
          | [] => rx_resume (ah hh) s w
          | chunk :: rest => Ret (w, mkHid (ah hh) (Some s), Refusing chunk rest)
          end
      end
  end.

(** [Rx] after a chunk was taken, up to its next send or its return. *)
Definition rx_continue (hh : hidHandler A) (pt : rx_point) (w : W) : go (W * hidHandler A * rx_point) :=
  match pt with
  | Refusing _ (chunk :: rest) => Ret (w, hh, Refusing chunk rest)
  | Refusing _ [] =>
      match session hh with
      | Some s => rx_resume (ah hh) s w
      | None => Panic NilDereference
      end
  | Answering _ (chunk :: rest) => Ret (w, hh, Answering chunk rest)
  | Answering _ [] => Ret (w, mkHid (ah hh) None, Waiting)
  | Waiting | Panicked _ => Ret (w, hh, pt)
  end.

(** The chunk that is offered on the channel. *)
Definition offered (pt : rx_point) : option (list byte) :=
  match pt with
  | Refusing chunk _ | Answering chunk _ => Some chunk
  | Waiting | Panicked _ => None
  end.

Record device := mkDevice {
  hid : hidHandler A;
  world : W;
  point : rx_point
}.

(** The device after statements of [Rx] that started from [d]. *)
Definition reached (d : device) (r : go (W * hidHandler A * rx_point)) : device :=
  match r with
  | Ret (w, hh, pt) => mkDevice hh w pt
  | Panic p => mkDevice (hid d) (world d) (Panicked p)
  end.

Inductive event :=
| Received (buf : list byte)
| Transmitted (chunk : list byte).

(** The host sends a report to a waiting [Rx]; or [Tx] receives the chunk that
    [Rx] offers, hands it to the host, and [Rx] goes on. *)
Inductive step : device -> event -> device -> Prop :=
| step_rx d buf :
    point d = Waiting -> step d (Received buf) (reached d (rx_enter (hid d) buf (world d)))
| step_tx d chunk :
    offered (point d) = Some chunk -> step d (Transmitted chunk) (reached d (rx_continue (hid d) (point d) (world d))).

Inductive trace : device -> list event -> device -> Prop :=
| trace_nil d : trace d [] d
| trace_cons d e d1 es d2 : step d e d1 -> trace d1 es d2 -> trace d (e :: es) d2.

(** What the call under way still comes to when every chunk is taken at once:
    the world, the handler, and the chunks it has still to send. *)
Definition settle_answer (r : W * hidHandler A * rx_point) : W * hidHandler A * list (list byte) :=
  match r with
  | (w, hh, Answering chunk rest) => (w, mkHid (ah hh) None, chunk :: rest)
  | (w, hh, _) => (w, hh, [])
  end.

Definition settle (d : device) : go (W * hidHandler A * list (list byte)) :=
  match point d with
  | Waiting => Ret (world d, hid d, [])
  | Answering chunk rest => Ret (world d, mkHid (ah (hid d)) None, chunk :: rest)
  | Refusing chunk rest =>
      match session (hid d) with
      | None => Panic NilDereference
      | Some s =>
          r ← rx_resume (ah (hid d)) s (world d);
          let '(w, hh, out) := settle_answer r in Ret (w, hh, (chunk :: rest) ++ out)
      end
  | Panicked p => Panic p
  end.

Definition received (es : list event) : list (list byte) :=
  omap (fun e => match e with Received b => Some b | Transmitted _ => None end) es.

Definition transmitted (es : list event) : list (list byte) :=
  omap (fun e => match e with Transmitted c => Some c | Received _ => None end) es.

(** ** The invariant of the handler *)

Record hid_ok (hh : hidHandler A) : Prop := {
  hid_handler : handler_ok (ah hh);
  hid_session s : session hh = Some s -> session_reach s /\ ShouldReadMore s = true
}.

(** The answer to a report that does not fit the open session. *)
Definition refusal (s : Session) : list (list byte) :=
  frames_of (channelID s) (PackageResponse [] APDUCommandNotAllowed).

Lemma FormatResponse_full s l : FormatResponse s (full l) = Ret (frames_of (channelID s) l).
Proof. apply FormatResponse_frames. Qed.

Lemma frames_of_cons channel l : exists f fs, frames_of channel l = f :: fs.
Proof. unfold frames_of. eauto. Qed.

(** What happens when a message is complete. *)
Definition answer (h : Handler A) (s : Session) (w : W)
    : go (W * hidHandler A * list (list byte) * option error) :=
  '(w, h, (resp, _)) ← Handle h (session_Data s) w;
  Ret (w, mkHid h None, match resp with
                        | Some resp => frames_of (channelID s) resp
                        | None => [] end, None).

Lemma rx_finish_answer h s w :
  rx_finish h s [] w = if ShouldReadMore s then Ret (w, mkHid h (Some s), [], None) else answer h s w.
Proof.
  unfold rx_finish, answer. destruct (ShouldReadMore s); [done|].
  destruct (Handle _ _ w) as [[[w' h'] [[resp|] e]]|p]; simpl; [|done..].
  rewrite FormatResponse_full, go_bind_ret.
  by destruct (frames_of_cons (channelID s) resp) as (f & fs & ->).
Qed.

(** A report for an idle device. *)
Lemma Rx_idle h buf w :
  if opens buf
  then exists s, NewSession buf = Ret (Ok s) /\ session_reach s /\
    Rx (mkHid h None) buf w =
      if ShouldReadMore s then Ret (w, mkHid h (Some s), [], None) else answer h s w
  else exists e, Rx (mkHid h None) buf w = Panic (PanicValue e).
Proof.
  unfold Rx, rx_session; cbn [session ah]. destruct (opens buf) eqn:Ho.
  - destruct (NewSession_opens buf Ho) as (_ & s & Hs & _ & _). exists s.
    split_and!; [done|by eapply reach_open|]. rewrite Hs, !go_bind_ret. cbn [notErr].
    by rewrite !go_bind_ret, rx_finish_answer.
  - destruct (NewSession_refused buf Ho) as [e He]. rewrite He, go_bind_ret. by exists e.
Qed.

(** A report for a device with an open session. *)
Lemma Rx_active h s buf w :
  session_reach s -> ShouldReadMore s = true ->
  (accepts s buf = false ->
     exists e, Rx (mkHid h (Some s)) buf w = Ret (w, mkHid h (Some s), refusal s, Some e)) /\
  (accepts s buf = true ->
     exists s', ReadData s buf = Ret (s', None) /\ session_reach s' /\ channelID s' = channelID s /\
       Rx (mkHid h (Some s)) buf w =
         if ShouldReadMore s' then Ret (w, mkHid h (Some s'), [], None) else answer h s' w).
Proof.
  intros Hr Hm. pose proof (session_reach_ok s Hr) as Hs.
  unfold Rx, rx_session; cbn [session ah]. split; intros Ha.
  - destruct (ReadData_refused s buf Hs Ha) as [e He]. exists e.
    rewrite He, go_bind_ret, FormatResponse_full, !go_bind_ret, Hm. done.
  - destruct (ReadData_ok s buf Hs) as (s' & err & E & _ & Hc & Hsame).
    assert (err = None) as ->.
    { destruct (decide (hn_PacketIndexInner (decode_HIDFrameNext buf) = 0)) as [Hz|Hz].
      - destruct (ReadData_wrapped_index s buf Hs Ha Hz) as [_ E']. rewrite E in E'. by simplify_eq.
      - destruct (ReadData_extends s buf Hs Ha Hz) as (? & E' & _). rewrite E in E'. by simplify_eq. }
    exists s'. split_and!; [done|by eapply reach_read|done|].
    rewrite E, !go_bind_ret. destruct (ShouldReadMore s') eqn:Hm'; [done|].
    by rewrite rx_finish_answer, Hm'.
Qed.

Lemma answer_ok `{!AppLaws W A I} h s w w' hh' sent err :
  handler_ok h -> answer h s w = Ret (w', hh', sent, err) ->
  handler_ok (ah hh') /\ session hh' = None /\ Forall (fun f => length f = 64%nat) sent.
Proof.
  unfold answer. intros Hok ([[w1 h1] [resp e]] & Hh & H)%go_bind_Ret_inv.
  simplify_eq; simpl. split_and!; [by eapply Handle_ok|done|].
  destruct resp; [auto with wallera|constructor].
Qed.

Lemma Rx_ok `{!AppLaws W A I} hh buf w w' hh' sent err :
  hid_ok hh -> Rx hh buf w = Ret (w', hh', sent, err) ->
  hid_ok hh' /\ Forall (fun f => length f = 64%nat) sent.
Proof.
  destruct hh as [h [s|]]; intros [Hh Hses] H; cbn [ah session] in *.
  - destruct (Hses s eq_refl) as [Hr Hm]. destruct (Rx_active h s buf w Hr Hm) as [Href Hacc].
    destruct (accepts s buf).
    + destruct (Hacc eq_refl) as (s' & _ & Hr' & _ & E). rewrite E in H.
      destruct (ShouldReadMore s') eqn:Hm'; simplify_eq; simpl.
      { split; [split; simpl; [done|intros; by simplify_eq]|constructor]. }
      destruct (answer_ok _ _ _ _ _ _ _ Hh H) as (? & Hn & ?). split; [|done]. split; [done|].
      rewrite Hn. done.
    + destruct (Href eq_refl) as [e E]. rewrite E in H. simplify_eq.
      split; [split; simpl; [done|intros; by simplify_eq]|apply frames_of_64].
  - pose proof (Rx_idle h buf w) as E. destruct (opens buf).
    + destruct E as (s & _ & Hr & E). rewrite E in H.
      destruct (ShouldReadMore s) eqn:Hm; simplify_eq; simpl.
      { split; [split; simpl; [done|intros; by simplify_eq]|constructor]. }
      destruct (answer_ok _ _ _ _ _ _ _ Hh H) as (? & Hn & ?). split; [|done]. split; [done|].
      rewrite Hn. done.
    + destruct E as [e E]. by rewrite E in H.
Qed.

(** ** Whole messages *)

Lemma rx_all_app hh bufs1 bufs2 w :
  rx_all hh (bufs1 ++ bufs2) w =
  ('(w1, hh1, s1) ← rx_all hh bufs1 w;
   '(w2, hh2, s2) ← rx_all hh1 bufs2 w1; Ret (w2, hh2, s1 ++ s2)).
Proof.
  revert hh w. induction bufs1 as [|b bufs1 IH]; intros hh w; simpl.
  { by destruct (rx_all hh bufs2 w) as [[[? ?] ?]|]. }
  destruct (Rx hh b w) as [[[[w1 hh1] s1] e]|p]; simpl; [|done]. rewrite IH.
  destruct (rx_all hh1 bufs1 w1) as [[[w2 hh2] s2]|p]; simpl; [|done].
  destruct (rx_all hh2 bufs2 w2) as [[[w3 hh3] s3]|p]; simpl; [|done]. by rewrite app_assoc.
Qed.

Definition drop_err (r : go (W * hidHandler A * list (list byte) * option error))
    : go (W * hidHandler A * list (list byte)) :=
  '(w, hh, sent, _) ← r; Ret (w, hh, sent).

Lemma rx_all_last hh buf w : rx_all hh [buf] w = drop_err (Rx hh buf w).
Proof.
  simpl. unfold drop_err. destruct (Rx hh buf w) as [[[[w1 hh1] s1] e]|p]; simpl; [|done].
  by rewrite app_nil_r.
Qed.

(** The reports after the first, when they complete the session. *)
Lemma rx_read_rest h w rest : forall s s',
  session_reach s -> ShouldReadMore s = true ->
  read_rest s rest = Ret (Ok s') -> ShouldReadMore s' = false ->
  rx_all (mkHid h (Some s)) rest w = drop_err (answer h s' w).
Proof.
  induction rest as [|buf rest IH]; intros s s' Hr Hm Hrest Hdone; simpl in Hrest.
  { simplify_eq. congruence. }
  apply go_bind_Ret_inv in Hrest as ([s1 [e|]] & E & Hrest); [by simplify_eq|].
  destruct (Rx_active h s buf w Hr Hm) as [_ Hacc].
  destruct (accepts s buf) eqn:Ha.
  2: { destruct (ReadData_refused s buf (session_reach_ok s Hr) Ha) as [e He]. rewrite E in He. by simplify_eq. }
  destruct (Hacc eq_refl) as (s2 & E2 & Hr2 & _ & Hrx). rewrite E in E2. injection E2 as <-.
  destruct (ShouldReadMore s1) eqn:Hm1.
  - simpl. rewrite Hrx, go_bind_ret, (IH s1 s') by done. unfold drop_err.
    by destruct (answer h s' w) as [[[[? ?] ?] ?]|].
  - destruct rest as [|b rest]; [|exfalso].
    + simpl in Hrest. simplify_eq. by rewrite rx_all_last, Hrx.
    + simpl in Hrest. apply go_bind_Ret_inv in Hrest as ([s3 [e|]] & E3 & Hrest); [by simplify_eq|].
      destruct (accepts s1 b) eqn:Ha1; [apply accepts_more in Ha1; congruence|].
      destruct (ReadData_refused s1 b (session_reach_ok s1 Hr2) Ha1) as [e He]. rewrite E3 in He. by simplify_eq.
Qed.

(** The reports of a message are handled as that message. *)
Lemma rx_message channel m :
  0 < channel < 65536 -> Z.of_nat (length m) < 65536 ->
  exists s, session_reach s /\ s_data (session_Data s) = m /\ (64 <= s_cap (session_Data s))%nat /\
    channelID s = channel /\
    forall h w, rx_all (mkHid h None) (frames_of channel m) w = drop_err (answer h s w).
Proof.
  intros Hc Hl. destruct (receive_frames_of channel m Hc Hl) as (s & Hrec & Hok & Hd & Hch & Hm).
  exists s. split_and!; [by eapply receive_reach|done|by apply (ok_cap s)|done|].
  intros h w. destruct (frames_of_cons channel m) as (f & fs & Hf). rewrite Hf in *.
  simpl in Hrec. apply go_bind_Ret_inv in Hrec as ([s0|e] & E0 & Hrec); [|by simplify_eq].
  pose proof (Rx_idle h f w) as Hidle. destruct (opens f) eqn:Ho.
  2: { destruct (NewSession_refused f Ho) as [e He]. rewrite E0 in He. by simplify_eq. }
  destruct Hidle as (s1 & E1 & Hr & Hrx). rewrite E0 in E1. injection E1 as <-.
  destruct (ShouldReadMore s0) eqn:Hm0.
  - simpl. rewrite Hrx, go_bind_ret, (rx_read_rest h w fs s0 s) by done. unfold drop_err.
    by destruct (answer h s w) as [[[[? ?] ?] ?]|].
  - destruct fs as [|b fs]; [|exfalso].
    + simpl in Hrec. simplify_eq. by rewrite rx_all_last, Hrx.
    + simpl in Hrec. apply go_bind_Ret_inv in Hrec as ([s3 [e|]] & E3 & Hrec); [by simplify_eq|].
      destruct (accepts s0 b) eqn:Ha1; [apply accepts_more in Ha1; congruence|].
      destruct (ReadData_refused s0 b (session_reach_ok s0 Hr) Ha1) as [e He]. rewrite E3 in He. by simplify_eq.
Qed.

(** ** Interleavings *)

(** The part behind the session, in one go and up to its sends. *)
Lemma rx_finish_handle h s sent w :
  drop_err (rx_finish h s sent w) =
  (r ← rx_handle h s w; let '(w, hh, out) := settle_answer r in Ret (w, hh, sent ++ out)).
Proof.
  unfold rx_finish, rx_handle, drop_err. destruct (ShouldReadMore s); [simpl; by rewrite app_nil_r|].
  destruct (Handle h _ w) as [[[w' h'] [[resp|] e]]|p]; simpl; [| |done]; [|by rewrite app_nil_r].
  rewrite FormatResponse_full, !go_bind_ret. destruct (frames_of (channelID s) resp); simpl; [by rewrite app_nil_r|done].
Qed.

Lemma settle_handle d h s w :
  settle (reached d (rx_handle h s w)) = (r ← rx_handle h s w; Ret (settle_answer r)).
Proof.
  unfold rx_handle. destruct (ShouldReadMore s); [done|].
  destruct (Handle h _ w) as [[[w' h'] [[resp|] e]]|p]; simpl; [|done..].
  rewrite FormatResponse_full, !go_bind_ret. by destruct (frames_of (channelID s) resp).
Qed.

Lemma settle_resume d h s w :
  settle (reached d (rx_resume h s w)) = (r ← rx_resume h s w; Ret (settle_answer r)).
Proof. unfold rx_resume. destruct (ShouldReadMore s); [done|apply settle_handle]. Qed.

Lemma settle_nil (x : go (W * hidHandler A * rx_point)) :
  (r ← x; Ret (settle_answer r)) = (r ← x; let '(w, hh, out) := settle_answer r in Ret (w, hh, [] ++ out)).
Proof. destruct x as [r|p]; [|done]. cbn. by destruct (settle_answer r) as [[? ?] ?]. Qed.

(** A whole call is its first stretch, settled. *)
Lemma Rx_settled hh buf w :
  drop_err (Rx hh buf w) = settle (reached (mkDevice hh w Waiting) (rx_enter hh buf w)).
Proof.
  unfold Rx, rx_enter, rx_session. destruct (session hh) as [s|] eqn:Hs.
  - destruct (ReadData s buf) as [[s' err]|p]; simpl; [|done].
    assert (Hr : forall sent, drop_err (if ShouldReadMore s' then Ret (w, mkHid (ah hh) (Some s'), sent, err)
        else rx_finish (ah hh) s' sent w) =
      (r ← rx_resume (ah hh) s' w; let '(w, hh, out) := settle_answer r in Ret (w, hh, sent ++ out))).
    { intros sent. unfold rx_resume. destruct (ShouldReadMore s'); [simpl; by rewrite app_nil_r|apply rx_finish_handle]. }
    destruct err as [e|].
    + rewrite FormatResponse_full, !go_bind_ret.
      destruct (frames_of_cons (channelID s') (PackageResponse [] APDUCommandNotAllowed)) as (f & fs & ->).
      specialize (Hr (f :: fs)). destruct (ShouldReadMore s'); exact Hr.
    + rewrite !go_bind_ret, settle_resume, settle_nil, <- Hr. by destruct (ShouldReadMore s').
  - destruct (NewSession buf) as [[s|e]|p]; simpl; [|done..]. by rewrite settle_handle, settle_nil, rx_finish_handle.
Qed.

(** Taking a chunk leaves less to settle. *)
Lemma settle_continue d chunk :
  offered (point d) = Some chunk ->
  settle d = ('(w, hh, out) ← settle (reached d (rx_continue (hid d) (point d) (world d))); Ret (w, hh, chunk :: out)).
Proof.
  destruct d as [hh w pt]. cbn [point hid world]. intros Ho.
  destruct pt as [|c rest|c rest|p]; simplify_eq/=; destruct rest as [|c' rest]; try done; cbn [settle point session hid world reached rx_continue ah].
  - destruct (session hh) as [s|] eqn:Hs; [|done]. rewrite settle_resume.
    destruct (rx_resume _ s w) as [r|p]; [|done]. cbn. by destruct (settle_answer r) as [[? ?] ?].
  - destruct (session hh) as [s|] eqn:Hs; [|done]. cbn.
    destruct (rx_resume _ s w) as [r|p]; [|done]. cbn. by destruct (settle_answer r) as [[? ?] ?].
Qed.

(** In every execution, what was sent and what the call under way still comes
    to is what the calls come to one after the other. *)
Lemma trace_settled d es d' :
  trace d es d' ->
  ('(w1, hh1, o1) ← settle d; '(w2, hh2, o2) ← rx_all hh1 (received es) w1; Ret (w2, hh2, o1 ++ o2)) =
  ('(w', hh', out) ← settle d'; Ret (w', hh', transmitted es ++ out)).
Proof.
  induction 1 as [d|d e d1 es d2 Hs _ IH].
  { destruct (settle d) as [[[w hh] o]|p]; [|done]. cbn. by rewrite app_nil_r. }
  destruct Hs as [d buf Hp|d chunk Ho].
  - unfold settle at 1. rewrite Hp, go_bind_ret. cbn [received omap list_omap rx_all app].
    fold (received es). change (transmitted (Received buf :: es)) with (transmitted es). rewrite <- IH. destruct d as [hh w pt]. cbn [hid world point] in *. subst pt.
    rewrite <- Rx_settled. unfold drop_err. destruct (Rx hh buf w) as [[[[w1 hh1] s1] e]|p]; [|done]. rewrite !go_bind_ret.
    by destruct (rx_all hh1 (received es) w1) as [[[? ?] ?]|].
  - rewrite (settle_continue d chunk Ho). change (received (Transmitted chunk :: es)) with (received es).
    change (transmitted (Transmitted chunk :: es)) with (chunk :: transmitted es).
    set (x := settle (reached _ _)) in *. destruct x as [[[w1 hh1] o1]|p]; cbn in *.
    + destruct (rx_all hh1 (received es) w1) as [[[w2 hh2] o2]|p]; cbn in *; destruct (settle d2) as [[[w3 hh3] o3]|]; cbn in *; simplify_eq; congruence.
    + by destruct (settle d2) as [[[w3 hh3] o3]|]; simplify_eq/=.
Qed.

Lemma trace_sequential hh w es d :
  trace (mkDevice hh w Waiting) es d ->
  rx_all hh (received es) w = ('(w', hh', out) ← settle d; Ret (w', hh', transmitted es ++ out)).
Proof.
  intros H%trace_settled. rewrite <- H. cbn. by destruct (rx_all hh (received es) w) as [[[? ?] ?]|].
Qed.

Lemma trace_app d es1 d1 es2 d2 : trace d es1 d1 -> trace d1 es2 d2 -> trace d (es1 ++ es2) d2.
Proof. induction 1; simpl; [done|]. intros. econstructor; eauto. Qed.

Lemma received_cons b es : received (Received b :: es) = b :: received es.
Proof. done. Qed.
Lemma transmitted_cons b es : transmitted (Received b :: es) = transmitted es.
Proof. done. Qed.
Lemma received_app es1 es2 : received (es1 ++ es2) = received es1 ++ received es2.
Proof. apply omap_app. Qed.
Lemma transmitted_app es1 es2 : transmitted (es1 ++ es2) = transmitted es1 ++ transmitted es2.
Proof. apply omap_app. Qed.
Lemma received_out out : received (map Transmitted out) = [].
Proof. by induction out. Qed.
Lemma transmitted_out out : transmitted (map Transmitted out) = out.
Proof. induction out as [|c out IH]; [done|].
  change (transmitted _) with (c :: transmitted (map Transmitted out)). by rewrite IH.
Qed.


(** The call under way ends, after as many chunks as it has still to send, once
    they are taken. *)
Lemma drain out : forall d w' hh',
  settle d = Ret (w', hh', out) -> trace d (map Transmitted out) (mkDevice hh' w' Waiting).
Proof.
  induction out as [|c out IH]; intros d w' hh' Hd.
  - destruct d as [hh w [|c rest|c rest|p]]; cbn in Hd; simplify_eq; [constructor|].
    destruct (session hh) as [s|]; [|done]. destruct (rx_resume _ s w) as [r|]; [|done]. cbn in Hd.
    by destruct (settle_answer r) as [[? ?] ?].
  - destruct (offered (point d)) as [c'|] eqn:Ho.
    2: { by destruct d as [hh w []]. }
    pose proof Hd as Hc. rewrite (settle_continue d c' Ho) in Hc.
    apply go_bind_Ret_inv in Hc as ([[w1 hh1] o1] & Hs & [= -> -> -> ->]).
    econstructor; [by apply step_tx|by apply IH].
Qed.

Lemma trace_rx_all bufs : forall hh w w' hh' sents,
  rx_all hh bufs w = Ret (w', hh', sents) ->
  exists es, trace (mkDevice hh w Waiting) es (mkDevice hh' w' Waiting) /\
    received es = bufs /\ transmitted es = sents.
Proof.
  induction bufs as [|b bufs IH]; intros hh w w' hh' sents H; simpl in H.
  { simplify_eq. exists []. by split; [constructor|]. }
  apply go_bind_Ret_inv in H as ([[[w1 hh1] s1] e] & Hr & H).
  apply go_bind_Ret_inv in H as ([[w2 hh2] s2] & Ha & H). simplify_eq.
  destruct (IH _ _ _ _ _ Ha) as (es & Ht & Hrec & Htr).
  exists (Received b :: map Transmitted s1 ++ es). split_and!.
  - econstructor; [by apply step_rx|]. eapply trace_app; [apply drain|done].
    cbn [hid world]. rewrite <- Rx_settled. unfold drop_err. by rewrite Hr.
  - rewrite received_cons, received_app, received_out. by rewrite Hrec.
  - rewrite transmitted_cons, transmitted_app, transmitted_out. by rewrite Htr.
Qed.

(** Reports a session does not accept leave the device as it is. *)
Lemma rx_all_refused h s w bufs :
  session_reach s -> ShouldReadMore s = true -> Forall (fun b => accepts s b = false) bufs ->
  rx_all (mkHid h (Some s)) bufs w
  = Ret (w, mkHid h (Some s), concat (map (fun _ => refusal s) bufs)).
Proof.
  intros Hr Hm. induction bufs as [|b bufs IH]; intros Hb; [done|].
  apply Forall_cons_iff in Hb as [Hb Hbs]. simpl.
  destruct (Rx_active h s b w Hr Hm) as [Href _]. destruct (Href Hb) as [e ->].
  by rewrite go_bind_ret, (IH Hbs).
Qed.

End rx.

(** ** [main] *)

(** The handler [main] builds: the Cosmos app around the token. *)
Definition main_handler {W T} {Tok : Token W T} {D : AddressDeps} (t : T) : Handler (Cosmos T) :=
  (Register NewHandler [mkCosmos t None false]).1.

Definition firmware_main {W T} {Tok : Token W T} {D : AddressDeps} (t : T) : hidHandler (Cosmos T) :=
  newHidHandler (main_handler t).

Lemma main_handler_ok {W T} {Tok : Token W T} {D : AddressDeps} (t : T) : handler_ok (main_handler t).
Proof. eapply (Register_ok NewHandler [mkCosmos t None false] _ None); [apply NewHandler_ok|done]. Qed.

(** ** The invariant of the device *)

Section device.
Context {W A : Type} {I : App W A} {C : CAPDUCodec}.

Definition reports_64 (fs : list (list byte)) : Prop := Forall (fun f => length f = 64%nat) fs.

(** Between two reports, and while a report is refused, a stored session lacks
    data; while a response is sent, the session that is still stored is complete.
    Chunks on their way are whole reports. *)
Definition device_ok (d : device (W := W) (A := A)) : Prop :=
  match point d with
  | Waiting => hid_ok (hid d)
  | Refusing chunk rest => hid_ok (hid d) /\ session (hid d) <> None /\ reports_64 (chunk :: rest)
  | Answering chunk rest =>
      handler_ok (ah (hid d)) /\
      (exists s, session (hid d) = Some s /\ session_reach s /\ ShouldReadMore s = false) /\ reports_64 (chunk :: rest)
  | Panicked _ => True
  end.

Context {L : AppLaws W A I}.

Lemma rx_handle_ok h s w w' hh' pt :
  handler_ok h -> session_reach s -> rx_handle h s w = Ret (w', hh', pt) -> device_ok (mkDevice hh' w' pt).
Proof.
  unfold rx_handle. intros Hh Hs. destruct (ShouldReadMore s) eqn:Hm.
  { intros [= <- <- <-]. split; cbn; [done|]. intros s' [= <-]. done. }
  intros ([[w1 h1] [[resp|] e]] & Hr & H)%go_bind_Ret_inv; apply Handle_ok in Hr; [|done|simplify_eq; by split|done].
  rewrite FormatResponse_full, go_bind_ret in H. pose proof (frames_of_64 (channelID s) resp) as H64.
  destruct (frames_of_cons (channelID s) resp) as (f & fs & E). rewrite E in H, H64. simplify_eq.
  split_and!; [done|by exists s|done].
Qed.

Lemma rx_resume_ok h s w w' hh' pt :
  handler_ok h -> session_reach s -> rx_resume h s w = Ret (w', hh', pt) -> device_ok (mkDevice hh' w' pt).
Proof.
  unfold rx_resume. intros Hh Hs. destruct (ShouldReadMore s) eqn:Hm; [|by apply rx_handle_ok].
  intros [= <- <- <-]. split; cbn; [done|]. intros s' [= <-]. done.
Qed.

Lemma rx_enter_ok hh buf w w' hh' pt :
  hid_ok hh -> rx_enter hh buf w = Ret (w', hh', pt) -> device_ok (mkDevice hh' w' pt).
Proof.
  intros [Hh Hses]. unfold rx_enter. destruct (session hh) as [s|] eqn:Es.
  - destruct (Hses s eq_refl) as [Hr Hm]. pose proof (Rx_active (ah hh) s buf w Hr Hm) as [_ Hacc].
    intros ([s' [e|]] & E & H)%go_bind_Ret_inv; (assert (Hr' : session_reach s') by (by eapply reach_read));
      [|by eapply rx_resume_ok].
    rewrite FormatResponse_full, go_bind_ret in H.
    pose proof (frames_of_64 (channelID s') (PackageResponse [] APDUCommandNotAllowed)) as H64.
    destruct (frames_of_cons (channelID s') (PackageResponse [] APDUCommandNotAllowed)) as (f & fs & Ef).
    rewrite Ef in H, H64. simplify_eq. split_and!; [|done..]. split; cbn; [done|]. intros s0 [= <-]. split; [done|].
    destruct (accepts s buf) eqn:Ha.
    + destruct (Hacc eq_refl) as (s1 & E1 & _). rewrite E in E1. by simplify_eq.
    + destruct (ReadData_refused s buf (session_reach_ok s Hr) Ha) as [e' E']. rewrite E in E'. by simplify_eq.
  - intros ([s|e] & E & H)%go_bind_Ret_inv; [|done]. eapply rx_handle_ok; [done| |done]. by eapply reach_open.
Qed.

Lemma rx_continue_ok hh pt w w' hh' pt' :
  device_ok (mkDevice hh w pt) -> rx_continue hh pt w = Ret (w', hh', pt') -> device_ok (mkDevice hh' w' pt').
Proof.
  intros Hok H. destruct pt as [|c [|c' rest]|c [|c' rest]|p]; cbn in Hok, H; simplify_eq; try done.
  - destruct Hok as ([Hh Hses] & Hs & _). destruct (session hh) as [s|]; [|done].
    eapply rx_resume_ok; [done| |done]. by apply Hses.
  - destruct Hok as (? & ? & ?%Forall_inv_tail). by split_and!.
  - destruct Hok as (? & _). by split.
  - destruct Hok as (? & ? & ?%Forall_inv_tail). by split_and!.
Qed.

(** Every move keeps the invariant, and what it puts on the wire is a report. *)
Lemma step_ok d e d' :
  device_ok d -> step d e d' -> device_ok d' /\ match e with Transmitted c => length c = 64%nat | Received _ => True end.
Proof.
  intros Hok Hs. destruct Hs as [d buf Hp|d c Ho]; destruct d as [hh w pt]; cbn [point hid world] in *.
  - subst pt. split; [|done]. destruct (rx_enter hh buf w) as [[[w' hh'] pt']|p] eqn:E; [|done]. cbn [reached]. exact (rx_enter_ok _ _ _ _ _ _ Hok E).
  - split.
    + destruct (rx_continue hh pt w) as [[[w' hh'] pt']|p] eqn:E; [|done]. cbn [reached]. exact (rx_continue_ok _ _ _ _ _ _ Hok E).
    + destruct pt; simplify_eq/=; destruct Hok as (_ & _ & Hc); by apply Forall_inv in Hc.
Qed.

End device.

Lemma firmware_main_ok {W T} {Tok : Token W T} {D : AddressDeps} (t : T) (w : W) :
  device_ok (mkDevice (firmware_main t) w Waiting).
Proof. split; [apply main_handler_ok|done]. Qed.

(** A device for the witnesses: the app that echoes its input. *)
Definition echo_hid : hidHandler (Z * list Z) := newHidHandler echo_handler.

Lemma echo_device_ok : device_ok (I := echo_app) (mkDevice echo_hid tt Waiting).
Proof. split; [exact echo_handler_ok|done]. Qed.

(** The session a message of 100 bytes leaves open after its first report. *)
Definition open_report : list byte := encode_HIDFrame (mkHIDFrame 0x0101 5 0 100 (zeros 57)).

Definition open_session : Session := mkSession 0x0101 0 (Slice (zeros 57) (zeros 7)) true 100.

Lemma open_session_reach : session_reach open_session.
Proof. apply (reach_open open_report). vm_compute. reflexivity. Qed.

(** ** Properties *)

(** C11: The device's invariant.  Along every interleaving of received and
    transmitted reports, also in the middle of a call of [Rx], the app table
    stays consistent, everything put on the wire is a 64-byte report, and a
    session that is kept between two reports is one that still lacks data: no
    message is handled twice and no complete message is left unhandled. *)
Theorem device_invariant {W A : Type} {I : App W A} {L : AppLaws W A I} {C : CAPDUCodec}
    (d : device (W := W) (A := A)) es d' :
  device_ok d -> trace d es d' ->
  device_ok d' /\ Forall (fun f => length f = 64%nat) (transmitted es).
Proof.
  intros Hok Ht. induction Ht as [d|d e d1 es d2 Hs _ IH]; [by split; [|constructor]|].
  destruct (step_ok _ _ _ Hok Hs) as [Hok1 He]. destruct (IH Hok1) as [? ?]. split; [done|].
  destruct e; [done|]. by constructor.
Qed.

Lemma device_invariant_witness :
  device_ok (I := echo_app) (mkDevice (mkHid echo_handler (Some open_session)) tt Waiting) /\
  Forall (fun f => length f = 64%nat) (transmitted [Received open_report]).
Proof.
  apply (device_invariant (I := echo_app) (L := echo_app_laws) (C := header_codec)
    (mkDevice echo_hid tt Waiting) [Received open_report]).
  - exact echo_device_ok.
  - apply (trace_cons (I := echo_app) (C := header_codec) _ _
      (mkDevice (mkHid echo_handler (Some open_session)) tt Waiting)).
    + apply (step_rx (I := echo_app) (C := header_codec) (mkDevice echo_hid tt Waiting) open_report). reflexivity.
    + apply trace_nil.
Defined.

(** C10: The endpoints, interleaved.  The goroutine that runs [Rx] stops at
    every send until [Tx] takes the chunk, in the middle of the two loops and
    with the handler and the stored session half-way.  In every execution that
    starts between two calls: if the call under way is run to its end, then the
    chunks the host got followed by those still to come, the handler and the
    world are what the calls of [Rx] on the received reports give one after the
    other, and a panic is theirs.  Conversely every such sequence of calls is
    an execution in which the host gets everything.  And nothing deadlocks: in
    every state, reachable or not, the device has panicked and does nothing more,
    or it takes the next report, or it offers a chunk that [Tx] can take; in the
    last case, if the rest of the call does not panic, transmitting the chunks
    still to come brings it back to waiting. *)
Theorem device_sequential {W A : Type} {I : App W A} {C : CAPDUCodec} (hh : hidHandler A) (w : W) :
  (forall es d, trace (mkDevice hh w Waiting) es d ->
     rx_all hh (received es) w = ('(w', hh', out) ← settle d; Ret (w', hh', transmitted es ++ out))) /\
  (forall bufs w' hh' sents, rx_all hh bufs w = Ret (w', hh', sents) ->
     exists es, trace (mkDevice hh w Waiting) es (mkDevice hh' w' Waiting) /\
       received es = bufs /\ transmitted es = sents) /\
  (forall d : device (W := W) (A := A),
     match point d with
     | Waiting => forall buf, exists d', step d (Received buf) d'
     | Panicked _ => forall e d', ~ step d e d'
     | _ => (exists c d', step d (Transmitted c) d') /\
            forall w' hh' out, settle d = Ret (w', hh', out) -> trace d (map Transmitted out) (mkDevice hh' w' Waiting)
     end).
Proof.
  split_and!.
  - intros es d. apply trace_sequential.
  - intros. by apply trace_rx_all.
  - intros d. destruct (point d) as [|c rest|c rest|p] eqn:Hp.
    + intros buf. eexists. by apply step_rx.
    + split; [|intros; by apply drain]. eexists _, _. apply step_tx. by rewrite Hp.
    + split; [|intros; by apply drain]. eexists _, _. apply step_tx. by rewrite Hp.
    + intros e d' Hs. destruct Hs as [d buf Hw|d chunk Ho]; [congruence|]. by rewrite Hp in Ho.
Qed.

(** A run in which the host takes the first chunk of a refusal, one report for
    the message it had begun. *)
Lemma device_sequential_witness :
  exists es, trace (I := echo_app) (C := header_codec) (mkDevice echo_hid tt Waiting) es
      (mkDevice (mkHid echo_handler (Some open_session)) tt Waiting) /\
    received es = [open_report; open_report] /\ transmitted es = refusal open_session.
Proof.
  apply (proj1 (proj2 (device_sequential (I := echo_app) (C := header_codec) echo_hid tt))
    [open_report; open_report] tt (mkHid echo_handler (Some open_session)) (refusal open_session)).
  vm_compute. reflexivity.
Defined.

(** C7: A message is an exchange.  On an idle device the reports a host
    makes of a message of up to 65535 bytes have one effect: the handler is
    called once, with a slice of exactly these bytes (and a backing array of at
    least 64 bytes), and its response, never missing, is sent as reports that
    the host reassembles into the response, after which the device is idle.
    The device panics exactly if the handler does. *)
Theorem message_exchange {W A : Type} {I : App W A} {C : CAPDUCodec} host message reports :
  0 < channelID host < 65536 -> Z.of_nat (s_len message) < 65536 ->
  FormatResponse host message = Ret reports ->
  exists d, s_data d = s_data message /\ (64 <= s_cap d)%nat /\
    forall (h : Handler A) (w : W),
    match Handle h d w with
    | Ret (w', h', (Some resp, _)) =>
        exists answers, rx_all (mkHid h None) reports w = Ret (w', mkHid h' None, answers) /\
          (Z.of_nat (length resp) < 65536 ->
           exists s, receive answers = Ret (Ok s) /\ s_data (session_Data s) = resp /\
             channelID s = channelID host /\ ShouldReadMore s = false)
    | Ret (_, _, (None, _)) => False
    | Panic p => rx_all (mkHid h None) reports w = Panic p
    end.
Proof.
  intros Hc Hl Hf. rewrite FormatResponse_frames in Hf. injection Hf as <-.
  destruct (rx_message (I := I) (C := C) (channelID host) (s_data message) Hc Hl)
    as (s & _ & Hd & Hcap & Hch & Hrx).
  exists (session_Data s). split_and!; [done..|]. intros h w. rewrite Hrx. unfold answer, drop_err.
  destruct (Handle h (session_Data s) w) as [[[w' h'] [[resp|] e]]|p] eqn:Eh; simpl; [| |done].
  - rewrite Hch. eexists; split; [done|]. intros Hlen.
    destruct (receive_frames_of (channelID host) resp Hc Hlen) as (s' & ? & _ & ?). by exists s'.
  - by destruct (Handle_responds _ _ _ _ _ _ _ Eh) as (? & ? & ?).
Qed.

Lemma message_exchange_witness :
  exists d, s_data d = bytes_of [85; 2; 0; 0; 0] /\ (64 <= s_cap d)%nat /\
    forall (h : Handler (Z * list Z)) (w : unit),
    match Handle (I := echo_app) (C := header_codec) h d w with
    | Ret (w', h', (Some resp, _)) =>
        exists answers, rx_all (I := echo_app) (C := header_codec) (mkHid h None)
            (frames_of 0x0101 (bytes_of [85; 2; 0; 0; 0])) w = Ret (w', mkHid h' None, answers) /\
          (Z.of_nat (length resp) < 65536 ->
           exists s, receive answers = Ret (Ok s) /\ s_data (session_Data s) = resp /\
             channelID s = 0x0101 /\ ShouldReadMore s = false)
    | Ret (_, _, (None, _)) => False
    | Panic p => rx_all (I := echo_app) (C := header_codec) (mkHid h None)
                   (frames_of 0x0101 (bytes_of [85; 2; 0; 0; 0])) w = Panic p
    end.
Proof.
  apply (message_exchange (I := echo_app) (C := header_codec) open_session
    (full (bytes_of [85; 2; 0; 0; 0])) (frames_of 0x0101 (bytes_of [85; 2; 0; 0; 0]))).
  - simpl. lia.
  - vm_compute. reflexivity.
  - vm_compute. reflexivity.
Defined.

(** C29: An unfinished message blocks the device.  While a session lacks data,
    every report it does not accept (another channel, another tag, out of
    sequence, in particular the first report of a new message) is answered with
    command-not-allowed and leaves the session open, so no sequence of such
    reports, however long, brings the device back to idle or to the app. *)
Theorem unfinished_session_blocks {W A : Type} {I : App W A} {C : CAPDUCodec}
    (h : Handler A) s (w : W) bufs :
  session_reach s -> ShouldReadMore s = true ->
  (Forall (fun b => accepts s b = false) bufs ->
     rx_all (mkHid h (Some s)) bufs w
     = Ret (w, mkHid h (Some s), concat (map (fun _ => refusal s) bufs))) /\
  (forall channel m, 0 < channel < 65536 -> lastReadFrameIndex s <> 65535 ->
     accepts s (hd [] (frames_of channel m)) = false).
Proof.
  intros Hr Hm. split; [by apply rx_all_refused|]. intros channel m Hch Hi.
  pose proof (frames_of_first_index channel m Hch) as Hix.
  unfold accepts. rewrite Hix. destruct (session_reach_ok s Hr) as [? Hl ? ? ? ? ?].
  rewrite (proj2 (Z.eqb_neq (u16 (0 - lastReadFrameIndex s)) 1)); [by rewrite ?andb_false_r|].
  unfold u16. intros E. Z.to_euclidean_division_equations. lia.
Qed.

Lemma unfinished_session_blocks_witness :
  rx_all (I := echo_app) (C := header_codec) (mkHid echo_handler (Some open_session))
    (frames_of 0x0101 (bytes_of [85; 2; 0; 0; 0])) tt
  = Ret (tt, mkHid echo_handler (Some open_session), refusal open_session).
Proof.
  destruct (unfinished_session_blocks (I := echo_app) (C := header_codec) echo_handler open_session tt
    (frames_of 0x0101 (bytes_of [85; 2; 0; 0; 0])) open_session_reach eq_refl) as [H1 H2].
  apply H1. constructor; [|constructor].
  apply (H2 0x0101 (bytes_of [85; 2; 0; 0; 0])); [lia|done].
Defined.

(** A bad first report makes [Rx] panic.  On an idle device a report
    opens a session if and only if it has 64 bytes, the Ledger tag and a
    nonzero channel; for any other report [Rx] panics. *)
Theorem first_report_panics {W A : Type} {I : App W A} {C : CAPDUCodec} (h : Handler A) buf (w : W) :
  if opens buf
  then exists s, NewSession buf = Ret (Ok s) /\
    Rx (mkHid h None) buf w =
      if ShouldReadMore s then Ret (w, mkHid h (Some s), [], None) else answer h s w
  else exists e, Rx (mkHid h None) buf w = Panic (PanicValue e).
Proof.
  pose proof (Rx_idle h buf w) as H. destruct (opens buf); [|done].
  destruct H as (s & ? & _ & ?). eauto.
Qed.
