(* ===== verification/Device.v ===== *)
(** * The device end to end

    The layers composed: USB reports, the session, the APDU handler, the
    Cosmos app and the development token, from the reports the host sends to
    the signature it reassembles. *)

From S2P Require Import Prelude GoRuntime Sha256 Crypto Usb UsbTheory JsonScan JsonGrammar Apps Cosmos CosmosTheory Firmware.

(** ** The table with one Cosmos app *)

Section table.
Context {W T : Type} {Tok : Token W T} {D : AddressDeps} {C : CAPDUCodec} {CL : CAPDULaws C}.
Implicit Types (c : Cosmos T) (d : slice) (w : W) (m : list byte).

Definition cosmos_table (c : Cosmos T) : Handler (Cosmos T) := (Register NewHandler [c]).1.

Lemma main_handler_table (t : T) : main_handler t = cosmos_table (mkCosmos t None false).
Proof. done. Qed.

Lemma cosmos_table_eq c :
  cosmos_table c = mkHandler (<[cosmos_ID := c]> ∅) (∅ ∪ list_to_set (map (pair cosmos_ID) cosmos_Commands)).
Proof. reflexivity. Qed.

Lemma cosmos_table_ok c : handler_ok (cosmos_table c).
Proof. eapply (Register_ok NewHandler [c] _ None); [apply NewHandler_ok|done]. Qed.

(** A message the APDU parser takes and whose two first bytes name the Cosmos
    app and a command. *)
Definition commands (ins : Z) (m : list byte) : Prop :=
  (exists capdu, CAPDU_Unmarshal m = Ok capdu) /\
  byte.unsigned <$> m !! 0%nat = Some cosmos_ID /\ byte.unsigned <$> m !! 1%nat = Some ins.

Lemma commands_capdu ins m :
  commands ins m -> exists capdu, CAPDU_Unmarshal m = Ok capdu /\ CLA capdu = cosmos_ID /\ INS capdu = ins.
Proof.
  intros ((capdu & Hu) & H0 & H1). exists capdu. split; [done|].
  destruct (capdu_header _ _ Hu) as (b0 & b1 & rest & -> & Hc & Hi). simplify_eq/=. by rewrite Hc, Hi.
Qed.

(** The message is for the one app of the table and names one of its commands. *)
Definition addressed (m : list byte) : bool :=
  let capdu := (UnmarshalCAPDU m).1 in
  (CLA capdu =? cosmos_ID) && bool_decide (INS capdu ∈ cosmos_Commands).

Lemma routed_table c d :
  routed (cosmos_table c) d =
    if addressed (s_data d) then Some (cosmos_ID, INS (UnmarshalCAPDU (s_data d)).1, c) else None.
Proof.
  unfold routed, addressed. rewrite cosmos_table_eq. cbn [appMap]. set (capdu := _.1).
  destruct (Z.eqb_spec (CLA capdu) cosmos_ID) as [E|E]; [|by rewrite lookup_insert_ne by done].
  by rewrite E, lookup_insert_eq.
Qed.

Lemma Handle_addressed c d w :
  addressed (s_data d) = true ->
  Handle (cosmos_table c) d w =
    ('(w', c', (resp, code, err)) ← cosmos_Handle c (INS (UnmarshalCAPDU (s_data d)).1) d w;
     Ret (w', cosmos_table c', (Some (PackageResponse resp code), err))).
Proof.
  intros Ha. pose proof (routed_table c d) as Hr. rewrite Ha in Hr.
  rewrite (Handle_routed _ d w _ _ _ (cosmos_table_ok c) Hr). cbn [app_Handle cosmos_app].
  destruct (cosmos_Handle c _ d w) as [[[w' c'] [[resp code] err]]|p]; [|done].
  rewrite !go_bind_ret, !cosmos_table_eq. cbn [appMap commandAppMap]. by rewrite insert_insert_eq.
Qed.

Lemma Handle_unaddressed c d w :
  addressed (s_data d) = false -> exists e,
    Handle (cosmos_table c) d w = Ret (w, cosmos_table c, (Some (PackageResponse [] APDUCLANotSupported), Some e)).
Proof.
  intros Ha. pose proof (routed_table c d) as Hr. rewrite Ha in Hr.
  exact (Handle_unrouted _ d w (cosmos_table_ok c) Hr).
Qed.

Lemma Handle_cosmos c d w ins :
  commands ins (s_data d) -> ins ∈ cosmos_Commands ->
  Handle (cosmos_table c) d w =
    ('(w', c', (resp, code, err)) ← cosmos_Handle c ins d w;
     Ret (w', cosmos_table c', (Some (PackageResponse resp code), err))).
Proof.
  intros (capdu & Hu & Hc & Hi)%commands_capdu Hin.
  assert (E : (UnmarshalCAPDU (s_data d)).1 = capdu) by (unfold UnmarshalCAPDU; by rewrite Hu).
  rewrite Handle_addressed, E, Hi; [done|]. unfold addressed. rewrite E, Hc, Hi, Z.eqb_refl. by rewrite bool_decide_true.
Qed.

Definition package (r : response) : list byte := PackageResponse r.1.1 r.1.2.

(** A sign command as the host sends it. *)
Definition sign_message (descr : Z) (m : list byte) : Prop :=
  commands claSignSecp256K1 m /\ (5 <= length m)%nat /\ Z.of_nat (length m) < 65536 /\
  (exists b, m !! 2%nat = Some b /\ byte.unsigned b = descr).

(** The slice the app sees for a message. *)
Definition delivered (m : list byte) (d : slice) : Prop := s_data d = m /\ (64 <= s_cap d)%nat.

Lemma delivered_sign descr m d :
  sign_message descr m -> delivered m d -> sign_sized d /\ sign_descr d = descr.
Proof.
  intros (_ & H5 & _ & b & Hb & Hd) [Hm Hc]. unfold sign_sized, sign_descr, s_len. rewrite Hm, Hb, Hd.
  split; [|done]. split; [done|]. lia.
Qed.

(** Sign messages drive the app as direct calls would. *)
Lemma rx_sign channel ms :
  0 < channel < 65536 -> Forall (fun m => exists descr, sign_message descr m) ms ->
  exists ds, Forall2 delivered ms ds /\
    forall c w, rx_all (mkHid (cosmos_table c) None) (concat (map (frames_of channel) ms)) w =
      ('(w', c', rs) ← run_sign c ds w;
       Ret (w', mkHid (cosmos_table c') None, concat (map (frames_of channel) (map package rs)))).
Proof.
  intros Hch. induction ms as [|m ms IH]; intros Hms.
  { exists []. split; [constructor|done]. }
  apply Forall_cons_iff in Hms as [(descr & Hcmd & _ & Hl & _) Hms].
  destruct (IH Hms) as (ds & Hds & Hrx).
  destruct (rx_message (I := cosmos_app) (C := C) channel m Hch Hl) as (s & _ & Hd & Hcap & Hc & Hm).
  exists (session_Data s :: ds). split; [by constructor|]. intros c w.
  cbn [map concat run_sign]. rewrite rx_all_app, Hm. unfold drop_err, answer.
  rewrite (Handle_cosmos c _ w claSignSecp256K1);
    [|by rewrite Hd|unfold cosmos_Commands; set_solver].
  destruct (cosmos_Handle c claSignSecp256K1 (session_Data s) w) as [[[w1 c1] [[resp code] e]]|p]; [|done].
  rewrite !go_bind_ret, Hrx. destruct (run_sign c1 ds w1) as [[[w2 c2] rs]|p]; [|done].
  rewrite !go_bind_ret, Hc. done.
Qed.

End table.

(** Bytes behind the path do not matter. *)
Lemma path_of_wire_prefix l1 l2 : (20 <= length l1)%nat -> path_of_wire (l1 ++ l2) = path_of_wire l1.
Proof.
  intros H. unfold path_of_wire. rewrite !drop_app_le, !take_app_le by (rewrite ?length_drop; lia). done.
Qed.

Lemma delivered_payload m d : delivered m d -> sign_payload d = drop 5 m.
Proof. intros [Hm _]. unfold sign_payload. by rewrite Hm. Qed.

Lemma delivered_payloads ms ds : Forall2 delivered ms ds -> map sign_payload ds = map (drop 5) ms.
Proof. induction 1 as [|m d ms ds Hd _ IH]; simpl; [done|]. by rewrite IH, (delivered_payload m d Hd). Qed.

(** A whole signing conversation in reports, with any token: what the token
    answers is what the last response carries, a failure included. *)
Lemma rx_conversation {W T : Type} {Tok : Token W T} {D : AddressDeps} {C : CAPDUCodec} {CL : CAPDULaws C}
    (c : Cosmos T) channel mi adds ml (w : W) :
  0 < channel < 65536 ->
  sign_message signInit mi -> (25 <= length mi)%nat ->
  Forall (sign_message signAdd) adds -> sign_message signLast ml ->
  rx_all (I := cosmos_app (Tok := Tok)) (mkHid (cosmos_table c) None)
    (concat (map (frames_of channel) (mi :: adds ++ [ml]))) w =
  ('(w', r) ← sign_at (c_Token c) (path_of_wire (drop 5 mi)) (concat (map (drop 5) adds) ++ drop 5 ml) w;
   Ret (w', mkHid (cosmos_table (mkCosmos (c_Token c) None true)) None,
       concat (map (frames_of channel)
         (PackageResponse [] APDUSuccess :: map (fun _ => PackageResponse [] APDUSuccess) adds ++ [package r])))).
Proof.
  intros Hch Hi H25 Hadds Hl.
  destruct (rx_sign (Tok := Tok) (D := D) channel (mi :: adds ++ [ml])) as (ds & Hds & Hrx); [done| |].
  { constructor; [by eexists|]. apply Forall_app. split; [|constructor; [by eexists|constructor]].
    eapply Forall_impl; [|exact Hadds]. eauto. }
  apply Forall2_cons_inv_l in Hds as (di & ds' & Hdi & Hds & ->).
  apply Forall2_app_inv_l in Hds as (dadds & dls & Hda & Hdl & ->).
  apply Forall2_cons_inv_l in Hdl as (dl & ? & Hdl & Hnil & ->). apply Forall2_nil_inv_l in Hnil as ->.
  destruct (delivered_sign _ _ _ Hi Hdi) as [Hsi Hii]. destruct (delivered_sign _ _ _ Hl Hdl) as [Hsl Hll].
  assert (Hsa : Forall (fun d => sign_sized d /\ sign_descr d = signAdd) dadds).
  { clear -Hadds Hda. induction Hda; constructor; apply Forall_cons_iff in Hadds as [? ?];
      [by eapply delivered_sign|auto]. }
  assert (Hp : path_of_wire (drop 5 (s_array di)) = path_of_wire (drop 5 mi)).
  { destruct Hdi as [Hm _]. unfold s_array. rewrite Hm, drop_app_le by lia.
    rewrite path_of_wire_prefix; [done|]. rewrite length_drop. lia. }
  rewrite Hrx, run_sign_complete by done.
  rewrite Hp, (delivered_payloads _ _ Hda), (delivered_payload _ _ Hdl).
  destruct (sign_at _ _ _ w) as [[w' r]|p]; [|done]. rewrite !go_bind_ret. simpl.
  rewrite map_app, !map_map. simpl.
  rewrite (map_ext _ (fun _ : slice => PackageResponse [] APDUSuccess)) by done.
  by rewrite !List.map_const, (Forall2_length Hda).
Qed.

(** ** Concrete messages for the witnesses *)

Definition demo_message (descr : Z) (payload : list byte) : list byte :=
  s_data (sign_command descr payload).

Lemma demo_sign_message descr payload :
  0 <= descr < 256 -> Z.of_nat (length payload) < 60000 ->
  sign_message (C := header_codec) descr (demo_message descr payload).
Proof.
  intros Hd Hl. split_and!.
  - split; [eexists; reflexivity|]. split; reflexivity.
  - unfold demo_message, sign_command; simpl. lia.
  - unfold demo_message, sign_command; simpl. lia.
  - eexists. split; [reflexivity|]. rewrite byte.unsigned_of_Z. unfold byte.wrap. by rewrite Z.mod_small.
Qed.

(** ** Properties *)

(** C1: From reports to signature.  A host that sends, on any channel and
    cut into reports, a sign-init command with a path, any number of sign-add
    commands and a sign-last command whose payloads together are a JSON text,
    gets back, as reports on the same channel, an empty success for every
    command but the last and for the last one the signature that the private
    key at the five indexes of the path gives for the SHA-256 digest of the
    text.  Afterwards the device is idle and holds no signature session. *)
Theorem signature_end_to_end {HD : HDKeychain} {L : HDKeychainLaws HD} {W : Type} {E : Entropy W}
    {D : AddressDeps} {C : CAPDUCodec} {CL : CAPDULaws C} maxAlloc (c : Cosmos dumbToken.t) channel mi adds ml (w : W)
    payload k pk sig :
  0 < channel < 65536 ->
  sign_message signInit mi -> (25 <= length mi)%nat ->
  Forall (sign_message signAdd) adds -> sign_message signLast ml ->
  payload = concat (map (drop 5) adds) ++ drop 5 ml ->
  JsonGrammar.text JsonScan.maxNestingDepth (map byte.unsigned payload) ->
  wire_key (drop 5 mi) = Some k -> ECPrivKey k = Ok pk ->
  ec_Sign pk (Sha256.Sum256 payload) = Ok sig ->
  rx_all (I := cosmos_app (Tok := dumbToken.token maxAlloc)) (mkHid (cosmos_table (Tok := dumbToken.token maxAlloc) c) None)
    (concat (map (frames_of channel) (mi :: adds ++ [ml]))) w =
  Ret (w, mkHid (cosmos_table (Tok := dumbToken.token maxAlloc) (mkCosmos (c_Token c) None true)) None,
       concat (map (frames_of channel)
         (PackageResponse [] APDUSuccess :: map (fun _ => PackageResponse [] APDUSuccess) adds
          ++ [PackageResponse (Serialize sig) APDUSuccess]))).
Proof.
  intros Hch Hi H25 Hadds Hl -> Hj%JsonGrammar.json_Valid_text Hk Hpk Hsig. rewrite rx_conversation by done.
  erewrite (sign_at_dumb maxAlloc _ _ _ w k pk); try done. rewrite key_at_wire; [done|]. rewrite length_drop. lia.
Qed.

Lemma signature_end_to_end_witness :
  rx_all (I := cosmos_app (Tok := demo_token) (D := plain_address)) (C := header_codec)
    (firmware_main (Tok := demo_token) (D := plain_address) (@dumbToken.NewDumbToken path_keychain))
    (concat (map (frames_of 0x0101)
      (demo_message 0 demo_path :: [demo_message 1 (bytes_of [123])] ++ [demo_message 2 (bytes_of [125])]))) 0%nat
  = Ret (0%nat, mkHid (cosmos_table (Tok := demo_token) (D := plain_address)
                         (mkCosmos (@dumbToken.NewDumbToken path_keychain) None true)) None,
      concat (map (frames_of 0x0101)
        (PackageResponse [] APDUSuccess :: [PackageResponse [] APDUSuccess]
         ++ [PackageResponse (flat_map (be_split 4) [2 ^ 31 + 44; 2 ^ 31 + 118; 2 ^ 31; 0; 7]
               ++ Sha256.Sum256 (bytes_of [123; 125])) APDUSuccess]))).
Proof.
  apply (signature_end_to_end (HD := path_keychain) (L := path_keychain_laws) (E := zero_entropy)
      (D := plain_address) (C := header_codec) (CL := header_codec_laws) (2 ^ 31) demo_cosmos 0x0101 (demo_message 0 demo_path)
      [demo_message 1 (bytes_of [123])] (demo_message 2 (bytes_of [125])) 0%nat (bytes_of [123; 125])
      [2 ^ 31 + 44; 2 ^ 31 + 118; 2 ^ 31; 0; 7] [2 ^ 31 + 44; 2 ^ 31 + 118; 2 ^ 31; 0; 7]
      ([2 ^ 31 + 44; 2 ^ 31 + 118; 2 ^ 31; 0; 7], Sha256.Sum256 (bytes_of [123; 125]))).
  - lia.
  - apply demo_sign_message; vm_compute; split; congruence.
  - vm_compute. lia.
  - constructor; [apply demo_sign_message; [lia|vm_compute; reflexivity]|constructor].
  - apply demo_sign_message; [lia|vm_compute; reflexivity].
  - vm_compute. reflexivity.
  - apply JsonGrammar.json_Valid_text. vm_compute. reflexivity.
  - vm_compute. reflexivity.
  - vm_compute. reflexivity.
  - vm_compute. reflexivity.
Defined.
