(* ===== verification/Robust.v ===== *)
(** * When the device panics

    The layers composed once more: with a token that never panics, as the
    development token, a report makes the firmware panic in exactly two cases,
    and both can be told from the report and the open session. *)

From S2P Require Import Prelude GoRuntime Sha256 Crypto Usb UsbTheory JsonScan Apps Cosmos CosmosTheory Firmware Device.

(** ** The two cases *)

(** The session a report completes. *)
Definition completed (o : option Session) (buf : list byte) : option Session :=
  match (match o with
         | None => NewSession buf
         | Some s => '(s, err) ← ReadData s buf; Ret (match err with None => Ok s | Some e => Err e end)
         end) with
  | Ret (Ok s) => if ShouldReadMore s then None else Some s
  | _ => None
  end.

(** The message is an address command for the Cosmos app. *)
Definition asks_address {C : CAPDUCodec} (d : slice) : bool :=
  let capdu := (UnmarshalCAPDU (s_data d)).1 in
  (CLA capdu =? cosmos_ID) && (INS capdu =? claGetAddrSecp256K1).

(** Its header is valid, but prefix and path run past the backing array. *)
Definition overruns (d : slice) : bool :=
  match read_getAddressRequest (s_data d) with
  | Ok req => bool_decide (getAddressRequest_validate req = None)
              && bool_decide (s_cap d < 26 + Z.to_nat (HRPLength req))%nat
  | Err _ => false
  end.

(** The first report of a message is malformed, or a message is complete and
    is such a command. *)
Definition fatal {C : CAPDUCodec} (o : option Session) (buf : list byte) : bool :=
  (bool_decide (o = None) && negb (opens buf)) ||
  match completed o buf with
  | Some s => asks_address (session_Data s) && overruns (session_Data s)
  | None => false
  end.

(** ** Tokens that never panic *)

Definition steady {W T} {Tok : Token W T} (tok : T) : Prop :=
  forall path w, exists w1 t err, Initialize (Clone tok) path w = Ret (w1, t, err) /\
    (err = None -> forall data a w2, panics (Sign t data a w2) = false /\ panics (PublicKey t w2) = false).

Lemma dumbToken_steady {HD : HDKeychain} {W : Type} {E : Entropy W} maxAlloc (dt : dumbToken.t) :
  steady (Tok := dumbToken.token (W := W) maxAlloc) dt.
Proof.
  intros path w. cbn [Initialize Clone dumbToken.token]. unfold dumbToken.Initialize. simpl.
  destruct (NewMaster _ _) as [master|e]; simpl; [|by eexists _, _, _].
  destruct (KeyFromPath master path) as [k|e]; simpl; [|by eexists _, _, _].
  eexists _, _, _. split; [done|]. intros _ data a w2. cbn. unfold dumbToken.Sign, dumbToken.PublicKey. simpl.
  split; repeat case_match; simplify_eq; done.
Qed.

Section cosmos.
Context {W T : Type} {Tok : Token W T} {D : AddressDeps} {C : CAPDUCodec}.
Implicit Types (c : Cosmos T) (d : slice) (w : W).

Lemma panics_bind {A B} (x : go A) (f : A -> go B) :
  (forall a, panics (f a) = false) -> panics (x ≫= f) = panics x.
Proof. intros Hf. destruct x as [a|p]; [apply Hf|done]. Qed.

Lemma sign_at_calm tok path payload w : steady tok -> panics (sign_at tok path payload w) = false.
Proof.
  intros Hs. unfold sign_at. destruct (Hs path w) as (w1 & t & err & -> & Hop). rewrite go_bind_ret.
  destruct err as [e|]; [done|]. destruct (JsonScan.json_Valid payload); [|done].
  rewrite panics_bind; [by apply Hop|]. by intros [w2 []].
Qed.

Lemma address_at_calm tok path hrp w : steady tok -> panics (address_at tok path hrp w) = false.
Proof.
  intros Hs. unfold address_at. destruct (Hs path w) as (w1 & t & err & -> & Hop). rewrite go_bind_ret.
  destruct err as [e|]; [done|]. rewrite panics_bind; [by apply (Hop eq_refl [] 0)|].
  intros [w2 [pk|e]]; [|done]. by destruct (addressFromPubkey pk hrp).
Qed.

Lemma sign_calm c d w :
  steady (c_Token c) -> sign_sized d -> panics (handleSignSecp256K1 c d w) = false.
Proof.
  intros Ht Hs. pose proof (handleSign_step c d w Hs) as Hstep.
  destruct (SigSpec.step _ _) as [st [| |path payload]].
  - by destruct Hstep as (c' & -> & _).
  - by destruct Hstep as (_ & e & ->).
  - destruct Hstep as [_ ->]. rewrite panics_bind; [by apply sign_at_calm|]. by intros [? ?].
Qed.

Lemma address_panics c d w :
  steady (c_Token c) -> panics (handleGetAddrSecp256K1 c d w) = overruns d.
Proof.
  intros Ht. unfold overruns. destruct (read_getAddressRequest (s_data d)) as [req|e] eqn:Hr.
  2: { unfold handleGetAddrSecp256K1. by rewrite Hr. }
  destruct (getAddressRequest_validate req) as [e|] eqn:Hv.
  { unfold handleGetAddrSecp256K1. by rewrite Hr, Hv. }
  rewrite (handleGetAddr_valid c d w req Hr Hv). rewrite (bool_decide_true (None = None)) by done. cbn [andb].
  case_bool_decide; [rewrite bool_decide_false by lia|by rewrite bool_decide_true by lia].
  rewrite panics_bind; [by apply address_at_calm|]. by intros [? ?].
Qed.

(** A command of the app, on a message as sessions deliver them. *)
Lemma cosmos_panics c cmd d w :
  steady (c_Token c) -> (64 <= s_cap d)%nat ->
  panics (cosmos_Handle c cmd d w) = (cmd =? claGetAddrSecp256K1) && overruns d.
Proof.
  intros Ht Hc. unfold cosmos_Handle, minDataLen. case_bool_decide as Hl.
  - rewrite andb_comm. unfold overruns. destruct (read_getAddressRequest (s_data d)) as [req|e] eqn:Hr; [|done].
    exfalso. unfold read_getAddressRequest, read_full in Hr. unfold s_len in Hl.
    rewrite (bool_decide_false (6 <= length (s_data d))%nat) in Hr by lia. by destruct (_ && _).
  - assert (Hi : steady (c_Token (initLog c))) by (by rewrite initLog_Token).
    destruct (Z.eqb_spec cmd claGetVersion) as [->|Hv]; [done|].
    destruct (Z.eqb_spec cmd claSignSecp256K1) as [->|Hs].
    { rewrite sign_calm; [done..|]. split; lia. }
    destruct (Z.eqb_spec cmd claGetAddrSecp256K1) as [->|Ha]; [by apply address_panics|done].
Qed.

Lemma Handle_panics c d w :
  steady (c_Token c) -> (64 <= s_cap d)%nat ->
  panics (Handle (cosmos_table c) d w) = asks_address d && overruns d.
Proof.
  intros Ht Hc. unfold asks_address. destruct (addressed (s_data d)) eqn:Ha.
  - rewrite Handle_addressed, panics_bind by (try done; by intros [[w' c'] [[resp code] err]]).
    unfold addressed in Ha. apply andb_true_iff in Ha as [-> _]. by apply cosmos_panics.
  - destruct (Handle_unaddressed c d w Ha) as [e ->]. unfold addressed in Ha. set (capdu := _.1) in *.
    destruct (CLA capdu =? cosmos_ID); [|done]. apply bool_decide_eq_false in Ha.
    destruct (Z.eqb_spec (INS capdu) claGetAddrSecp256K1) as [Ei|]; [|done].
    exfalso. apply Ha. rewrite Ei. by repeat constructor.
Qed.

(** The table keeps its one app, and the app its token. *)
Lemma Handle_table c d w w' h' r :
  Handle (cosmos_table c) d w = Ret (w', h', r) -> exists c', h' = cosmos_table c' /\ c_Token c' = c_Token c.
Proof.
  destruct (addressed (s_data d)) eqn:Ha.
  - rewrite Handle_addressed by done.
    intros ([[w1 c1] [[resp code] err]] & Hh & [= <- <- <-])%go_bind_Ret_inv. exists c1.
    by apply cosmos_Handle_isolation in Hh as (? & _).
  - destruct (Handle_unaddressed c d w Ha) as [e ->]. intros [= <- <- <-]. by exists c.
Qed.

Lemma answer_panics c s w :
  steady (c_Token c) -> session_reach s ->
  match answer (cosmos_table c) s w with
  | Panic _ => asks_address (session_Data s) && overruns (session_Data s) = true
  | Ret (_, hh, _, _) => asks_address (session_Data s) && overruns (session_Data s) = false /\
      exists c', hh = mkHid (cosmos_table c') None /\ c_Token c' = c_Token c
  end.
Proof.
  intros Ht Hs. pose proof (ok_cap s (session_reach_ok s Hs)) as Hc.
  rewrite <- (Handle_panics c (session_Data s) w Ht Hc). unfold answer.
  destruct (Handle (cosmos_table c) (session_Data s) w) as [[[w' h'] [resp e]]|p] eqn:Hh; [|done]. cbn.
  split; [done|]. apply Handle_table in Hh as (c' & -> & ?). by exists c'.
Qed.

(** What a session that took a report leads to. *)
Definition done_if (s : Session) : bool :=
  if ShouldReadMore s then false else asks_address (session_Data s) && overruns (session_Data s).

Lemma step_outcome c s w :
  steady (c_Token c) -> session_reach s ->
  match (if ShouldReadMore s then Ret (w, mkHid (cosmos_table c) (Some s), [], None) else answer (cosmos_table c) s w) with
  | Panic _ => done_if s = true
  | Ret (_, hh, _, _) => done_if s = false /\
      exists c' o', hh = mkHid (cosmos_table c') o' /\ c_Token c' = c_Token c /\ hid_ok hh
  end.
Proof.
  intros Ht Hs. unfold done_if. destruct (ShouldReadMore s) eqn:Hm.
  - split; [done|]. exists c, (Some s). split_and!; [done..|]. split; [apply cosmos_table_ok|]. intros s' [= <-]. done.
  - pose proof (answer_panics c s w Ht Hs) as Ha. destruct (answer _ s w) as [[[[w' hh] sent] err]|p]; [|done].
    destruct Ha as (Ha & c' & -> & Hc). split; [done|]. exists c', None. split_and!; [done..|].
    split; [apply cosmos_table_ok|done].
Qed.

End cosmos.

(** ** Properties *)

(** C14: When the device panics.  Let the token never panic once it is
    initialised, as the development token.  In every state the device can be
    in, a report makes [Rx] panic if and only if it is [fatal]: no session is
    open and the report cannot open one (wrong size, tag or channel), or it
    completes a message that is an address command whose valid header announces
    a prefix that, with the path, runs past the message's backing array.  After
    any other report the device is in such a state again, with the same
    token. *)
Theorem device_panics {W T : Type} {Tok : Token W T} {D : AddressDeps} {C : CAPDUCodec}
    (c : Cosmos T) o buf (w : W) :
  steady (c_Token c) -> hid_ok (mkHid (cosmos_table c) o) ->
  match Rx (mkHid (cosmos_table c) o) buf w with
  | Panic _ => fatal o buf = true
  | Ret (_, hh, _, _) => fatal o buf = false /\
      exists c' o', hh = mkHid (cosmos_table c') o' /\ c_Token c' = c_Token c /\ hid_ok hh
  end.
Proof.
  intros Ht Hok. unfold fatal, completed.
  assert (Hd : forall s, done_if s = match (if ShouldReadMore s then None else Some s) with
    | Some s => asks_address (session_Data s) && overruns (session_Data s) | None => false end)
    by (intros s; unfold done_if; by destruct (ShouldReadMore s)).
  destruct o as [s|].
  - destruct (hid_session _ Hok s eq_refl) as [Hr Hm]. destruct (Rx_active (cosmos_table c) s buf w Hr Hm) as [Href Hacc].
    rewrite (bool_decide_false (Some s = None)) by done. cbn [andb orb]. destruct (accepts s buf) eqn:Ha.
    + destruct (Hacc eq_refl) as (s' & -> & Hr' & _ & ->). cbn. rewrite <- Hd. by apply step_outcome.
    + destruct (ReadData_refused s buf (session_reach_ok s Hr) Ha) as [e He]. rewrite He.
      destruct (Href eq_refl) as [e' ->]. cbn. split; [done|]. by exists c, (Some s).
  - rewrite (bool_decide_true (None = None)) by done. cbn [andb].
    pose proof (Rx_idle (cosmos_table c) buf w) as Hi. destruct (opens buf); cbn [negb orb].
    + destruct Hi as (s & -> & Hr & ->). rewrite <- Hd. by apply step_outcome.
    + by destruct Hi as [e ->].
Qed.

(** A host that asks for an address with a prefix of 40 bytes in a message of
    6: the bytes behind the message end before prefix and path do. *)
Definition long_prefix : list byte := hd [] (frames_of 0x0101 (bytes_of [85; 4; 0; 0; 5; 40])).

Lemma device_panics_witness :
  fatal (C := header_codec) None long_prefix = true /\
  panics (Rx (I := cosmos_app (Tok := demo_token) (D := plain_address)) (C := header_codec)
    (mkHid (cosmos_table (Tok := demo_token) (D := plain_address) demo_cosmos) None) long_prefix 0%nat) = true.
Proof.
  assert (Hf : fatal (C := header_codec) None long_prefix = true) by (vm_compute; reflexivity).
  assert (Hok : hid_ok (I := cosmos_app (Tok := demo_token) (D := plain_address))
    (mkHid (cosmos_table (Tok := demo_token) (D := plain_address) demo_cosmos) None)).
  { split; [apply cosmos_table_ok|discriminate]. }
  split; [exact Hf|].
  pose proof (device_panics (Tok := demo_token) (D := plain_address) (C := header_codec) demo_cosmos None long_prefix 0%nat
    (dumbToken_steady (HD := path_keychain) (E := zero_entropy) (2 ^ 31) (c_Token demo_cosmos))
    Hok) as Hp.
  destruct (Rx _ long_prefix 0%nat) as [[[[w hh] sent] err]|p]; [|reflexivity].
  destruct Hp as [Hp _]. rewrite Hf in Hp. discriminate Hp.
Defined.
