(* ===== verification/LinuxSetup.v ===== *)
(** * Start-up of the Linux gadget

    [src/cmd/wallera-linux]: the command line ([cliArgs] of [main.go], with
    the parser of package [flag]), the set-up of the USB gadget
    ([gadget-hid.c] and its Go side [gadget_hid.go]), and [main] up to its
    loops.  libusbgx and the operating system are parameters. *)

From Stdlib Require Import Ascii.
From S2P Require Import Prelude GoRuntime Crypto Usb Firmware.

Module LinuxSetup.

(** ** The command line *)

Record args := mkArgs {
  hidg : string;
  configfsPath : string;
  mustClean : bool;
  mustSetupHidg : bool
}.

Definition default_args : args := mkArgs "/dev/hidg0" "/sys/kernel/config" false false.

(** A flag and the variable it sets. *)
Inductive flag_var :=
| BoolVar (set : bool -> args -> args)
| StringVar (set : string -> args -> args).

(** The flags that [cliArgs] defines. *)
Definition flags (name : string) : option flag_var :=
  if String.eqb name "hidg" then
    Some (StringVar (fun v a => mkArgs v (configfsPath a) (mustClean a) (mustSetupHidg a)))
  else if String.eqb name "configfs-path" then
    Some (StringVar (fun v a => mkArgs (hidg a) v (mustClean a) (mustSetupHidg a)))
  else if String.eqb name "clean" then
    Some (BoolVar (fun v a => mkArgs (hidg a) (configfsPath a) v (mustSetupHidg a)))
  else if String.eqb name "setup" then
    Some (BoolVar (fun v a => mkArgs (hidg a) (configfsPath a) (mustClean a) v))
  else None.

(** [strconv.ParseBool] *)
Definition ParseBool (s : string) : option bool :=
  if existsb (String.eqb s) ["1"; "t"; "T"; "TRUE"; "true"; "True"] then Some true
  else if existsb (String.eqb s) ["0"; "f"; "F"; "FALSE"; "false"; "False"] then Some false
  else None.

(** An argument as [flag] reads it: no flag, the end of the flags ([--]), a
    malformed flag, or a name with perhaps a value behind [=]. *)
Inductive argument :=
| NotFlag
| Terminator
| BadSyntax
| Flag (name : string) (value : option string).

(** The name up to the first [=], which cannot be its first character. *)
Fixpoint cut_equals (s : string) : string * option string :=
  match s with
  | EmptyString => (EmptyString, None)
  | String c s' =>
      if Ascii.eqb c "="%char then (EmptyString, Some s')
      else let '(name, value) := cut_equals s' in (String c name, value)
  end.

Definition named (name : string) : argument :=
  match name with
  | EmptyString => BadSyntax
  | String c s =>
      if Ascii.eqb c "-"%char || Ascii.eqb c "="%char then BadSyntax
      else let '(n, value) := cut_equals s in Flag (String c n) value
  end.

Definition read_argument (s : string) : argument :=
  match s with
  | String c (String c' s' as name) =>
      if negb (Ascii.eqb c "-"%char) then NotFlag
      else if Ascii.eqb c' "-"%char then (if String.eqb s' "" then Terminator else named s')
      else named name
  | _ => NotFlag
  end.

(** What [flag.Parse] leads to: the variables and the arguments that are left,
    or the exit of the program with its code. *)
Inductive parsed :=
| Parsed (a : args) (rest : list string)
| Exit (code : Z).

Fixpoint flag_Parse (a : args) (argv : list string) : parsed :=
  match argv with
  | [] => Parsed a []
  | s :: rest =>
      match read_argument s with
      | NotFlag => Parsed a argv
      | Terminator => Parsed a rest
      | BadSyntax => Exit 2
      | Flag name value =>
          match flags name with
          | None => if String.eqb name "help" || String.eqb name "h" then Exit 0 else Exit 2
          | Some (BoolVar set) =>
              match ParseBool (default "true" value) with
              | Some v => flag_Parse (set v a) rest
              | None => Exit 2
              end
          | Some (StringVar set) =>
              match value with
              | Some v => flag_Parse (set v a) rest
              | None =>
                  match rest with
                  | [] => Exit 2
                  | v :: rest => flag_Parse (set v a) rest
                  end
              end
          end
      end
  end.

Definition cliArgs (argv : list string) : parsed := flag_Parse default_args argv.

(** ** The gadget: [gadget-hid.c], [gadget-hid.h] *)

Record usbg_gadget_attrs := mkGadgetAttrs {
  bcdUSB : Z; bDeviceClass : Z; bDeviceSubClass : Z; bDeviceProtocol : Z; bMaxPacketSize0 : Z;
  idVendor : Z; idProduct : Z; bcdDevice : Z
}.

Record usbg_gadget_strs := mkGadgetStrs { serial : string; manufacturer : string; product : string }.

Record usbg_f_hid_attrs := mkHidAttrs {
  protocol : Z; report_desc : list byte; report_desc_len : Z; report_length : Z; subclass : Z
}.

(** libusbgx on the state [W] of configfs: result codes, and handles that mean
    something when the code is [USBG_SUCCESS].  [usbg_gadgets] lists the gadgets
    that [usbg_get_first_gadget] and [usbg_get_next_gadget] walk; the next one is
    asked for before a gadget is removed. *)
Class Usbgx (W : Type) := {
  usbg_state : Type;
  usbg_gadget : Type;
  usbg_function : Type;
  usbg_config : Type;
  USB_CLASS_PER_INTERFACE : Z;
  USBG_F_HID : Z;
  usbg_init : string -> W -> W * Z * usbg_state;
  usbg_create_gadget : usbg_state -> string -> usbg_gadget_attrs -> usbg_gadget_strs -> W -> W * Z * usbg_gadget;
  usbg_create_function : usbg_gadget -> Z -> string -> usbg_f_hid_attrs -> W -> W * Z * usbg_function;
  usbg_create_config : usbg_gadget -> Z -> string -> string -> W -> W * Z * usbg_config;
  usbg_add_config_function : usbg_config -> string -> usbg_function -> W -> W * Z;
  usbg_enable_gadget : usbg_gadget -> W -> W * Z;
  usbg_cleanup : usbg_state -> W -> W;
  usbg_gadgets : usbg_state -> W -> list usbg_gadget;
  usbg_get_gadget_attrs : usbg_gadget -> W -> Z * usbg_gadget_attrs;
  usbg_get_gadget_udc : usbg_gadget -> W -> bool;
  usbg_disable_gadget : usbg_gadget -> W -> W * Z;
  usbg_rm_gadget : usbg_gadget -> W -> W * Z;
  usbg_error_name : Z -> string;
  usbg_strerror : Z -> string
}.

Class LinuxOS (W : Type) := {
  os_Stat : string -> W -> option error;
  os_OpenFile : string -> W -> W * option error
}.

Definition USBG_SUCCESS : Z := 0.
Definition EINVAL : Z := 22.
Definition VENDOR : Z := 0x2c97.
Definition PRODUCT : Z := 0x4011.
Definition os_ErrNotExist : error := Sentinel "file does not exist".

(** A call and what follows it; [goto] the label where it fails. *)
Definition or_out {W X B} (x : W * Z * X) (out : W -> B) (next : W -> X -> B) : B :=
  let '(w, r, a) := x in if negb (r =? USBG_SUCCESS) then out w else next w a.

Definition no_handle {W} (x : W * Z) : W * Z * unit := (x.1, x.2, tt).

Section gadget.
Context {W : Type} {U : Usbgx W} {O : LinuxOS W}.

Definition g_attrs : usbg_gadget_attrs :=
  mkGadgetAttrs 0x0210 USB_CLASS_PER_INTERFACE 0x00 0x00 64 VENDOR PRODUCT 0x0001.

(** From [usbg_create_gadget] to [out2]: the world and [ret]. *)
Definition create_hidg (s : usbg_state) (strs : usbg_gadget_strs) (f_attrs : usbg_f_hid_attrs) (w : W) : W * Z :=
  let out2 w := (w, - EINVAL) in
  or_out (usbg_create_gadget s "g1" g_attrs strs w) out2 (fun w g =>
  or_out (usbg_create_function g USBG_F_HID "usb0" f_attrs w) out2 (fun w f_hid =>
  or_out (usbg_create_config g 1 "fidati-linux" "1xHID" w) out2 (fun w c =>
  or_out (no_handle (usbg_add_config_function c "u2fhid" f_hid w)) out2 (fun w _ =>
  or_out (no_handle (usbg_enable_gadget g w)) out2 (fun w _ => (w, 0)))))).

Definition configure_hidg (serial manufacturer product configfs_path : string) (report_descriptor : list byte)
    (report_descriptor_len : Z) (w : W) : W * Z :=
  or_out (usbg_init configfs_path w) (fun w => (w, - EINVAL)) (fun w s =>
    let '(w, ret) := create_hidg s (mkGadgetStrs serial manufacturer product)
                       (mkHidAttrs 0x21 report_descriptor report_descriptor_len 64 0) w in
    (usbg_cleanup s w, ret)).

Definition remove_gadget (g : usbg_gadget) (w : W) : W * Z :=
  if usbg_get_gadget_udc g w then
    let '(w, usbg_ret) := usbg_disable_gadget g w in
    if negb (usbg_ret =? USBG_SUCCESS) then (w, usbg_ret) else usbg_rm_gadget g w
  else usbg_rm_gadget g w.

(** The [while] loop of [cleanup_usbg]; it ends early where a call fails. *)
Fixpoint cleanup_loop (gs : list usbg_gadget) (w : W) : W :=
  match gs with
  | [] => w
  | g :: rest =>
      let '(r, attrs) := usbg_get_gadget_attrs g w in
      if negb (r =? USBG_SUCCESS) then w
      else if (idVendor attrs =? VENDOR) && (idProduct attrs =? PRODUCT) then
        let '(w, r) := remove_gadget g w in
        if negb (r =? USBG_SUCCESS) then w else cleanup_loop rest w
      else cleanup_loop rest w
  end.

(** It returns [-EINVAL] whatever happens. *)
Definition cleanup_usbg (configfs_path : string) (w : W) : W * Z :=
  or_out (usbg_init configfs_path w) (fun w => (w, - EINVAL)) (fun w s =>
    (usbg_cleanup s (cleanup_loop (usbg_gadgets s w) w), - EINVAL)).

(** ** The Go side: [gadget_hid.go] *)

Definition gadget_error (res : Z) : error :=
  Errorf ("libusbgx failure, " +:+ usbg_error_name res +:+ ": " +:+ usbg_strerror res) [].

Definition configureHidg (configfsPath : string) (w : W) : W * option error :=
  let '(w, res) := configure_hidg "0001" "Ledger" "Nano X" configfsPath LedgerNanoXReport
                     (Z.of_nat (length LedgerNanoXReport)) w in
  (w, if negb (res =? USBG_SUCCESS) then Some (gadget_error res) else None).

Definition cleanupHidg (configfsPath : string) (w : W) : W * option error :=
  ((cleanup_usbg configfsPath w).1, None).

(** ** [main] up to its loops *)

Definition hidgExists (path : string) (w : W) : bool :=
  match os_Stat path w with
  | None => true
  | Some e => negb (errors_Is e os_ErrNotExist)
  end.

Inductive action := Cleaned | Configured | Opened | Polling.

Definition main (a : args) (w : W) : go (W * list action) :=
  if mustClean a then
    let '(w, err) := cleanupHidg (configfsPath a) w in
    _ ← notErr err; Ret (w, [Cleaned])
  else
    let shouldSetupHidg := negb (hidgExists (hidg a) w) || mustClean a in
    '(w, done) ← (if shouldSetupHidg
                  then let '(w, err) := configureHidg (configfsPath a) w in
                       _ ← notErr err; Ret (w, [Configured])
                  else Ret (w, []));
    if mustSetupHidg a then Ret (w, done)
    else let '(w, err) := os_OpenFile (hidg a) w in
         _ ← notErr err; Ret (w, done ++ [Opened; Polling]).

(** The program from its command line: its loops start with these arguments,
    it returns, exits with a code, or panics. *)
Definition program (argv : list string) (w : W) : go (W * (list action + Z)) :=
  match cliArgs argv with
  | Exit code => Ret (w, inr code)
  | Parsed a _ => '(w, acts) ← main a w; Ret (w, inl acts)
  end.

End gadget.

(** A call failed: the ones behind it were not made. *)
Ltac skipped :=
  intros [= <- <-]; right; split; [done|]; intros (? & ? & ? & ? & ? & ? & ? & ? & ? & ? & ? & ?); congruence.

(** The five calls behind [usbg_init]: all succeed, or the rest is skipped. *)
Lemma create_hidg_calls {W} {U : Usbgx W} s strs f_attrs (w w' : W) ret :
  create_hidg s strs f_attrs w = (w', ret) ->
  let calls := exists w3 g w4 f w5 c w6,
    usbg_create_gadget s "g1" g_attrs strs w = (w3, USBG_SUCCESS, g) /\
    usbg_create_function g USBG_F_HID "usb0" f_attrs w3 = (w4, USBG_SUCCESS, f) /\
    usbg_create_config g 1 "fidati-linux" "1xHID" w4 = (w5, USBG_SUCCESS, c) /\
    usbg_add_config_function c "u2fhid" f w5 = (w6, USBG_SUCCESS) /\
    usbg_enable_gadget g w6 = (w', USBG_SUCCESS) in
  ret = 0 /\ calls \/ ret = - EINVAL /\ ~ calls.
Proof.
  unfold create_hidg, or_out, no_handle.
  destruct (usbg_create_gadget _ _ _ _ w) as [[w3 r3] g] eqn:E3.
  destruct (Z.eqb_spec r3 USBG_SUCCESS) as [->|H3]; cbn [negb]; [|skipped].
  destruct (usbg_create_function _ _ _ _ w3) as [[w4 r4] f] eqn:E4.
  destruct (Z.eqb_spec r4 USBG_SUCCESS) as [->|H4]; cbn [negb]; [|skipped].
  destruct (usbg_create_config _ _ _ _ w4) as [[w5 r5] c] eqn:E5.
  destruct (Z.eqb_spec r5 USBG_SUCCESS) as [->|H5]; cbn [negb]; [|skipped].
  destruct (usbg_add_config_function _ _ _ w5) as [w6 r6] eqn:E6. cbn [fst snd].
  destruct (Z.eqb_spec r6 USBG_SUCCESS) as [->|H6]; cbn [negb]; [|skipped].
  destruct (usbg_enable_gadget _ w6) as [w7 r7] eqn:E7. cbn [fst snd].
  destruct (Z.eqb_spec r7 USBG_SUCCESS) as [->|H7]; cbn [negb]; [|skipped].
  intros [= <- <-]. left. split; [done|]. by exists w3, g, w4, f, w5, c, w6.
Qed.

(** ** Concrete instances for the witnesses *)

(** A configfs as the list of the gadgets in it and whether each is enabled. *)
Definition plain_usbgx : Usbgx (list (Z * Z * bool)) := {|
  usbg_state := unit; usbg_gadget := nat; usbg_function := unit; usbg_config := unit;
  USB_CLASS_PER_INTERFACE := 0; USBG_F_HID := 13;
  usbg_init := fun _ w => (w, 0, tt);
  usbg_create_gadget := fun _ _ at_ _ w => (w ++ [(idVendor at_, idProduct at_, false)], 0, length w);
  usbg_create_function := fun _ _ _ _ w => (w, 0, tt);
  usbg_create_config := fun _ _ _ _ w => (w, 0, tt);
  usbg_add_config_function := fun _ _ _ w => (w, 0);
  usbg_enable_gadget := fun g w => if bool_decide (length w = 1%nat) then (w, 0) else (w, -8);
  usbg_cleanup := fun _ w => w;
  usbg_gadgets := fun _ w => seq 0 (length w);
  usbg_get_gadget_attrs := fun g w =>
    let '(v, p, _) := nth g w (0, 0, false) in (0, mkGadgetAttrs 0 0 0 0 64 v p 0);
  usbg_get_gadget_udc := fun g w => (nth g w (0, 0, false)).2;
  usbg_disable_gadget := fun _ w => (w, 0);
  usbg_rm_gadget := fun _ w => (w, 0);
  usbg_error_name := fun r => if r =? -8 then "USBG_ERROR_BUSY" else "UNKNOWN";
  usbg_strerror := fun r => if r =? -8 then "Busy" else "Unknown error"
|}.

(** A system without the node, which can open every file. *)
Definition fresh_os {W} : LinuxOS W := {|
  os_Stat := fun p _ => Some (Wrapf "stat %s: %w" [] os_ErrNotExist);
  os_OpenFile := fun _ w => (w, None)
|}.

(** ** Properties *)

(** The words of a command line that asks for [a], in the forms that [flag]
    knows: a value as the next word or behind [=], one dash or two. *)
Definition command_line (a : args) : list string :=
  ["-hidg"; hidg a; "--configfs-path=" +:+ configfsPath a] ++
  (if mustClean a then ["-clean"] else ["--clean=F"]) ++ (if mustSetupHidg a then ["--setup=1"] else []).

(** The command line.  Whatever paths the arguments hold, also ones that
    begin with a dash or contain [=], parsing a command line that asks for them
    gives them back, and what follows the end of the flags is left alone.  A later
    flag overrides an earlier one. *)
Theorem cliArgs_roundtrip (a b : args) rest :
  cliArgs (command_line a ++ "--" :: rest) = Parsed a rest /\
  cliArgs (command_line b ++ command_line a ++ ["-setup=" +:+ (if mustSetupHidg a then "true" else "false")]) = Parsed a [].
Proof. destruct a as [h p [] []], b as [h' p' [] []]; split; reflexivity. Qed.

(** C34: How setting up the gadget fails.  [configureHidg] succeeds exactly if
    libusbgx could be initialised and each of its five calls after that returned
    success; whichever call fails and with whatever code, the error that is
    reported is the one that libusbgx's texts give for -22, the C library's
    [-EINVAL], and not for the code of the call; and once libusbgx is initialised
    its clean-up is the last call, also on failure. *)
Theorem configureHidg_error {W : Type} {U : Usbgx W} path (w w1 : W) r s :
  usbg_init path w = (w1, r, s) ->
  let '(w', err) := configureHidg path w in
  (err = None \/ err = Some (gadget_error (-22))) /\
  (err = None -> r = USBG_SUCCESS) /\
  (r <> USBG_SUCCESS -> w' = w1) /\
  (r = USBG_SUCCESS -> exists w2, w' = usbg_cleanup s w2 /\
     (err = None <-> exists w3 g w4 f w5 c w6,
        let strs := mkGadgetStrs "0001" "Ledger" "Nano X" in
        let hid := mkHidAttrs 0x21 LedgerNanoXReport (Z.of_nat (length LedgerNanoXReport)) 64 0 in
        usbg_create_gadget s "g1" g_attrs strs w1 = (w3, USBG_SUCCESS, g) /\
        usbg_create_function g USBG_F_HID "usb0" hid w3 = (w4, USBG_SUCCESS, f) /\
        usbg_create_config g 1 "fidati-linux" "1xHID" w4 = (w5, USBG_SUCCESS, c) /\
        usbg_add_config_function c "u2fhid" f w5 = (w6, USBG_SUCCESS) /\
        usbg_enable_gadget g w6 = (w2, USBG_SUCCESS))).
Proof.
  intros Hi. unfold configureHidg, configure_hidg, or_out at 1. rewrite Hi.
  destruct (Z.eqb_spec r USBG_SUCCESS) as [->|Hr]; cbn [negb].
  2: { change (- EINVAL =? USBG_SUCCESS) with false. cbn [negb]. split_and!; [by right|done|done|done]. }
  destruct (create_hidg s _ _ w1) as [w2 ret] eqn:E.
  destruct (create_hidg_calls _ _ _ _ _ _ E) as [(-> & Hc)|(-> & Hc)]; cbn.
  - split_and!; [by left|done|done|]. intros _. exists w2. done.
  - split_and!; [by right|done|done|]. intros _. exists w2. split; [done|]. split; [done|].
    intros H. by destruct Hc.
Qed.

Lemma configureHidg_error_witness :
  (configureHidg (U := plain_usbgx) "/sys/kernel/config" [(1, 2, true)]).2 = Some (gadget_error (U := plain_usbgx) (-22)).
Proof.
  pose proof (configureHidg_error (U := plain_usbgx) "/sys/kernel/config" [(1, 2, true)] [(1, 2, true)] 0 tt eq_refl) as H.
  destruct (configureHidg _ _) as [w' err] eqn:E. destruct H as ([He|He] & _); [|exact He].
  exfalso. subst err. vm_compute in E. discriminate E.
Defined.

(** C33: Start-up.  The loops only start on a gadget that is usable: neither
    exit flag was given, the node could be opened, and it either existed or was
    configured successfully before it was opened.  Asking for a clean-up never
    configures or opens anything, whatever the other flags say. *)
Theorem linux_startup {W : Type} {U : Usbgx W} {O : LinuxOS W} (a : args) (w w' : W) acts :
  main a w = Ret (w', acts) ->
  (Polling ∈ acts ->
     mustClean a = false /\ mustSetupHidg a = false /\
     (hidgExists (hidg a) w = true /\ os_OpenFile (hidg a) w = (w', None) /\ acts = [Opened; Polling] \/
      exists w1, hidgExists (hidg a) w = false /\ configureHidg (configfsPath a) w = (w1, None) /\
        os_OpenFile (hidg a) w1 = (w', None) /\ acts = [Configured; Opened; Polling])) /\
  (mustClean a = true -> acts = [Cleaned] /\ w' = (cleanup_usbg (configfsPath a) w).1).
Proof.
  unfold main. destruct (mustClean a); cbn [cleanupHidg].
  { intros [= <- <-]. split; [set_solver|done]. }
  destruct (hidgExists (hidg a) w); cbn [negb orb].
  - rewrite go_bind_ret. destruct (mustSetupHidg a); [intros [= <- <-]; split; [set_solver|done]|].
    destruct (os_OpenFile (hidg a) w) as [w1 [e|]]; [done|]. intros [= <- <-]. split; [|done]. intros _. by auto 10.
  - destruct (configureHidg (configfsPath a) w) as [w1 [e|]]; [done|]. cbn [notErr]. rewrite !go_bind_ret.
    destruct (mustSetupHidg a); [intros [= <- <-]; split; [set_solver|done]|].
    destruct (os_OpenFile (hidg a) w1) as [w2 [e|]] eqn:Eo; [done|]. intros [= <- <-]. split; [|done]. intros _.
    split_and!; [done..|]. right. by exists w1.
Qed.

Lemma linux_startup_witness :
  mustClean default_args = false /\ mustSetupHidg default_args = false /\
  exists w', main (U := plain_usbgx) (O := fresh_os) default_args [] = Ret (w', [Configured; Opened; Polling]).
Proof.
  assert (H : main (U := plain_usbgx) (O := fresh_os) default_args [] =
    Ret ([(VENDOR, PRODUCT, false)], [Configured; Opened; Polling])) by (vm_compute; reflexivity).
  destruct (linux_startup (U := plain_usbgx) (O := fresh_os) default_args [] _ _ H) as [Hp _].
  destruct Hp as (H1 & H2 & _); [right; right; left|]. split; [exact H1|]. split; [exact H2|]. eexists. exact H.
Defined.

End LinuxSetup.
