(* ===== verification/Linux.v ===== *)
(** * The Linux gadget: [src/cmd/wallera-linux/main.go]

    The same protocol over [/dev/hidg], with its own copy of the HID handler,
    which sends a whole response as one item of its channel. *)

From S2P Require Import Prelude GoRuntime Crypto Usb UsbTheory Apps Cosmos Firmware.

Module Linux.

(** ** The handler *)

Record hidHandler (A : Type) := mkHid { ah : Handler A; session : option Session }.
Arguments mkHid {A}.
Arguments ah {A}.
Arguments session {A}.

Section rx.
Context {W A : Type} {I : App W A} {C : CAPDUCodec}.

(** [(h *hidHandler) Rx]: the handler, the responses written to the channel
    by [writeOutbound] in order, and the error, which is always nil. *)
Definition Rx (h : hidHandler A) (input : list byte) (w : W)
    : go (W * hidHandler A * list (list (list byte)) * option error) :=
  match session h with
  | Some s =>
      '(s, _) ← ReadData s input;
      chunks ← FormatResponse s (full (PackageResponse [] APDUCommandNotAllowed));
      Ret (w, mkHid (ah h) (Some s), [chunks], None)
  | None =>
      r ← NewSession input;
      match r with
      | Err e => _ ← notErr (Some e); Ret (w, h, [], None)
      | Ok s =>
          if ShouldReadMore s then Ret (w, mkHid (ah h) (Some s), [], None)
          else
            '(w, hd, (resp, _)) ← Handle (ah h) (session_Data s) w;
            match resp with
            | None => Ret (w, mkHid hd None, [], None)
            | Some resp =>
                chunks ← FormatResponse s (full resp);
                match chunks with
                | [] => Ret (w, mkHid hd (Some s), [], None)
                | _ :: _ => Ret (w, mkHid hd None, [chunks], None)
                end
            end
      end
  end.

(** The rx goroutine: report after report (an error only skips the rest of
    its iteration). *)
Fixpoint rx_loop (h : hidHandler A) (inputs : list (list byte)) (w : W)
    : go (W * hidHandler A * list (list (list byte))) :=
  match inputs with
  | [] => Ret (w, h, [])
  | input :: rest =>
      '(w1, h1, out, _) ← Rx h input w;
      '(w2, h2, outs) ← rx_loop h1 rest w1;
      Ret (w2, h2, out ++ outs)
  end.

(** The tx goroutine writes the chunks of every item it receives. *)
Definition tx_loop (items : list (list (list byte))) : list (list byte) := concat items.

(** ** Lemmas *)

(** A report that opens a complete message. *)
Lemma Rx_single h buf w s :
  NewSession buf = Ret (Ok s) -> ShouldReadMore s = false ->
  Rx (mkHid h None) buf w =
    ('(w', h', (resp, _)) ← Handle h (session_Data s) w;
     Ret (w', mkHid h' None, match resp with
                             | Some resp => [frames_of (channelID s) resp]
                             | None => [] end, None)).
Proof.
  intros Hn Hm. unfold Rx; cbn [session ah]. rewrite Hn, go_bind_ret, Hm.
  destruct (Handle h (session_Data s) w) as [[[w' h'] [[resp|] e]]|p]; simpl; [|done..].
  rewrite FormatResponse_full, go_bind_ret.
  by destruct (frames_of_cons (channelID s) resp) as (f & fs & ->).
Qed.

(** With a session open every report is refused, taken or not. *)
Lemma Rx_open h s buf w :
  session_reach s ->
  exists s', session_reach s' /\ channelID s' = channelID s /\
    Rx (mkHid h (Some s)) buf w = Ret (w, mkHid h (Some s'), [refusal s], None).
Proof.
  intros Hr. destruct (ReadData_ok s buf (session_reach_ok s Hr)) as (s' & err & E & _ & Hc & _).
  exists s'. split_and!; [by eapply reach_read|done|].
  unfold Rx; cbn [session ah]. rewrite E, go_bind_ret, FormatResponse_full, go_bind_ret.
  unfold refusal. by rewrite Hc.
Qed.

Lemma rx_loop_open bufs : forall h s w,
  session_reach s ->
  exists s', session_reach s' /\
    rx_loop (mkHid h (Some s)) bufs w = Ret (w, mkHid h (Some s'), map (fun _ => refusal s) bufs).
Proof.
  induction bufs as [|b bufs IH]; intros h s w Hr; [by exists s|]. cbn [rx_loop map].
  destruct (Rx_open h s b w Hr) as (s1 & Hr1 & Hc & ->). rewrite go_bind_ret.
  destruct (IH h s1 w Hr1) as (s' & Hr' & ->). exists s'. split; [done|]. rewrite go_bind_ret.
  unfold refusal. by rewrite Hc.
Qed.

End rx.

(** ** Properties *)

(** Single-report messages.  A message of up to 57 bytes sent to an idle
    gadget is handled like on the device: the handler sees exactly its bytes,
    and the host reassembles the response from what the gadget writes. *)
Theorem linux_single_report {W A : Type} {I : App W A} {C : CAPDUCodec} host message reports :
  0 < channelID host < 65536 -> (s_len message <= 57)%nat ->
  FormatResponse host message = Ret reports ->
  exists d, s_data d = s_data message /\
    forall (h : Handler A) (w : W),
    match Handle h d w with
    | Ret (w', h', (Some resp, _)) =>
        exists items, rx_loop (mkHid h None) reports w = Ret (w', mkHid h' None, items) /\
          (Z.of_nat (length resp) < 65536 ->
           exists s, receive (tx_loop items) = Ret (Ok s) /\ s_data (session_Data s) = resp)
    | Ret (_, _, (None, _)) => False
    | Panic p => rx_loop (mkHid h None) reports w = Panic p
    end.
Proof.
  intros Hc Hl Hf. rewrite FormatResponse_frames in Hf. injection Hf as <-.
  destruct (receive_frames_of (channelID host) (s_data message) Hc) as (s & Hrec & _ & Hd & Hch & Hm).
  { unfold s_len in Hl. lia. }
  exists (session_Data s). split; [done|]. intros h w.
  unfold frames_of in *. rewrite (bool_decide_true (length (s_data message) <= 57)%nat) in * by done.
  set (f := encode_HIDFrame _) in *. simpl in Hrec.
  apply go_bind_Ret_inv in Hrec as ([s0|e] & E0 & Hrec); simplify_eq.
  cbn [rx_loop]. rewrite (Rx_single h f w s E0 Hm).
  destruct (Handle h (session_Data s) w) as [[[w' h'] [[resp|] e]]|p] eqn:Eh; simpl; [| |done].
  - eexists; split; [done|]. intros Hlen. unfold tx_loop; simpl. rewrite app_nil_r, Hch.
    destruct (receive_frames_of (channelID host) resp Hc Hlen) as (s' & ? & _ & ? & _). by exists s'.
  - by destruct (Handle_responds _ _ _ _ _ _ _ Eh) as (? & ? & ?).
Qed.

Lemma linux_single_report_witness :
  exists d, s_data d = bytes_of [85; 2; 0; 0; 0] /\
    forall (h : Handler (Z * list Z)) (w : unit),
    match Handle (I := echo_app) (C := header_codec) h d w with
    | Ret (w', h', (Some resp, _)) =>
        exists items, rx_loop (I := echo_app) (C := header_codec) (mkHid h None)
            (frames_of 0x0101 (bytes_of [85; 2; 0; 0; 0])) w = Ret (w', mkHid h' None, items) /\
          (Z.of_nat (length resp) < 65536 ->
           exists s, receive (tx_loop items) = Ret (Ok s) /\ s_data (session_Data s) = resp)
    | Ret (_, _, (None, _)) => False
    | Panic p => rx_loop (I := echo_app) (C := header_codec) (mkHid h None)
                   (frames_of 0x0101 (bytes_of [85; 2; 0; 0; 0])) w = Panic p
    end.
Proof.
  apply (linux_single_report (I := echo_app) (C := header_codec) open_session
    (full (bytes_of [85; 2; 0; 0; 0])) (frames_of 0x0101 (bytes_of [85; 2; 0; 0; 0]))).
  - simpl. lia.
  - vm_compute. lia.
  - vm_compute. reflexivity.
Defined.

(** C32: Messages of several reports are never handled.  Once a first report
    has opened a session that lacks data, the gadget answers every later
    report, also the ones it has just read into the session, with
    command-not-allowed, never calls the handler and never leaves the
    session. *)
Theorem linux_long_messages_refused {W A : Type} {I : App W A} {C : CAPDUCodec}
    host message reports (h : Handler A) (w : W) more :
  0 < channelID host < 65536 -> (57 < s_len message)%nat -> Z.of_nat (s_len message) < 65536 ->
  FormatResponse host message = Ret reports ->
  exists s, session_reach s /\
    rx_loop (mkHid h None) (reports ++ more) w =
      Ret (w, mkHid h (Some s), map (fun _ => refusal host) (tail reports ++ more)).
Proof.
  intros Hc Hl Hmax Hf. rewrite FormatResponse_frames in Hf. injection Hf as <-.
  destruct (frames_of_cons (channelID host) (s_data message)) as (f & fs & Hfs).
  destruct (first_report_of (channelID host) (s_data message) Hc) as (s & Hn & Hr & Hch & Hm); [done..|].
  rewrite Hfs in *. cbn [app tail rx_loop hd] in *. unfold Rx; cbn [session ah].
  rewrite Hn, go_bind_ret, Hm, go_bind_ret.
  destruct (rx_loop_open (fs ++ more) h s w Hr) as (s' & Hr' & E). exists s'. split; [done|].
  rewrite E, go_bind_ret. unfold refusal. by rewrite Hch.
Qed.

Lemma linux_long_messages_refused_witness :
  exists s, session_reach s /\
    rx_loop (I := echo_app) (C := header_codec) (mkHid echo_handler None)
      (frames_of 0x0101 (zeros 100) ++ [open_report]) tt =
      Ret (tt, mkHid echo_handler (Some s), [refusal open_session; refusal open_session]).
Proof.
  apply (linux_long_messages_refused (I := echo_app) (C := header_codec) open_session (full (zeros 100))
    (frames_of 0x0101 (zeros 100)) echo_handler tt [open_report]).
  - simpl. lia.
  - vm_compute. lia.
  - vm_compute. reflexivity.
  - vm_compute. reflexivity.
Defined.

End Linux.
