(* ===== verification/Gadget.v ===== *)
(** * The loops of the Linux gadget: [src/cmd/wallera-linux/main.go]

    The two goroutines of [main], the channel between them and the gadget's
    file, as a state machine with one transition per event: a report read (or
    a failed read), a response handed over, a chunk written (or a failed
    write), a signal.  Every interleaving is a sequence of events. *)

From S2P Require Import Prelude GoRuntime Usb UsbTheory Apps Firmware Linux.

Module Gadget.

(** A response on its way: the chunks of one [writeOutbound]. *)
Notation item := (list (list byte)).

(** [notErr] panics in its goroutine, which ends the process. *)
Inductive crash := ReadFailed (e : error) | WriteFailed (e : error) | RxPanic (p : panic).

Inductive status := Running | Crashed (why : crash) | Exited.

(** [outbound]: what the rx goroutine, blocked in [writeOutbound], offers;
    [writing]: what the tx goroutine has still to write of the item it took;
    [wire]: everything written to the file.  [Rx] sets the session after its
    last send, but only the rx goroutine reads it, so the state can carry the
    final value at once. *)
Record gadget (W A : Type) := mkGadget {
  handler : Linux.hidHandler A;
  world : W;
  outbound : list item;
  writing : list (list byte);
  wire : list (list byte);
  state : status
}.
Arguments mkGadget {W A} _ _ _ _ _ _.
Arguments handler {W A} _.
Arguments world {W A} _.
Arguments outbound {W A} _.
Arguments writing {W A} _.
Arguments wire {W A} _.
Arguments state {W A} _.

Inductive event :=
| Read (r : result (list byte))
| Take
| Write (err : option error)
| Signal.

(** [buf := make([]byte, 64); hidRx.Read(buf)]: the count is not looked at. *)
Definition read_buffer (report : list byte) : list byte := copy_into 64 report.

Section gadget.
Context {W A : Type} {I : App W A} {C : CAPDUCodec}.
Implicit Types (g : gadget W A) (hh : Linux.hidHandler A) (w : W).

Definition stop (s : status) g : gadget W A :=
  mkGadget (handler g) (world g) (outbound g) (writing g) (wire g) s.

(** An iteration of the rx goroutine, up to its [writeOutbound]. *)
Definition rx_turn (r : result (list byte)) g : option (gadget W A) :=
  match outbound g, r with
  | _ :: _, _ => None
  | [], Err e => Some (stop (Crashed (ReadFailed e)) g)
  | [], Ok report =>
      match Linux.Rx (handler g) (read_buffer report) (world g) with
      | Panic p => Some (stop (Crashed (RxPanic p)) g)
      | Ret (w, hh, out, _) => Some (mkGadget hh w out (writing g) (wire g) Running)
      end
  end.

(** [Tx], the rendezvous on [outboundChan]: the tx goroutine, with nothing
    left to write, takes what the rx goroutine offers. *)
Definition tx_take g : option (gadget W A) :=
  match writing g, outbound g with
  | [], data :: rest => Some (mkGadget (handler g) (world g) rest data (wire g) Running)
  | _, _ => None
  end.

(** The tx goroutine writes a chunk. *)
Definition tx_write (err : option error) g : option (gadget W A) :=
  match writing g, err with
  | [], _ => None
  | _ :: _, Some e => Some (stop (Crashed (WriteFailed e)) g)
  | c :: rest, None => Some (mkGadget (handler g) (world g) (outbound g) rest (wire g ++ [c]) Running)
  end.

(** One event; [None] where it cannot happen. *)
Definition next g (e : event) : option (gadget W A) :=
  match state g with
  | Running =>
      match e with
      | Read r => rx_turn r g
      | Take => tx_take g
      | Write err => tx_write err g
      | Signal => Some (stop Exited g)
      end
  | _ => None
  end.

Fixpoint run g (es : list event) : option (gadget W A) :=
  match es with
  | [] => Some g
  | e :: es => g' ← next g e; run g' es
  end.

(** The gadget when its loops start. *)
Definition started hh w : gadget W A := mkGadget hh w [] [] [] Running.

(** The reports that were read. *)
Definition reads (es : list event) : list (list byte) :=
  omap (fun e => match e with Read (Ok r) => Some r | _ => None end) es.

(** ** Lemmas *)

Lemma rx_loop_app hh xs ys w :
  Linux.rx_loop hh (xs ++ ys) w =
  ('(w1, h1, o1) ← Linux.rx_loop hh xs w;
   '(w2, h2, o2) ← Linux.rx_loop h1 ys w1; Ret (w2, h2, o1 ++ o2)).
Proof.
  revert hh w. induction xs as [|x xs IH]; intros hh w; cbn [app Linux.rx_loop].
  { rewrite go_bind_ret. by destruct (Linux.rx_loop hh ys w) as [[[? ?] ?]|]. }
  destruct (Linux.Rx hh x w) as [[[[w1 h1] o1] e]|p]; simpl; [|done]. rewrite IH.
  destruct (Linux.rx_loop h1 xs w1) as [[[w2 h2] o2]|p]; simpl; [|done].
  destruct (Linux.rx_loop h2 ys w2) as [[[w3 h3] o3]|p]; simpl; [|done]. by rewrite app_assoc.
Qed.

Lemma rx_loop_last hh r w :
  Linux.rx_loop hh [r] w = ('(w1, h1, o, _) ← Linux.Rx hh r w; Ret (w1, h1, o)).
Proof.
  cbn [Linux.rx_loop]. destruct (Linux.Rx hh r w) as [[[[w1 h1] o] e]|p]; simpl; [|done]. by rewrite app_nil_r.
Qed.

Lemma gadget_run_app g es1 es2 : run g (es1 ++ es2) = run g es1 ≫= fun g1 => run g1 es2.
Proof. revert g. induction es1 as [|e es1 IH]; intros g; [done|]. cbn. destruct (next g e); [apply IH|done]. Qed.

Lemma reads_app es1 es2 : reads (es1 ++ es2) = reads es1 ++ reads es2.
Proof. apply omap_app. Qed.

(** The state is what the reports, handled one after the other, lead to, and
    their output is what was written and what is still on its way. *)
Definition accounts hh w (rs : list (list byte)) g : Prop :=
  exists items, Linux.rx_loop hh (map read_buffer rs) w = Ret (world g, handler g, items) /\
    Linux.tx_loop items = wire g ++ writing g ++ concat (outbound g).

Definition explained hh w (es : list event) g : Prop :=
  match state g with
  | Crashed (RxPanic p) =>
      Linux.rx_loop hh (map read_buffer (reads es)) w = Panic p /\
      exists rs r, reads es = rs ++ [r] /\ accounts hh w rs g
  | _ => accounts hh w (reads es) g
  end.

Lemma accounts_read hh w rs g r w' hh' out err :
  accounts hh w rs g -> outbound g = [] -> Linux.Rx (handler g) (read_buffer r) (world g) = Ret (w', hh', out, err) ->
  accounts hh w (rs ++ [r]) (mkGadget hh' w' out (writing g) (wire g) Running).
Proof.
  intros (items & Hr & Ho) Hn Hrx. exists (items ++ out). split.
  - rewrite map_app, rx_loop_app, Hr, go_bind_ret. cbn [map]. by rewrite rx_loop_last, Hrx.
  - unfold Linux.tx_loop in *. rewrite concat_app, Ho, Hn. cbn. by rewrite app_nil_r, <- app_assoc.
Qed.

Lemma next_explained hh w es g e g' : explained hh w es g -> next g e = Some g' -> explained hh w (es ++ [e]) g'.
Proof.
  unfold next. destruct (state g) eqn:Hs; [|done..]. unfold explained at 1. rewrite Hs. intros Ha Hn.
  unfold explained. rewrite reads_app.
  destruct e as [r| |err|]; cbn [reads omap list_omap]; [|rewrite ?app_nil_r..].
  - unfold rx_turn in Hn. destruct (outbound g) eqn:Ho; [|done]. destruct r as [report|e].
    2: { injection Hn as <-. cbn. by rewrite app_nil_r. }
    destruct (Linux.Rx _ _ _) as [[[[w' hh'] out] err]|p] eqn:Hrx; injection Hn as <-; cbn [state stop].
    + by eapply accounts_read.
    + split; [|by exists (reads es), report]. destruct Ha as (items & Hr & _).
      rewrite map_app, rx_loop_app, Hr, go_bind_ret. cbn [map]. by rewrite rx_loop_last, Hrx.
  - unfold tx_take in Hn. destruct (writing g) eqn:Hw, (outbound g) as [|data rest] eqn:Ho; simplify_eq.
    destruct Ha as (items & Hr & Hout). exists items. split; [done|]. rewrite Hout, Hw, Ho. done.
  - unfold tx_write in Hn. destruct (writing g) as [|c rest] eqn:Hw; [done|]. destruct err as [e|]; injection Hn as <-.
    + done.
    + destruct Ha as (items & Hr & Hout). exists items. split; [done|]. cbn. rewrite Hout, Hw. by rewrite <- app_assoc.
  - injection Hn as <-. done.
Qed.

Lemma run_explained hh w es : forall g, run (started hh w) es = Some g -> explained hh w es g.
Proof.
  induction es as [|e es IH] using rev_ind; intros g Hr.
  { injection Hr as <-. by exists []. }
  rewrite gadget_run_app in Hr. apply bind_Some in Hr as (g1 & H1 & H2). cbn in H2.
  apply bind_Some in H2 as (g2 & Hn & [= <-]). eapply next_explained; eauto.
Qed.

(** Whatever is on its way can be delivered. *)
Lemma run_writes hh w out cs : forall wr,
  run (mkGadget hh w out cs wr Running) (map (fun _ => Write None) cs) = Some (mkGadget hh w out [] (wr ++ cs) Running).
Proof.
  induction cs as [|c cs IH]; intros wr; [by rewrite app_nil_r|]. cbn. rewrite IH. by rewrite <- app_assoc.
Qed.

Lemma gadget_drain hh w out : forall cs wr,
  exists es, run (mkGadget hh w out cs wr Running) es = Some (mkGadget hh w [] [] (wr ++ cs ++ concat out) Running) /\
    reads es = [].
Proof.
  assert (Hw : forall cs : list (list byte), reads (map (fun _ => Write None) cs) = []) by (by induction cs).
  induction out as [|data out IH]; intros cs wr.
  { exists (map (fun _ => Write None) cs). rewrite run_writes, app_nil_r. done. }
  destruct (IH data (wr ++ cs)) as (es & Hr & He). exists (map (fun _ => Write None) cs ++ Take :: es). split.
  - rewrite gadget_run_app, run_writes. cbn. by rewrite Hr, <- app_assoc.
  - rewrite reads_app, Hw. done.
Qed.

Lemma run_reads rs : forall hh w wr w' hh' items,
  Linux.rx_loop hh (map read_buffer rs) w = Ret (w', hh', items) ->
  exists es, run (mkGadget hh w [] [] wr Running) es = Some (mkGadget hh' w' [] [] (wr ++ Linux.tx_loop items) Running) /\
    reads es = rs.
Proof.
  induction rs as [|r rs IH]; intros hh w wr w' hh' items Hr; cbn [map Linux.rx_loop] in Hr.
  { simplify_eq. exists []. by rewrite app_nil_r. }
  apply go_bind_Ret_inv in Hr as ([[[w1 h1] out] err] & Hrx & Hr).
  apply go_bind_Ret_inv in Hr as ([[w2 h2] outs] & Hl & [= <- <- <-]).
  destruct (gadget_drain h1 w1 out [] wr) as (es1 & H1 & He1). cbn in H1.
  destruct (IH h1 w1 (wr ++ concat out) w2 h2 outs Hl) as (es2 & H2 & He2).
  exists (Read (Ok r) :: es1 ++ es2). split.
  - cbn [run next state]. unfold rx_turn. cbn [outbound handler world]. rewrite Hrx. cbn. rewrite gadget_run_app, H1. cbn.
    rewrite H2. unfold Linux.tx_loop. by rewrite concat_app, app_assoc.
  - cbn. f_equal. change (reads (es1 ++ es2) = rs). by rewrite reads_app, He1, He2.
Qed.

(** A first report that opens no session ends the process. *)
Lemma malformed_report_crashes h w wr report g :
  opens (read_buffer report) = false ->
  next (mkGadget (Linux.mkHid h None) w [] [] wr Running) (Read (Ok report)) = Some g ->
  exists e, state g = Crashed (RxPanic (PanicValue e)).
Proof.
  intros Ho Hn. cbn [next state rx_turn outbound] in Hn. unfold rx_turn, Linux.Rx in Hn.
  cbn [outbound handler world Linux.session] in Hn.
  destruct (NewSession_refused _ Ho) as [e He]. rewrite He in Hn. injection Hn as <-. by exists e.
Qed.

End gadget.

(** ** Properties *)

(** C30: The gadget's goroutines.  However the rx and tx goroutines and the
    file interleave, until the process ends or crashes the handler is in the
    state that [Rx] calls, one after the other on the reports that were read,
    lead to, and what was written to the file, followed by what the tx goroutine
    still holds and the rx goroutine offers, is their output, in order; a panic
    of [Rx] happens exactly when the sequential run panics.  Conversely every
    sequential run can happen, with all its output written, and from every
    running state what is on its way can be delivered: the two goroutines
    cannot deadlock. *)
Theorem gadget_sequential {W A : Type} {I : App W A} {C : CAPDUCodec} (hh : Linux.hidHandler A) (w : W) :
  (forall es g, run (started hh w) es = Some g -> explained hh w es g) /\
  (forall rs w' hh' items, Linux.rx_loop hh (map read_buffer rs) w = Ret (w', hh', items) ->
     exists es, run (started hh w) es = Some (mkGadget hh' w' [] [] (Linux.tx_loop items) Running) /\ reads es = rs) /\
  (forall es g, run (started hh w) es = Some g -> state g = Running ->
     exists es', reads es' = [] /\ run g es' =
       Some (mkGadget (handler g) (world g) [] [] (wire g ++ writing g ++ concat (outbound g)) Running)).
Proof.
  split_and!.
  - apply run_explained.
  - intros rs w' hh' items Hr. destruct (run_reads rs hh w [] w' hh' items Hr) as (es & Hes & He). by exists es.
  - intros es [h1 w1 out cs wr st] _ [= ->]. destruct (gadget_drain h1 w1 out cs wr) as (es' & Hr & He). by exists es'.
Qed.

(** A run in which the response is taken and written while the gadget waits. *)
Example echo_run :
  let out := frames_of 0x0101 (PackageResponse (bytes_of [85; 2; 0; 0; 0]) APDUSuccess) in
  option_map wire (run (I := echo_app) (C := header_codec) (started (Linux.mkHid echo_handler None) tt)
    [Read (Ok (hd [] (frames_of 0x0101 (bytes_of [85; 2; 0; 0; 0])))); Take; Write None; Signal]) = Some out.
Proof. vm_compute. reflexivity. Qed.

End Gadget.
