(* ===== verification/Wallet.v ===== *)
(** * The wallet its host sees

    An abstract wallet: a machine on whole commands whose only state is the
    signing session, with no reports, channels, sessions of reports, slices or
    tables of apps.  The firmware with the Cosmos app implements it, for every
    sequence of messages whose commands lie inside the message; and where the
    signatures of the abstract wallet come from is proved on the abstraction. *)

From S2P Require Import Prelude GoRuntime Sha256 Crypto Usb UsbTheory JsonScan Apps Cosmos CosmosTheory Firmware Device Linux Gadget.

Module Wallet.

(** ** Commands *)

(** What a message asks for, or the code it is refused with. *)
Inductive command :=
| Refused (code : APDUCode)
| Version
| Signing (p : SigSpec.packet)
| Address (hrp : string) (path : DerivationPath).

(** The answer to a message: a body and a status code. *)
Abbreviation reply := (list byte * APDUCode)%type.

(** The prefix length that an address command announces. *)
Definition prefix_length (m : list byte) : nat := Z.to_nat (be_combine (take 1 (drop 5 m))).

(** An address command, and what it asks for when its header is valid. *)
Definition address_command (m : list byte) : command :=
  match read_getAddressRequest m with
  | Ok req =>
      match getAddressRequest_validate req with
      | None => Address (string_of_bytes (take (prefix_length m) (drop 6 m)))
                  (path_of_wire (drop (6 + prefix_length m) m))
      | Some _ => Refused APDUExecutionError
      end
  | Err _ => Refused APDUExecutionError
  end.

Definition command_of {C : CAPDUCodec} (m : list byte) : command :=
  let capdu := (UnmarshalCAPDU m).1 in
  if negb (addressed m) then Refused APDUCLANotSupported
  else if bool_decide (length m < 5)%nat then Refused APDUWrongLength
  else if INS capdu =? claGetVersion then Version
  else if INS capdu =? claSignSecp256K1 then Signing (sign_packet (full m))
  else address_command m.

(** The message holds everything its command reads: the path of an init
    command, the prefix and the path of an address command. *)
Definition contained {C : CAPDUCodec} (m : list byte) : bool :=
  match command_of m with
  | Signing (SigSpec.Init _) => bool_decide (25 <= length m)%nat
  | Address _ _ => bool_decide (26 + prefix_length m <= length m)%nat
  | _ => true
  end.

(** ** The wallet *)

Section wallet.
Context {W T : Type} {Tok : Token W T} {D : AddressDeps}.
Implicit Types (tok : T) (st : SigSpec.state) (w : W).

Definition step tok st (cmd : command) w : go (W * SigSpec.state * reply) :=
  match cmd with
  | Refused code => Ret (w, st, ([], code))
  | Version => Ret (w, st, (bytes_of [0; 2; 0; 0; 0], APDUSuccess))
  | Signing p =>
      let '(st', a) := SigSpec.step st p in
      match a with
      | SigSpec.Ack => Ret (w, st', ([], APDUSuccess))
      | SigSpec.Refuse => Ret (w, st', ([], APDUExecutionError))
      | SigSpec.Finish path payload => '(w', r) ← sign_at tok path payload w; Ret (w', st', r.1)
      end
  | Address hrp path => '(w', r) ← address_at tok path hrp w; Ret (w', st, r.1)
  end.

Fixpoint run tok st (cmds : list command) w : go (W * SigSpec.state * list reply) :=
  match cmds with
  | [] => Ret (w, st, [])
  | cmd :: rest =>
      '(w1, st1, r) ← step tok st cmd w;
      '(w2, st2, rs) ← run tok st1 rest w1;
      Ret (w2, st2, r :: rs)
  end.

(** ** One command *)

Context {C : CAPDUCodec}.

(** The app does what the wallet does: same world, same reply, a session that
    is the abstract one, the token kept; and it panics when the wallet does. *)
Definition matches (c : Cosmos T) (x : go (W * SigSpec.state * reply)) (y : go (W * Cosmos T * response)) : Prop :=
  match x with
  | Ret (w', st, r) => exists c' e, y = Ret (w', c', (r, e)) /\ abs_session c' = st /\ c_Token c' = c_Token c
  | Panic p => y = Panic p
  end.

Lemma sign_matches c d m w :
  s_data d = m -> (64 <= s_cap d)%nat -> (5 <= length m)%nat ->
  (sign_descr d = signInit -> (25 <= length m)%nat) ->
  matches c (step (c_Token c) (abs_session c) (Signing (sign_packet (full m))) w) (handleSignSecp256K1 (initLog c) d w).
Proof.
  intros Hm Hc H5 H25. assert (Hs : sign_sized d) by (split; unfold s_len; rewrite ?Hm; lia).
  assert (Hp : sign_packet (full m) = sign_packet d).
  { unfold sign_packet, sign_descr, sign_payload, s_array in *. cbn [full s_data s_spare]. rewrite Hm in *.
    destruct (_ =? signInit) eqn:Ei; [|done]. apply Z.eqb_eq, H25 in Ei. f_equal.
    rewrite app_nil_r, drop_app_le by lia. symmetry. apply path_of_wire_prefix. rewrite length_drop. lia. }
  rewrite Hp. pose proof (handleSign_step (initLog c) d w Hs) as Hstep. rewrite initLog_abs, initLog_Token in Hstep.
  unfold step. destruct (SigSpec.step (abs_session c) (sign_packet d)) as [st a] eqn:Est. destruct a as [| |path payload].
  - destruct Hstep as (c' & -> & Ha & Ht & _). by exists c', None.
  - destruct Hstep as (Ha & e & ->). exists (initLog c), (Some e). rewrite initLog_abs, initLog_Token, Ha.
    split_and!; [done| |done]. rewrite Ha in Est. unfold SigSpec.step in Est. by destruct (sign_packet d); simplify_eq.
  - destruct Hstep as (-> & ->). destruct (sign_at _ _ _ w) as [[w' [r e]]|p]; [|done]. rewrite !go_bind_ret.
    eexists _, e. by rewrite (initLog_Token c : c_Token (with_session (initLog c) None) = _).
Qed.

Lemma address_matches c d m w :
  s_data d = m -> (match address_command m with Address _ _ => 26 + prefix_length m <= length m | _ => True end)%nat ->
  matches c (step (c_Token c) (abs_session c) (address_command m) w) (handleGetAddrSecp256K1 (initLog c) d w).
Proof.
  intros Hm Hl. assert (Hfail : forall e, matches c (Ret (w, abs_session c, ([], APDUExecutionError)))
    (fail w (initLog c) APDUExecutionError e)).
  { intros e. exists (initLog c), (Some e). by rewrite initLog_abs, initLog_Token. }
  unfold address_command in *. destruct (read_getAddressRequest m) as [req|e] eqn:Hr.
  2: { unfold handleGetAddrSecp256K1. rewrite Hm, Hr. apply Hfail. }
  destruct (getAddressRequest_validate req) as [e|] eqn:Hv.
  { unfold handleGetAddrSecp256K1. rewrite Hm, Hr, Hv. apply Hfail. }
  rewrite (handleGetAddr_valid (initLog c) d w req) by (by rewrite ?Hm).
  assert (prefix_length m = Z.to_nat (HRPLength req)) as <-.
  { unfold prefix_length. rewrite read_getAddressRequest_6 in Hr by lia. by simplify_eq. }
  rewrite bool_decide_true by (unfold s_cap, s_array; rewrite Hm, length_app; lia).
  unfold hrp_of, s_array. rewrite Hm, !drop_app_le, take_app_le by (rewrite ?length_drop; lia).
  rewrite path_of_wire_prefix by (rewrite length_drop; lia). unfold step. rewrite initLog_Token.
  destruct (address_at _ _ _ w) as [[w' [r e]]|p]; [|done]. rewrite !go_bind_ret.
  exists (initLog c), e. by rewrite initLog_abs, initLog_Token.
Qed.

(** A command of the app. *)
Lemma handle_matches c d m w :
  s_data d = m -> (64 <= s_cap d)%nat -> contained m = true -> addressed m = true ->
  matches c (step (c_Token c) (abs_session c) (command_of m) w) (cosmos_Handle c (INS (UnmarshalCAPDU m).1) d w).
Proof.
  intros Hm Hc Hin Ha. unfold contained in Hin. unfold command_of in *. rewrite Ha in *. cbn [negb] in *.
  unfold addressed in Ha. set (capdu := (UnmarshalCAPDU m).1) in *. apply andb_true_iff in Ha as [_ Hi%bool_decide_eq_true].
  unfold cosmos_Handle, minDataLen, s_len. rewrite Hm. case_bool_decide as H5.
  { eexists (initLog c), _. by rewrite initLog_abs, initLog_Token. }
  destruct (Z.eqb_spec (INS capdu) claGetVersion) as [_|Hv].
  { exists (initLog c), None. by rewrite initLog_abs, initLog_Token. }
  destruct (Z.eqb_spec (INS capdu) claSignSecp256K1) as [Es|Hs].
  - apply sign_matches; [done|done|lia|]. intros Hd. unfold sign_packet in Hin.
    replace (sign_descr (full m)) with signInit in Hin by (by rewrite <- Hd; unfold sign_descr; rewrite Hm).
    cbn in Hin. by apply bool_decide_eq_true in Hin.
  - assert (INS capdu = claGetAddrSecp256K1) as -> by (unfold cosmos_Commands in Hi; set_solver).
    rewrite Z.eqb_refl. apply address_matches; [done|]. unfold address_command in *.
    destruct (read_getAddressRequest m) as [req|]; [|done]. destruct (getAddressRequest_validate req); [done|].
    by apply bool_decide_eq_true in Hin.
Qed.

(** A message as the app table handles it. *)
Lemma command_matches c d m w :
  s_data d = m -> (64 <= s_cap d)%nat -> contained m = true ->
  match step (c_Token c) (abs_session c) (command_of m) w with
  | Ret (w', st, r) => exists c' e,
      Handle (cosmos_table c) d w = Ret (w', cosmos_table c', (Some (PackageResponse r.1 r.2), e)) /\
      abs_session c' = st /\ c_Token c' = c_Token c
  | Panic p => Handle (cosmos_table c) d w = Panic p
  end.
Proof.
  intros Hm Hc Hin. destruct (addressed m) eqn:Ha.
  - pose proof (handle_matches c d m w Hm Hc Hin Ha) as H. rewrite Handle_addressed by (by rewrite Hm). rewrite Hm.
    unfold matches in H. destruct (step _ _ _ w) as [[[w' st] [resp code]]|p]; [|by rewrite H].
    destruct H as (c' & e & -> & ? & ?). by exists c', e.
  - destruct (Handle_unaddressed c d w) as [e ->]; [by rewrite Hm|]. unfold command_of. rewrite Ha. by exists c, (Some e).
Qed.

(** ** Messages *)

(** A message with the channel it is sent on, of a size that a session can
    announce and with its command inside. *)
Definition sent (x : Z * list byte) : Prop :=
  0 < x.1 < 65536 /\ Z.of_nat (length x.2) < 65536 /\ contained x.2 = true.

(** The reports of messages, and of the replies on the same channels. *)
Definition reports (xs : list (Z * list byte)) : list (list byte) :=
  concat (map (fun x => frames_of x.1 x.2) xs).

Definition replies (xs : list (Z * list byte)) (rs : list reply) : list (list byte) :=
  reports (zip_with (fun x r => (x.1, PackageResponse r.1 r.2)) xs rs).

Definition idle (c : Cosmos T) : hidHandler (Cosmos T) := mkHid (cosmos_table c) None.

Lemma rx_reports xs : forall c w,
  Forall sent xs ->
  match run (c_Token c) (abs_session c) (map (fun x => command_of x.2) xs) w with
  | Ret (w', st, rs) => length rs = length xs /\ exists c',
      rx_all (idle c) (reports xs) w = Ret (w', idle c', replies xs rs) /\
      abs_session c' = st /\ c_Token c' = c_Token c
  | Panic p => rx_all (idle c) (reports xs) w = Panic p
  end.
Proof.
  induction xs as [|[ch m] xs IH]; intros c w Hxs; [split; [done|]; by exists c|].
  apply Forall_cons_iff in Hxs as [(Hch & Hl & Hin) Hxs]. cbn [fst snd] in *.
  destruct (rx_message (I := cosmos_app) (C := C) ch m Hch Hl) as (s & _ & Hd & Hcap & Hc & Hm).
  unfold reports. cbn [map concat run fst snd]. fold (reports xs). unfold idle. rewrite rx_all_app, Hm.
  unfold drop_err, answer. pose proof (command_matches c (session_Data s) m w Hd Hcap Hin) as Hcmd.
  destruct (step _ _ (command_of m) w) as [[[w1 st1] r]|p]; [|by rewrite Hcmd].
  destruct Hcmd as (c1 & e & -> & Ha & Ht). rewrite !go_bind_ret. specialize (IH c1 w1 Hxs). rewrite Ha, Ht in IH.
  unfold idle in IH. destruct (run _ _ _ w1) as [[[w2 st2] rs]|p]; [|by rewrite IH].
  destruct IH as (Hn & c2 & -> & Ha2 & Ht2). rewrite !go_bind_ret. split; [cbn; by rewrite Hn|].
  exists c2. rewrite Hc. done.
Qed.

(** ** The Linux gadget *)

Definition gadget_idle (c : Cosmos T) : Linux.hidHandler (Cosmos T) := Linux.mkHid (cosmos_table c) None.

(** The report of a message that fits one. *)
Lemma gadget_message channel m :
  0 < channel < 65536 -> (length m <= 57)%nat ->
  exists f s, frames_of channel m = [f] /\ NewSession f = Ret (Ok s) /\ ShouldReadMore s = false /\
    s_data (session_Data s) = m /\ (64 <= s_cap (session_Data s))%nat /\ channelID s = channel.
Proof.
  intros Hc Hl. destruct (receive_frames_of channel m Hc) as (s & Hrec & Hok & Hd & Hch & Hm); [lia|].
  unfold frames_of in *. rewrite bool_decide_true in * by done. simpl in Hrec.
  apply go_bind_Ret_inv in Hrec as ([s0|e] & E0 & Hrec); simplify_eq.
  eexists _, s. split_and!; [done..|by apply (ok_cap s)|done].
Qed.

Lemma gadget_reports xs : forall c w,
  Forall (fun x => sent x /\ (length x.2 <= 57)%nat) xs ->
  match run (c_Token c) (abs_session c) (map (fun x => command_of x.2) xs) w with
  | Ret (w', st, rs) => length rs = length xs /\ exists c' items,
      Linux.rx_loop (gadget_idle c) (reports xs) w = Ret (w', gadget_idle c', items) /\
      Linux.tx_loop items = replies xs rs /\ abs_session c' = st /\ c_Token c' = c_Token c
  | Panic p => Linux.rx_loop (gadget_idle c) (reports xs) w = Panic p
  end.
Proof.
  induction xs as [|[ch m] xs IH]; intros c w Hxs; [split; [done|]; by exists c, []|].
  apply Forall_cons_iff in Hxs as [((Hch & _ & Hin) & Hl) Hxs]. cbn [fst snd] in *.
  destruct (gadget_message ch m Hch Hl) as (f & s & Hf & Hs & Hm & Hd & Hcap & Hc).
  unfold reports. cbn [map concat run fst snd]. fold (reports xs). rewrite Hf. cbn [app Linux.rx_loop].
  unfold gadget_idle. rewrite (Linux.Rx_single _ f w s Hs Hm).
  pose proof (command_matches c (session_Data s) m w Hd Hcap Hin) as Hcmd.
  destruct (step _ _ (command_of m) w) as [[[w1 st1] r]|p]; [|by rewrite Hcmd].
  destruct Hcmd as (c1 & e & -> & Ha & Ht). rewrite !go_bind_ret. specialize (IH c1 w1 Hxs). rewrite Ha, Ht in IH.
  unfold gadget_idle in IH. destruct (run _ _ _ w1) as [[[w2 st2] rs]|p]; [|by rewrite IH].
  destruct IH as (Hn & c2 & items & -> & Hi & Ha2 & Ht2). rewrite !go_bind_ret. split; [cbn; by rewrite Hn|].
  exists c2. eexists. split_and!; [done| |done..]. cbn. unfold Linux.tx_loop in *. cbn. by rewrite Hi, Hc.
Qed.

(** Reports fill the gadget's read buffer. *)
Lemma read_reports xs : map Gadget.read_buffer (reports xs) = reports xs.
Proof.
  assert (H : Forall (fun f => length f = 64%nat) (reports xs)).
  { induction xs as [|x xs IH]; [constructor|]. apply Forall_app. split; [apply frames_of_64|exact IH]. }
  induction H as [|f fs Hf _ IH]; [done|]. cbn [map]. rewrite IH. f_equal. by apply copy_into_exact.
Qed.

(** ** Where a signature comes from *)

(** The command neither opens nor ends a signing session. *)
Definition quiet (cmd : command) : bool :=
  match cmd with
  | Signing (SigSpec.Init _) | Signing (SigSpec.Last _) => false
  | _ => true
  end.

(** What a command adds to the payload. *)
Definition chunk_of (cmd : command) : list byte :=
  match cmd with Signing (SigSpec.Add chunk) => chunk | _ => [] end.

(** Among the commands so far an init command for [path] came last: [mid] are
    the commands after it, and none of them opens or ends a session. *)
Definition since_init (past : list command) (path : DerivationPath) (mid : list command) : Prop :=
  exists pre, past = pre ++ Signing (SigSpec.Init path) :: mid /\ Forall (fun cmd => quiet cmd = true) mid.

Lemma since_init_now past path : since_init (past ++ [Signing (SigSpec.Init path)]) path [].
Proof. exists past. split; [done|constructor]. Qed.

Lemma since_init_later past cmd path mid :
  quiet cmd = true -> since_init past path mid -> since_init (past ++ [cmd]) path (mid ++ [cmd]).
Proof.
  intros Hq (pre & -> & Hm). exists pre. rewrite <- app_assoc. split; [done|].
  apply Forall_app. split; [done|]. by constructor.
Qed.

Lemma since_init_snoc past cmd path mid :
  since_init (past ++ [cmd]) path mid ->
  cmd = Signing (SigSpec.Init path) \/ quiet cmd = true /\ exists mid', since_init past path mid'.
Proof.
  intros (pre & E & Hm). destruct mid as [|x mid' _] using rev_ind.
  - apply app_inj_tail in E as [_ ->]. by left.
  - rewrite (app_comm_cons mid'), app_assoc in E. apply app_inj_tail in E as [-> ->].
    apply Forall_app in Hm as [Hm Hx]. apply Forall_inv in Hx. right. split; [done|]. exists mid', pre. done.
Qed.

(** What the state of the wallet says about the commands that led to it. *)
Definition remembers (past : list command) st : Prop :=
  match st with
  | SigSpec.Idle => forall path mid, ~ since_init past path mid
  | SigSpec.Collecting path payload =>
      exists mid, since_init past path mid /\ payload = concat (map chunk_of mid)
  end.

Lemma remembers_nil : remembers [] SigSpec.Idle.
Proof. intros path mid (pre & E & _). by destruct pre. Qed.

(** A command that is no packet of the protocol, or that changes nothing. *)
Lemma remembers_quiet past st cmd :
  quiet cmd = true -> chunk_of cmd = [] -> remembers past st -> remembers (past ++ [cmd]) st.
Proof.
  intros Hq Hc H. destruct st as [|path payload].
  - intros path mid [->|(_ & mid' & Hm)]%since_init_snoc; [done|]. by eapply H.
  - destruct H as (mid & Hm & ->). exists (mid ++ [cmd]). split; [by apply since_init_later|].
    by rewrite map_app, concat_app; cbn; rewrite Hc, !app_nil_r.
Qed.

Lemma remembers_packet past st p :
  remembers past st -> remembers (past ++ [Signing p]) (SigSpec.step st p).1.
Proof.
  intros H. destruct p as [path|chunk|chunk|].
  - exists []. split; [apply since_init_now|done].
  - destruct st as [|path payload].
    + intros path mid [|(_ & mid' & Hm)]%since_init_snoc; [done|]. by eapply H.
    + destruct H as (mid & Hm & ->). exists (mid ++ [Signing (SigSpec.Add chunk)]).
      split; [by apply since_init_later|]. rewrite map_app, concat_app. cbn. by rewrite app_nil_r.
  - assert (remembers (past ++ [Signing (SigSpec.Last chunk)]) SigSpec.Idle); [|by destruct st].
    by intros path mid [|[]]%since_init_snoc.
  - destruct st; apply remembers_quiet; done.
Qed.

Lemma remembers_step tok past st cmd w w' st' r :
  remembers past st -> step tok st cmd w = Ret (w', st', r) -> remembers (past ++ [cmd]) st'.
Proof.
  intros H Hs. destruct cmd as [code| |p|hrp path]; cbn [step] in Hs.
  - simplify_eq. by apply remembers_quiet.
  - simplify_eq. by apply remembers_quiet.
  - pose proof (remembers_packet past st p H) as Hp. destruct (SigSpec.step st p) as [st1 [| |path payload]]; [by simplify_eq..|].
    by apply go_bind_Ret_inv in Hs as ([w1 r1] & _ & [= _ <- _]).
  - apply go_bind_Ret_inv in Hs as ([w1 r1] & _ & [= _ <- _]). by apply remembers_quiet.
Qed.

(** What the reply to a sign command is, after the commands [past]. *)
Definition accounted tok (past : list command) (cmd : command) (r : reply) : Prop :=
  match cmd with
  | Signing (SigSpec.Last chunk) =>
      (exists path mid w1 w2 e, since_init past path mid /\
         sign_at tok path (concat (map chunk_of mid) ++ chunk) w1 = Ret (w2, (r, e))) \/
      ((forall path mid, ~ since_init past path mid) /\ r = ([], APDUExecutionError))
  | Signing _ => r.1 = []
  | _ => True
  end.

Lemma step_accounted tok past st cmd w w' st' r :
  remembers past st -> step tok st cmd w = Ret (w', st', r) -> accounted tok past cmd r.
Proof.
  intros H Hs. destruct cmd as [| |p|]; [done..| |done]. cbn [step] in Hs. unfold accounted.
  destruct p as [path|chunk|chunk|], st as [|path0 payload]; cbn in Hs; simplify_eq; try done.
  - right. by split.
  - destruct H as (mid & Hm & ->). apply go_bind_Ret_inv in Hs as ([w1 [r1 e]] & Hr & [= _ _ <-]).
    left. by exists path0, mid, w, w1, e.
Qed.

Lemma run_accounted tok cmds : forall past st w w' st' rs,
  remembers past st -> run tok st cmds w = Ret (w', st', rs) ->
  forall i cmd, cmds !! i = Some cmd -> exists r, rs !! i = Some r /\ accounted tok (past ++ take i cmds) cmd r.
Proof.
  induction cmds as [|cmd0 cmds IH]; intros past st w w' st' rs H Hr i cmd Hi; [done|]. cbn [run] in Hr.
  apply go_bind_Ret_inv in Hr as ([[w1 st1] r] & Hs & Hr).
  apply go_bind_Ret_inv in Hr as ([[w2 st2] rs'] & Hr & [= <- <- <-]). destruct i as [|i].
  - injection Hi as <-. exists r. rewrite app_nil_r. split; [done|]. by eapply step_accounted.
  - destruct (IH (past ++ [cmd0]) st1 w1 w2 st2 rs') with (i := i) (cmd := cmd) as (r' & Hr' & Ha); [|done..|].
    { by eapply remembers_step. }
    exists r'. split; [done|]. by rewrite <- app_assoc in Ha.
Qed.

End wallet.

(** ** Concrete messages for the witnesses *)

(** The end of a session that was never opened, then a session interrupted by
    a version command, on two channels. *)
Definition conversation : list (Z * list byte) :=
  [(0x0101, demo_message 2 (bytes_of [125]));
   (0x0101, demo_message 0 demo_path);
   (0x0202, bytes_of [85; 0; 0; 0; 0]);
   (0x0101, demo_message 1 (bytes_of [123]));
   (0x0101, demo_message 2 (bytes_of [125]))].

#[local] Existing Instance header_codec.

Lemma conversation_sent : Forall sent conversation.
Proof.
  unfold conversation, sent. repeat (apply List.Forall_cons; [split_and!; [cbn; lia|cbn; lia|vm_compute; reflexivity..]|]).
  apply List.Forall_nil.
Qed.

Lemma conversation_short : Forall (fun x => sent x /\ (length x.2 <= 57)%nat) conversation.
Proof.
  apply List.Forall_and; [exact conversation_sent|].
  repeat (apply List.Forall_cons; [vm_compute; lia|]). apply List.Forall_nil.
Qed.

Definition conversation_replies : list reply :=
  [([], APDUExecutionError); ([], APDUSuccess); (bytes_of [0; 2; 0; 0; 0], APDUSuccess); ([], APDUSuccess);
   (flat_map (be_split 4) [2 ^ 31 + 44; 2 ^ 31 + 118; 2 ^ 31; 0; 7] ++ Sha256.Sum256 (bytes_of [123; 125]),
    APDUSuccess)].

Lemma conversation_run :
  run (Tok := demo_token) (D := plain_address) (c_Token demo_cosmos) (abs_session demo_cosmos)
    (map (fun x => command_of x.2) conversation) 0%nat = Ret (0%nat, SigSpec.Idle, conversation_replies).
Proof. vm_compute. reflexivity. Qed.

(** ** Properties *)

(** C3: The firmware implements the abstract wallet, for contained messages.
    Let a host send messages on whatever channels, each shorter than 65536 bytes
    and holding what its command reads (25 bytes for a sign-init command, prefix
    and path for an address command with a valid header; a message without them
    makes the code read behind it, which the wallet does not describe).  Then the
    reports of the device are the replies of the abstract wallet to these
    messages, in order and on the same channels, under every interleaving of the
    two endpoints: in any execution that received the reports, what was
    transmitted and what the call under way still sends; once that call is over
    no message is open, the app holds the abstract session and its token is the
    one it had.  If the wallet's token panics, so does the device. *)
Theorem wallet_refines {W T : Type} {Tok : Token W T} {D : AddressDeps} {C : CAPDUCodec} (c : Cosmos T) xs (w : W) :
  Forall sent xs ->
  match run (c_Token c) (abs_session c) (map (fun x => command_of x.2) xs) w with
  | Ret (w', st, rs) => length rs = length xs /\ exists c', abs_session c' = st /\ c_Token c' = c_Token c /\
      rx_all (idle c) (reports xs) w = Ret (w', idle c', replies xs rs) /\
      forall es d, trace (mkDevice (idle c) w Waiting) es d -> received es = reports xs ->
        exists out, settle d = Ret (w', idle c', out) /\ transmitted es ++ out = replies xs rs
  | Panic p => rx_all (idle c) (reports xs) w = Panic p /\
      forall es d, trace (mkDevice (idle c) w Waiting) es d -> received es = reports xs -> settle d = Panic p
  end.
Proof.
  intros Hxs. pose proof (rx_reports xs c w Hxs) as H.
  destruct (run _ _ _ w) as [[[w' st] rs]|p].
  - destruct H as (Hn & c' & Hrx & Ha & Ht). split; [done|]. exists c'. split_and!; [done..|].
    intros es d Hes%trace_sequential Hrec. rewrite Hrec, Hrx in Hes.
    destruct (settle d) as [[[w1 hh] out]|p]; [|done]. cbn in Hes. exists out. by simplify_eq.
  - split; [done|]. intros es d Hes%trace_sequential Hrec. rewrite Hrec, H in Hes.
    destruct (settle d) as [[[w1 hh] out]|p']; [done|]. by simplify_eq/=.
Qed.

Lemma wallet_refines_witness :
  exists c', rx_all (I := cosmos_app (Tok := demo_token) (D := plain_address)) (C := header_codec)
      (idle (Tok := demo_token) (D := plain_address) demo_cosmos) (reports conversation) 0%nat
    = Ret (0%nat, idle (Tok := demo_token) (D := plain_address) c', replies conversation conversation_replies) /\
    abs_session c' = SigSpec.Idle.
Proof.
  pose proof (wallet_refines (Tok := demo_token) (D := plain_address) (C := header_codec) demo_cosmos conversation 0%nat
    conversation_sent) as H.
  rewrite conversation_run in H. destruct H as (_ & c' & Ha & _ & Hrx & _). exists c'. split; [exact Hrx|exact Ha].
Defined.

(** C31: The Linux gadget is the same wallet for contained messages of one
    report.  For messages of at most 57 bytes that hold what their command reads
    (an init command its path, an address command prefix and path), however the
    two goroutines, the file and signals interleave: once the gadget has read the
    reports of the messages, what it wrote and what is still on its way is the
    replies of the abstract wallet, the same reports that the firmware sends; a
    run that writes all of them exists; and when the wallet panics, every run that
    reads all the reports ends with that panic. *)
Theorem gadget_wallet {W T : Type} {Tok : Token W T} {D : AddressDeps} {C : CAPDUCodec} (c : Cosmos T) xs (w : W) :
  Forall (fun x => sent x /\ (length x.2 <= 57)%nat) xs ->
  match run (c_Token c) (abs_session c) (map (fun x => command_of x.2) xs) w with
  | Ret (w', st, rs) => exists c', abs_session c' = st /\ c_Token c' = c_Token c /\
      (exists es, Gadget.reads es = reports xs /\
         Gadget.run (Gadget.started (gadget_idle c) w) es =
           Some (Gadget.mkGadget (gadget_idle c') w' [] [] (replies xs rs) Gadget.Running)) /\
      forall es g, Gadget.run (Gadget.started (gadget_idle c) w) es = Some g -> Gadget.reads es = reports xs ->
        Gadget.handler g = gadget_idle c' /\ Gadget.world g = w' /\
        Gadget.wire g ++ Gadget.writing g ++ concat (Gadget.outbound g) = replies xs rs
  | Panic p => forall es g,
      Gadget.run (Gadget.started (gadget_idle c) w) es = Some g -> Gadget.reads es = reports xs ->
      Gadget.state g = Gadget.Crashed (Gadget.RxPanic p)
  end.
Proof.
  intros Hxs. pose proof (gadget_reports xs c w Hxs) as H.
  destruct (run _ _ _ w) as [[[w' st] rs]|p].
  - destruct H as (_ & c' & items & Hrx & Ho & Ha & Ht). exists c'. split_and!; [done..| |].
    + destruct (Gadget.run_reads (reports xs) (gadget_idle c) w [] w' (gadget_idle c') items) as (es & Hr & He).
      { by rewrite read_reports. }
      exists es. by rewrite <- Ho.
    + intros es g Hg%Gadget.run_explained Hr. unfold Gadget.explained, Gadget.accounts in Hg.
      rewrite Hr, read_reports, Hrx in Hg.
      destruct (Gadget.state g) as [|[]|]; try (destruct Hg as (it & [= <- <- <-] & <-); by rewrite Ho). by destruct Hg.
  - intros es g Hg%Gadget.run_explained Hr. unfold Gadget.explained, Gadget.accounts in Hg.
    rewrite Hr, read_reports, H in Hg. destruct (Gadget.state g) as [|[]|]; try by destruct Hg as (it & ? & _).
    by destruct Hg as [[= ->] _].
Qed.

Lemma gadget_wallet_witness :
  exists es c', Gadget.reads es = reports conversation /\
    Gadget.run (I := cosmos_app (Tok := demo_token) (D := plain_address)) (C := header_codec)
      (Gadget.started (gadget_idle (Tok := demo_token) (D := plain_address) demo_cosmos) 0%nat) es =
    Some (Gadget.mkGadget (gadget_idle (Tok := demo_token) (D := plain_address) c') 0%nat [] []
            (replies conversation conversation_replies) Gadget.Running).
Proof.
  pose proof (gadget_wallet (Tok := demo_token) (D := plain_address) (C := header_codec) demo_cosmos conversation 0%nat
    conversation_short) as H.
  rewrite conversation_run in H. destruct H as (c' & _ & _ & (es & Hr & Hes) & _). exists es, c'. split; [exact Hr|exact Hes].
Defined.

(** C4: No signature without a session, for contained messages.  On a freshly
    started device, for any messages each shorter than 65536 bytes and holding
    what its command reads (in particular sign-init commands of at least 25
    bytes: a shorter one takes its path from behind the message), if the device
    answers them all: the reply to a sign-last command is what the token gives
    for the path of the last init command before it and for the concatenation, in
    order, of the payloads of the add commands since then and of its own, provided
    no other sign-last command came in between; without such an init command the
    reply is an empty refusal.  Commands of other kinds in between do not matter,
    and no other sign command is answered with data. *)
Theorem signature_provenance {W T : Type} {Tok : Token W T} {D : AddressDeps} {C : CAPDUCodec}
    (tok : T) xs (w w' : W) hh out :
  Forall sent xs -> rx_all (firmware_main tok) (reports xs) w = Ret (w', hh, out) ->
  exists rs, out = replies xs rs /\ length rs = length xs /\
    forall i ch m, xs !! i = Some (ch, m) ->
      exists r, rs !! i = Some r /\ accounted tok (map (fun x => command_of x.2) (take i xs)) (command_of m) r.
Proof.
  intros Hxs Hrx. pose proof (rx_reports xs (mkCosmos tok None false) w Hxs) as H.
  change (rx_all (firmware_main tok) (reports xs) w) with (rx_all (idle (mkCosmos tok None false)) (reports xs) w) in Hrx.
  destruct (run _ _ _ w) as [[[w1 st] rs]|p] eqn:Hrun; [|by rewrite Hrx in H].
  destruct H as (Hn & c' & E & _). rewrite E in Hrx. injection Hrx as _ _ <-. exists rs. split_and!; [done..|].
  intros i ch m Hi. destruct (run_accounted tok _ [] _ _ _ _ _ remembers_nil Hrun i (command_of m)) as (r & Hr & Ha).
  { by rewrite list_lookup_fmap, Hi. }
  exists r. split; [done|]. by rewrite <- fmap_take in Ha.
Qed.

Lemma signature_provenance_witness :
  exists rs, length rs = 5%nat /\
    exists r, rs !! 4%nat = Some r /\
      accounted (Tok := demo_token) (@dumbToken.NewDumbToken path_keychain)
        (map (fun x => command_of x.2) (take 4 conversation)) (Signing (SigSpec.Last (bytes_of [125]))) r.
Proof.
  pose proof (rx_reports (Tok := demo_token) (D := plain_address) (C := header_codec) conversation demo_cosmos 0%nat
    conversation_sent) as H.
  rewrite conversation_run in H. destruct H as (_ & c' & Hrx & _).
  destruct (signature_provenance (Tok := demo_token) (D := plain_address) (C := header_codec)
    (@dumbToken.NewDumbToken path_keychain) conversation 0%nat _ _ _ conversation_sent Hrx) as (rs & _ & Hn & Ha).
  exists rs. split; [exact Hn|].
  exact (Ha 4%nat 0x0101 (demo_message 2 (bytes_of [125])) eq_refl).
Defined.

End Wallet.
