(* ===== verification/Tz.v ===== *)
(** * The trusted OS: [src/tee/trusted_os/tz], [src/tee/mem]

    The mailboxes through which the two worlds talk, the loading and running
    of trusted applets, the handlers of system calls, the log buffers, and the
    configuration of TrustZone.  GoTEE's monitor, the ELF loader and the
    hardware drivers are parameters. *)

From S2P Require Import Prelude GoRuntime JsonScan JsonTree JsonString JsonCodec Codec.
Import JsonString JsonCodec.

Module Tz.

(** ** Memory layout: [mem/layout.go] *)

Definition SecureStart : Z := 0x98000000.
Definition SecureSize : Z := 0x03f00000.
Definition SecureDMAStart : Z := 0x9bf00000.
Definition SecureDMASize : Z := 0x00100000.
Definition AppletStart : Z := 0x9c000000.
Definition AppletSize : Z := 0x02000000.
Definition NonSecureStart : Z := 0x80000000.
Definition NonSecureSize : Z := 0x10000000.

Record Region := mkRegion { Start : Z; Size : Z }.

Definition AppletRegion : Region := mkRegion AppletStart AppletSize.
Definition NonSecureRegion : Region := mkRegion NonSecureStart NonSecureSize.

(** ** Mail: [types/types.go] *)

Record Mail := mkMail { AppID : Z; Payload : list byte }.

Definition zero_mail : Mail := mkMail 0 [].

Definition CopyFrom (m o : Mail) : Mail := mkMail (AppID o) (Payload o).

(** ** The error an applet exits with: [client/client.go] *)

Record ClientPanic := mkClientPanic { cp_Msg : string; cp_Stacktrace : string }.

#[export] Instance ClientPanic_codec : Codec ClientPanic := {|
  go_type := TStruct [("Msg", TString); ("Stacktrace", TString)];
  to_gv p := VStruct [VString (bytes_of_string (cp_Msg p)); VString (bytes_of_string (cp_Stacktrace p))];
  of_gv v := mkClientPanic (string_of_bytes (get_string (field 0 v))) (string_of_bytes (get_string (field 1 v)))
|}.

(** The struct as an [error] value. *)
Definition client_panic (p : ClientPanic) : error := StructError "client.ClientPanic" [cp_Msg p; cp_Stacktrace p].

(** ** Errors *)

Definition ErrAppNotFound : error := Sentinel "app not found".
Definition ErrNoMail : error := Sentinel "no mail".
Definition ErrNoResult : error := Sentinel "no result".
Definition ErrMailboxFull : error := Sentinel "mailbox full".
Definition ErrResultBoxFull : error := Sentinel "result box full".
Definition ErrTAExit : error := Sentinel "ta exit".
Definition ErrNonsecureExit : error := Sentinel "nonsecure exit".

(** ** The context

    Both [sync.Map]s are only ever given [uint] keys and [[]byte] values, so
    the type assertions on what they hold cannot fail.  An app is its ELF
    file; its region is always [AppletRegion]. *)

Record Context := mkContext {
  Apps : gmap Z (list byte);
  mailbox : gmap Z (list byte);
  resultBox : gmap Z (list byte)
}.

Definition NewContext : Context := mkContext ∅ ∅ ∅.

Definition with_mailbox (c : Context) m := mkContext (Apps c) m (resultBox c).
Definition with_resultBox (c : Context) m := mkContext (Apps c) (mailbox c) m.

Definition RetrieveMail (c : Context) (appID : Z) : Context * result Mail :=
  match mailbox c !! appID with
  | None => (c, Err ErrNoMail)
  | Some mailb => (with_mailbox c (delete appID (mailbox c)), Ok (mkMail appID mailb))
  end.

(** [LoadAndDelete] removes what it finds before the error is returned. *)
Definition WriteResponse (c : Context) (result : Mail) : Context * option error :=
  match resultBox c !! AppID result with
  | Some _ => (with_resultBox c (delete (AppID result) (resultBox c)), Some ErrResultBoxFull)
  | None => (with_resultBox c (<[AppID result := Payload result]> (resultBox c)), None)
  end.

Definition ReadResponse (c : Context) (appID : Z) : Context * result Mail :=
  match resultBox c !! appID with
  | None => (c, Err ErrNoResult)
  | Some mailb => (with_resultBox c (delete appID (resultBox c)), Ok (mkMail appID mailb))
  end.

Definition SendMail (c : Context) (mail : Mail) : Context * option error :=
  match mailbox c !! AppID mail with
  | Some _ => (c, Some (Wrapf "cannot deliver mail for app %v, %w" [AppID mail] ErrMailboxFull))
  | None => (with_mailbox c (<[AppID mail := Payload mail]> (mailbox c)), None)
  end.

(** ** The RPC receivers: [SecureRPC] for applets, [NonsecureRPC] for the
    other world *)

Definition SecureRPC_RetrieveMail (c : Context) (appID : Z) (out : Mail) : Context * Mail * option error :=
  match RetrieveMail c appID with
  | (c, Err e) => (c, out, Some e)
  | (c, Ok mail) => (c, CopyFrom out mail, None)
  end.

Definition SecureRPC_WriteResponse (c : Context) (response : Mail) : Context * option error :=
  WriteResponse c response.

Definition NonsecureRPC_SendMail (c : Context) (mail : Mail) : Context * option error := SendMail c mail.

Definition NonsecureRPC_RetrieveResult (c : Context) (appID : Z) (out : Mail)
    : Context * Mail * option error :=
  match ReadResponse c appID with
  | (c, Err e) => (c, out, Some e)
  | (c, Ok mail) => (c, CopyFrom out mail, None)
  end.

(** A call of one of the four methods, and the boxes after any number of
    calls.  [Sent] and the like record what a call achieved. *)
Inductive call :=
| CallRetrieveMail (appID : Z)
| CallWriteResponse (response : Mail)
| CallSendMail (mail : Mail)
| CallRetrieveResult (appID : Z).

Inductive effect :=
| Taken (mail : Mail)
| Answered (response : Mail)
| Sent (mail : Mail)
| Fetched (mail : Mail)
| Failed (e : error).

Definition perform (c : Context) (k : call) : Context * effect :=
  match k with
  | CallRetrieveMail id =>
      let '(c, out, err) := SecureRPC_RetrieveMail c id zero_mail in
      (c, match err with None => Taken out | Some e => Failed e end)
  | CallWriteResponse m =>
      let '(c, err) := SecureRPC_WriteResponse c m in
      (c, match err with None => Answered m | Some e => Failed e end)
  | CallSendMail m =>
      let '(c, err) := NonsecureRPC_SendMail c m in
      (c, match err with None => Sent m | Some e => Failed e end)
  | CallRetrieveResult id =>
      let '(c, out, err) := NonsecureRPC_RetrieveResult c id zero_mail in
      (c, match err with None => Fetched out | Some e => Failed e end)
  end.

Fixpoint perform_all (c : Context) (ks : list call) : Context * list effect :=
  match ks with
  | [] => (c, [])
  | k :: rest =>
      let '(c1, e) := perform c k in
      let '(c2, es) := perform_all c1 rest in
      (c2, e :: es)
  end.

(** What reached and left the boxes of one app. *)
Definition sent (id : Z) (e : effect) : list (list byte) :=
  match e with Sent m => if AppID m =? id then [Payload m] else [] | _ => [] end.
Definition taken (id : Z) (e : effect) : list (list byte) :=
  match e with Taken m => if AppID m =? id then [Payload m] else [] | _ => [] end.
Definition answered (id : Z) (e : effect) : list (list byte) :=
  match e with Answered m => if AppID m =? id then [Payload m] else [] | _ => [] end.
Definition fetched (id : Z) (e : effect) : list (list byte) :=
  match e with Fetched m => if AppID m =? id then [Payload m] else [] | _ => [] end.

Definition pending (box : gmap Z (list byte)) (id : Z) : list (list byte) :=
  match box !! id with Some p => [p] | None => [] end.

(** ** Lemmas on the boxes *)

Lemma pending_delete box id id' :
  pending (delete id' box) id = if bool_decide (id' = id) then [] else pending box id.
Proof. unfold pending. rewrite lookup_delete. case_decide; by case_bool_decide. Qed.

Lemma pending_insert box id id' p :
  pending (<[id' := p]> box) id = if bool_decide (id' = id) then [p] else pending box id.
Proof. unfold pending. rewrite lookup_insert. case_decide; by case_bool_decide. Qed.

(** One call moves payloads between the outside and the box of one app. *)
Lemma perform_mail c k c' e id :
  perform c k = (c', e) ->
  pending (mailbox c) id ++ sent id e = taken id e ++ pending (mailbox c') id.
Proof.
  destruct k as [i|m|m|i]; simpl;
    unfold SecureRPC_RetrieveMail, NonsecureRPC_RetrieveResult, SecureRPC_WriteResponse, NonsecureRPC_SendMail,
      RetrieveMail, WriteResponse, SendMail, ReadResponse.
  - destruct (mailbox c !! i) as [p|] eqn:E; intros [= <- <-]; simpl; [|by rewrite app_nil_r].
    rewrite pending_delete, app_nil_r. case_bool_decide as Hi.
    + subst. unfold pending. by rewrite E, Z.eqb_refl.
    + by rewrite (proj2 (Z.eqb_neq i id) Hi).
  - destruct (resultBox c !! AppID m); intros [= <- <-]; simpl; by rewrite app_nil_r.
  - destruct (mailbox c !! AppID m) as [p|] eqn:E; intros [= <- <-]; simpl; [by rewrite app_nil_r|].
    rewrite pending_insert. case_bool_decide as Hi.
    + subst. unfold pending. by rewrite E, Z.eqb_refl.
    + by rewrite (proj2 (Z.eqb_neq _ id) Hi), app_nil_r.
  - destruct (resultBox c !! i); intros [= <- <-]; simpl; by rewrite app_nil_r.
Qed.

Lemma perform_result c k c' e id :
  perform c k = (c', e) -> e <> Failed ErrResultBoxFull ->
  pending (resultBox c) id ++ answered id e = fetched id e ++ pending (resultBox c') id.
Proof.
  destruct k as [i|m|m|i]; simpl;
    unfold SecureRPC_RetrieveMail, NonsecureRPC_RetrieveResult, SecureRPC_WriteResponse, NonsecureRPC_SendMail,
      RetrieveMail, WriteResponse, SendMail, ReadResponse.
  - destruct (mailbox c !! i); intros [= <- <-] _; simpl; by rewrite app_nil_r.
  - destruct (resultBox c !! AppID m) as [p|] eqn:E; intros [= <- <-] Hf; simpl; [done|].
    rewrite pending_insert. case_bool_decide as Hi.
    + subst. unfold pending. by rewrite E, Z.eqb_refl.
    + by rewrite (proj2 (Z.eqb_neq _ id) Hi), app_nil_r.
  - destruct (mailbox c !! AppID m); intros [= <- <-] _; simpl; by rewrite app_nil_r.
  - destruct (resultBox c !! i) as [p|] eqn:E; intros [= <- <-] _; simpl; [|by rewrite app_nil_r].
    rewrite pending_delete, app_nil_r. case_bool_decide as Hi.
    + subst. unfold pending. by rewrite E, Z.eqb_refl.
    + by rewrite (proj2 (Z.eqb_neq i id) Hi).
Qed.

Lemma perform_Apps c k : Apps (perform c k).1 = Apps c.
Proof.
  destruct k; simpl;
    unfold SecureRPC_RetrieveMail, NonsecureRPC_RetrieveResult, SecureRPC_WriteResponse, NonsecureRPC_SendMail,
      RetrieveMail, WriteResponse, SendMail, ReadResponse; repeat (case_match; simplify_eq/=); done.
Qed.

Lemma perform_all_mail ks : forall c c' es id,
  perform_all c ks = (c', es) ->
  pending (mailbox c) id ++ flat_map (sent id) es = flat_map (taken id) es ++ pending (mailbox c') id.
Proof.
  induction ks as [|k ks IH]; intros c c' es id H; simpl in H; [simplify_eq; simpl; by rewrite app_nil_r|].
  destruct (perform c k) as [c1 e] eqn:E1. destruct (perform_all c1 ks) as [c2 es'] eqn:E2. simplify_eq.
  simpl. rewrite app_assoc, (perform_mail _ _ _ _ id E1), <- !app_assoc. f_equal. by apply IH.
Qed.

Lemma perform_all_result ks : forall c c' es id,
  perform_all c ks = (c', es) -> Forall (fun e => e <> Failed ErrResultBoxFull) es ->
  pending (resultBox c) id ++ flat_map (answered id) es
  = flat_map (fetched id) es ++ pending (resultBox c') id.
Proof.
  induction ks as [|k ks IH]; intros c c' es id H Hes; simpl in H; [simplify_eq; simpl; by rewrite app_nil_r|].
  destruct (perform c k) as [c1 e] eqn:E1. destruct (perform_all c1 ks) as [c2 es'] eqn:E2. simplify_eq.
  apply Forall_cons_iff in Hes as [He Hes].
  simpl. rewrite app_assoc, (perform_result _ _ _ _ id E1 He), <- !app_assoc. f_equal. by apply IH.
Qed.

(** ** Log buffers: [log.go]

    [stdout] lists the [Write] calls, each with the world whose buffer it
    flushed (the flag is for the proofs; only the bytes are written). *)

Definition outputLimit : nat := 1024.
Definition flushChr : Z := 0x0a.

Record Log := mkLog {
  secureOutput : list byte;
  nonSecureOutput : list byte;
  stdout : list (bool * list byte)
}.

Definition empty_log : Log := mkLog [] [] [].

Definition output (ns : bool) (g : Log) : list byte := if ns then nonSecureOutput g else secureOutput g.

Definition with_output (ns : bool) (buf : list byte) (out : list (bool * list byte)) (g : Log) : Log :=
  if ns then mkLog (secureOutput g) buf out else mkLog buf (nonSecureOutput g) out.

Definition bufferedStdoutLog (c : byte) (ns : bool) (g : Log) : Log :=
  let buf := output ns g ++ [c] in
  if (byte.unsigned c =? flushChr) || bool_decide (outputLimit < length buf)%nat
  then with_output ns [] (stdout g ++ [(ns, buf)]) g
  else with_output ns buf (stdout g) g.

(** A terminal: its escape codes and what was written to it. *)
Record Terminal := mkTerminal { Red : list byte; Green : list byte; Reset : list byte; term_out : list (list byte) }.

Definition term_Write (t : Terminal) (p : list byte) : Terminal :=
  mkTerminal (Red t) (Green t) (Reset t) (term_out t ++ [p]).

Definition bufferedTermLog (c : byte) (ns : bool) (g : Log) (t : Terminal) : Log * Terminal :=
  let color := if ns then Red t else Green t in
  let buf := output ns g ++ [c] in
  if (byte.unsigned c =? flushChr) || bool_decide (outputLimit < length buf)%nat
  then (with_output ns [] (stdout g ++ [(ns, buf)]) g,
        term_Write (term_Write (term_Write t color) buf) (Reset t))
  else (with_output ns buf (stdout g) g, t).

Fixpoint log_all (cs : list (byte * bool)) (g : Log) : Log :=
  match cs with
  | [] => g
  | (c, ns) :: rest => log_all rest (bufferedStdoutLog c ns g)
  end.

(** The bytes of one world, written and still buffered. *)
Definition written (ns : bool) (g : Log) : list byte :=
  concat (map snd (List.filter (fun x => Bool.eqb x.1 ns) (stdout g))).

Definition logged (ns : bool) (cs : list (byte * bool)) : list byte :=
  map fst (List.filter (fun x => Bool.eqb x.2 ns) cs).

(** A buffer holds an unfinished line that is not too long; what is written
    is a line, or a piece of one of exactly 1025 bytes. *)
Definition unfinished (buf : list byte) : Prop :=
  (length buf <= outputLimit)%nat /\ Forall (fun c => byte.unsigned c <> flushChr) buf.

Definition flushed (w : list byte) : Prop :=
  exists line c, w = line ++ [c] /\ unfinished line /\
    (byte.unsigned c = flushChr \/ length w = S outputLimit).

Record log_ok (g : Log) : Prop := {
  log_buffers ns : unfinished (output ns g);
  log_writes : Forall (fun w => flushed w.2) (stdout g)
}.

(** Both loggers treat the buffers and standard output alike. *)
Lemma term_log_same c ns g t : (bufferedTermLog c ns g t).1 = bufferedStdoutLog c ns g.
Proof. unfold bufferedTermLog, bufferedStdoutLog. by destruct (_ || _). Qed.

Lemma output_with ns ns' buf out g :
  output ns (with_output ns' buf out g) = if Bool.eqb ns ns' then buf else output ns g.
Proof. by destruct ns, ns'. Qed.

Lemma stdout_with ns buf out g : stdout (with_output ns buf out g) = out.
Proof. by destruct ns. Qed.

Lemma log1_ok c ns g : log_ok g -> log_ok (bufferedStdoutLog c ns g).
Proof.
  intros [Hb Hw]. unfold bufferedStdoutLog. pose proof (Hb ns) as [Hl Hn].
  rewrite length_app; simpl. destruct (Z.eqb_spec (byte.unsigned c) flushChr) as [Hc|Hc]; simpl;
    [|case_bool_decide as Hlen]; split; intros; rewrite ?output_with, ?stdout_with; try (by case_match);
    try (case_match; [|done]).
  - split; [simpl; lia|constructor].
  - apply Forall_app. split; [done|]. constructor; [|constructor]. exists (output ns g), c. by repeat split; auto.
  - split; [simpl; lia|constructor].
  - apply Forall_app. split; [done|]. constructor; [|constructor]. exists (output ns g), c.
    split_and!; [done|done|]. right. simpl. rewrite length_app; simpl. lia.
  - split; [rewrite length_app; simpl; lia|]. apply Forall_app. by repeat constructor.
  - done.
Qed.

Lemma log1_written c ns g ns' :
  written ns' (bufferedStdoutLog c ns g) ++ output ns' (bufferedStdoutLog c ns g)
  = written ns' g ++ output ns' g ++ (if Bool.eqb ns ns' then [c] else []).
Proof.
  unfold bufferedStdoutLog, written.
  destruct (_ || _); rewrite output_with, stdout_with.
  - rewrite List.filter_app, map_app, concat_app. simpl. destruct ns, ns'; simpl;
      by rewrite ?app_nil_r, ?app_assoc.
  - destruct ns, ns'; simpl; by rewrite ?app_nil_r.
Qed.

Lemma log_all_ok cs : forall g, log_ok g -> log_ok (log_all cs g).
Proof. induction cs as [|[c ns] cs IH]; intros g Hg; [done|]. simpl. by apply IH, log1_ok. Qed.

Lemma log_all_written cs : forall g ns,
  written ns (log_all cs g) ++ output ns (log_all cs g) = written ns g ++ output ns g ++ logged ns cs.
Proof.
  induction cs as [|[c ns'] cs IH]; intros g ns; simpl; [by rewrite app_nil_r|].
  rewrite IH, app_assoc, log1_written. unfold logged; simpl.
  destruct (Bool.eqb ns' ns); simpl; by rewrite <- !app_assoc.
Qed.

Lemma empty_log_ok : log_ok empty_log.
Proof. split; [intros []|]; simpl; repeat constructor; simpl; lia. Qed.

(** ** Applets and the monitor *)

Inductive handler_kind := DefaultHandler | LogHandler | NonsecureWorldHandler.
Inductive receiver := SecureRPC | NonsecureRPC.

(** The part of [monitor.ExecCtx] the trusted OS uses. *)
Record ExecCtx := mkExecCtx {
  R0 : Z; R1 : Z; R2 : Z; R13 : Z;
  Memory : Region;
  NonSecure : bool;
  Debug : bool;
  ctx_Handler : handler_kind;
  Server : list receiver
}.

(** GoTEE's monitor, armory-boot's ELF loader, and the sources of bytes of
    the exit-with-error call.  Running a context and GoTEE's default handler
    call the methods of the receivers registered in it, so they take and
    return the context of the trusted OS. *)
Class Monitor (W : Type) := {
  image_Load : list byte -> Region -> W -> W * option error;
  image_Entry : list byte -> Z;
  monitor_Load : Z -> Region -> bool -> W -> W * result ExecCtx;
  ctx_Run : ExecCtx -> Context -> W -> go (W * ExecCtx * Context * option error);
  SecureHandler : ExecCtx -> Context -> W -> go (W * Context * option error);
  NonSecureHandler : ExecCtx -> Context -> W -> go (W * Context * option error);
  rand_fill : nat -> W -> W * option error;
  Memory_Read : Region -> Z -> nat -> W -> list byte
}.

Definition secure_call (k : call) : bool :=
  match k with CallRetrieveMail _ | CallWriteResponse _ => true | _ => false end.
Definition nonsecure_call (k : call) : bool :=
  match k with CallSendMail _ | CallRetrieveResult _ => true | _ => false end.

Definition allowed (rs : list receiver) (k : call) : bool :=
  existsb (fun r => match r with SecureRPC => secure_call k | NonsecureRPC => nonsecure_call k end) rs.

(** What the monitor documents: code it runs reaches the trusted OS only
    through the methods of the receivers that were registered, and loading
    gives a context of the requested world on the requested region. *)
Class MonitorLaws (W : Type) (M : Monitor W) : Prop := {
  run_calls x c w w' x' c' err :
    ctx_Run x c w = Ret (w', x', c', err) ->
    exists ks, Forall (fun k => allowed (Server x) k = true) ks /\ (perform_all c ks).1 = c';
  handler_calls x c w w' c' err :
    SecureHandler x c w = Ret (w', c', err) ->
    exists ks, Forall (fun k => allowed (Server x) k = true) ks /\ (perform_all c ks).1 = c';
  load_ctx entry r secure w w' x :
    monitor_Load entry r secure w = (w', Ok x) ->
    Memory x = r /\ NonSecure x = negb secure /\ Server x = []
}.

Section monitor.
Context {W : Type} {M : Monitor W}.

(** [(c *Context) RegisterApp] *)
Definition RegisterApp (c : Context) (appContent : list byte) (appID : Z) (w : W)
    : W * Context * option error :=
  let '(w, err) := image_Load appContent AppletRegion w in
  match err with
  | Some e => (w, c, Some e)
  | None => (w, mkContext (<[appID := appContent]> (Apps c)) (mailbox c) (resultBox c), None)
  end.

(** [(c *Context) loadTA] *)
Definition loadTA (c : Context) (appID : Z) (w : W) : W * result ExecCtx :=
  match Apps c !! appID with
  | None => (w, Err (Wrapf "cannot load app %v, %w" [appID] ErrAppNotFound))
  | Some image =>
      let '(w, err) := image_Load image AppletRegion w in
      match err with
      | Some e => (w, Err e)
      | None =>
          match monitor_Load (image_Entry image) AppletRegion true w with
          | (w, Err e) => (w, Err (Wrapf "cannot load app, %w" [] e))
          | (w, Ok ta) =>
              (w, Ok (mkExecCtx (R0 ta) (R1 ta) (R2 ta) (AppletStart + AppletSize) (Memory ta)
                        (NonSecure ta) true LogHandler (Server ta ++ [SecureRPC])))
          end
      end
  end.

(** [run]: any end of a context but its own exit is a panic. *)
Definition run (ctx : ExecCtx) (c : Context) (w : W) : go (W * Context) :=
  '(w, ctx, c, err) ← ctx_Run ctx c w;
  let errTemplate := if NonSecure ctx then ErrNonsecureExit else ErrTAExit in
  match err with
  | None => Ret (w, c)
  | Some e =>
      if errors_Is e errTemplate then Ret (w, c)
      else match errors_As e "client.ClientPanic" with
           | Some ce => Panic (PanicValue ce)
           | None => Panic (PanicValue e)
           end
  end.

(** The [Range] over the mailbox: [keys] is the order the map yields; a mail
    taken in the meantime is skipped. *)
Fixpoint dispatch_range (keys : list Z) (c : Context) (w : W) : go (W * Context) :=
  match keys with
  | [] => Ret (w, c)
  | key :: rest =>
      match mailbox c !! key with
      | None => dispatch_range rest c w
      | Some _ =>
          match loadTA c key w with
          | (w, Err e) => Panic (PanicValue (Wrapf "cannot load ta %v, %w" [key] e))
          | (w, Ok ta) => '(w, c) ← run ta c w; dispatch_range rest c w
          end
      end
  end.

(** A map is ranged over in any order of its keys. *)
Definition range_order (c : Context) (keys : list Z) : Prop := keys ≡ₚ (map_to_list (mailbox c)).*1.

Definition SYS_EXIT : Z := 0.
Definition SYS_WRITE : Z := 1.
Definition SYS_NANOTIME : Z := 2.
Definition SYS_GETRANDOM : Z := 3.
Definition SYS_RPC_REQ : Z := 4.
Definition SYS_RPC_RES : Z := 5.
Definition SYS_EXIT_ERROR : Z := 666.

(** [int(x)] of a [uint32] on the 32-bit target. *)
Definition to_int (x : Z) : Z := if x <? 2 ^ 31 then x else x - 2 ^ 32.

(** The offset of the error an applet exits with, if it passes the check. *)
Definition exit_offset (ctx : ExecCtx) (len : Z) : option Z :=
  let off := to_int (u32 (R1 ctx - Start (Memory ctx))) in
  if (0 <=? off) && (off <? Size (Memory ctx) - len) then Some off else None.

(** [logHandler]; [maxAlloc] is the largest slice [make] can allocate. *)
Definition logHandler (maxAlloc : Z) (ctx : ExecCtx) (c : Context) (g : Log) (w : W)
    : go (W * Context * Log * option error) :=
  if R0 ctx =? SYS_WRITE then
    Ret (w, c, bufferedStdoutLog (byte.of_Z (R1 ctx)) (NonSecure ctx) g, None)
  else if NonSecure ctx && (R0 ctx =? SYS_EXIT) then Ret (w, c, g, Some ErrNonsecureExit)
  else if R0 ctx =? SYS_EXIT then Ret (w, c, g, Some ErrTAExit)
  else if R0 ctx =? SYS_EXIT_ERROR then
    buf ← make_bytes maxAlloc (R2 ctx);
    match exit_offset ctx (Z.of_nat (length buf)) with
    | None => Ret (w, c, g, Some (Errorf "invalid read offset" []))
    | Some off =>
        let '(w, err) := rand_fill (length buf) w in
        match err with
        | Some _ => Ret (w, c, g, Some (Errorf "internal error" []))
        | None =>
            match unmarshal (A := ClientPanic) (Memory_Read (Memory ctx) off (length buf) w) with
            | (_, Some e) => Ret (w, c, g, Some (Wrapf "cannot unmarshal TA error, %w" [] e))
            | (ce, None) => Ret (w, c, g, Some (client_panic ce))
            end
        end
    end
  else
    '(w, c, err) ← SecureHandler ctx c w; Ret (w, c, g, err).

(** [logHandlerCopy], which nothing calls. *)
Definition logHandlerCopy (ctx : ExecCtx) (c : Context) (g : Log) (w : W) : go (W * Context * Log * option error) :=
  let defaultHandler := if NonSecure ctx then NonSecureHandler else SecureHandler in
  if R0 ctx =? SYS_WRITE then
    Ret (w, c, bufferedStdoutLog (byte.of_Z (R1 ctx)) (NonSecure ctx) g, None)
  else if NonSecure ctx && (R0 ctx =? SYS_EXIT) then Ret (w, c, g, Some (Errorf "exit" []))
  else '(w, c, err) ← defaultHandler ctx c w; Ret (w, c, g, err).

(** [(c *Context) nonsecureWorldHandler] *)
Definition nonsecureWorldHandler (maxAlloc : Z) (order : Context -> list Z)
    (ctx : ExecCtx) (c : Context) (g : Log) (w : W) : go (W * Context * Log * option error) :=
  if negb ((R0 ctx =? SYS_RPC_REQ) || (R0 ctx =? SYS_RPC_RES)) then logHandler maxAlloc ctx c g w
  else
    '(w, c, err) ← SecureHandler ctx c w;
    match err with
    | Some e => Ret (w, c, g, Some e)
    | None => '(w, c) ← dispatch_range (order c) c w; Ret (w, c, g, None)
    end.

End monitor.

End Tz.
