(* ===== verification/TzTheory.v ===== *)
(** * Properties of the trusted OS

    Delivery of mail and results, what a request of the other world leads to,
    the reset on mail for an unknown app, the log buffers, and the check on
    the error an applet exits with. *)

From S2P Require Import Prelude GoRuntime JsonScan JsonTree JsonString JsonCodec Codec Tz.
Import Tz.

Section theory.
Context {W : Type} {M : Monitor W}.

Lemma perform_all_Apps ks : forall c, Apps (perform_all c ks).1 = Apps c.
Proof.
  induction ks as [|k ks IH]; intros c; [done|]. simpl.
  pose proof (perform_Apps c k) as Hk. destruct (perform c k) as [c1 e].
  specialize (IH c1). destruct (perform_all c1 ks) as [c2 es]. simpl in *. congruence.
Qed.

(** ** What each world's calls do to the boxes *)

(** The other world adds mail and takes results; an applet takes mail. *)
Definition from_other_world (c c' : Context) : Prop :=
  mailbox c ⊆ mailbox c' /\ resultBox c' ⊆ resultBox c /\ Apps c' = Apps c.

Definition from_applet (c c' : Context) : Prop := mailbox c' ⊆ mailbox c /\ Apps c' = Apps c.

Lemma perform_other_world c k : nonsecure_call k = true -> from_other_world c (perform c k).1.
Proof.
  intros Hk. split_and!; [..|apply perform_Apps]; destruct k as [i|m|m|i]; try done; simpl;
    unfold NonsecureRPC_SendMail, NonsecureRPC_RetrieveResult, SendMail, ReadResponse; repeat (case_match; simplify_eq/=); try done.
  - by apply insert_subseteq.
  - apply delete_subseteq.
Qed.

Lemma perform_applet c k : secure_call k = true -> from_applet c (perform c k).1.
Proof.
  intros Hk. split; [|apply perform_Apps]. destruct k as [i|m|m|i]; try done; simpl;
    unfold SecureRPC_RetrieveMail, SecureRPC_WriteResponse, RetrieveMail, WriteResponse; repeat (case_match; simplify_eq/=); try done.
  apply delete_subseteq.
Qed.

(** A relation of contexts that one call of a kind keeps is kept by many. *)
Lemma perform_all_rel (R : Context -> Context -> Prop) (P : call -> bool) ks :
  PreOrder R -> (forall c k, P k = true -> R c (perform c k).1) ->
  forall c, Forall (fun k => P k = true) ks -> R c (perform_all c ks).1.
Proof.
  intros HR HP. induction ks as [|k ks IH]; intros c Hks; [done|].
  apply Forall_cons_iff in Hks as [Hk Hks]. simpl. pose proof (HP c k Hk) as H1.
  destruct (perform c k) as [c1 e]. specialize (IH c1 Hks). destruct (perform_all c1 ks) as [c2 es]. by etrans.
Qed.

#[global] Instance from_other_world_preorder : PreOrder from_other_world.
Proof. split; [done|]. intros c1 c2 c3 (? & ? & ?) (? & ? & ?). split_and!; [by etrans|by etrans|congruence]. Qed.

#[global] Instance from_applet_preorder : PreOrder from_applet.
Proof. split; [done|]. intros c1 c2 c3 (? & ?) (? & ?). split; [by etrans|congruence]. Qed.

Context {L : MonitorLaws W M}.

Lemma handler_other_world x c w w' c' err :
  Server x = [NonsecureRPC] -> SecureHandler x c w = Ret (w', c', err) -> from_other_world c c'.
Proof.
  intros Hx H. destruct (handler_calls _ _ _ _ _ _ H) as (ks & Hks & <-). rewrite Hx in Hks.
  apply (perform_all_rel _ nonsecure_call); [apply _|apply perform_other_world|].
  eapply List.Forall_impl; [|exact Hks]. intros k. cbn. by rewrite orb_false_r.
Qed.

Lemma run_applet_calls x c w w' x' c' err :
  Server x = [SecureRPC] -> ctx_Run x c w = Ret (w', x', c', err) -> from_applet c c'.
Proof.
  intros Hx H. destruct (run_calls _ _ _ _ _ _ _ H) as (ks & Hks & <-). rewrite Hx in Hks.
  apply (perform_all_rel _ secure_call); [apply _|apply perform_applet|].
  eapply List.Forall_impl; [|exact Hks]. intros k. cbn. by rewrite orb_false_r.
Qed.

(** ** The applets a request starts *)

(** How an applet is started: in the applets' region, in the secure world, with
    the handler that logs and the receiver for applets and no other. *)
Definition applet_ctx (x : ExecCtx) : Prop :=
  Memory x = AppletRegion /\ NonSecure x = false /\ ctx_Handler x = LogHandler /\ Server x = [SecureRPC].

(** The applets [ids] run one after the other, each once, registered and with
    mail waiting; between two runs the context is handed on as it is, and each
    run ended with the exit of its applet. *)
Inductive applets_run : Context -> W -> list Z -> Context -> W -> Prop :=
| applets_none c w : applets_run c w [] c w
| applets_one c w id w1 x w2 x' c1 err ids c2 w3 :
    is_Some (mailbox c !! id) -> is_Some (Apps c !! id) -> loadTA c id w = (w1, Ok x) -> applet_ctx x ->
    ctx_Run x c w1 = Ret (w2, x', c1, err) ->
    (forall e, err = Some e -> errors_Is e (if NonSecure x' then ErrNonsecureExit else ErrTAExit) = true) ->
    applets_run c1 w2 ids c2 w3 -> applets_run c w (id :: ids) c2 w3.

Lemma loadTA_ctx c id w w' x : loadTA c id w = (w', Ok x) -> is_Some (Apps c !! id) /\ applet_ctx x.
Proof.
  unfold loadTA. destruct (Apps c !! id) as [image|]; [|done]. destruct (image_Load _ _ w) as [w1 [e|]]; [done|].
  destruct (monitor_Load _ _ _ w1) as [w2 [ta|e]] eqn:E; [|done]. intros [= <- <-].
  apply load_ctx in E as (Hm & Hn & Hs). split; [done|]. unfold applet_ctx; cbn. by rewrite Hm, Hn, Hs.
Qed.

Lemma applets_run_from c w ids c' w' : applets_run c w ids c' w' -> from_applet c c'.
Proof.
  induction 1 as [c w|c w id w1 x w2 x' c1 err ids c2 w3 _ _ _ (_ & _ & _ & Hx) Hr _ _ IH]; [done|].
  etrans; [by eapply run_applet_calls|done].
Qed.

Lemma dispatch_runs keys : forall c w w' c',
  dispatch_range keys c w = Ret (w', c') ->
  exists ids, applets_run c w ids c' w' /\ ids `sublist_of` keys /\
    forall id, id ∈ keys -> id ∈ ids \/ mailbox c' !! id = None.
Proof.
  induction keys as [|k keys IH]; intros c w w' c' H; cbn [dispatch_range] in H.
  { simplify_eq. exists []. split_and!; [constructor|constructor|]. by intros id ?%elem_of_nil. }
  destruct (mailbox c !! k) as [mail|] eqn:Hk.
  - destruct (loadTA c k w) as [w1 [x|e]] eqn:Hl; [|done]. unfold run in H.
    apply go_bind_Ret_inv in H as ([w2 c2] & Hr & H).
    apply go_bind_Ret_inv in Hr as ([[[w3 x'] c3] err] & Hrun & Hr).
    destruct (IH _ _ _ _ H) as (ids & Hids & Hsub & Hall). destruct (loadTA_ctx _ _ _ _ _ Hl) as [Ha Hx].
    exists (k :: ids). split_and!; [|by constructor|].
    + assert (w3 = w2 /\ c3 = c2 /\ forall e, err = Some e ->
        errors_Is e (if NonSecure x' then ErrNonsecureExit else ErrTAExit) = true) as (-> & -> & He).
      { destruct err as [e|]; [|by simplify_eq]. destruct (errors_Is e _) eqn:Ee; [|by destruct (errors_As _ _)].
        simplify_eq. split_and!; [done..|]. by intros ? [= <-]. }
      by econstructor.
    + intros id [->|Hid]%elem_of_cons; [left; constructor|]. destruct (Hall id Hid); [left; by constructor|by right].
  - destruct (IH _ _ _ _ H) as (ids & Hids & Hsub & Hall). exists ids. split_and!; [done|by constructor|].
    intros id [->|Hid]%elem_of_cons; [right|by apply Hall].
    destruct (applets_run_from _ _ _ _ _ Hids) as [Hm _]. by eapply lookup_weaken_None.
Qed.

End theory.

(** ** A concrete monitor for the witnesses

    It loads anything; a run takes the applet's mail, answers with the same
    payload and exits; a handled request delivers the mail the world holds. *)

Definition echo_ctx (r : Region) (secure : bool) : ExecCtx :=
  mkExecCtx 0 0 0 0 r (negb secure) false DefaultHandler [].

Definition echo_calls : list call := [CallRetrieveMail 42; CallWriteResponse (mkMail 42 (bytes_of [1]))].

Definition echo_monitor : Monitor Mail := {|
  image_Load := fun _ _ w => (w, None);
  image_Entry := fun _ => 0;
  monitor_Load := fun _ r secure w => (w, Ok (echo_ctx r secure));
  ctx_Run := fun x c w =>
    if allowed (Server x) (CallRetrieveMail 42)
    then Ret (w, x, (perform_all c echo_calls).1, Some ErrTAExit)
    else Ret (w, x, c, Some ErrTAExit);
  SecureHandler := fun x c w =>
    if allowed (Server x) (CallSendMail w)
    then Ret (w, (perform_all c [CallSendMail w]).1, None) else Ret (w, c, None);
  NonSecureHandler := fun x c w => Ret (w, c, None);
  rand_fill := fun _ w => (w, None);
  Memory_Read := fun _ _ n _ => zeros n
|}.

Lemma echo_monitor_laws : MonitorLaws Mail echo_monitor.
Proof.
  split.
  - intros x c w w' x' c' err. simpl. destruct (allowed (Server x) (CallRetrieveMail 42)) eqn:E.
    + intros [= <- <- <- <-]. exists echo_calls. split; [|done].
      assert (allowed (Server x) (CallWriteResponse (mkMail 42 (bytes_of [1]))) = true) as E'.
      { rewrite <- E. unfold allowed. induction (Server x) as [|[] l IH]; [done|done|]. simpl in *. by apply IH. }
      repeat (constructor; [done|]). constructor.
    + intros [= <- <- <- <-]. exists []. by split.
  - intros x c w w' c' err. simpl. destruct (allowed (Server x) (CallSendMail w)) eqn:E.
    + intros [= <- <- <-]. exists [CallSendMail w]. split; [by repeat constructor|done].
    + intros [= <- <- <-]. exists []. by split.
  - intros entry r secure w w' x [= <- <-]. done.
Qed.

(** The context of a world that asks for an RPC. *)
Definition rpc_ctx : ExecCtx :=
  mkExecCtx SYS_RPC_REQ 0 0 0 NonSecureRegion true true NonsecureWorldHandler [NonsecureRPC].

(** ** Properties *)

(** C16: Delivery.  Whatever sequence of RPCs the two worlds make, for every
    app the mails it retrieved, followed by the one that may still wait in its
    mailbox, are exactly the mails that were accepted for it, in order: none is
    lost, duplicated, reordered or delivered to another app.  The same holds
    for results as long as no write of a result is refused because one is
    waiting (a refused write loses the waiting one). *)
Theorem mail_delivery c ks c' es id :
  perform_all c ks = (c', es) ->
  pending (mailbox c) id ++ flat_map (sent id) es = flat_map (taken id) es ++ pending (mailbox c') id /\
  (Forall (fun e => e <> Failed ErrResultBoxFull) es ->
   pending (resultBox c) id ++ flat_map (answered id) es
   = flat_map (fetched id) es ++ pending (resultBox c') id).
Proof. intros H. split; [by eapply perform_all_mail|intros; by eapply perform_all_result]. Qed.

Lemma mail_delivery_witness :
  flat_map (sent 42) [Sent (mkMail 42 (bytes_of [7])); Taken (mkMail 42 (bytes_of [7]));
                      Sent (mkMail 42 (bytes_of [8]))]
  = flat_map (taken 42) [Sent (mkMail 42 (bytes_of [7])); Taken (mkMail 42 (bytes_of [7]));
                         Sent (mkMail 42 (bytes_of [8]))] ++ [bytes_of [8]].
Proof.
  exact (proj1 (mail_delivery NewContext
    [CallSendMail (mkMail 42 (bytes_of [7])); CallRetrieveMail 42; CallSendMail (mkMail 42 (bytes_of [8]))]
    (perform_all NewContext
      [CallSendMail (mkMail 42 (bytes_of [7])); CallRetrieveMail 42; CallSendMail (mkMail 42 (bytes_of [8]))]).1
    _ 42 eq_refl)).
Defined.

(** C38: A second result destroys the first.  Writing a result while one is
    waiting is refused, but the waiting one is removed too: the other world
    finds no result afterwards, although one was accepted. *)
Theorem result_overwrite_lost c m p :
  resultBox c !! AppID m = Some p ->
  exists c', WriteResponse c m = (c', Some ErrResultBoxFull) /\
    resultBox c' !! AppID m = None /\ ReadResponse c' (AppID m) = (c', Err ErrNoResult) /\
    mailbox c' = mailbox c /\ (forall id, id <> AppID m -> resultBox c' !! id = resultBox c !! id).
Proof.
  intros Hp. unfold WriteResponse. rewrite Hp. eexists. split; [done|]. simpl.
  unfold ReadResponse; simpl. rewrite lookup_delete_eq. split_and!; try done.
  intros id Hid. by rewrite lookup_delete_ne.
Qed.

Lemma result_overwrite_lost_witness :
  exists c', WriteResponse (mkContext ∅ ∅ {[42 := bytes_of [7]]}) (mkMail 42 (bytes_of [8]))
      = (c', Some ErrResultBoxFull) /\ ReadResponse c' 42 = (c', Err ErrNoResult).
Proof.
  destruct (result_overwrite_lost (mkContext ∅ ∅ {[42 := bytes_of [7]]}) (mkMail 42 (bytes_of [8]))
    (bytes_of [7])) as (c' & H1 & _ & H2 & _).
  - reflexivity.
  - exists c'. split; [exact H1|exact H2].
Defined.

(** C20: What a request of the other world leads to.  When the trusted OS has
    handled an RPC system call of the other world without an error, then GoTEE's
    handler ran once and could only add mail and take results, not take mail or
    put results; on exactly the context it left, applets ran one after the other,
    each at most once, each registered and with mail waiting, in the applets'
    region, in the secure world and with the applets' methods only, and nothing
    else touched the boxes between and after them; no app with mail was passed
    over, unless another applet had taken its mail; the applets added no mail,
    and the table of applets is the same. *)
Theorem request_served {W : Type} {M : Monitor W} {L : MonitorLaws W M} maxAlloc order x c g (w w' : W) c' g' :
  R0 x = SYS_RPC_REQ \/ R0 x = SYS_RPC_RES -> Server x = [NonsecureRPC] -> (forall c, range_order c (order c)) ->
  nonsecureWorldHandler maxAlloc order x c g w = Ret (w', c', g', None) ->
  exists w1 c1 ids,
    SecureHandler x c w = Ret (w1, c1, None) /\ mailbox c ⊆ mailbox c1 /\ resultBox c1 ⊆ resultBox c /\
    applets_run c1 w1 ids c' w' /\ NoDup ids /\
    (forall id, id ∈ ids -> is_Some (mailbox c1 !! id)) /\
    (forall id, is_Some (mailbox c1 !! id) -> id ∈ ids \/ mailbox c' !! id = None) /\
    mailbox c' ⊆ mailbox c1 /\ Apps c' = Apps c.
Proof.
  intros Hr Hx Ho H. unfold nonsecureWorldHandler in H.
  assert (negb ((R0 x =? SYS_RPC_REQ) || (R0 x =? SYS_RPC_RES)) = false) as E.
  { destruct Hr as [-> | ->]; reflexivity. }
  rewrite E in H. apply go_bind_Ret_inv in H as ([[w1 c1] [e|]] & Hh & H); [by simplify_eq|].
  apply go_bind_Ret_inv in H as ([w2 c2] & Hd & [= <- <- <-]). exists w1, c1.
  destruct (handler_other_world _ _ _ _ _ _ Hx Hh) as (Hm & Hres & Ha).
  destruct (dispatch_runs _ _ _ _ _ Hd) as (ids & Hids & Hsub & Hall). exists ids.
  destruct (applets_run_from _ _ _ _ _ Hids) as [Hm' Ha'].
  assert (Hkeys : forall id, id ∈ order c1 <-> is_Some (mailbox c1 !! id)).
  { intros id. rewrite (Ho c1), list_elem_of_fmap. split.
    - intros ([i m] & -> & Hi%elem_of_map_to_list). by exists m.
    - intros [m Hi]. exists (id, m). split; [done|]. by apply elem_of_map_to_list. }
  split_and!; [done..| | | |done|congruence].
  - eapply sublist_NoDup; [|exact Hsub]. rewrite (Ho c1). apply NoDup_fst_map_to_list.
  - intros id Hid. apply Hkeys. eapply elem_of_submseteq; [exact Hid|by apply sublist_submseteq].
  - intros id Hid%Hkeys. by apply Hall.
Qed.

(** One request for the echoing applet. *)
Definition echo_context : Context := mkContext {[42 := []]} ∅ ∅.

Lemma request_served_witness :
  exists w1 c1 ids, mailbox c1 = {[42 := bytes_of [7]]} /\
    applets_run (M := echo_monitor) c1 w1 ids (mkContext {[42 := []]} ∅ {[42 := bytes_of [1]]}) (mkMail 42 (bytes_of [7])).
Proof.
  destruct (request_served (M := echo_monitor) (L := echo_monitor_laws) 0 (fun c => (map_to_list (mailbox c)).*1) rpc_ctx
    echo_context empty_log (mkMail 42 (bytes_of [7])) (mkMail 42 (bytes_of [7]))
    (mkContext {[42 := []]} ∅ {[42 := bytes_of [1]]}) empty_log) as (w1 & c1 & ids & Hh & _ & _ & Hids & _).
  - left. reflexivity.
  - reflexivity.
  - intros c. apply Permutation_refl.
  - vm_compute. reflexivity.
  - exists w1, c1, ids. split; [|exact Hids]. injection Hh as <- <-. reflexivity.
Defined.

(** C35: Mail for an app that is not loaded stops the system.  The other world
    may address any app; if a request leaves one mail, for an app the trusted
    OS does not have, handling that request panics with app-not-found, which
    resets the board. *)
Theorem unknown_app_panics {W : Type} {M : Monitor W} maxAlloc order x c g (w w' : W) c' id mail :
  R0 x = SYS_RPC_REQ ->
  SecureHandler x c w = Ret (w', c', None) ->
  mailbox c' = {[id := mail]} -> Apps c' !! id = None -> range_order c' (order c') ->
  exists e, nonsecureWorldHandler maxAlloc order x c g w = Panic (PanicValue e) /\
    errors_Is e ErrAppNotFound = true.
Proof.
  intros Hr Hh Hm Ha Ho. unfold nonsecureWorldHandler. rewrite Hr; simpl. rewrite Hh, go_bind_ret.
  unfold range_order in Ho. rewrite Hm, map_to_list_singleton in Ho. simpl in Ho.
  apply Permutation_singleton_r in Ho. rewrite Ho. simpl. rewrite Hm, lookup_singleton_eq. unfold loadTA.
  rewrite Ha. eexists. split; [done|]. by apply errors_Is_wrap, errors_Is_wrap, errors_Is_refl.
Qed.

Lemma unknown_app_panics_witness :
  exists e, nonsecureWorldHandler (M := echo_monitor) 0 (fun c => (map_to_list (mailbox c)).*1)
      rpc_ctx echo_context empty_log (mkMail 7 (bytes_of [1])) = Panic (PanicValue e) /\
    errors_Is e ErrAppNotFound = true.
Proof.
  apply (unknown_app_panics (M := echo_monitor) 0 (fun c => (map_to_list (mailbox c)).*1) rpc_ctx
    echo_context empty_log (mkMail 7 (bytes_of [1])) (mkMail 7 (bytes_of [1]))
    (mkContext {[42 := []]} {[7 := bytes_of [1]]} ∅) 7 (bytes_of [1])).
  - reflexivity.
  - vm_compute. reflexivity.
  - reflexivity.
  - reflexivity.
  - apply Permutation_refl.
Defined.

(** C26: The error an applet exits with is read from its own memory.  For a
    region inside the 32-bit address space, the check of the exit-with-error
    call lets a pointer and a length through if and only if the bytes lie in
    the region and leave out its last byte (a range that reaches the end of the
    region is refused), although the arithmetic is done on
    machine words that wrap around. *)
Theorem exit_read_in_bounds x len off :
  0 <= Start (Memory x) -> 0 <= Size (Memory x) < 2 ^ 31 -> Start (Memory x) + Size (Memory x) <= 2 ^ 32 ->
  0 <= R1 x < 2 ^ 32 -> 0 <= len < 2 ^ 31 ->
  exit_offset x len = Some off <->
  off = R1 x - Start (Memory x) /\ Start (Memory x) <= R1 x /\
  R1 x + len < Start (Memory x) + Size (Memory x).
Proof.
  intros Hs Hz Hend Hr Hl. unfold exit_offset, to_int, u32.
  assert (Hm : (R1 x - Start (Memory x)) mod 2 ^ 32 =
    if R1 x <? Start (Memory x) then R1 x - Start (Memory x) + 2 ^ 32 else R1 x - Start (Memory x)).
  { destruct (Z.ltb_spec (R1 x) (Start (Memory x))).
    - symmetry. apply (Z.mod_unique _ _ (-1)); lia.
    - apply Z.mod_small. lia. }
  rewrite Hm. set (d := R1 x - Start (Memory x)) in *.
  destruct (Z.ltb_spec (R1 x) (Start (Memory x))) as [H1|H1].
  - destruct (Z.ltb_spec (d + 2 ^ 32) (2 ^ 31)) as [H2|H2].
    + replace (d + 2 ^ 32 <? Size (Memory x) - len) with false; [|symmetry; apply Z.ltb_ge; lia].
      rewrite andb_false_r. split; [done|lia].
    + replace (0 <=? d + 2 ^ 32 - 2 ^ 32) with false; [|symmetry; apply Z.leb_gt; lia].
      split; [done|lia].
  - destruct (Z.ltb_spec d (2 ^ 31)) as [H2|H2].
    + destruct (Z.leb_spec 0 d), (Z.ltb_spec d (Size (Memory x) - len)); simpl; split;
        try done; try lia; [by intros [= <-]; lia|by intros [-> _]].
    + replace (0 <=? d - 2 ^ 32) with false; [|symmetry; apply Z.leb_gt; lia].
      split; [done|lia].
Qed.

Lemma exit_read_in_bounds_witness :
  exit_offset (mkExecCtx SYS_EXIT_ERROR (AppletStart + 16) 32 0 AppletRegion false true LogHandler [SecureRPC]) 32
  = Some 16.
Proof.
  apply (exit_read_in_bounds
    (mkExecCtx SYS_EXIT_ERROR (AppletStart + 16) 32 0 AppletRegion false true LogHandler [SecureRPC]) 32 16);
    vm_compute; repeat split; congruence.
Defined.

(** C27: The log.  However the characters of the two worlds interleave, what
    is written to standard output for a world followed by its buffer is what
    that world logged, in order; every write is a line, or a piece of one of
    1025 bytes; a buffer never holds a line end or more than 1024 bytes. *)
Theorem log_order cs :
  log_ok (log_all cs empty_log) /\
  forall ns, written ns (log_all cs empty_log) ++ output ns (log_all cs empty_log) = logged ns cs.
Proof.
  split; [apply log_all_ok, empty_log_ok|]. intros ns. rewrite log_all_written. by destruct ns.
Qed.
