(* ===== verification/TrustZone.v ===== *)
(** * The configuration of TrustZone: [tz.go], [mem/layout.go]

    The sequence of writes to the central security unit (CSU) and the address
    space controller (TZASC), the protection that results, how it fits the
    memory layout, and the start-up of the trusted OS.  The drivers are
    parameters: a call either fails or updates one register. *)

From S2P Require Import Prelude GoRuntime Tz TzTheory.
Import Tz.

Module TrustZone.

(** ** Driver calls *)

Inductive hw_op :=
| NonSecureAccessControl (bits : Z)
| csu_Init
| SetSecurityLevel (peripheral slave level : Z) (lock : bool)
| SetAccess (master : Z) (secure lock : bool)
| EnableRegion (n start size attributes : Z).

(** Constants of the drivers, and one call: an error, or none. *)
Class Drivers (W : Type) := {
  CSL_MIN : Z; CSL_MAX : Z; SA_MIN : Z; SA_MAX : Z;
  SEC_LEVEL_0 : Z; SEC_LEVEL_4 : Z;
  SP_NW_RD : Z; SP_NW_WR : Z; SP_SW_RD : Z; SP_SW_WR : Z;
  hw_call : hw_op -> W -> W * option error
}.

(** ** The sequence of calls *)

(** [for i := lo; i < hi; i++] *)
Definition indexes (lo hi : Z) : list Z := map (fun n => lo + Z.of_nat n) (seq 0 (Z.to_nat (hi - lo))).

Section drivers.
Context {W : Type} {H : Drivers W}.

(** Calls in order; the first error ends the function. *)
Fixpoint call_all (ops : list hw_op) (w : W) : W * option error :=
  match ops with
  | [] => (w, None)
  | op :: rest =>
      match hw_call op w with
      | (w, Some e) => (w, Some e)
      | (w, None) => call_all rest w
      end
  end.

Definition open_peripheral (i : Z) : list hw_op :=
  [SetSecurityLevel i 0 SEC_LEVEL_0 false; SetSecurityLevel i 1 SEC_LEVEL_0 false].

Definition peripherals_to_nonsecure : list hw_op := flat_map open_peripheral (indexes CSL_MIN CSL_MAX).

Definition controllers_to_nonsecure : list hw_op :=
  map (fun i => SetAccess i false false) (indexes SA_MIN SA_MAX).

Definition nonsecure_rw : Z := Z.lor (Z.shiftl 1 SP_NW_RD) (Z.shiftl 1 SP_NW_WR).
Definition secure_rw : Z := Z.lor (Z.shiftl 1 SP_SW_RD) (Z.shiftl 1 SP_SW_WR).

(** The calls of [configureTrustZone]; [native] is [imx6.Native]. *)
Definition trustzone_ops (native lock : bool) : list hw_op :=
  NonSecureAccessControl (Z.lor (Z.shiftl 1 11) (Z.shiftl 1 10)) ::
  if negb native then []
  else
    csu_Init :: peripherals_to_nonsecure ++
    [EnableRegion 0 0 0 nonsecure_rw] ++
    if lock then
      [EnableRegion 1 SecureStart (SecureSize + SecureDMASize) secure_rw;
       EnableRegion 2 AppletStart AppletSize secure_rw] ++
      controllers_to_nonsecure ++
      [SetSecurityLevel 2 1 SEC_LEVEL_4 false;
       SetSecurityLevel 6 1 SEC_LEVEL_4 false;
       SetSecurityLevel 8 0 SEC_LEVEL_0 false;
       SetAccess 4 false false;
       SetSecurityLevel 13 0 SEC_LEVEL_4 false;
       SetSecurityLevel 16 1 SEC_LEVEL_4 false;
       SetSecurityLevel 34 0 SEC_LEVEL_4 false;
       SetAccess 14 true false]
    else [].

Definition configureTrustZone (native lock : bool) (w : W) : W * option error :=
  call_all (trustzone_ops native lock) w.

Definition grantPeripheralAccess (w : W) : W * option error :=
  call_all [SetSecurityLevel 2 1 SEC_LEVEL_0 false;
            SetSecurityLevel 6 1 SEC_LEVEL_0 false;
            SetSecurityLevel 8 0 SEC_LEVEL_0 false;
            SetAccess 4 false false;
            SetAccess 10 false false;
            SetAccess 11 false false] w.

(** ** Loading the other world and starting *)

Context {M : Monitor W}.

(** [(c *Context) LoadNonsecureWorld]: the context it stores in
    [NonsecureWorld], or an error. *)
Definition LoadNonsecureWorld (native : bool) (appContent : list byte) (w : W) : W * result ExecCtx :=
  let '(w, err) := image_Load appContent NonSecureRegion w in
  match err with
  | Some e => (w, Err e)
  | None =>
      match monitor_Load (image_Entry appContent) NonSecureRegion false w with
      | (w, Err e) => (w, Err (Wrapf "cannot load nonsecure world, %w" [] e))
      | (w, Ok os) =>
          let lock := if negb native then false else true in
          match configureTrustZone native lock w with
          | (w, Some e) => (w, Err (Wrapf "could not configure trustzone, %w" [] e))
          | (w, None) =>
              (w, Ok (mkExecCtx (R0 os) (R1 os) (R2 os) (R13 os) (Memory os) (NonSecure os) true
                        NonsecureWorldHandler (Server os ++ [NonsecureRPC])))
          end
      end
  end.

(** [(c *Context) RunNonsecureWorld]; the context to run is the one
    [LoadNonsecureWorld] stored. *)
Definition RunNonsecureWorld (os : ExecCtx) (c : Context) (w : W) : go (W * Context) := run os c w.

Definition AppletID : Z := 42.

(** [main] of the trusted OS up to [RunNonsecureWorld]. *)
Definition trusted_os_main (native : bool) (taELF osELF : list byte) (w : W)
    : go (W * Context * ExecCtx) :=
  match RegisterApp NewContext taELF AppletID w with
  | (_, _, Some e) => Panic (PanicValue e)
  | (w, c, None) =>
      match LoadNonsecureWorld native osELF w with
      | (_, Err e) => Panic (PanicValue e)
      | (w, Ok os) => Ret (w, c, os)
      end
  end.

(** What the programs do to the board when they start and end; the shutdown
    request only reaches an emulator. *)
Inductive action :=
| SemihostingShutdown
| SleepMs (ms : Z)
| imx6_Reset
| usbarmory_Reset
| SetARMFreq (mhz : Z)
| DetectDebugAccessory (ms : Z)
| AwaitDebugConsole
| dma_Init (start size : Z)
| dcp_UseDefaultDMA
| imx6_Init
| UART2_Init
| UART2_Tx (c : byte).

(** [panicHandler], on a recovered panic. *)
Definition panicHandler (native : bool) (r : option panic) : list action :=
  match r with
  | Some _ => (if negb native then [SemihostingShutdown] else []) ++ [SleepMs 500; imx6_Reset]
  | None => []
  end.

(** [main] to its end, the deferred [panicHandler] included. *)
Definition trusted_os (native : bool) (taELF osELF : list byte) (w : W) : list action :=
  match ('(w, c, os) ← trusted_os_main native taELF osELF w; RunNonsecureWorld os c w) with
  | Ret _ => (if negb native then [SemihostingShutdown] else []) ++ [SleepMs 500; imx6_Reset] ++ panicHandler native None
  | Panic p => panicHandler native (Some p)
  end.

End drivers.

(** ** The registers *)

Record Config := mkConfig {
  csl : gmap (Z * Z) Z;
  sa : gmap Z bool;
  regions : gmap Z (Z * Z * Z)
}.

Definition apply_op (op : hw_op) (g : Config) : Config :=
  match op with
  | SetSecurityLevel p s lv _ => mkConfig (<[(p, s) := lv]> (csl g)) (sa g) (regions g)
  | SetAccess i sec _ => mkConfig (csl g) (<[i := sec]> (sa g)) (regions g)
  | EnableRegion n st sz at_ => mkConfig (csl g) (sa g) (<[n := (st, sz, at_)]> (regions g))
  | NonSecureAccessControl _ | csu_Init => g
  end.

Definition apply_all (ops : list hw_op) (g : Config) : Config := fold_left (fun g op => apply_op op g) ops g.

(** A driver call that reports no error has set its register and no other. *)
Class DriverLaws (W : Type) (H : Drivers W) := {
  config : W -> Config;
  hw_sets op w w' : hw_call op w = (w', None) -> config w' = apply_op op (config w)
}.

(** Peripherals reserved for the secure world. *)
Definition restricted : list (Z * Z) := [(2, 1); (6, 1); (13, 0); (16, 1); (34, 0)].

Definition is_restricted (p s : Z) : bool := existsb (fun x => (x.1 =? p) && (x.2 =? s)) restricted.

(** An address lies in a region of the controller. *)
Definition in_region (g : Config) (n a : Z) : Prop :=
  exists st sz at_, regions g !! n = Some (st, sz, at_) /\ st <= a < st + sz.

(** ** Lemmas *)

Lemma elem_of_indexes lo hi i : i ∈ indexes lo hi <-> lo <= i < hi.
Proof.
  unfold indexes. rewrite list_elem_of_In, in_map_iff. setoid_rewrite in_seq. split.
  - intros (n & <- & ?). lia.
  - intros ?. exists (Z.to_nat (i - lo)). lia.
Qed.

Lemma apply_all_app ops1 ops2 g : apply_all (ops1 ++ ops2) g = apply_all ops2 (apply_all ops1 g).
Proof. apply fold_left_app. Qed.

Section config.
Context {W : Type} {H : Drivers W}.

Lemma open_all_frame l : forall g,
  sa (apply_all (flat_map open_peripheral l) g) = sa g /\
  regions (apply_all (flat_map open_peripheral l) g) = regions g.
Proof.
  induction l as [|i l IH]; intros g; [done|]. cbn [flat_map]. rewrite apply_all_app.
  by destruct (IH (apply_all (open_peripheral i) g)) as [-> ->].
Qed.

Lemma open_all_keep l : forall g p s,
  csl g !! (p, s) = Some SEC_LEVEL_0 ->
  csl (apply_all (flat_map open_peripheral l) g) !! (p, s) = Some SEC_LEVEL_0.
Proof.
  induction l as [|i l IH]; intros g p s Hg; [done|]. cbn [flat_map]. rewrite apply_all_app.
  apply IH. simpl. rewrite !lookup_insert. by repeat case_decide.
Qed.

Lemma open_all_set l : forall g p s,
  p ∈ l -> s = 0 \/ s = 1 -> csl (apply_all (flat_map open_peripheral l) g) !! (p, s) = Some SEC_LEVEL_0.
Proof.
  induction l as [|i l IH]; intros g p s Hp Hs; [by apply elem_of_nil in Hp|].
  cbn [flat_map]. rewrite apply_all_app. apply elem_of_cons in Hp as [->|Hp]; [|by apply IH].
  apply open_all_keep. simpl. rewrite !lookup_insert.
  destruct Hs as [-> | ->]; repeat case_decide; simplify_eq; done.
Qed.

Lemma close_all l : forall g,
  csl (apply_all (map (fun i => SetAccess i false false) l) g) = csl g /\
  regions (apply_all (map (fun i => SetAccess i false false) l) g) = regions g /\
  (forall i, i ∈ l \/ sa g !! i = Some false ->
     sa (apply_all (map (fun i => SetAccess i false false) l) g) !! i = Some false).
Proof.
  induction l as [|j l IH]; intros g.
  { split_and!; [done..|]. intros i [Hi|?]; [by apply elem_of_nil in Hi|done]. }
  destruct (IH (apply_op (SetAccess j false false) g)) as (H1 & H2 & H3). simpl in *.
  split_and!; [done..|]. intros i Hi. apply H3. rewrite lookup_insert. case_decide as E; [by right|].
  destruct Hi as [[->|Hi]%elem_of_cons|Hi]; [done|by left|by right].
Qed.

Lemma call_all_config {D : DriverLaws W H} ops : forall w w',
  call_all ops w = (w', None) -> config w' = apply_all ops (config w).
Proof.
  induction ops as [|op ops IH]; intros w w' E; simpl in E; [by simplify_eq|].
  destruct (hw_call op w) as [w1 [e|]] eqn:Ec; [done|]. rewrite (IH _ _ E).
  simpl. by rewrite (hw_sets _ _ _ Ec).
Qed.

(** The registers after the whole sequence. *)
Lemma trustzone_config g :
  let g' := apply_all (trustzone_ops true true) g in
  (forall p s, CSL_MIN <= p < CSL_MAX -> s = 0 \/ s = 1 ->
     csl g' !! (p, s) = Some (if is_restricted p s then SEC_LEVEL_4 else SEC_LEVEL_0)) /\
  (forall i, SA_MIN <= i < SA_MAX -> sa g' !! i = Some (i =? 14)) /\
  regions g' !! 0 = Some (0, 0, nonsecure_rw) /\
  regions g' !! 1 = Some (SecureStart, SecureSize + SecureDMASize, secure_rw) /\
  regions g' !! 2 = Some (AppletStart, AppletSize, secure_rw).
Proof.
  unfold trustzone_ops. cbv zeta. cbn [negb].
  change (apply_all (?x :: csu_Init :: ?l) g) with (apply_all l g). rewrite !apply_all_app.
  set (g1 := apply_all peripherals_to_nonsecure g).
  set (g2 := apply_all [EnableRegion 0 _ _ _] g1). set (g3 := apply_all [EnableRegion 1 _ _ _; _] g2).
  set (g4 := apply_all controllers_to_nonsecure g3).
  destruct (close_all (indexes SA_MIN SA_MAX) g3) as (C4 & R4 & S4).
  fold controllers_to_nonsecure in C4, R4, S4. fold g4 in C4, R4, S4. split_and!.
  - intros p s Hp Hs.
    assert (E : csl g4 !! (p, s) = Some SEC_LEVEL_0).
    { rewrite C4. apply open_all_set; [by apply elem_of_indexes|done]. }
    simpl. rewrite !lookup_insert. repeat case_decide; simplify_eq; try done.
    rewrite E. destruct (is_restricted p s) eqn:Hx; [|done]. exfalso.
    apply existsb_exists in Hx as ([p' s'] & Hin & [E1%Z.eqb_eq E2%Z.eqb_eq]%andb_prop).
    simpl in *. subst. naive_solver.
  - intros i Hi. simpl. rewrite !lookup_insert.
    rewrite (S4 i) by (left; by apply elem_of_indexes).
    repeat case_decide; simplify_eq; try done. by rewrite (proj2 (Z.eqb_neq i 14)).
  - simpl. rewrite R4. simpl. by rewrite 2!lookup_insert_ne, lookup_insert_eq by done.
  - simpl. rewrite R4. simpl. by rewrite lookup_insert_ne, lookup_insert_eq by done.
  - simpl. rewrite R4. simpl. by rewrite lookup_insert_eq.
Qed.

End config.

(** ** Concrete drivers for the witness: the world is the registers. *)

Definition plain_drivers : Drivers Config := {|
  CSL_MIN := 0; CSL_MAX := 40; SA_MIN := 0; SA_MAX := 16;
  SEC_LEVEL_0 := 0; SEC_LEVEL_4 := 4;
  SP_NW_RD := 0; SP_NW_WR := 1; SP_SW_RD := 2; SP_SW_WR := 3;
  hw_call := fun op g => (apply_op op g, None)
|}.

Definition plain_driver_laws : DriverLaws Config plain_drivers.
Proof. refine {| config := fun w => w |}. by intros op w w' [= <-]. Defined.

(** The context the trusted OS runs, when it gets that far. *)
Lemma trusted_os_main_inv {W : Type} {H : Drivers W} {M : Monitor W} {L : MonitorLaws W M}
    native taELF osELF (w w' : W) c os :
  trusted_os_main native taELF osELF w = Ret (w', c, os) ->
  c = mkContext {[AppletID := taELF]} ∅ ∅ /\
  Memory os = NonSecureRegion /\ NonSecure os = true /\ Server os = [NonsecureRPC] /\
  exists w0, configureTrustZone native native w0 = (w', None).
Proof.
  unfold trusted_os_main, RegisterApp, LoadNonsecureWorld.
  destruct (image_Load taELF _ w) as [w1 [e|]]; [done|].
  destruct (image_Load osELF _ w1) as [w2 [e|]]; [done|].
  destruct (monitor_Load _ _ _ w2) as [w3 [os0|e]] eqn:El; [|done].
  replace (if negb native then false else true) with native by (by destruct native).
  destruct (configureTrustZone native native w3) as [w4 [e|]] eqn:Ec; [done|].
  intros [= <- <- <-]. apply load_ctx in El as (Hm & Hn & Hs). cbn [Memory NonSecure Server].
  rewrite Hs. split_and!; [done..|by exists w3].
Qed.

(** However it ends, the trusted OS resets the board. *)
Lemma trusted_os_resets {W : Type} {H : Drivers W} {M : Monitor W} native taELF osELF (w : W) :
  exists actions, trusted_os native taELF osELF w = actions ++ [imx6_Reset].
Proof.
  exists (if native then [SleepMs 500] else [SemihostingShutdown; SleepMs 500]).
  unfold trusted_os. destruct (_ ≫= _); by destruct native.
Qed.

(** ** Properties *)

(** C21: The worlds are separated.  If the configuration ends without an error
    on the real board, then every peripheral is open to the other world except
    the five that are reserved, only bus master 14 (the DCP) is secure, and the
    address space controller covers exactly the memory of the trusted OS, its
    DMA buffer and the applet by secure-only regions, none of which contains
    an address of the other world. *)
Theorem worlds_separated {W : Type} {H : Drivers W} {D : DriverLaws W H} (w w' : W) :
  configureTrustZone true true w = (w', None) ->
  (forall p s, CSL_MIN <= p < CSL_MAX -> s = 0 \/ s = 1 ->
     csl (config w') !! (p, s) = Some (if is_restricted p s then SEC_LEVEL_4 else SEC_LEVEL_0)) /\
  (forall i, SA_MIN <= i < SA_MAX -> sa (config w') !! i = Some (i =? 14)) /\
  (forall a, in_region (config w') 1 a \/ in_region (config w') 2 a <->
     SecureStart <= a < SecureStart + SecureSize \/
     SecureDMAStart <= a < SecureDMAStart + SecureDMASize \/
     Start AppletRegion <= a < Start AppletRegion + Size AppletRegion) /\
  (forall n st sz at_, n = 1 \/ n = 2 -> regions (config w') !! n = Some (st, sz, at_) -> at_ = secure_rw) /\
  (forall a, Start NonSecureRegion <= a < Start NonSecureRegion + Size NonSecureRegion ->
     ~ in_region (config w') 1 a /\ ~ in_region (config w') 2 a).
Proof.
  intros E. apply call_all_config in E. rewrite E.
  destruct (trustzone_config (config w)) as (Hc & Hs & _ & H1 & H2).
  set (g := apply_all _ _) in *. clearbody g.
  assert (Hin : forall a, (in_region g 1 a <-> SecureStart <= a < SecureStart + (SecureSize + SecureDMASize)) /\
    (in_region g 2 a <-> AppletStart <= a < AppletStart + AppletSize)).
  { intros a. unfold in_region. rewrite H1, H2. split; split; intros Ha; try naive_solver. }
  split_and!; [done|done| | |].
  - intros a. destruct (Hin a) as [-> ->].
    unfold AppletRegion; simpl.
    unfold SecureStart, SecureSize, SecureDMAStart, SecureDMASize, AppletStart, AppletSize. lia.
  - intros n st sz at_ [-> | ->] Hr; congruence.
  - intros a Ha. destruct (Hin a) as [-> ->].
    unfold SecureStart, SecureSize, SecureDMASize, AppletStart, AppletSize; simpl in *.
    unfold NonSecureStart, NonSecureSize in *. lia.
Qed.

Lemma worlds_separated_witness :
  exists w', configureTrustZone (H := plain_drivers) true true (mkConfig ∅ ∅ ∅) = (w', None) /\
    forall i, 0 <= i < 16 -> sa w' !! i = Some (i =? 14).
Proof.
  assert (He : (configureTrustZone (H := plain_drivers) true true (mkConfig ∅ ∅ ∅)).2 = None)
    by (vm_compute; reflexivity).
  destruct (configureTrustZone (H := plain_drivers) true true (mkConfig ∅ ∅ ∅)) as [w' err] eqn:E.
  cbn [snd] in He. subst err. exists w'. split; [reflexivity|].
  exact (proj1 (proj2 (worlds_separated (H := plain_drivers) (D := plain_driver_laws)
    (mkConfig ∅ ∅ ∅) w' E))).
Defined.

(** C28: Start-up of the trusted OS.  If it does not panic, then exactly the
    cryptography applet is registered, no mail is waiting, and the context that
    is run is one of the other world, confined to its region, reaching the
    trusted OS only through the two methods of [NonsecureRPC]; on the real
    board TrustZone was locked before, without an error. *)
Theorem trusted_os_starts {W : Type} {H : Drivers W} {M : Monitor W} {L : MonitorLaws W M}
    native taELF osELF (w w' : W) c os :
  trusted_os_main native taELF osELF w = Ret (w', c, os) ->
  c = mkContext {[AppletID := taELF]} ∅ ∅ /\
  Memory os = NonSecureRegion /\ NonSecure os = true /\
  (forall k, allowed (Server os) k = nonsecure_call k) /\
  exists w0, configureTrustZone native native w0 = (w', None).
Proof.
  intros (Hc & Hm & Hn & Hs & Hw)%trusted_os_main_inv. split_and!; try done.
  intros k. rewrite Hs. cbn. by rewrite orb_false_r.
Qed.

(** The monitor of the other witnesses, with registers beside the mail. *)
Definition boot_monitor : Monitor Config := {|
  image_Load := fun _ _ w => (w, None);
  image_Entry := fun _ => 0;
  monitor_Load := fun _ r secure w => (w, Ok (echo_ctx r secure));
  ctx_Run := fun x c w => Ret (w, x, c, None);
  SecureHandler := fun _ c w => Ret (w, c, None);
  NonSecureHandler := fun _ c w => Ret (w, c, None);
  rand_fill := fun _ w => (w, None);
  Memory_Read := fun _ _ n _ => zeros n
|}.

Lemma boot_monitor_laws : MonitorLaws Config boot_monitor.
Proof.
  split.
  - intros x c w w' x' c' err [= <- <- <- <-]. by exists [].
  - intros x c w w' c' err [= <- <- <-]. by exists [].
  - intros entry r secure w w' x [= <- <-]. done.
Qed.

Lemma trusted_os_starts_witness :
  exists w' os, Memory os = NonSecureRegion /\ NonSecure os = true /\
    (forall k, allowed (Server os) k = nonsecure_call k) /\
    exists w0, configureTrustZone (H := plain_drivers) true true w0 = (w', None).
Proof.
  destruct (trusted_os_main (H := plain_drivers) (M := boot_monitor) true [] [] (mkConfig ∅ ∅ ∅))
    as [[[w' c] os]|p] eqn:E.
  - exists w', os.
    exact (proj2 (trusted_os_starts (H := plain_drivers) (M := boot_monitor) (L := boot_monitor_laws)
      true [] [] (mkConfig ∅ ∅ ∅) w' c os E)).
  - exfalso. assert (Hp : panics (trusted_os_main (H := plain_drivers) (M := boot_monitor) true [] []
      (mkConfig ∅ ∅ ∅)) = false) by (vm_compute; reflexivity).
    rewrite E in Hp. discriminate Hp.
Defined.

End TrustZone.
