(* ===== verification/UsbDevice.v ===== *)
(** * USB set-up: [src/usb.go], [src/firmware/usb.go]

    The descriptors the device announces, the handler of control requests,
    and the start of the USB device.  The driver (tamago's [usb] package) is a
    parameter: its string table, its defaults and its request codes. *)

From S2P Require Import Prelude GoRuntime Usb.

Module UsbDevice.

(** ** Data *)

Record DeviceDescriptor := mkDeviceDescriptor {
  DeviceClass : Z; DeviceSubClass : Z; DeviceProtocol : Z;
  VendorId : Z; ProductId : Z; dd_Device : Z;
  Manufacturer : Z; Product : Z; SerialNumber : Z
}.

(** The callbacks of a [HIDHandler] an endpoint can have. *)
Inductive callback := NoFunction | HandlerTx | HandlerRx.

Record EndpointDescriptor := mkEndpoint {
  Attributes : Z; EndpointAddress : Z; MaxPacketSize : Z; Interval : Z; Function_ : callback
}.

Record InterfaceDescriptor := mkInterface {
  NumEndpoints : Z;
  InterfaceClass : Z; InterfaceSubClass : Z; InterfaceProtocol : Z;
  Interface : Z;
  Endpoints : list EndpointDescriptor;
  ClassDescriptors : list (list byte)
}.

Record SetupData := mkSetup { RequestType : Z; Request : Z; Value : Z }.

(** The driver: [D] is the state of its device (string table,
    configurations). *)
Class UsbDriver (D : Type) := {
  SET_FEATURE : Z;
  GET_DESCRIPTOR : Z;
  device_defaults : DeviceDescriptor;
  interface_defaults : InterfaceDescriptor;
  endpoint_defaults : EndpointDescriptor;
  SetLanguageCodes : list Z -> D -> D;
  AddString : string -> D -> D * result Z;
  AddConfiguration : Z -> D -> D * option error;
  AddInterface : InterfaceDescriptor -> D -> D;
  SetQualifier : D -> D;
  StartDevice : DeviceDescriptor -> D -> D
}.

(** ** The HID descriptor *)

Record hidDescriptor := mkHidDescriptor {
  Length : Z; Type_ : Z; bcdHID : Z; CountryCode : Z; NumDescriptors : Z;
  ReportDescriptorType : Z; DescriptorLength : Z
}.

Definition setDefaults (d : hidDescriptor) : hidDescriptor :=
  mkHidDescriptor 0x09 0x21 0x101 (CountryCode d) (NumDescriptors d) (ReportDescriptorType d)
    (DescriptorLength d).

(** [binary.Write] in little-endian order. *)
Definition hid_bytes (d : hidDescriptor) : list byte :=
  le_split 1 (Length d) ++ le_split 1 (Type_ d) ++ le_split 2 (bcdHID d) ++
  le_split 1 (CountryCode d) ++ le_split 1 (NumDescriptors d) ++
  le_split 1 (ReportDescriptorType d) ++ le_split 2 (DescriptorLength d).

Definition addHIDClassDescriptor (conf : InterfaceDescriptor) : InterfaceDescriptor :=
  let hid := setDefaults (mkHidDescriptor 0 0 0 0 0 0 0) in
  let hid := mkHidDescriptor (Length hid) (Type_ hid) (bcdHID hid) 0x0 0x01 0x22
               (u16 (Z.of_nat (length LedgerNanoXReport))) in
  mkInterface (NumEndpoints conf) (InterfaceClass conf) (InterfaceSubClass conf)
    (InterfaceProtocol conf) (Interface conf) (Endpoints conf)
    (ClassDescriptors conf ++ [hid_bytes hid]).

Definition hidRequestSetIdle : Z := 10.
Definition hidRequestTypeGetDescriptor : Z := 0x21.
Definition descriptorTypeGetReport : Z := 0x22.

Section driver.
Context {D : Type} {U : UsbDriver D}.

(** [hidSetup]: the bytes to send, and whether to acknowledge, whether the
    request is dealt with, and the error that stalls the endpoint. *)
Definition hidSetup (setup : SetupData) : option (list byte) * bool * bool * option error :=
  let bDescriptorType := Z.land (Value setup) 0xff in
  if Request setup =? SET_FEATURE then (None, false, true, Some (Errorf "should stall" []))
  else if (Z.land (RequestType setup) (Z.lnot 0x80) =? hidRequestTypeGetDescriptor)
          && (Request setup =? hidRequestSetIdle) then (None, true, true, None)
  else if (Request setup =? GET_DESCRIPTOR) && (bDescriptorType =? descriptorTypeGetReport)
  then (Some LedgerNanoXReport, false, true, None)
  else (None, false, false, None).

Definition addInterface (d : D) : D * result InterfaceDescriptor :=
  match AddString "fidati interface descriptor" d with
  | (d, Err e) => (d, Err e)
  | (d, Ok i) =>
      (d, Ok (mkInterface 2 0x03 0x0 0x0 i (Endpoints interface_defaults)
                (ClassDescriptors interface_defaults)))
  end.

Definition endpoint (address : Z) (f : callback) : EndpointDescriptor :=
  mkEndpoint 0x03 address 512 1 f.

(** [addEndpoints] and the assignment of the callbacks to what it returns;
    the interface shares the two descriptors. *)
Definition addEndpoints (conf : InterfaceDescriptor) : InterfaceDescriptor :=
  mkInterface (NumEndpoints conf) (InterfaceClass conf) (InterfaceSubClass conf)
    (InterfaceProtocol conf) (Interface conf)
    (Endpoints conf ++ [endpoint 0x01 HandlerRx; endpoint 0x81 HandlerTx]) (ClassDescriptors conf).

(** [configureDevice], which [ConfigureUSB] calls.  [conf.AddInterface] is
    given a pointer, so the interface is the finished one. *)
Definition configureDevice (d : D) : D * result InterfaceDescriptor :=
  match addInterface d with
  | (d, Err e) => (d, Err (Wrapf "cannot add U2F USB Interface, %w" [] e))
  | (d, Ok id) =>
      let id := addHIDClassDescriptor (addEndpoints id) in
      (SetQualifier (AddInterface id d), Ok id)
  end.

(** [baseConfiguration] of the firmware: the descriptor as far as it got. *)
Definition baseConfiguration (d : D) : D * DeviceDescriptor * option error :=
  let d := SetLanguageCodes [0x0409] d in
  let dd m p s := mkDeviceDescriptor 0x0 0x0 0x0 0x2c97 0x4011 0x0001 m p s in
  match AddString "Ledger" d with
  | (d, Err e) =>
      (d, dd (Manufacturer device_defaults) (Product device_defaults) (SerialNumber device_defaults), Some e)
  | (d, Ok iManufacturer) =>
      match AddString "Nano X" d with
      | (d, Err e) => (d, dd iManufacturer (Product device_defaults) (SerialNumber device_defaults), Some e)
      | (d, Ok iProduct) =>
          match AddString "0001" d with
          | (d, Err e) => (d, dd iManufacturer iProduct (SerialNumber device_defaults), Some e)
          | (d, Ok iSerial) => (d, dd iManufacturer iProduct iSerial, None)
          end
      end
  end.

(** [startUSB]: the result of [baseConfiguration] is not looked at; 160 are
    the attributes of the configuration.  [Start] does not return. *)
Definition startUSB (d : D) : D * result (DeviceDescriptor * InterfaceDescriptor) :=
  let '(d, dd, _) := baseConfiguration d in
  match AddConfiguration 160 d with
  | (d, Some e) => (d, Err e)
  | (d, None) =>
      match configureDevice d with
      | (d, Err e) => (d, Err e)
      | (d, Ok id) => (StartDevice dd d, Ok (dd, id))
      end
  end.

End driver.

(** What the driver documents: a new interface has no endpoints and no class
    descriptors yet. *)
Class UsbDriverLaws (D : Type) (U : UsbDriver D) : Prop := {
  no_endpoints : Endpoints interface_defaults = [];
  no_class_descriptors : ClassDescriptors interface_defaults = []
}.

Lemma length_hid_bytes d : length (hid_bytes d) = 9%nat.
Proof. unfold hid_bytes. by rewrite !length_app, !length_le_split. Qed.

(** A driver whose string table takes [n] more strings. *)
Definition table_driver : UsbDriver nat := {|
  SET_FEATURE := 3;
  GET_DESCRIPTOR := 6;
  device_defaults := mkDeviceDescriptor 0 0 0 0 0 0 0 0 0;
  interface_defaults := mkInterface 0 0 0 0 0 [] [];
  endpoint_defaults := mkEndpoint 0 0 0 0 NoFunction;
  SetLanguageCodes := fun _ d => d;
  AddString := fun _ d => match d with O => (O, Err (External "usb")) | S d => (d, Ok (Z.of_nat d)) end;
  AddConfiguration := fun _ d => (d, None);
  AddInterface := fun _ d => d;
  SetQualifier := fun d => d;
  StartDevice := fun _ d => d
|}.

Lemma table_driver_laws : UsbDriverLaws nat table_driver.
Proof. split; reflexivity. Qed.

(** ** Properties *)

(** The announced interface fits the device.  When [startUSB] starts the
    device, the interface announces as many endpoints as it has, reports from
    the host reach [Rx] and reports for the host come from [Tx], and its one
    class descriptor is nine bytes long, says so, and announces exactly the
    length of the report descriptor that the control-request handler returns
    for the request the descriptor's type names. *)
Theorem interface_consistent {D : Type} {U : UsbDriver D} {L : UsbDriverLaws D U} (d d' : D) dd id :
  startUSB d = (d', Ok (dd, id)) ->
  NumEndpoints id = Z.of_nat (length (Endpoints id)) /\
  (forall e, e ∈ Endpoints id ->
     Function_ e = (if Z.testbit (EndpointAddress e) 7 then HandlerTx else HandlerRx)) /\
  exists desc, ClassDescriptors id = [desc] /\ length desc = 9%nat /\
    le_combine (take 1 desc) = Z.of_nat (length desc) /\
    forall s report ack done err,
      GET_DESCRIPTOR <> SET_FEATURE -> Request s = GET_DESCRIPTOR -> GET_DESCRIPTOR <> hidRequestSetIdle ->
      Z.land (Value s) 0xff = le_combine (take 1 (drop 6 desc)) ->
      hidSetup s = (report, ack, done, err) ->
      done = true /\ err = None /\
      exists r, report = Some r /\ le_combine (take 2 (drop 7 desc)) = Z.of_nat (length r).
Proof.
  unfold startUSB, configureDevice, addInterface.
  destruct (baseConfiguration d) as [[d1 dd1] err1].
  destruct (AddConfiguration 160 d1) as [d2 [e|]]; [done|].
  destruct (AddString _ d2) as [d3 [i|e]]; [|done]. intros [= <- <- <-].
  rewrite no_endpoints, no_class_descriptors. split_and!; [done| |].
  { cbn [addHIDClassDescriptor addEndpoints Endpoints app].
    intros e [->|[->|He%elem_of_nil]%elem_of_cons]%elem_of_cons; done. }
  eexists. split; [reflexivity|]. split_and!; [apply length_hid_bytes|vm_compute; reflexivity|].
  intros s report ack dn err Hne Hreq Hidle Hval. unfold hidSetup. rewrite Hreq, Hval.
  rewrite (proj2 (Z.eqb_neq _ _) Hne), (proj2 (Z.eqb_neq _ _) Hidle), andb_false_r, Z.eqb_refl.
  intros [= <- <- <- <-]. split_and!; [done..|]. eexists. split; [done|]. vm_compute. reflexivity.
Qed.

Lemma interface_consistent_witness :
  exists id, NumEndpoints id = Z.of_nat (length (Endpoints id)) /\
    (startUSB (U := table_driver) 4%nat).2 = Ok (mkDeviceDescriptor 0 0 0 0x2c97 0x4011 1 3 2 1, id).
Proof.
  eexists. split; [|reflexivity].
  exact (proj1 (interface_consistent (U := table_driver) (L := table_driver_laws) 4%nat 0%nat
    (mkDeviceDescriptor 0 0 0 0x2c97 0x4011 1 3 2 1) _ eq_refl)).
Defined.

End UsbDevice.
