(* ===== verification/TokenApplet.v ===== *)
(** * The token of the cryptography applet: [src/tee/cryptography_applet/token]

    [token.go], the applet's own copy of the development token, and
    [request.go], the JSON requests by which the other world uses it. *)

From S2P Require Import Prelude GoRuntime Sha256 Crypto Base64 JsonScan JsonTree JsonString JsonCodec Codec.
Import JsonString JsonCodec.

(** ** [token.go] *)

Module AppletToken.

Definition defaultEntropy : list byte := bytes_of
  [118; 252; 209; 103; 94; 240; 60; 245; 18; 224; 156; 240; 11; 232; 52; 25;
   31; 134; 125; 135; 192; 2; 31; 206; 216; 100; 159; 234; 150; 9; 236; 57].

Section token.
Context {HD : HDKeychain} {W : Type} {E : Entropy W}.
Context (maxAlloc : Z).

Record t := mkToken { privKey : option ExtendedKey }.

Definition NewToken : t := mkToken None.

Definition RandomBytes (_ : t) (amount : Z) (w : W) : go (W * result (list byte)) :=
  if amount =? 0 then Ret (w, Err (Errorf "requested bytes amount is zero" []))
  else
    b ← make_bytes maxAlloc amount;
    Ret (rand_Read (length b) w).

Definition DeriveSecret (_ : t) (w : W) : go (W * result (list byte)) :=
  Ret (w, Ok (copy_into 32 (Sha256.hmac_sha256 Diversifier defaultEntropy))).

Definition Initialize (dt : t) (path : DerivationPath) (w : W) : go (W * t * option error) :=
  '(w, r) ← DeriveSecret dt w;
  match r with
  | Err e => Ret (w, dt, Some e)
  | Ok secret =>
      match NewMaster secret (CoinType path) with
      | Err e => Ret (w, dt, Some e)
      | Ok sb =>
          match KeyFromPath sb path with
          | Err e => Ret (w, mkToken None, Some e)
          | Ok k => Ret (w, mkToken (Some k), None)
          end
      end
  end.

Definition key_of (dt : t) : go ExtendedKey :=
  match privKey dt with
  | Some k => Ret k
  | None => Panic NilDereference
  end.

Definition Sign (dt : t) (data : list byte) (_ : Algorithm) (w : W) : go (W * result (list byte)) :=
  k ← key_of dt;
  match ECPrivKey k with
  | Err e => Ret (w, Err e)
  | Ok pk =>
      match ec_Sign pk data with
      | Err e => Ret (w, Err e)
      | Ok signature => Ret (w, Ok (Serialize signature))
      end
  end.

Definition PublicKey (dt : t) (w : W) : go (W * result (list byte)) :=
  k ← key_of dt;
  match Neuter k with
  | Err e => Ret (w, Err e)
  | Ok epubk =>
      match ECPubKey epubk with
      | Err e => Ret (w, Err e)
      | Ok pp => Ret (w, Ok (SerializeCompressed pp))
      end
  end.

Definition Mnemonic (dt : t) (w : W) : go (W * result (list string)) :=
  '(w, r) ← DeriveSecret dt w;
  match r with
  | Err e => Ret (w, Err e)
  | Ok secret =>
      match NewMnemonic secret with
      | Err e => Ret (w, Err e)
      | Ok mnemonic => Ret (w, Ok (dumbToken.split_spaces mnemonic EmptyString))
      end
  end.

Definition SupportedSignAlgorithms (_ : t) : list Algorithm := [AlgoSecp256K1].

Definition Clone (dt : t) : t := mkToken (privKey dt).

#[export] Instance token : Token W t := {
  Crypto.RandomBytes := RandomBytes;
  Crypto.DeriveSecret := DeriveSecret;
  Crypto.Initialize := Initialize;
  Crypto.Sign := Sign;
  Crypto.PublicKey := PublicKey;
  Crypto.Mnemonic := Mnemonic;
  Crypto.Clone := Clone;
  Crypto.SupportedSignAlgorithms := SupportedSignAlgorithms
}.

End token.
End AppletToken.

(** ** Requests and responses: [request.go] *)

Definition RequestRandomBytes : Z := 0.
Definition RequestSign : Z := 1.
Definition RequestPublicKey : Z := 2.
Definition RequestMnemonic : Z := 3.
Definition RequestSupportedSignAlgorithms : Z := 4.

(** [uint] has 32 bits on the target. *)
Definition uint : ty := TUint 32.

Definition path_type : ty := TStruct
  [("Purpose", TUint 32); ("CoinType", TUint 32); ("Account", TUint 32); ("Change", TUint 32);
   ("AddressIndex", TUint 32)].

Definition path_to_gv (p : DerivationPath) : gv := VStruct (map VUint (InOrder p)).

Definition path_of_gv (v : gv) : DerivationPath :=
  mkPath (get_uint (field 0 v)) (get_uint (field 1 v)) (get_uint (field 2 v)) (get_uint (field 3 v))
    (get_uint (field 4 v)).

Record Request := mkRequest { req_ID : Z }.
Record Response := mkResponse { resp_ID : Z }.

(** The structs that embed [Request] or [Response] start with its field. *)
Record RandomBytesRequest := mkRandomBytesRequest { rb_ID : Z; rb_Amount : Z }.
Record SignRequest := mkSignRequest {
  s_ID : Z;
  s_Data : list byte;
  s_DerivationPath : DerivationPath;
  s_Algorithm : Algorithm
}.
(** How the applet reads a [SignRequest]: the data is the base64 text. *)
Record signRequestInternal := mkSignRequestInternal {
  sri_Data : list byte;
  sri_DerivationPath : DerivationPath;
  sri_Algorithm : Algorithm
}.
Record PublicKeyRequest := mkPublicKeyRequest { pk_ID : Z; pk_DerivationPath : DerivationPath }.
Record MnemonicRequest := mkMnemonicRequest { mn_ID : Z; mn_DerivationPath : DerivationPath }.

(** [RandomBytesResponse], [SignResponse], [PublicKeyResponse] *)
Record DataResponse := mkDataResponse { dr_ID : Z; dr_Data : list byte }.
Record MnemonicResponse := mkMnemonicResponse { mr_ID : Z; mr_Words : list string }.
Record SupportedSignAlgorithmsResponse := mkAlgorithmsResponse { ar_ID : Z; ar_Algorithms : list Algorithm }.

#[export] Instance Request_codec : Codec Request := {|
  go_type := TStruct [("ID", uint)];
  to_gv r := VStruct [VUint (req_ID r)];
  of_gv v := mkRequest (get_uint (field 0 v))
|}.

#[export] Instance RandomBytesRequest_codec : Codec RandomBytesRequest := {|
  go_type := TStruct [("ID", uint); ("Amount", TUint 64)];
  to_gv r := VStruct [VUint (rb_ID r); VUint (rb_Amount r)];
  of_gv v := mkRandomBytesRequest (get_uint (field 0 v)) (get_uint (field 1 v))
|}.

#[export] Instance SignRequest_codec : Codec SignRequest := {|
  go_type := TStruct [("ID", uint); ("Data", TSlice (TUint 8)); ("DerivationPath", path_type); ("Algorithm", uint)];
  to_gv r := VStruct [VUint (s_ID r); put_bytes (s_Data r); path_to_gv (s_DerivationPath r); VUint (s_Algorithm r)];
  of_gv v := mkSignRequest (get_uint (field 0 v)) (get_bytes (field 1 v)) (path_of_gv (field 2 v))
    (get_uint (field 3 v))
|}.

#[export] Instance signRequestInternal_codec : Codec signRequestInternal := {|
  go_type := TStruct [("Data", TString); ("DerivationPath", path_type); ("Algorithm", uint)];
  to_gv r := VStruct [VString (sri_Data r); path_to_gv (sri_DerivationPath r); VUint (sri_Algorithm r)];
  of_gv v := mkSignRequestInternal (get_string (field 0 v)) (path_of_gv (field 1 v)) (get_uint (field 2 v))
|}.

#[export] Instance PublicKeyRequest_codec : Codec PublicKeyRequest := {|
  go_type := TStruct [("ID", uint); ("DerivationPath", path_type)];
  to_gv r := VStruct [VUint (pk_ID r); path_to_gv (pk_DerivationPath r)];
  of_gv v := mkPublicKeyRequest (get_uint (field 0 v)) (path_of_gv (field 1 v))
|}.

#[export] Instance MnemonicRequest_codec : Codec MnemonicRequest := {|
  go_type := TStruct [("ID", uint); ("DerivationPath", path_type)];
  to_gv r := VStruct [VUint (mn_ID r); path_to_gv (mn_DerivationPath r)];
  of_gv v := mkMnemonicRequest (get_uint (field 0 v)) (path_of_gv (field 1 v))
|}.

#[export] Instance DataResponse_codec : Codec DataResponse := {|
  go_type := TStruct [("ID", uint); ("Data", TSlice (TUint 8))];
  to_gv r := VStruct [VUint (dr_ID r); put_bytes (dr_Data r)];
  of_gv v := mkDataResponse (get_uint (field 0 v)) (get_bytes (field 1 v))
|}.

#[export] Instance MnemonicResponse_codec : Codec MnemonicResponse := {|
  go_type := TStruct [("ID", uint); ("Words", TSlice TString)];
  to_gv r := VStruct [VUint (mr_ID r); put_strings (mr_Words r)];
  of_gv v := mkMnemonicResponse (get_uint (field 0 v)) (get_strings (field 1 v))
|}.

#[export] Instance SupportedSignAlgorithmsResponse_codec : Codec SupportedSignAlgorithmsResponse := {|
  go_type := TStruct [("ID", uint); ("Algorithms", TSlice uint)];
  to_gv r := VStruct [VUint (ar_ID r); put_slice VUint (ar_Algorithms r)];
  of_gv v := mkAlgorithmsResponse (get_uint (field 0 v)) (get_slice get_uint (field 1 v))
|}.

(** ** Operations *)

(** [signRequestInternal.Bytes] panics on text that is not base64. *)
Definition sri_Bytes (sri : signRequestInternal) : go (list byte) :=
  match Base64.DecodeString (sri_Data sri) with
  | Err e => Panic (PanicValue e)
  | Ok b => Ret b
  end.

Definition ReadRequest (data : list byte) : Request * option error := unmarshal data.

Definition RequestedOp (data : list byte) : result Z :=
  match unmarshal (A := Request) data with
  | (_, Some e) => Err e
  | (req, None) => Ok (req_ID req)
  end.

Definition PackageRequest {A} `{Codec A} (req : A) : result (list byte) := marshal req.

Definition UnpackResponse {A} `{Codec A} (resp : list byte) : A * option error := unmarshal resp.

(** [json.Unmarshal] into a fresh struct, and the early return on an error. *)
Definition parse {A} `{Codec A} (data : list byte) : result A :=
  match unmarshal data with
  | (_, Some e) => Err e
  | (r, None) => Ok r
  end.

Section Dispatch.
Context {W T : Type} {TK : Token W T}.

(** [tt := t.Clone(); err := tt.Initialize(path)], then [op] on it. *)
Definition at_path {A} (t : T) (path : DerivationPath) (op : T -> W -> go (W * result A)) (w : W)
    : go (W * result A) :=
  '(w, tok, err) ← Initialize (Clone t) path w;
  match err with
  | Some e => Ret (w, Err e)
  | None => op tok w
  end.

(** The response, or the error of the token. *)
Definition respond {A B} `{Codec B} (resp : A -> B) (r : result A) : result (list byte) :=
  match r with
  | Err e => Err e
  | Ok a => marshal (resp a)
  end.

Definition Dispatch (data : list byte) (t : T) (w : W) : go (W * result (list byte)) :=
  match RequestedOp data with
  | Err e => Ret (w, Err (Wrapf "cannot read op, %w" [] e))
  | Ok reqID =>
      if reqID =? RequestRandomBytes then
        match parse (A := RandomBytesRequest) data with
        | Err e => Ret (w, Err e)
        | Ok r =>
            '(w, rb) ← RandomBytes t (rb_Amount r) w;
            Ret (w, respond (mkDataResponse reqID) rb)
        end
      else if reqID =? RequestSign then
        match parse (A := signRequestInternal) data with
        | Err e => Ret (w, Err e)
        | Ok r =>
            '(w, s) ← at_path t (sri_DerivationPath r)
              (fun tok w => b ← sri_Bytes r; Sign tok b (sri_Algorithm r) w) w;
            Ret (w, respond (mkDataResponse reqID) s)
        end
      else if reqID =? RequestPublicKey then
        match parse (A := PublicKeyRequest) data with
        | Err e => Ret (w, Err e)
        | Ok r =>
            '(w, pk) ← at_path t (pk_DerivationPath r) PublicKey w;
            Ret (w, respond (mkDataResponse reqID) pk)
        end
      else if reqID =? RequestMnemonic then
        match parse (A := MnemonicRequest) data with
        | Err e => Ret (w, Err e)
        | Ok r =>
            '(w, words) ← at_path t (mn_DerivationPath r) Mnemonic w;
            Ret (w, respond (mkMnemonicResponse reqID) words)
        end
      else if reqID =? RequestSupportedSignAlgorithms then
        Ret (w, marshal (mkAlgorithmsResponse reqID (SupportedSignAlgorithms t)))
      else Ret (w, Err (Errorf "cannot handle request" []))
  end.

End Dispatch.

(** ** Laws of the codecs *)

Definition path_fits (p : DerivationPath) : Prop := Forall (fun c => 0 <= c < 2 ^ 32) (InOrder p).

Lemma path_storable p : path_fits p -> storable path_type (path_to_gv p).
Proof.
  unfold path_fits, InOrder. rewrite !Forall_cons_iff. intros (H1 & H2 & H3 & H4 & H5 & _).
  repeat split; try done; lia.
Qed.

Lemma path_of_gv_strip v : path_of_gv (strip v) = path_of_gv v.
Proof. unfold path_of_gv. by rewrite !field_strip, !get_uint_strip. Qed.

Lemma path_of_to_gv p : path_of_gv (path_to_gv p) = p.
Proof. by destruct p. Qed.

Definition id_fits (n : Z) : Prop := 0 <= n < 2 ^ 32.

Ltac strip_fields :=
  intros; cbn [of_gv Request_codec RandomBytesRequest_codec SignRequest_codec signRequestInternal_codec
    PublicKeyRequest_codec MnemonicRequest_codec DataResponse_codec MnemonicResponse_codec
    SupportedSignAlgorithmsResponse_codec];
  rewrite ?field_strip, ?path_of_gv_strip, ?get_uint_strip, ?get_string_strip, ?get_bytes_strip,
    ?get_strings_strip, ?get_uints_strip; done.

Ltac get_put :=
  intros []; cbn [of_gv to_gv field nth get_uint get_string Request_codec RandomBytesRequest_codec SignRequest_codec signRequestInternal_codec
    PublicKeyRequest_codec MnemonicRequest_codec DataResponse_codec MnemonicResponse_codec
    SupportedSignAlgorithmsResponse_codec];
  rewrite ?get_put_bytes, ?get_put_strings, ?path_of_to_gv; done.

(** The fields of a struct, one by one. *)
Ltac storable_fields :=
  repeat lazymatch goal with
  | |- storable (TStruct _) (VStruct _) => apply storable_struct
  | |- Forall2 _ (_ :: _) _ => constructor; [cbn [snd]|]
  | |- Forall2 _ [] _ => constructor
  | |- storable path_type _ => by apply path_storable
  | |- storable (TSlice (TUint 8)) _ => apply put_bytes_storable
  | |- storable (TUint _) _ => assumption
  | |- storable uint _ => assumption
  end.

#[export] Instance Request_laws : CodecLaws Request.
Proof.
  refine {| fits r := id_fits (req_ID r) |}; [check_type|cbn; lia| |strip_fields|get_put].
  intros r Hr. cbn [go_type to_gv Request_codec]. storable_fields.
Defined.

#[export] Instance RandomBytesRequest_laws : CodecLaws RandomBytesRequest.
Proof.
  refine {| fits r := id_fits (rb_ID r) /\ 0 <= rb_Amount r < 2 ^ 64 |}; [check_type|cbn; lia| |strip_fields|get_put].
  intros r []. cbn [go_type to_gv RandomBytesRequest_codec]. storable_fields.
Defined.

#[export] Instance SignRequest_laws : CodecLaws SignRequest.
Proof.
  refine {| fits r := id_fits (s_ID r) /\ path_fits (s_DerivationPath r) /\ id_fits (s_Algorithm r) |};
    [check_type|cbn; lia| |strip_fields|get_put].
  intros r (? & ? & ?). cbn [go_type to_gv SignRequest_codec]. storable_fields.
Defined.

#[export] Instance PublicKeyRequest_laws : CodecLaws PublicKeyRequest.
Proof.
  refine {| fits r := id_fits (pk_ID r) /\ path_fits (pk_DerivationPath r) |};
    [check_type|cbn; lia| |strip_fields|get_put].
  intros r []. cbn [go_type to_gv PublicKeyRequest_codec]. storable_fields.
Defined.

#[export] Instance MnemonicRequest_laws : CodecLaws MnemonicRequest.
Proof.
  refine {| fits r := id_fits (mn_ID r) /\ path_fits (mn_DerivationPath r) |};
    [check_type|cbn; lia| |strip_fields|get_put].
  intros r []. cbn [go_type to_gv MnemonicRequest_codec]. storable_fields.
Defined.

#[export] Instance DataResponse_laws : CodecLaws DataResponse.
Proof.
  refine {| fits r := id_fits (dr_ID r) |}; [check_type|cbn; lia| |strip_fields|get_put].
  intros r Hr. cbn [go_type to_gv DataResponse_codec]. storable_fields.
Defined.

#[export] Instance MnemonicResponse_laws : CodecLaws MnemonicResponse.
Proof.
  refine {| fits r := id_fits (mr_ID r) /\
                      Forall (fun s => valid_utf8 (bytes_of_string s) = true) (mr_Words r) |};
    [check_type|cbn; lia| |strip_fields|get_put].
  intros r []. cbn [go_type to_gv MnemonicResponse_codec]. storable_fields. by apply put_slice_storable.
Defined.

#[export] Instance SupportedSignAlgorithmsResponse_laws : CodecLaws SupportedSignAlgorithmsResponse.
Proof.
  refine {| fits r := id_fits (ar_ID r) /\ Forall id_fits (ar_Algorithms r) |};
    [check_type|cbn; lia| |strip_fields|].
  - intros r []. cbn [go_type to_gv SupportedSignAlgorithmsResponse_codec]. storable_fields.
    by apply put_slice_storable.
  - intros []. cbn [of_gv to_gv field nth get_uint SupportedSignAlgorithmsResponse_codec]. by rewrite get_put_slice by by apply Forall_true.
Defined.
