(* ===== verification/TokenTheory.v ===== *)
(** * Properties of the applet's request server

    A request that was packaged is dispatched as the call of the token it
    stands for and its response is unpacked as the token's answer; which bytes
    are refused; a signing request whose data is not base64 makes the applet
    panic; and the applet's token is the development token of [src/crypto]. *)

From S2P Require Import Prelude GoRuntime Sha256 Crypto Base64 JsonScan JsonGrammar JsonTree JsonString JsonCodec Codec TokenApplet.
Import Base64 JsonScan JsonTree JsonString JsonCodec.

(** ** Reading one struct as another *)

Lemma object_hit fields k v ms vs err i name t old x :
  unquote k ≫= find_field fields = Some i -> fields !! i = Some (name, t) -> vs !! i = Some old ->
  decode v t old = (x, None) ->
  object decode fields ((k, v) :: ms) vs err = object decode fields ms (<[i := x]> vs) err.
Proof. intros Hk Hf Hv Hd. cbn [object]. rewrite Hk, Hf, Hv, Hd. by destruct err. Qed.

Lemma object_miss fields k v ms vs err :
  unquote k ≫= find_field fields = None -> object decode fields ((k, v) :: ms) vs err = object decode fields ms vs err.
Proof. intros Hk. cbn [object]. by rewrite Hk. Qed.

Lemma decode_uint n bits : 0 < bits <= 64 -> 0 <= n < 2 ^ bits ->
  decode (tree (TUint bits) (VUint n)) (TUint bits) (VUint 0) = (VUint n, None).
Proof. intros. cbn [tree decode]. by apply literalStore_uint. Qed.

(** The text of a byte slice, read as a string, is its base64 form. *)
Lemma decode_bytes_text l :
  decode (tree (TSlice (TUint 8)) (put_bytes l)) TString (VString []) = (VString (Encode l), None).
Proof.
  unfold put_bytes, put_slice. cbn [tree isByte Z.eqb Pos.eqb decode].
  rewrite take_ge by (by rewrite length_map). rewrite map_map, (map_ext _ id) by apply byte_of_value. rewrite map_id.
  rewrite quote_b64. unfold quote. erewrite literalStore_string; [done|done|].
  rewrite unquote_body. apply unescape_escape, b64_valid.
Qed.

Lemma Unmarshal_tree t t' v old :
  codable t -> (ty_depth t <= 10)%nat -> storable t v -> Unmarshal t' (Marshal t v) old = decode (tree t v) t' old.
Proof.
  intros Hc Hd Hv. unfold Unmarshal, Marshal. rewrite json_tree_print; [done|by apply tree_wf|].
  pose proof (tree_depth t v). unfold maxNestingDepth. lia.
Qed.

(** The identifier in front of every request. *)
Lemma RequestedOp_struct id fields vs :
  codable (TStruct (("ID", uint) :: fields)) -> (ty_depth (TStruct (("ID", uint) :: fields)) <= 10)%nat ->
  storable (TStruct (("ID", uint) :: fields)) (VStruct (VUint id :: vs)) ->
  Forall (fun f => find_field [("ID", uint)] (bytes_of_string f.1) = None) fields -> 
  RequestedOp (Marshal (TStruct (("ID", uint) :: fields)) (VStruct (VUint id :: vs))) = Ok id.
Proof.
  intros Hc Hd Hv Hm. unfold RequestedOp, unmarshal. cbn [go_type Request_codec].
  rewrite Unmarshal_tree by done. cbn [tree decode zero map snd members].
  pose proof Hv as [Hid Hvs]. apply codable_fields in Hc as [_ Hc]. apply Forall_cons_iff in Hc as [_ Hc].
  erewrite object_hit; [|by vm_compute|done|done|by apply decode_uint].
  cbn [insert list_insert].
  assert (Hskip : forall vs, object decode [("ID", uint)] (members tree fields vs) [VUint id] None = ([VUint id], None)).
  { clear -Hc Hm. induction fields as [|[name t] fields IH]; intros [|v vs]; try done. cbn [members].
    apply Forall_cons_iff in Hc as [[Hn _] Hc]. apply Forall_cons_iff in Hm as [Hm1 Hm].
    rewrite object_miss; [by apply IH|]. rewrite unquote_quote by done. exact Hm1. }
  rewrite Hskip. done.
Qed.

Lemma RequestedOp_package {A} {C : Codec A} {L : CodecLaws A} (r : A) fields id vs data :
  go_type (A := A) = TStruct (("ID", uint) :: fields) -> to_gv r = VStruct (VUint id :: vs) -> fits r ->
  Forall (fun f => find_field [("ID", uint)] (bytes_of_string f.1) = None) fields ->
  PackageRequest r = Ok data -> RequestedOp data = Ok id.
Proof.
  intros Ht Hv Hr Hm [= <-]. pose proof (to_gv_storable r Hr) as Hs. pose proof (type_codable (A := A)) as Hc.
  pose proof (type_flat (A := A)) as Hd. unfold encode. rewrite Ht in *. rewrite Hv in *. by apply RequestedOp_struct.
Qed.

Lemma parse_package {A} {C : Codec A} {L : CodecLaws A} (r : A) data :
  fits r -> PackageRequest r = Ok data -> parse data = Ok r.
Proof. intros Hr Hp. unfold parse. by rewrite (unmarshal_marshal r data Hr Hp). Qed.

(** The applet's reading of a [SignRequest]. *)
Lemma parse_sign r data :
  fits r -> PackageRequest r = Ok data ->
  parse data = Ok (mkSignRequestInternal (Encode (s_Data r)) (s_DerivationPath r) (s_Algorithm r)).
Proof.
  intros Hr [= <-]. pose proof (to_gv_storable r Hr) as Hs. destruct Hr as (Hid & Hp & Ha).
  unfold parse, unmarshal, encode. cbn [go_type signRequestInternal_codec].
  rewrite Unmarshal_tree; [|exact (type_codable (A := SignRequest))|exact (type_flat (A := SignRequest))|exact Hs].
  destruct (decode_tree path_type (path_to_gv (s_DerivationPath r))) as (pv & Hpv & Hps);
    [check_type|by apply path_storable|].
  cbn [go_type to_gv SignRequest_codec tree members decode zero map snd].
  erewrite object_miss by (by vm_compute).
  erewrite object_hit; [|by vm_compute|done|done|apply decode_bytes_text].
  cbn [insert list_insert].
  erewrite object_hit; [|by vm_compute|done|done|exact Hpv].
  cbn [insert list_insert].
  erewrite object_hit; [|by vm_compute|done|done|by apply decode_uint].
  cbn [insert list_insert object of_gv signRequestInternal_codec field nth get_string get_uint].
  by rewrite <-(path_of_gv_strip pv), Hps, path_of_gv_strip, path_of_to_gv.
Qed.

Lemma DecodeString_Encode l : DecodeString (Encode l) = Ok l.
Proof. unfold DecodeString. by rewrite decode_Encode. Qed.

(** ** The operations of a token, as requests *)

Inductive operation :=
| OpRandomBytes (amount : Z)
| OpSign (data : list byte) (path : DerivationPath) (algorithm : Algorithm)
| OpPublicKey (path : DerivationPath)
| OpMnemonic (path : DerivationPath)
| OpSupportedSignAlgorithms.

Inductive answer :=
| Bytes (data : list byte)
| Words (words : list string)
| Algorithms (algorithms : list Algorithm).

(** The values Go can hold. *)
Definition op_fits (op : operation) : Prop :=
  match op with
  | OpRandomBytes amount => 0 <= amount < 2 ^ 64
  | OpSign _ path algorithm => path_fits path /\ id_fits algorithm
  | OpPublicKey path | OpMnemonic path => path_fits path
  | OpSupportedSignAlgorithms => True
  end.

Definition answer_fits (a : answer) : Prop :=
  match a with
  | Bytes _ => True
  | Words words => Forall (fun s => valid_utf8 (bytes_of_string s) = true) words
  | Algorithms l => Forall id_fits l
  end.

(** The packaged request. *)
Definition request (op : operation) : result (list byte) :=
  match op with
  | OpRandomBytes amount => PackageRequest (mkRandomBytesRequest RequestRandomBytes amount)
  | OpSign data path algorithm => PackageRequest (mkSignRequest RequestSign data path algorithm)
  | OpPublicKey path => PackageRequest (mkPublicKeyRequest RequestPublicKey path)
  | OpMnemonic path => PackageRequest (mkMnemonicRequest RequestMnemonic path)
  | OpSupportedSignAlgorithms => PackageRequest (mkRequest RequestSupportedSignAlgorithms)
  end.

(** The answer unpacked from a response. *)
Definition response (op : operation) (resp : list byte) : result answer :=
  match op with
  | OpRandomBytes _ | OpSign _ _ _ | OpPublicKey _ =>
      match UnpackResponse (A := DataResponse) resp with
      | (r, None) => Ok (Bytes (dr_Data r))
      | (_, Some e) => Err e
      end
  | OpMnemonic _ =>
      match UnpackResponse (A := MnemonicResponse) resp with
      | (r, None) => Ok (Words (mr_Words r))
      | (_, Some e) => Err e
      end
  | OpSupportedSignAlgorithms =>
      match UnpackResponse (A := SupportedSignAlgorithmsResponse) resp with
      | (r, None) => Ok (Algorithms (ar_Algorithms r))
      | (_, Some e) => Err e
      end
  end.

(** The response that carries an answer. *)
Definition answer_bytes (op : operation) (a : answer) : list byte :=
  match op, a with
  | OpRandomBytes _, Bytes d => encode (mkDataResponse RequestRandomBytes d)
  | OpSign _ _ _, Bytes d => encode (mkDataResponse RequestSign d)
  | OpPublicKey _, Bytes d => encode (mkDataResponse RequestPublicKey d)
  | OpMnemonic _, Words ws => encode (mkMnemonicResponse RequestMnemonic ws)
  | OpSupportedSignAlgorithms, Algorithms l => encode (mkAlgorithmsResponse RequestSupportedSignAlgorithms l)
  | _, _ => []
  end.

Definition result_map {A B} (f : A -> B) (r : result A) : result B :=
  match r with Ok a => Ok (f a) | Err e => Err e end.

Section server.
Context {W T : Type} {TK : Token W T}.

(** The specification: the operation is done by a clone of the token at the
    path. *)
Definition perform_op (t : T) (op : operation) (w : W) : go (W * result answer) :=
  match op with
  | OpRandomBytes amount => '(w, r) ← RandomBytes t amount w; Ret (w, result_map Bytes r)
  | OpSign data path algorithm =>
      '(w, r) ← at_path t path (fun tok w => Sign tok data algorithm w) w; Ret (w, result_map Bytes r)
  | OpPublicKey path => '(w, r) ← at_path t path PublicKey w; Ret (w, result_map Bytes r)
  | OpMnemonic path => '(w, r) ← at_path t path Mnemonic w; Ret (w, result_map Words r)
  | OpSupportedSignAlgorithms => Ret (w, Ok (Algorithms (SupportedSignAlgorithms t)))
  end.

(** The outcome of a request: an error or a panic of the token passes
    through, an answer is a response that unpacks to it. *)
Definition answers (op : operation) (spec : go (W * result answer)) (out : go (W * result (list byte))) : Prop :=
  match spec with
  | Panic p => out = Panic p
  | Ret (w, Err e) => out = Ret (w, Err e)
  | Ret (w, Ok a) =>
      out = Ret (w, Ok (answer_bytes op a)) /\ (answer_fits a -> response op (answer_bytes op a) = Ok a)
  end.

Lemma response_data op a :
  match op with OpRandomBytes _ | OpSign _ _ _ | OpPublicKey _ => True | _ => False end ->
  response op (answer_bytes op (Bytes a)) = Ok (Bytes a).
Proof.
  assert (H : forall id, id_fits id -> unmarshal (encode (mkDataResponse id a)) = (mkDataResponse id a, None)).
  { intros id Hid. exact (unmarshal_encode (L := DataResponse_laws) (mkDataResponse id a) Hid). }
  unfold response, answer_bytes, UnpackResponse. destruct op; try done; intros _; by rewrite H by by vm_compute.
Qed.

Lemma response_words path a :
  answer_fits (Words a) -> response (OpMnemonic path) (answer_bytes (OpMnemonic path) (Words a)) = Ok (Words a).
Proof.
  intros Ha. unfold response, answer_bytes, UnpackResponse.
  assert (Hf : fits (mkMnemonicResponse RequestMnemonic a)) by (split; [by vm_compute|done]).
  by rewrite (unmarshal_encode _ Hf).
Qed.

Lemma response_algorithms a :
  answer_fits (Algorithms a) ->
  response OpSupportedSignAlgorithms (answer_bytes OpSupportedSignAlgorithms (Algorithms a)) = Ok (Algorithms a).
Proof.
  intros Ha. unfold response, answer_bytes, UnpackResponse.
  assert (Hf : fits (mkAlgorithmsResponse RequestSupportedSignAlgorithms a)) by (split; [by vm_compute|done]).
  by rewrite (unmarshal_encode _ Hf).
Qed.

(** The common end of every branch of [Dispatch]. *)
Lemma answers_bind {A B} {C : Codec B} op (f : A -> B) (g : A -> answer) (run : go (W * result A)) :
  (forall a, respond f (Ok a) = Ok (answer_bytes op (g a))) ->
  (forall a, answer_fits (g a) -> response op (answer_bytes op (g a)) = Ok (g a)) ->
  answers op ('(w, r) ← run; Ret (w, result_map g r)) ('(w, r) ← run; Ret (w, respond f r)).
Proof.
  intros Hr Ha. destruct run as [[w [a|e]]|p]; [|done|done]. rewrite !go_bind_ret, Hr. split; [done|apply Ha].
Qed.

Ltac read_op Hf Hreq :=
  lazymatch type of Hf with
  | @fits ?A ?C ?L ?r =>
      erewrite (@RequestedOp_package A C L r); [| | | exact Hf | | exact Hreq];
        [|reflexivity|reflexivity|repeat constructor]
  end.

(** A packaged request is served as the operation it stands for. *)
Lemma Dispatch_answers op data t w :
  op_fits op -> request op = Ok data -> answers op (perform_op t op w) (Dispatch data t w).
Proof.
  intros Hop Hreq. destruct op as [amount|d path alg|path|path|]; cbn [request op_fits perform_op] in *; unfold Dispatch.
  - assert (Hf : fits (mkRandomBytesRequest RequestRandomBytes amount)) by (split; [by vm_compute|done]).
    read_op Hf Hreq.
    rewrite (parse_package _ _ Hf Hreq). cbn [rb_Amount Z.eqb RequestRandomBytes].
    apply answers_bind; [done|]. intros a _. by apply response_data.
  - destruct Hop as [Hp Ha].
    assert (Hf : fits (mkSignRequest RequestSign d path alg)) by (split; [by vm_compute|done]).
    read_op Hf Hreq.
    rewrite (parse_sign _ _ Hf Hreq).
    change (RequestSign =? RequestRandomBytes) with false. change (RequestSign =? RequestSign) with true.
    cbn [sri_DerivationPath sri_Algorithm s_DerivationPath s_Algorithm s_Data].
    unfold sri_Bytes; cbn [sri_Data]. rewrite DecodeString_Encode.
    apply answers_bind; [done|]. intros a _. by apply response_data.
  - assert (Hf : fits (mkPublicKeyRequest RequestPublicKey path)) by (split; [by vm_compute|done]).
    read_op Hf Hreq.
    rewrite (parse_package _ _ Hf Hreq).
    apply (answers_bind (OpPublicKey path)); [done|]. intros a _. by apply response_data.
  - assert (Hf : fits (mkMnemonicRequest RequestMnemonic path)) by (split; [by vm_compute|done]).
    read_op Hf Hreq.
    rewrite (parse_package _ _ Hf Hreq).
    apply (answers_bind (OpMnemonic path)); [done|]. intros a Ha. by apply response_words.
  - assert (Hf : fits (mkRequest RequestSupportedSignAlgorithms)) by by vm_compute.
    read_op Hf Hreq.
    split; [done|]. apply response_algorithms.
Qed.

End server.

(** ** A panicking request *)

Lemma sri_Bytes_cases r :
  match DecodeString (sri_Data r) with
  | Ok b => sri_Bytes r = Ret b
  | Err e => sri_Bytes r = Panic (PanicValue e) /\ e = CorruptInputError
  end.
Proof. unfold sri_Bytes, DecodeString. by destruct (decode_from _ _). Qed.

(** ** The two copies of the token *)

Section copies.
Context {HD : HDKeychain} {W : Type} {E : Entropy W}.

(** The token of [src/crypto] with the same key. *)
Definition as_dumb (t : AppletToken.t) : dumbToken.t := dumbToken.mkToken (AppletToken.privKey t).

Definition as_dumb_init (out : go (W * AppletToken.t * option error)) : go (W * dumbToken.t * option error) :=
  '(w, t, e) ← out; Ret (w, as_dumb t, e).

Lemma Initialize_same t path w :
  as_dumb_init (AppletToken.Initialize t path w) = dumbToken.Initialize (as_dumb t) path w.
Proof.
  unfold AppletToken.Initialize, dumbToken.Initialize, dumbToken.DeriveSecret, AppletToken.DeriveSecret, dumbToken.secret.
  change AppletToken.defaultEntropy with dumbToken.defaultEntropy.
  generalize (copy_into 32 (Sha256.hmac_sha256 Diversifier dumbToken.defaultEntropy)). intros secret. rewrite !go_bind_ret.
  destruct (NewMaster secret (CoinType path)) as [master|]; [|done]. by destruct (KeyFromPath master path).
Qed.

End copies.

(** ** Properties *)

(** C6: Requests reach the token.  For every operation of a token whose
    arguments fit their Go types, packaging it as JSON and dispatching the
    bytes in the applet does exactly what the operation does on a clone of the
    applet's token initialised at the path: the same effect on the world, the
    same errors and panics, and a response that unpacks to the same answer. *)
Theorem Dispatch_refines {W T : Type} {TK : Token W T} op data (t : T) (w : W) :
  op_fits op -> request op = Ok data -> answers op (perform_op t op w) (Dispatch data t w).
Proof. apply Dispatch_answers. Qed.

Definition demo_op : operation := OpSign (bytes_of [1; 2; 255]) (mkPath 44 118 0 0 7) AlgoSecp256K1.

Definition demo_request : list byte := match request demo_op with Ok d => d | Err _ => [] end.

Lemma Dispatch_refines_witness :
  answers demo_op
    (perform_op (TK := AppletToken.token (HD := path_keychain) (E := zero_entropy) (2 ^ 31))
       (AppletToken.NewToken (HD := path_keychain)) demo_op 0%nat)
    (Dispatch (TK := AppletToken.token (HD := path_keychain) (E := zero_entropy) (2 ^ 31)) demo_request
       (AppletToken.NewToken (HD := path_keychain)) 0%nat).
Proof.
  apply (Dispatch_refines (TK := AppletToken.token (HD := path_keychain) (E := zero_entropy) (2 ^ 31))
    demo_op demo_request (AppletToken.NewToken (HD := path_keychain)) 0%nat).
  - split; [|split; [vm_compute; discriminate|reflexivity]].
    repeat (apply List.Forall_cons; [split; [vm_compute; discriminate|reflexivity]|]). apply List.Forall_nil.
  - reflexivity.
Defined.

(** A signing request whose data is not base64 text stops the applet: its
    token is initialised, and then the decoding error is raised as a panic
    instead of being returned. *)
Theorem sign_bad_base64_panics {W T : Type} {TK : Token W T} data (t : T) (w : W) r w' tok :
  RequestedOp data = Ok RequestSign -> parse data = Ok r -> decode_from [] (sri_Data r) = None ->
  Initialize (Clone t) (sri_DerivationPath r) w = Ret (w', tok, None) ->
  Dispatch data t w = Panic (PanicValue CorruptInputError).
Proof.
  intros Hop Hr Hd Hi. unfold Dispatch. rewrite Hop, Hr. unfold at_path, sri_Bytes, DecodeString.
  rewrite Hi, Hd. done.
Qed.

(** The text [{"ID":1,"Data":"???"}]. *)
Definition bad_request : list byte := bytes_of
  [123; 34; 73; 68; 34; 58; 49; 44; 34; 68; 97; 116; 97; 34; 58; 34; 63; 63; 63; 34; 125].

Lemma sign_bad_base64_panics_witness :
  Dispatch (TK := AppletToken.token (HD := path_keychain) (E := zero_entropy) (2 ^ 31)) bad_request
    (AppletToken.NewToken (HD := path_keychain)) 0%nat = Panic (PanicValue CorruptInputError).
Proof.
  apply (sign_bad_base64_panics (TK := AppletToken.token (HD := path_keychain) (E := zero_entropy) (2 ^ 31))
    bad_request (AppletToken.NewToken (HD := path_keychain)) 0%nat
    (mkSignRequestInternal (bytes_of_string "???") zero_path 0) 0%nat
    (AppletToken.mkToken (HD := path_keychain) (Some [2^31; 2^31; 2^31; 0; 0]))).
  - vm_compute. reflexivity.
  - vm_compute. reflexivity.
  - vm_compute. reflexivity.
  - reflexivity.
Defined.

(** C37: Requests that are refused.  Bytes that are no text of the grammar
    of JSON (read on bytes, as Go's scanner does), whose identifier is not a
    32-bit number, or whose identifier is none of the five operations, are
    answered with an error and never reach the token or the world. *)
Theorem Dispatch_refuses {W T : Type} {TK : Token W T} data (t : T) (w : W) :
  (~ JsonGrammar.text maxNestingDepth (map byte.unsigned data) ->
     Dispatch data t w = Ret (w, Err (Wrapf "cannot read op, %w" [] SyntaxError))) /\
  (JsonGrammar.text maxNestingDepth (map byte.unsigned data) ->
     match RequestedOp data with
     | Err e => Dispatch data t w = Ret (w, Err (Wrapf "cannot read op, %w" [] e))
     | Ok id => 4 < id -> Dispatch data t w = Ret (w, Err (Errorf "cannot handle request" []))
     end).
Proof.
  rewrite <- JsonGrammar.json_Valid_text, json_Valid_tree. unfold Dispatch. split.
  - intros Hj. destruct (json_tree data) as [j|] eqn:Ej; [by destruct Hj|].
    unfold RequestedOp, unmarshal, Unmarshal. by rewrite Ej.
  - intros _. destruct (RequestedOp data) as [id|e]; [|done]. intros Hid.
    unfold RequestRandomBytes, RequestSign, RequestPublicKey, RequestMnemonic, RequestSupportedSignAlgorithms.
    by repeat rewrite (proj2 (Z.eqb_neq id _)) by lia.
Qed.

(** The applet's token is the development token of [src/crypto]: the two
    copies of the code agree on every method, for the same key. *)
Theorem applet_token_same {HD : HDKeychain} {W : Type} {E : Entropy W} maxAlloc t path data a amount (w : W) :
  AppletToken.RandomBytes maxAlloc t amount w = dumbToken.RandomBytes maxAlloc (as_dumb t) amount w /\
  AppletToken.DeriveSecret t w = dumbToken.DeriveSecret (as_dumb t) w /\
  as_dumb_init (AppletToken.Initialize t path w) = dumbToken.Initialize (as_dumb t) path w /\
  AppletToken.Sign t data a w = dumbToken.Sign (as_dumb t) data a w /\
  AppletToken.PublicKey t w = dumbToken.PublicKey (as_dumb t) w /\
  AppletToken.Mnemonic t w = dumbToken.Mnemonic (as_dumb t) w /\
  AppletToken.SupportedSignAlgorithms t = dumbToken.SupportedSignAlgorithms (as_dumb t) /\
  as_dumb (AppletToken.Clone t) = dumbToken.Clone (as_dumb t) /\
  as_dumb AppletToken.NewToken = dumbToken.NewDumbToken.
Proof. split_and!; try reflexivity. apply Initialize_same. Qed.
