(* ===== verification/TeeClient.v ===== *)
(** * The two sides of the trusted OS's calls

    [src/tee/trusted_os/tz/client] (the RPC clients and the report of a
    panic), [src/tee/trusted_os/nonsecuresyscall] (the stream under the other
    world's client) and the [main] of [src/tee/cryptography_applet].

    The JSON-RPC client and server and the system calls of an applet are
    GoTEE's and [net/rpc]'s: they are the parameters of [Rpc], and [RpcLaws]
    is what this code relies on. *)

From S2P Require Import Prelude GoRuntime Crypto JsonScan JsonTree JsonString JsonCodec Codec TokenApplet Tz TrustZone.
Import JsonString JsonCodec Tz TrustZone.

(** ** [net/rpc] and GoTEE *)

(** What a client's [Call] leaves in the reply and returns. *)
Definition outcome : Type := option Mail * option error.

Class Rpc (W : Type) := {
  (** The request the JSON-RPC client writes, and what it makes of the bytes
      it reads, which end with [io.EOF]. *)
  encode_call : call -> list byte;
  decode_reply : list byte -> outcome;
  (** The length of the buffer it reads into. *)
  client_buffer : nat;
  (** The other world's buffer: handed over with a write call, filled by a
      read call. *)
  hand_over : list byte -> W -> W;
  received : W -> list byte;
  (** GoTEE's [syscall.Call], issued by the applet. *)
  syscall_Call : call -> Context -> W -> W * Context * outcome;
  (** [debug.Stack()] and the text of a recovered value. *)
  debug_Stack : string;
  panic_text : panic -> string
}.

(** [rpc.ServerError]: only the text of the server's error arrives. *)
Definition ServerError (text : string) : error := StructError "rpc.ServerError" [text].

(** ** [client.go] *)

Module Client.

(** [callRPC]: the reply lands in [dest]; an unexpected end of the stream is
    not an error. *)
Definition callRPC (out : outcome) (dest : Mail) : Mail * option error :=
  let '(reply, err) := out in
  let dest := match reply with Some m => CopyFrom dest m | None => dest end in
  match err with
  | Some e => if negb (errors_Is e io_ErrUnexpectedEOF) then (dest, Some e) else (dest, None)
  | None => (dest, None)
  end.

Definition ClientPanic_Error (cp : ClientPanic) : string :=
  let newline := String (Ascii.ascii_of_nat 10) EmptyString in
  cp_Msg cp +:+ newline +:+ newline +:+ cp_Stacktrace cp.

Section client.
Context {W : Type} {R : Rpc W}.

(** [SecureRPC{}.RetrieveMail] *)
Definition RetrieveMail (appID : Z) (c : Context) (w : W) : W * Context * Mail * option error :=
  let '(w, c, out) := syscall_Call (CallRetrieveMail appID) c w in
  let '(mail, err) := callRPC out zero_mail in (w, c, mail, err).

(** [SecureRPC{}.WriteResponse] *)
Definition WriteResponse (mail : Mail) (c : Context) (w : W) : W * Context * option error :=
  let '(w, c, out) := syscall_Call (CallWriteResponse mail) c w in (w, c, (callRPC out zero_mail).2).

(** The bytes [ExitWithError] passes to system call 666. *)
Definition ExitWithError (msg : string) : result (list byte) :=
  marshal (mkClientPanic msg debug_Stack).

End client.
End Client.

(** ** The applet: [cryptography_applet/main.go] *)

(** How the applet ends: [applet.Exit], the error report, or [l.Fatalw]. *)
Inductive exit :=
| Exited
| ExitedWithError (report : list byte)
| Fatal (e : error).

Section applet.
Context {W : Type} {R : Rpc W} {HD : HDKeychain} {E : Entropy W}.
Context (maxAlloc : Z).

(** [handlePanic] *)
Definition handlePanic (p : panic) : exit :=
  match Client.ExitWithError (panic_text p) with
  | Ok report => ExitedWithError report
  | Err e => ExitedWithError []
  end.

(** [main]; the token is a fresh one in every run. *)
Definition applet_main (c : Context) (w : W) : W * Context * exit :=
  let '(w, c, mail, err) := Client.RetrieveMail AppletID c w in
  match err with
  | Some e => (w, c, handlePanic (PanicValue e))
  | None =>
      let t := AppletToken.NewToken in
      match Dispatch (TK := AppletToken.token maxAlloc) (Payload mail) t w with
      | Panic p => (w, c, handlePanic p)
      | Ret (w, Err e) => (w, c, Fatal e)
      | Ret (w, Ok resp) =>
          let '(w, c, err) := Client.WriteResponse (mkMail (AppID mail) resp) c w in
          match err with
          | Some e => (w, c, handlePanic (PanicValue e))
          | None => (w, c, Exited)
          end
      end
  end.

End applet.

(** ** The other world *)

(** What the other world runs on: the trusted OS, its logs, the machine. *)
Record World (W : Type) := mkWorld { ctx : Context; log : Log; hw : W }.
Arguments mkWorld {W} _ _ _.
Arguments ctx {W} _.
Arguments log {W} _.
Arguments hw {W} _.

Section nonsecure.
Context {W : Type} {M : Monitor W} {R : Rpc W}.
(** The context of the other world, and what [nonsecureWorldHandler] depends
    on. *)
Context (os : ExecCtx) (maxAlloc : Z) (order : Context -> list Z).

(** ** System call stubs: [nonsecuresyscall/syscall.go], [syscall.s]

    A stub puts the call and its arguments into registers and traps ([smc]).
    A buffer is handed over and received through the parameters of [Rpc]; its
    address, in [R1], is the one argument left open. *)

Definition with_regs (r0 r1 r2 : Z) (x : ExecCtx) : ExecCtx :=
  mkExecCtx r0 r1 r2 (R13 x) (Memory x) (NonSecure x) (Debug x) (ctx_Handler x) (Server x).

(** A trap: with an error the other world is not resumed. *)
Definition smc (x : ExecCtx) (v : World W) : go (World W * option error) :=
  '(w, c, g, err) ← nonsecureWorldHandler maxAlloc order x (ctx v) (log v) (hw v);
  Ret (mkWorld c g w, err).

(** A trap that is expected to return; when it does not, [run] in the trusted
    OS panics with the error. *)
Definition sys_Supervisor (x : ExecCtx) (v : World W) : go (World W) :=
  '(v, err) ← smc x v;
  match err with
  | Some e => Panic (PanicValue e)
  | None => Ret v
  end.

Definition sys_Exit (v : World W) : go (World W * option error) :=
  smc (with_regs SYS_EXIT (R1 os) (R2 os) os) v.

Definition sys_Print (c : byte) (v : World W) : go (World W) :=
  sys_Supervisor (with_regs SYS_WRITE (byte.unsigned c) (R2 os) os) v.

Definition sys_Write (trap : Z) (p : list byte) (n : nat) (v : World W) : go (World W) :=
  sys_Supervisor (with_regs trap (R1 os) (Z.of_nat n) os) (mkWorld (ctx v) (log v) (hand_over p (hw v))).

Definition sys_Read (trap : Z) (n : nat) (v : World W) : go (World W * list byte) :=
  v ← sys_Supervisor (with_regs trap (R1 os) (Z.of_nat n) os) v;
  Ret (v, received (hw v)).

Definition sys_GetRandom (b : list byte) (n : nat) (v : World W) : go (World W) :=
  sys_Write SYS_GETRANDOM b n v.

(** ** The stream: [nonsecuresyscall/rpc.go] *)

(** [Stream.Write] never fails. *)
Definition Stream_Write (p : list byte) (v : World W) : go (World W * nat) :=
  let n := length p in
  v ← sys_Write SYS_RPC_REQ p n v;
  Ret (v, n).

(** [Stream.Read] into a buffer of [len] bytes always reports the end of the
    stream. *)
Definition Stream_Read (len : nat) (v : World W) : go (World W * list byte * error) :=
  '(v, bytes) ← sys_Read SYS_RPC_RES len v;
  Ret (v, bytes, io_EOF).

Definition Stream_Close : option error := None.

(** [Call] on a disposable client: one request written, one response read. *)
Definition nonsecuresyscall_Call (k : call) (v : World W) : go (World W * outcome) :=
  '(v, _) ← Stream_Write (encode_call k) v;
  '(v, bytes, _) ← Stream_Read client_buffer v;
  Ret (v, decode_reply bytes).

(** [NonsecureRPC{}.SendMail] *)
Definition client_SendMail (mail : Mail) (v : World W) : go (World W * option error) :=
  '(v, out) ← nonsecuresyscall_Call (CallSendMail mail) v;
  Ret (v, (Client.callRPC out zero_mail).2).

(** [NonsecureRPC{}.RetrieveResult] *)
Definition client_RetrieveResult (appID : Z) (v : World W) : go (World W * Mail * option error) :=
  '(v, out) ← nonsecuresyscall_Call (CallRetrieveResult appID) v;
  let '(mail, err) := Client.callRPC out zero_mail in
  Ret (v, mail, err).

End nonsecure.

(** ** What the trusted OS and its clients rely on *)

(** The reply of a method, as its client sees it; [text] is [Error()]. *)
Definition reply_of (text : error -> string) (e : effect) : outcome :=
  match e with
  | Taken m | Fetched m => (Some m, None)
  | Answered _ | Sent _ => (None, None)
  | Failed e => (None, Some (ServerError (text e)))
  end.

(** The mail in a reply. *)
Definition reply_size (e : effect) : nat :=
  match e with Taken m | Fetched m => length (Payload m) | _ => 0 end.

(** The applet's last system call, as the registers and its memory show it. *)
Definition last_call {W} {M : Monitor W} (ex : exit) (x : ExecCtx) (w : W) : Prop :=
  match ex with
  | Exited => R0 x = SYS_EXIT
  | ExitedWithError report =>
      R0 x = SYS_EXIT_ERROR /\ R2 x = Z.of_nat (length report) /\
      exists off w', exit_offset x (R2 x) = Some off /\ rand_fill (length report) w = (w', None) /\
        Memory_Read (Memory x) off (length report) w' = report
  | Fatal _ => True
  end.

(** The context was loaded from this image, and the loaded world is [w]. *)
Definition loaded {W} {M : Monitor W} (elf : list byte) (x : ExecCtx) (w : W) : Prop :=
  exists w0 w1 x0, image_Load elf AppletRegion w0 = (w1, None) /\
    monitor_Load (image_Entry elf) AppletRegion true w1 = (w, Ok x0) /\ NonSecure x = NonSecure x0.

Class RpcLaws (W : Type) (M : Monitor W) (R : Rpc W) (HD : HDKeychain) (E : Entropy W) (maxAlloc : Z) := {
  error_text : error -> string;
  (** The reply the server holds for the other world. *)
  held : W -> list byte;
  encode_reply : effect -> list byte;
  (** The largest mail that fits in the client's read. *)
  maxMail : nat;
  (** The applet's image. *)
  applet_elf : list byte;

  reply_read e : (reply_size e <= maxMail)%nat -> decode_reply (encode_reply e) = reply_of error_text e;
  reply_cut e : (maxMail < reply_size e)%nat -> decode_reply (encode_reply e) = (None, Some io_ErrUnexpectedEOF);

  (** A request call performs the method of the other world's receiver and
      holds its reply; a response call hands the reply over. *)
  serve_request x c w k : R0 x = SYS_RPC_REQ -> Server x = [NonsecureRPC] -> nonsecure_call k = true ->
    exists w', SecureHandler x c (hand_over (encode_call k) w) = Ret (w', (perform c k).1, None) /\
      held w' = encode_reply (perform c k).2;
  serve_response x c w : R0 x = SYS_RPC_RES -> Server x = [NonsecureRPC] ->
    exists w', SecureHandler x c w = Ret (w', c, None) /\ received w' = held w /\ held w' = held w;

  (** An applet's call performs the method and leaves the other world's reply
      alone. *)
  applet_call k c w : secure_call k = true ->
    exists w', syscall_Call k c w =
        (w', (perform c k).1,
         if bool_decide (reply_size (perform c k).2 <= maxMail)%nat then reply_of error_text (perform c k).2
         else (None, Some io_ErrUnexpectedEOF)) /\ held w' = held w;

  (** Randomness is read without touching the other world's reply. *)
  entropy_held n w : held (rand_Read n w).1 = held w;

  (** The applet's image loads, and running it runs [applet_main] up to its
      last system call, whose handler decides how the run ends. *)
  applet_loads w : exists w1 w2 x,
    image_Load applet_elf AppletRegion w = (w1, None) /\
    monitor_Load (image_Entry applet_elf) AppletRegion true w1 = (w2, Ok x) /\ held w2 = held w;
  applet_runs x c w : loaded applet_elf x w -> ctx_Handler x = LogHandler -> Server x = [SecureRPC] ->
    exists x' w2 w3 err,
      last_call (applet_main maxAlloc c w).2 x' w2 /\ NonSecure x' = false /\
      (forall g, logHandler maxAlloc x' (applet_main maxAlloc c w).1.2 g w2 =
                 Ret (w3, (applet_main maxAlloc c w).1.2, g, err)) /\
      ctx_Run x c w = Ret (w3, x', (applet_main maxAlloc c w).1.2, err) /\
      held w3 = held (applet_main maxAlloc c w).1.1
}.
