(* ===== verification/TeeToken.v ===== *)
(** * Using the token from the other world

    [src/tee/cryptography_applet/token/client]: [TEEToken], the token whose
    operations are requests to the applet; and [src/tee/nonsecure_demo_os], the
    program that runs in the other world and makes one request of each kind. *)

From S2P Require Import Prelude GoRuntime Sha256 Crypto JsonScan JsonTree JsonString JsonCodec Codec TokenApplet Tz TrustZone TeeClient.
Import Tz TrustZone.

Section other_world.
Context {W : Type} {M : Monitor W} {R : Rpc W}.
Context (os : ExecCtx) (maxAlloc : Z) (order : Context -> list Z).

(** ** [doRequest] *)

Definition doRequest {A B} `{Codec A} `{Codec B} (input : A) (v : World W) : go (World W * result B) :=
  match PackageRequest input with
  | Err e => Ret (v, Err e)
  | Ok reqBytes =>
      let m := mkMail AppletID reqBytes in
      '(v, err) ← client_SendMail os maxAlloc order m v;
      match err with
      | Some e => Ret (v, Err e)
      | None =>
          '(v, res, err) ← client_RetrieveResult os maxAlloc order (AppID m) v;
          match err with
          | Some e => Ret (v, Err e)
          | None =>
              match UnpackResponse (Payload res) with
              | (_, Some e) => Ret (v, Err e)
              | (output, None) => Ret (v, Ok output)
              end
          end
      end
  end.

(** ** [TEEToken] *)

Record TEEToken := mkTEEToken { tee_path : DerivationPath }.

Definition TEE_RandomBytes (_ : TEEToken) (amount : Z) (v : World W) : go (World W * result (list byte)) :=
  '(v, r) ← doRequest (B := DataResponse) (mkRandomBytesRequest RequestRandomBytes amount) v;
  Ret (v, match r with Ok resp => Ok (dr_Data resp) | Err e => Err e end).

Definition TEE_DeriveSecret (_ : TEEToken) (v : World W) : go (World W * result (list byte)) :=
  Ret (v, Ok (zeros 32)).

Definition TEE_Initialize (_ : TEEToken) (path : DerivationPath) (v : World W)
    : go (World W * TEEToken * option error) :=
  Ret (v, mkTEEToken path, None).

(** The data is hashed here, and the algorithm asked for is not passed on. *)
Definition TEE_Sign (t : TEEToken) (data : list byte) (_ : Algorithm) (v : World W)
    : go (World W * result (list byte)) :=
  let hs := Sha256.Sum256 data in
  '(v, r) ← doRequest (B := DataResponse) (mkSignRequest RequestSign hs (tee_path t) AlgoSecp256K1) v;
  Ret (v, match r with Ok resp => Ok (dr_Data resp) | Err e => Err e end).

Definition TEE_PublicKey (t : TEEToken) (v : World W) : go (World W * result (list byte)) :=
  '(v, r) ← doRequest (B := DataResponse) (mkPublicKeyRequest RequestPublicKey (tee_path t)) v;
  Ret (v, match r with Ok resp => Ok (dr_Data resp) | Err e => Err e end).

Definition TEE_Mnemonic (t : TEEToken) (v : World W) : go (World W * result (list string)) :=
  '(v, r) ← doRequest (B := MnemonicResponse) (mkMnemonicRequest RequestMnemonic (tee_path t)) v;
  Ret (v, match r with Ok resp => Ok (mr_Words resp) | Err e => Err e end).

Definition TEE_SupportedSignAlgorithms (_ : TEEToken) : list Algorithm := [AlgoSecp256K1].

Definition TEE_Clone (t : TEEToken) : TEEToken := mkTEEToken (tee_path t).

#[export] Instance TEE_token : Token (World W) TEEToken := {
  RandomBytes := TEE_RandomBytes;
  DeriveSecret := TEE_DeriveSecret;
  Initialize := TEE_Initialize;
  Sign := TEE_Sign;
  PublicKey := TEE_PublicKey;
  Mnemonic := TEE_Mnemonic;
  Clone := TEE_Clone;
  SupportedSignAlgorithms := TEE_SupportedSignAlgorithms
}.

(** [tokenImpl] of the firmware built with [tee_enabled]. *)
Definition tokenImpl : TEEToken := mkTEEToken zero_path.

(** ** The demo program: [nonsecure_demo_os/main.go] *)

Definition demo_path : DerivationPath := mkPath 44 118 0 0 0.

(** [err] of a request whose response is only logged. *)
Definition error_of {B} (out : World W * result B) : World W * option error :=
  match out with
  | (v, Ok _) => (v, None)
  | (v, Err e) => (v, Some e)
  end.

(** The demo's own copy of [doRequest], which also logs. *)
Definition demo_doRequest {A B} `{Codec A} `{Codec B} (input : A) (v : World W) : go (World W * result B) :=
  match PackageRequest input with
  | Err e => Ret (v, Err e)
  | Ok reqBytes =>
      let m := mkMail AppletID reqBytes in
      '(v, err) ← client_SendMail os maxAlloc order m v;
      match err with
      | Some e => Ret (v, Err e)
      | None =>
          '(v, res, err) ← client_RetrieveResult os maxAlloc order (AppID m) v;
          match err with
          | Some e => Ret (v, Err e)
          | None =>
              match UnpackResponse (Payload res) with
              | (_, Some e) => Ret (v, Err e)
              | (output, None) => Ret (v, Ok output)
              end
          end
      end
  end.

Definition demo_mnemonic (v : World W) : go (World W * option error) :=
  out ← demo_doRequest (B := MnemonicResponse) (mkMnemonicRequest RequestMnemonic demo_path) v;
  Ret (error_of out).

Definition demo_pubkey (v : World W) : go (World W * option error) :=
  out ← demo_doRequest (B := DataResponse) (mkPublicKeyRequest RequestPublicKey demo_path) v;
  Ret (error_of out).

Definition demo_randomBytes (v : World W) : go (World W * option error) :=
  out ← demo_doRequest (B := DataResponse) (mkRandomBytesRequest RequestRandomBytes 42) v;
  Ret (error_of out).

Definition demo_sign (v : World W) : go (World W * option error) :=
  let signData := replicate 42 (byte.of_Z 42) in
  let hs := Sha256.Sum256 signData in
  out ← demo_doRequest (B := DataResponse) (mkSignRequest RequestSign hs demo_path AlgoSecp256K1) v;
  Ret (error_of out).

(** The names of the algorithms are only logged. *)
Definition demo_supportedAlgorithms (v : World W) : go (World W * option error) :=
  out ← demo_doRequest (B := SupportedSignAlgorithmsResponse) (mkRequest RequestSupportedSignAlgorithms) v;
  Ret (error_of out).

Definition funcList : list (World W -> go (World W * option error)) :=
  [demo_mnemonic; demo_pubkey; demo_sign; demo_randomBytes; demo_supportedAlgorithms].

(** The loop of [main]: it stops at the first error. *)
Fixpoint call_functions (fs : list (World W -> go (World W * option error))) (v : World W)
    : go (World W * option error) :=
  match fs with
  | [] => Ret (v, None)
  | f :: fs =>
      '(v, ferr) ← f v;
      match ferr with
      | Some e => Ret (v, Some e)
      | None => call_functions fs v
      end
  end.

(** [main]: whether it reports an error, then [exit]. *)
Definition demo_main (v : World W) : go (World W * option error) := call_functions funcList v.

(** [main] with its deferred [exit] ([api.s]), the last trap of the program:
    the error the trusted OS stops the other world with. *)
Definition demo_program (v : World W) : go (World W * option error) :=
  '(v, _) ← demo_main v; sys_Exit os maxAlloc order v.

End other_world.
