(* ===== verification/TeeMachine.v ===== *)
(** * A machine on which the calls of the trusted OS run

    An instance of the parameters of [TeeClient]: calls and replies travel as
    the bits of their encodings, the applet's calls are performed at once, and
    its image runs [applet_main].  It shows that the assumptions on GoTEE and
    [net/rpc] can hold together, and it is what the witnesses run on. *)

From stdpp Require Import countable.
From S2P Require Import Prelude GoRuntime Crypto JsonScan JsonTree JsonString JsonCodec Codec TokenApplet Tz TzTheory TrustZone TeeClient.
Import Tz TrustZone.

Module TeeMachine.

(** ** Encodings *)

Fixpoint pos_bytes (p : positive) : list byte :=
  match p with
  | xH => []
  | xO p => Byte.x00 :: pos_bytes p
  | xI p => Byte.x01 :: pos_bytes p
  end.

Fixpoint bytes_pos (l : list byte) : positive :=
  match l with
  | [] => xH
  | b :: l => if bool_decide (b = Byte.x00) then xO (bytes_pos l) else xI (bytes_pos l)
  end.

Lemma bytes_pos_bytes p : bytes_pos (pos_bytes p) = p.
Proof. induction p as [p IH|p IH|]; cbn; by rewrite ?IH. Qed.

Definition pack {A} `{Countable A} (a : A) : list byte := pos_bytes (countable.encode a).
Definition unpack {A} `{Countable A} (l : list byte) : option A := countable.decode (bytes_pos l).

Lemma unpack_pack {A} `{Countable A} (a : A) : unpack (pack a) = Some a.
Proof. unfold unpack, pack. rewrite bytes_pos_bytes. apply countable.decode_encode. Qed.

Definition mail_tuple (m : Mail) : Z * list Z := (AppID m, map byte.unsigned (Payload m)).
Definition tuple_mail (t : Z * list Z) : Mail := mkMail t.1 (map byte.of_Z t.2).

Lemma tuple_mail_tuple m : tuple_mail (mail_tuple m) = m.
Proof.
  destruct m as [appID p]. unfold tuple_mail, mail_tuple; cbn. f_equal. rewrite map_map.
  rewrite (map_ext _ id) by apply byte.of_Z_unsigned. apply map_id.
Qed.

Definition call_tuple (k : call) : nat * (Z * list Z) :=
  match k with
  | CallRetrieveMail id => (0%nat, (id, []))
  | CallWriteResponse m => (1%nat, mail_tuple m)
  | CallSendMail m => (2%nat, mail_tuple m)
  | CallRetrieveResult id => (3%nat, (id, []))
  end.

Definition tuple_call (t : nat * (Z * list Z)) : call :=
  match t.1 with
  | 0%nat => CallRetrieveMail t.2.1
  | 1%nat => CallWriteResponse (tuple_mail t.2)
  | 2%nat => CallSendMail (tuple_mail t.2)
  | _ => CallRetrieveResult t.2.1
  end.

Lemma tuple_call_tuple k : tuple_call (call_tuple k) = k.
Proof. destruct k; cbn [tuple_call call_tuple fst snd]; by rewrite ?tuple_mail_tuple. Qed.

(** Mails of more than 4096 bytes do not fit. *)
Definition limit : nat := 4096.

Definition reply_tuple (e : effect) : nat * (Z * list Z) :=
  if bool_decide (reply_size e <= limit)%nat
  then match e with
       | Taken m | Fetched m => (0%nat, mail_tuple m)
       | Answered _ | Sent _ => (1%nat, (0, []))
       | Failed _ => (2%nat, (0, []))
       end
  else (3%nat, (0, [])).

Definition tuple_reply (t : nat * (Z * list Z)) : outcome :=
  match t.1 with
  | 0%nat => (Some (tuple_mail t.2), None)
  | 1%nat => (None, None)
  | 2%nat => (None, Some (ServerError "failed"))
  | _ => (None, Some io_ErrUnexpectedEOF)
  end.

#[local] Instance receiver_eq_dec : EqDecision receiver.
Proof. solve_decision. Defined.

(** ** The machine *)

Record machine := mkMachine { buffer : list byte; reply : list byte; drawn : nat }.

Definition boot : machine := mkMachine [] [] 0.

Definition entropy : Entropy machine := {|
  rand_Read n w := (mkMachine (buffer w) (reply w) (S (drawn w)), Ok (zeros n))
|}.

Definition rpc : Rpc machine := {|
  encode_call k := pack (call_tuple k);
  decode_reply l := match unpack l with Some t => tuple_reply t | None => (None, Some io_ErrUnexpectedEOF) end;
  client_buffer := limit;
  hand_over p w := mkMachine p (reply w) (drawn w);
  received w := buffer w;
  syscall_Call k c w :=
    (w, (perform c k).1,
     if bool_decide (reply_size (perform c k).2 <= limit)%nat
     then reply_of (fun _ => "failed") (perform c k).2 else (None, Some io_ErrUnexpectedEOF));
  debug_Stack := "goroutine 1 [running]";
  panic_text _ := "panic"
|}.

Definition alloc : Z := 2 ^ 31 - 1.

#[local] Existing Instance entropy.
#[local] Existing Instance rpc.
#[local] Existing Instance path_keychain.

(** The applet's last system call, and how its run ends. *)
Definition the_report : list byte := encode (mkClientPanic "panic" "goroutine 1 [running]").

Definition last_ctx (ex : exit) : ExecCtx :=
  match ex with
  | ExitedWithError report =>
      mkExecCtx SYS_EXIT_ERROR AppletStart (Z.of_nat (length report)) 0 AppletRegion false true LogHandler [SecureRPC]
  | _ => mkExecCtx SYS_EXIT 0 0 0 AppletRegion false true LogHandler [SecureRPC]
  end.

Definition run_error (ex : exit) : option error :=
  match ex with
  | ExitedWithError _ => Some (client_panic (mkClientPanic "panic" "goroutine 1 [running]"))
  | _ => Some ErrTAExit
  end.

Definition monitor : Monitor machine := {|
  image_Load _ _ w := (w, None);
  image_Entry _ := 0;
  monitor_Load _ r secure w := (w, Ok (echo_ctx r secure));
  ctx_Run x c w :=
    if bool_decide (Server x = [SecureRPC])
    then let '(w1, c1, ex) := applet_main alloc c w in Ret (w1, last_ctx ex, c1, run_error ex)
    else Ret (w, x, c, None);
  SecureHandler x c w :=
    if bool_decide (Server x = [NonsecureRPC]) then
      if R0 x =? SYS_RPC_REQ then
        match tuple_call <$> unpack (buffer w) with
        | Some k =>
            if nonsecure_call k
            then Ret (mkMachine (buffer w) (pack (reply_tuple (perform c k).2)) (drawn w), (perform c k).1, None)
            else Ret (w, c, None)
        | None => Ret (w, c, None)
        end
      else Ret (mkMachine (reply w) (reply w) (drawn w), c, None)
    else Ret (w, c, None);
  NonSecureHandler _ c w := Ret (w, c, None);
  rand_fill _ w := (w, None);
  Memory_Read _ _ _ _ := the_report
|}.

#[local] Existing Instance monitor.

(** ** It satisfies the laws *)

Lemma main_calls c (w : machine) :
  exists ks, Forall (fun k => secure_call k = true) ks /\ (perform_all c ks).1 = (applet_main alloc c w).1.2.
Proof.
  unfold applet_main, Client.RetrieveMail, Client.WriteResponse. cbn [syscall_Call rpc].
  set (k1 := CallRetrieveMail AppletID). destruct (Client.callRPC _ zero_mail) as [mail [e|]].
  { exists [k1]. split; [by repeat constructor|]. cbn [perform_all fst snd]. by destruct (perform c k1). }
  destruct (Dispatch _ _ w) as [[w1 [resp|e]]|p].
  2, 3: exists [k1]; split; [by repeat constructor|]; cbn [perform_all fst snd]; by destruct (perform c k1).
  set (k2 := CallWriteResponse _). exists [k1; k2]. split; [by repeat constructor|]. cbn [perform_all].
  destruct (perform c k1) as [c1 e1]. cbn [fst]. destruct (perform c1 k2) as [c2 e2].
  by destruct (Client.callRPC _ zero_mail).2.
Qed.

Lemma allowed_one r k : allowed [r] k = match r with SecureRPC => secure_call k | NonsecureRPC => nonsecure_call k end.
Proof. destruct r; cbn; apply orb_false_r. Qed.

Lemma monitor_laws : MonitorLaws machine monitor.
Proof.
  split.
  - intros x c w w' x' c' err. cbn [ctx_Run monitor]. case_bool_decide as Hs.
    + destruct (main_calls c w) as (ks & Hks & Hc). destruct (applet_main alloc c w) as [[w1 c1] ex].
      intros [= <- <- <- <-]. exists ks. split; [|exact Hc]. eapply Forall_impl; [|exact Hks].
      intros k Hk. by rewrite Hs, allowed_one.
    + intros [= <- <- <- <-]. exists []. by split.
  - intros x c w w' c' err. cbn [SecureHandler monitor]. case_bool_decide as Hs; [|intros [= <- <- <-]; exists []; by split].
    destruct (_ =? _); [|intros [= <- <- <-]; exists []; by split].
    destruct (_ <$> _) as [k|]; [|intros [= <- <- <-]; exists []; by split].
    destruct (nonsecure_call k) eqn:Hk; [|intros [= <- <- <-]; exists []; by split].
    intros [= <- <- <-]. exists [k]. split; [|cbn; by destruct (perform c k)].
    constructor; [|constructor]. by rewrite Hs, allowed_one.
  - intros entry r secure w w' x [= <- <-]. done.
Qed.

Lemma serves_reports c (w : machine) report :
  (applet_main alloc c w).2 = ExitedWithError report -> report = the_report.
Proof.
  unfold applet_main. destruct (Client.RetrieveMail _ _ _) as [[[w1 c1] mail] [e|]]; [by intros [= <-]|].
  destruct (Dispatch _ _ w1) as [[w2 [resp|e]]|p]; [|done|by intros [= <-]].
  by destruct (Client.WriteResponse _ _ _) as [[w3 c3] [e|]]; intros [= <-].
Qed.

Lemma last_call_ok ex (w : machine) :
  (forall report, ex = ExitedWithError report -> report = the_report) -> last_call ex (last_ctx ex) w.
Proof.
  intros Hr. destruct ex as [|report|e]; [done| |done]. rewrite (Hr report eq_refl).
  split; [done|]. split; [done|]. exists 0, w. split; [by vm_compute|]. by split.
Qed.

Lemma last_handler ex c g (w : machine) :
  (forall report, ex = ExitedWithError report -> report = the_report) ->
  logHandler alloc (last_ctx ex) c g w = Ret (w, c, g, run_error ex).
Proof.
  intros Hr. destruct ex as [|report|e]; [done| |done]. rewrite (Hr report eq_refl).
  unfold logHandler. cbn [last_ctx R0 R2 NonSecure].
  change (SYS_EXIT_ERROR =? SYS_WRITE) with false. change (SYS_EXIT_ERROR =? SYS_EXIT) with false.
  change (SYS_EXIT_ERROR =? SYS_EXIT_ERROR) with true. cbn [andb].
  unfold make_bytes. rewrite bool_decide_true by (by vm_compute). rewrite go_bind_ret, length_zeros.
  assert (exit_offset (last_ctx (ExitedWithError the_report)) (Z.of_nat (Z.to_nat (Z.of_nat (length the_report))))
    = Some 0) as E by (by vm_compute).
  cbn [last_ctx] in E. rewrite E. cbn [rand_fill monitor Memory_Read].
  assert (unmarshal the_report = (mkClientPanic "panic" "goroutine 1 [running]", None)) as ->
    by (vm_compute; reflexivity).
  done.
Qed.

#[export] Instance rpc_laws : RpcLaws machine monitor rpc path_keychain entropy alloc.
Proof.
  refine {| error_text := fun _ => "failed"; held := reply; encode_reply e := pack (reply_tuple e);
            maxMail := limit; applet_elf := [] |}.
  - intros e He. cbn [decode_reply rpc]. rewrite unpack_pack. unfold reply_tuple. rewrite bool_decide_true by done.
    by destruct e; cbn [tuple_reply fst snd]; rewrite ?tuple_mail_tuple.
  - intros e He. cbn [decode_reply rpc]. rewrite unpack_pack. unfold reply_tuple.
    by rewrite bool_decide_false by lia.
  - intros x c w k H0 Hs Hk. cbn [SecureHandler monitor hand_over encode_call rpc buffer].
    rewrite bool_decide_true by done. rewrite H0. cbn [Z.eqb Pos.eqb SYS_RPC_REQ].
    rewrite unpack_pack. cbn [fmap option_fmap option_map]. rewrite tuple_call_tuple, Hk. eexists. by split.
  - intros x c w H0 Hs. cbn [SecureHandler monitor]. rewrite bool_decide_true by done. rewrite H0.
    eexists. split; [done|]. by split.
  - intros k c w Hk. eexists. by split.
  - done.
  - intros w. exists w, w, (echo_ctx AppletRegion true). by split_and!.
  - intros x c w _ _ Hs. cbn [ctx_Run monitor]. rewrite bool_decide_true by done.
    pose proof (serves_reports c w) as Hr. destruct (applet_main alloc c w) as [[w1 c1] ex]. cbn [fst snd] in *.
    exists (last_ctx ex), w1, w1, (run_error ex).
    split_and!; [by apply last_call_ok|by destruct ex|intros g; by apply last_handler|done|done].
Defined.

End TeeMachine.
