(* ===== verification/TeeTheory.v ===== *)
(** * Properties of the token behind the trusted OS

    One request of the other world, from the packaged JSON through the
    mailbox, the applet and the result box back: [TEEToken] does what the
    applet's token does, the boxes are left as they were, and the demo program
    runs to its end.  What becomes of a request that fails, of an applet that
    panics and of a mail that does not fit the transport. *)

From S2P Require Import Prelude GoRuntime Sha256 Crypto Base64 JsonScan JsonGrammar JsonTree JsonString JsonCodec Codec TokenApplet Usb UsbTheory Apps Cosmos CosmosTheory Firmware Device TokenTheory Tz TzTheory TrustZone TeeClient TeeToken TeeMachine.
Import JsonString JsonCodec Tz TrustZone.

#[export] Instance ClientPanic_laws : CodecLaws ClientPanic.
Proof.
  refine {| fits p := valid_utf8 (bytes_of_string (cp_Msg p)) = true /\
                      valid_utf8 (bytes_of_string (cp_Stacktrace p)) = true |}; [check_type|cbn; lia| | |].
  - intros p []. apply storable_struct. by repeat constructor.
  - intros v. cbn [of_gv ClientPanic_codec]. by rewrite !field_strip, !get_string_strip.
  - intros []. cbn [of_gv to_gv ClientPanic_codec field nth get_string]. by rewrite !string_of_bytes_of_string.
Defined.

Lemma flip_range p : 0 <= p < 2 ^ 32 -> 0 <= Z.lxor (2 ^ 31) p < 2 ^ 32.
Proof.
  intros Hp. split; [apply Z.lxor_nonneg; lia|].
  destruct (Z.eq_dec (Z.lxor (2 ^ 31) p) 0) as [->|Hz]; [lia|].
  apply Z.log2_lt_pow2; [pose proof (proj2 (Z.lxor_nonneg (2 ^ 31) p)); lia|].
  eapply Z.le_lt_trans; [apply Z.log2_lxor; lia|]. rewrite Z.log2_pow2 by lia.
  apply Z.max_lub_lt; [lia|]. destruct (Z.eq_dec p 0) as [->|]; [done|]. apply Z.log2_lt_pow2; lia.
Qed.

Lemma word_range l : 0 <= le_combine (take 4 l) < 2 ^ 32.
Proof.
  pose proof (le_combine_bound (take 4 l)) as H. split; [lia|]. eapply Z.lt_le_trans; [apply H|].
  apply Z.pow_le_mono_r; [lia|]. rewrite length_take. lia.
Qed.

(** A path read from a command fits its type. *)
Lemma path_of_wire_fits l : path_fits (path_of_wire l).
Proof.
  unfold path_fits, path_of_wire, InOrder; cbn [Purpose CoinType Account Change AddressIndex].
  repeat (apply List.Forall_cons; [first [apply flip_range, word_range|apply word_range]|]). apply List.Forall_nil.
Qed.

Section cycle.
Context {W : Type} {M : Monitor W} {R : Rpc W} {HD : HDKeychain} {E : Entropy W} {maxAlloc : Z}.
Context {ML : MonitorLaws W M} {L : RpcLaws W M R HD E maxAlloc}.
Context (os : ExecCtx) (order : Context -> list Z).
Context (Hos : Server os = [NonsecureRPC]) (Horder : forall c, range_order c (order c)).

#[local] Abbreviation token := (AppletToken.token maxAlloc).

(** [token.Dispatch(data, token.NewToken())] in the applet. *)
Definition serve (data : list byte) (w : W) : go (W * result (list byte)) :=
  Dispatch (TK := token) data AppletToken.NewToken w.

(** Between two requests: the applet is registered, no mail waits, and no
    result is left for the applet. *)
Record ready (v : World W) : Prop := {
  ready_app : Apps (ctx v) !! AppletID = Some applet_elf;
  ready_mail : mailbox (ctx v) = ∅;
  ready_result : resultBox (ctx v) !! AppletID = None
}.

(** ** The mailbox range *)

Lemma dispatch_none c w : mailbox c = ∅ -> dispatch_range (order c) c w = Ret (w, c).
Proof.
  intros Hm. pose proof (Horder c) as Ho. unfold range_order in Ho. rewrite Hm, map_to_list_empty in Ho.
  by apply Permutation_nil_r in Ho as ->.
Qed.

Lemma order_single c p : mailbox c = {[AppletID := p]} -> order c = [AppletID].
Proof.
  intros Hm. pose proof (Horder c) as Ho. unfold range_order in Ho. rewrite Hm, map_to_list_singleton in Ho.
  by apply Permutation_singleton_r in Ho.
Qed.

(** ** The applet's token leaves the other world's reply alone *)

Lemma at_path_held {A} t path (op : AppletToken.t -> W -> go (W * result A)) w w' r :
  (forall tok w w' r, op tok w = Ret (w', r) -> w' = w) ->
  at_path (TK := token) t path op w = Ret (w', r) -> w' = w.
Proof.
  intros Hop. unfold at_path. cbn [Initialize Clone AppletToken.token].
  unfold AppletToken.Initialize, AppletToken.DeriveSecret. rewrite go_bind_ret.
  destruct (NewMaster _ _) as [m|e]; [|intros H; by simplify_eq/=].
  destruct (KeyFromPath m path) as [k|e]; [|intros H; by simplify_eq/=].
  rewrite go_bind_ret. apply Hop.
Qed.

Lemma Sign_held tok data a w w' r : Sign (Token := token) tok data a w = Ret (w', r) -> w' = w.
Proof.
  cbn [Sign AppletToken.token]. unfold AppletToken.Sign. intros (k & _ & H)%go_bind_Ret_inv.
  repeat case_match; by simplify_eq.
Qed.

Lemma PublicKey_held tok w w' r : PublicKey (Token := token) tok w = Ret (w', r) -> w' = w.
Proof.
  cbn [PublicKey AppletToken.token]. unfold AppletToken.PublicKey. intros (k & _ & H)%go_bind_Ret_inv.
  repeat case_match; by simplify_eq.
Qed.

Lemma Mnemonic_held tok w w' r : Mnemonic (Token := token) tok w = Ret (w', r) -> w' = w.
Proof.
  cbn [Mnemonic AppletToken.token]. unfold AppletToken.Mnemonic, AppletToken.DeriveSecret. rewrite go_bind_ret.
  intros H. case_match; by simplify_eq.
Qed.

Lemma RandomBytes_held t n w w' r : RandomBytes (Token := token) t n w = Ret (w', r) -> held w' = held w.
Proof.
  cbn [RandomBytes AppletToken.token]. unfold AppletToken.RandomBytes.
  destruct (n =? 0); [intros H; by simplify_eq|]. intros (b & _ & H)%go_bind_Ret_inv.
  pose proof (entropy_held (length b) w) as Hh. by simplify_eq; rewrite H in Hh.
Qed.

Lemma serve_held data w w' r : serve data w = Ret (w', r) -> held w' = held w.
Proof.
  unfold serve, Dispatch. destruct (RequestedOp data) as [id|e]; [|intros H; by simplify_eq].
  repeat case_match; intros H'; simplify_eq; try done;
    apply go_bind_Ret_inv in H' as ([w1 r1] & Hrun & Hret); injection Hret as <- _.
  - by eapply RandomBytes_held.
  - f_equal. eapply at_path_held; [|exact Hrun]. intros tok w0 w2 r2 (b & _ & Hs)%go_bind_Ret_inv. by eapply Sign_held.
  - f_equal. eapply at_path_held; [|exact Hrun]. apply PublicKey_held.
  - f_equal. eapply at_path_held; [|exact Hrun]. apply Mnemonic_held.
Qed.

(** ** The applet *)

(** The state of the boxes after the applet took its mail, and after it
    answered. *)
Definition took (c : Context) : Context := with_mailbox c (delete AppletID (mailbox c)).
Definition answered_with (c : Context) (resp : list byte) : Context :=
  with_resultBox (took c) (<[AppletID := resp]> (resultBox c)).

(** The text of a panic, as it is reported. *)
Definition report (p : panic) : ClientPanic := mkClientPanic (panic_text p) debug_Stack.

Definition exit_of (out : go (W * result (list byte))) : exit :=
  match out with
  | Ret (_, Ok _) => Exited
  | Ret (_, Err e) => Fatal e
  | Panic p => ExitedWithError (encode (report p))
  end.

Definition context_of (c : Context) (out : go (W * result (list byte))) : Context :=
  match out with Ret (_, Ok resp) => answered_with c resp | _ => took c end.

Lemma client_RetrieveMail c w data :
  mailbox c !! AppletID = Some data -> (length data <= maxMail)%nat ->
  exists w', Client.RetrieveMail AppletID c w = (w', took c, mkMail AppletID data, None) /\ held w' = held w.
Proof.
  intros Hm Hl. unfold Client.RetrieveMail.
  destruct (applet_call (CallRetrieveMail AppletID) c w eq_refl) as (w' & -> & Hh). exists w'.
  assert (Hp : perform c (CallRetrieveMail AppletID) = (took c, Taken (mkMail AppletID data))).
  { cbn [perform]. unfold SecureRPC_RetrieveMail, RetrieveMail. by rewrite Hm. }
  rewrite Hp. cbn [fst snd reply_size Payload]. rewrite bool_decide_true by done. done.
Qed.

Lemma client_WriteResponse c w resp :
  resultBox c !! AppletID = None ->
  exists w', Client.WriteResponse (mkMail AppletID resp) c w =
    (w', with_resultBox c (<[AppletID := resp]> (resultBox c)), None) /\ held w' = held w.
Proof.
  intros Hm. unfold Client.WriteResponse.
  destruct (applet_call (CallWriteResponse (mkMail AppletID resp)) c w eq_refl) as (w' & -> & Hh). exists w'.
  assert (Hp : perform c (CallWriteResponse (mkMail AppletID resp)) =
    (with_resultBox c (<[AppletID := resp]> (resultBox c)), Answered (mkMail AppletID resp))).
  { cbn [perform]. unfold SecureRPC_WriteResponse, WriteResponse. cbn [AppID]. by rewrite Hm. }
  rewrite Hp. cbn [fst snd reply_size]. rewrite bool_decide_true by lia. done.
Qed.

Lemma applet_main_serves c w data :
  mailbox c !! AppletID = Some data -> (length data <= maxMail)%nat -> resultBox c !! AppletID = None ->
  exists w1 w2, held w1 = held w /\ held w2 = held w /\
    applet_main maxAlloc c w = (w2, context_of c (serve data w1), exit_of (serve data w1)).
Proof.
  intros Hm Hl Hr. unfold applet_main.
  destruct (client_RetrieveMail c w data Hm Hl) as (w1 & -> & Hh1). cbn [Payload AppID].
  fold (serve data w1). exists w1. destruct (serve data w1) as [[w2 [resp|e]]|p] eqn:Es.
  - destruct (client_WriteResponse (took c) w2 resp Hr) as (w3 & -> & Hh3). exists w3.
    split_and!; [done| |done]. rewrite Hh3. rewrite (serve_held _ _ _ _ Es). done.
  - exists w2. split_and!; [done| |done]. by rewrite (serve_held _ _ _ _ Es).
  - exists w1. by split_and!.
Qed.

(** ** The run of the applet *)

(** The end of a run that was not an exit. *)
Lemma logHandler_report x c g w w' report err :
  last_call (ExitedWithError report) x w -> NonSecure x = false ->
  logHandler maxAlloc x c g w = Ret (w', c, g, err) ->
  err = Some (match unmarshal (A := ClientPanic) report with
              | (_, Some e) => Wrapf "cannot unmarshal TA error, %w" [] e
              | (ce, None) => client_panic ce
              end).
Proof.
  intros (H0 & H2 & off & w1 & Hoff & Hrand & Hread) Hns. unfold logHandler. rewrite H0, Hns.
  change (SYS_EXIT_ERROR =? SYS_WRITE) with false. change (SYS_EXIT_ERROR =? SYS_EXIT) with false.
  change (SYS_EXIT_ERROR =? SYS_EXIT_ERROR) with true. cbn [andb].
  intros (buf & Hb & H)%go_bind_Ret_inv. unfold make_bytes in Hb. case_bool_decide; [|done].
  injection Hb as <-. rewrite length_zeros, H2, Nat2Z.id in H. rewrite H2 in Hoff. rewrite Hoff, Hrand, Hread in H.
  destruct (unmarshal report) as [ce [e|]]; by simplify_eq.
Qed.

Lemma logHandler_exit x c g w w' err :
  last_call Exited x w -> NonSecure x = false -> logHandler maxAlloc x c g w = Ret (w', c, g, err) ->
  w' = w /\ err = Some ErrTAExit.
Proof.
  cbn [last_call]. intros H0 Hns. unfold logHandler. rewrite H0, Hns.
  change (SYS_EXIT =? SYS_WRITE) with false. change (SYS_EXIT =? SYS_EXIT) with true. cbn [andb].
  intros H. by simplify_eq.
Qed.

(** What becomes of the boxes when the applet has its mail. *)
Definition run_end (c : Context) (w : W) (data : list byte) (out : go (W * Context)) : Prop :=
  exists w1, held w1 = held w /\
    match serve data w1 with
    | Ret (_, Ok resp) => exists w', out = Ret (w', answered_with c resp) /\ held w' = held w
    | Ret (_, Err e) => (exists w', out = Ret (w', took c) /\ held w' = held w) \/ panics out = true
    | Panic p => fits (report p) -> out = Panic (PanicValue (client_panic (report p)))
    end.

Lemma run_applet x c w data :
  loaded applet_elf x w -> ctx_Handler x = LogHandler -> Server x = [SecureRPC] ->
  mailbox c !! AppletID = Some data -> (length data <= maxMail)%nat -> resultBox c !! AppletID = None ->
  run_end c w data (run x c w).
Proof.
  intros Hl Hh Hs Hm Hlen Hr. destruct (applet_main_serves c w data Hm Hlen Hr) as (w1 & w2 & Hw1 & Hw2 & Hmain).
  destruct (applet_runs x c w Hl Hh Hs) as (x' & w3 & w4 & err & Hlast & Hns & Hlog & Hrun & Hheld).
  rewrite Hmain in *. cbn [fst snd] in *. exists w1. split; [done|].
  unfold run. rewrite Hrun, go_bind_ret, Hns. specialize (Hlog empty_log).
  destruct (serve data w1) as [[w5 [resp|e]]|p]; cbn [exit_of context_of] in *.
  - destruct (logHandler_exit _ _ _ _ _ _ Hlast Hns Hlog) as [-> ->].
    rewrite errors_Is_refl. exists w3. split; [done|]. congruence.
  - destruct err as [e'|]; [|left; eexists; split; [done|congruence]].
    destruct (errors_Is e' ErrTAExit); [left; eexists; split; [done|congruence]|right].
    by destruct (errors_As e' _).
  - intros Hf. pose proof (logHandler_report _ _ _ _ _ _ _ Hlast Hns Hlog) as ->.
    rewrite (unmarshal_encode (report p) Hf). done.
Qed.

Lemma dispatch_one c w data :
  Apps c !! AppletID = Some applet_elf -> mailbox c = {[AppletID := data]} -> (length data <= maxMail)%nat ->
  resultBox c !! AppletID = None ->
  exists w0, held w0 = held w /\ run_end c w0 data (dispatch_range (order c) c w).
Proof.
  intros Ha Hm Hl Hr. rewrite (order_single c data Hm).
  assert (Hd : mailbox c !! AppletID = Some data) by (rewrite Hm; apply lookup_singleton_eq).
  cbn [dispatch_range]. rewrite Hd. unfold loadTA. rewrite Ha.
  destruct (applet_loads w) as (w1 & w2 & x & Hi & Hmon & Hh).
  destruct (load_ctx _ _ _ _ _ _ Hmon) as (_ & Hns & Hsrv). rewrite Hi, Hmon.
  exists w2. split; [done|].
  match goal with |- context [run ?ta c w2] => set (x' := ta) end.
  assert (Hs : Server x' = [SecureRPC]).
  { cbn. by rewrite Hsrv. }
  assert (Hrun : run_end c w2 data (run x' c w2)).
  { apply run_applet; try done. by exists w, w1, x. }
  clearbody x'. destruct Hrun as (w3 & Hw3 & Hend). exists w3. split; [done|].
  destruct (serve data w3) as [[w4 [resp|e]]|p].
  - destruct Hend as (w' & -> & Hw'). by exists w'.
  - destruct Hend as [(w' & -> & Hw')|Hp]; [left; by exists w'|right]. by destruct (run x' c w2).
  - intros Hf. by rewrite Hend.
Qed.

(** ** Calls of the other world *)

Lemma handler_request x k c g w :
  R0 x = SYS_RPC_REQ -> Server x = [NonsecureRPC] -> nonsecure_call k = true ->
  exists w', held w' = encode_reply (perform c k).2 /\
    nonsecureWorldHandler maxAlloc order x c g (hand_over (encode_call k) w) =
      '(w, c) ← dispatch_range (order (perform c k).1) (perform c k).1 w'; Ret (w, c, g, None).
Proof.
  intros Hx Hsx Hk. destruct (serve_request x c w k Hx Hsx Hk) as (w' & Hs & Hh).
  exists w'. split; [done|]. unfold nonsecureWorldHandler. rewrite Hx.
  change (negb _) with false at 1. cbv iota. rewrite Hs, go_bind_ret. done.
Qed.

Lemma handler_response x c g w :
  R0 x = SYS_RPC_RES -> Server x = [NonsecureRPC] -> mailbox c = ∅ ->
  exists w', received w' = held w /\ held w' = held w /\
    nonsecureWorldHandler maxAlloc order x c g w = Ret (w', c, g, None).
Proof.
  intros Hx Hsx Hm. destruct (serve_response x c w Hx Hsx) as (w' & Hs & Hr & Hh).
  exists w'. split_and!; [done|done|]. unfold nonsecureWorldHandler. rewrite Hx.
  change (negb _) with false at 1. cbv iota. rewrite Hs, go_bind_ret, dispatch_none by done. done.
Qed.

#[local] Abbreviation Call := (nonsecuresyscall_Call os maxAlloc order).

(** A call returns with the reply of its method, once the applets it started
    have taken their mail; a panic of the trusted OS ends it. *)
Lemma Call_spec k v :
  nonsecure_call k = true ->
  exists w', held w' = encode_reply (perform (ctx v) k).2 /\
    (forall w2 c2, dispatch_range (order (perform (ctx v) k).1) (perform (ctx v) k).1 w' = Ret (w2, c2) ->
       mailbox c2 = ∅ -> held w2 = held w' ->
       exists w3, Call k v = Ret (mkWorld c2 (log v) w3, decode_reply (encode_reply (perform (ctx v) k).2))) /\
    (forall p, dispatch_range (order (perform (ctx v) k).1) (perform (ctx v) k).1 w' = Panic p -> Call k v = Panic p).
Proof.
  intros Hk. set (x := with_regs SYS_RPC_REQ (R1 os) (Z.of_nat (length (encode_call k))) os).
  destruct (handler_request x k (ctx v) (log v) (hw v) eq_refl Hos Hk) as (w' & Hh & Hreq).
  exists w'. split; [done|]. unfold nonsecuresyscall_Call, Stream_Write, Stream_Read, sys_Write, sys_Read.
  unfold sys_Supervisor, smc. cbn [ctx log hw]. fold x. rewrite Hreq. split.
  - intros w2 c2 -> Hm Hh2. rewrite !go_bind_ret. cbn [ctx log hw].
    destruct (handler_response (with_regs SYS_RPC_RES (R1 os) (Z.of_nat client_buffer) os) c2 (log v) w2 eq_refl Hos Hm)
      as (w3 & Hr & _ & ->). rewrite !go_bind_ret.
    exists w3. cbn [hw]. congruence.
  - intros p ->. done.
Qed.

Lemma send_ready v data :
  ready v ->
  perform (ctx v) (CallSendMail (mkMail AppletID data)) =
    (with_mailbox (ctx v) {[AppletID := data]}, Sent (mkMail AppletID data)).
Proof.
  intros [_ Hm _]. cbn [perform]. unfold NonsecureRPC_SendMail, SendMail. cbn [AppID Payload].
  by rewrite Hm, lookup_empty, insert_empty.
Qed.

Lemma took_sent v data : ready v -> took (with_mailbox (ctx v) {[AppletID := data]}) = ctx v.
Proof.
  intros [_ Hm _]. unfold took, with_mailbox; cbn [mailbox Apps resultBox]. rewrite delete_singleton_eq. destruct (ctx v); cbn in *. by subst.
Qed.

Lemma SendMail_spec v data :
  ready v -> (length data <= maxMail)%nat ->
  exists w1, match serve data w1 with
    | Ret (_, Ok resp) =>
        exists w', client_SendMail os maxAlloc order (mkMail AppletID data) v =
          Ret (mkWorld (with_resultBox (ctx v) (<[AppletID := resp]> (resultBox (ctx v)))) (log v) w', None)
    | Ret (_, Err e) =>
        (exists w', client_SendMail os maxAlloc order (mkMail AppletID data) v =
           Ret (mkWorld (ctx v) (log v) w', None)) \/
        panics (client_SendMail os maxAlloc order (mkMail AppletID data) v) = true
    | Panic p =>
        fits (report p) -> client_SendMail os maxAlloc order (mkMail AppletID data) v =
          Panic (PanicValue (client_panic (report p)))
    end.
Proof.
  intros Hv Hl. pose proof Hv as [Ha Hm Hr]. unfold client_SendMail.
  destruct (Call_spec (CallSendMail (mkMail AppletID data)) v eq_refl) as (w' & Hh & Hret & Hpanic).
  rewrite (send_ready v data Hv) in *. cbn [fst snd] in *.
  set (c1 := with_mailbox (ctx v) {[AppletID := data]}) in *.
  destruct (dispatch_one c1 w' data Ha eq_refl Hl Hr) as (w0 & Hw0 & w1 & Hw1 & Hend). exists w1.
  pose proof (took_sent v data Hv) as Htook. fold c1 in Htook.
  rewrite (reply_read (Sent _)) in Hret by (cbn; lia). cbn [reply_of] in Hret.
  destruct (serve data w1) as [[w2 [resp|e]]|p].
  - destruct Hend as (w3 & Hd & Hw3). destruct (Hret _ _ Hd) as (w4 & ->); [|congruence|].
    { unfold answered_with. rewrite Htook. exact Hm. }
    exists w4. rewrite go_bind_ret. unfold answered_with. by rewrite Htook.
  - destruct Hend as [(w3 & Hd & Hw3)|Hp].
    + left. rewrite Htook in Hd. destruct (Hret _ _ Hd Hm) as (w4 & ->); [congruence|]. exists w4. done.
    + right. destruct (dispatch_range _ c1 w') as [|p] eqn:Ed; [done|]. by rewrite (Hpanic p eq_refl).
  - intros Hf. by rewrite (Hpanic _ (Hend Hf)).
Qed.

Lemma RetrieveResult_ok v resp :
  mailbox (ctx v) = ∅ -> resultBox (ctx v) !! AppletID = Some resp -> (length resp <= maxMail)%nat ->
  exists w', client_RetrieveResult os maxAlloc order AppletID v =
    Ret (mkWorld (with_resultBox (ctx v) (delete AppletID (resultBox (ctx v)))) (log v) w', mkMail AppletID resp, None).
Proof.
  intros Hm Hr Hl. unfold client_RetrieveResult.
  destruct (Call_spec (CallRetrieveResult AppletID) v eq_refl) as (w' & Hh & Hret & _).
  assert (Hp : perform (ctx v) (CallRetrieveResult AppletID) =
    (with_resultBox (ctx v) (delete AppletID (resultBox (ctx v))), Fetched (mkMail AppletID resp))).
  { cbn [perform]. unfold NonsecureRPC_RetrieveResult, ReadResponse. by rewrite Hr. }
  rewrite Hp in *. cbn [fst snd] in *. rewrite (reply_read (Fetched (mkMail AppletID resp)) Hl) in Hret.
  destruct (Hret _ _ (dispatch_none (with_resultBox _ _) w' Hm) Hm eq_refl) as (w3 & ->). exists w3. done.
Qed.

Lemma RetrieveResult_none v :
  ready v ->
  exists w', client_RetrieveResult os maxAlloc order AppletID v =
    Ret (mkWorld (ctx v) (log v) w', zero_mail, Some (ServerError (error_text ErrNoResult))).
Proof.
  intros [_ Hm Hr]. unfold client_RetrieveResult.
  destruct (Call_spec (CallRetrieveResult AppletID) v eq_refl) as (w' & Hh & Hret & _).
  assert (Hp : perform (ctx v) (CallRetrieveResult AppletID) = (ctx v, Failed ErrNoResult)).
  { cbn [perform]. unfold NonsecureRPC_RetrieveResult, ReadResponse. by rewrite Hr. }
  rewrite Hp in *. cbn [fst snd] in *. rewrite (reply_read (Failed _)) in Hret by (cbn; lia).
  destruct (Hret _ _ (dispatch_none _ w' Hm) Hm eq_refl) as (w3 & ->). exists w3. done.
Qed.

(** ** One request *)

Lemma boxes_restored v resp : ready v ->
  with_resultBox (with_resultBox (ctx v) (<[AppletID := resp]> (resultBox (ctx v))))
    (delete AppletID (<[AppletID := resp]> (resultBox (ctx v)))) = ctx v.
Proof.
  intros [_ _ Hr]. unfold with_resultBox; cbn [Apps mailbox resultBox].
  rewrite delete_insert_id by done. by destruct (ctx v).
Qed.

(** What a request leads to, given what the applet's dispatcher does. *)
Definition request_end {B} {CB : Codec B} (v : World W) (out : go (World W * result B))
    (served : go (W * result (list byte))) : Prop :=
  match served with
  | Ret (_, Ok resp) =>
      (length resp <= maxMail)%nat ->
      exists w', out = Ret (mkWorld (ctx v) (log v) w',
        match UnpackResponse resp with (_, Some e) => Err e | (b, None) => Ok b end)
  | Ret (_, Err _) =>
      (exists w', out = Ret (mkWorld (ctx v) (log v) w', Err (ServerError (error_text ErrNoResult)))) \/
      panics out = true
  | Panic p => fits (report p) -> out = Panic (PanicValue (client_panic (report p)))
  end.

Lemma doRequest_spec {A B} {CA : Codec A} {CB : Codec B} (a : A) v data :
  ready v -> PackageRequest a = Ok data -> (length data <= maxMail)%nat ->
  exists w1, request_end (B := B) v (doRequest os maxAlloc order a v) (serve data w1).
Proof.
  intros Hv Hp Hl. unfold doRequest. rewrite Hp. destruct (SendMail_spec v data Hv Hl) as (w1 & Hs).
  exists w1. unfold request_end. destruct (serve data w1) as [[w2 [resp|e]]|p].
  - intros Hlr. destruct Hs as (w' & ->). rewrite go_bind_ret. cbn [AppID].
    set (v' := mkWorld _ (log v) w'). destruct (RetrieveResult_ok v' resp) as (w3 & ->);
      [apply Hv|cbn; apply lookup_insert_eq|done|].
    assert (with_resultBox (ctx v') (delete AppletID (resultBox (ctx v'))) = ctx v) as ->
      by exact (boxes_restored v resp Hv).
    rewrite go_bind_ret. exists w3. cbn [Payload log v'].
    by destruct (UnpackResponse resp) as [b [e|]].
  - destruct Hs as [(w' & ->)|Hpn].
    + rewrite go_bind_ret. left.
      destruct (RetrieveResult_none (mkWorld (ctx v) (log v) w')) as (w3 & Hr); [by destruct Hv|].
      cbn [AppID]. rewrite Hr, go_bind_ret. by exists w3.
    + right. by destruct (client_SendMail _ _ _ _ _).
  - intros Hf. by rewrite (Hs Hf).
Qed.

Lemma demo_doRequest_same {A B} {CA : Codec A} {CB : Codec B} (a : A) v :
  demo_doRequest os maxAlloc order (B := B) a v = doRequest os maxAlloc order a v.
Proof. done. Qed.

(** ** The specification of an operation of [TEEToken] *)

Lemma ready_hw v w : ready v -> ready (mkWorld (ctx v) (log v) w).
Proof. by intros []. Qed.

(** The answer of an operation of the applet's token. *)
Definition answer_of (op : operation) (w : W) : go (W * result answer) :=
  perform_op (TK := token) AppletToken.NewToken op w.

(** What an operation of the other world promises: whatever state the machine
    is in when the applet runs, the answer of the applet's token comes back if
    it fits the transport, and the trusted OS is as before; if the token
    fails, so does the operation; and a panic of the applet is the panic of the
    trusted OS, with the applet's report. *)
Definition implements {A} (v : World W) (op : operation) (f : A -> answer) (out : go (World W * result A)) : Prop :=
  exists w1, match answer_of op w1 with
    | Ret (_, Ok x) =>
        answer_fits x -> (length (answer_bytes op x) <= maxMail)%nat ->
        exists w' a, out = Ret (mkWorld (ctx v) (log v) w', Ok a) /\ f a = x
    | Ret (_, Err _) =>
        (exists w', out = Ret (mkWorld (ctx v) (log v) w', Err (ServerError (error_text ErrNoResult)))) \/
        panics out = true
    | Panic p => fits (report p) -> out = Panic (PanicValue (client_panic (report p)))
    end.

(** The request of the operation fits the transport. *)
Definition sendable (op : operation) : Prop :=
  op_fits op /\ exists data, request op = Ok data /\ (length data <= maxMail)%nat.

Lemma doRequest_implements {A B} {CA : Codec A} {CB : Codec B} (a : A) v op (f : B -> answer) :
  ready v -> sendable op -> request op = PackageRequest a ->
  (forall resp, response op resp =
     match UnpackResponse (A := B) resp with (b, None) => Ok (f b) | (_, Some e) => Err e end) ->
  implements v op f (doRequest os maxAlloc order a v).
Proof.
  intros Hv [Hop (data & Hdata & Hl)] Hreq Hresp.
  destruct (doRequest_spec (B := B) a v data Hv ltac:(by rewrite <-Hreq) Hl) as (w1 & Hend). exists w1.
  pose proof (Dispatch_answers (TK := token) op data AppletToken.NewToken w1 Hop Hdata) as Hans.
  fold (serve data w1) in Hans. fold (answer_of op w1) in Hans. unfold answers in Hans.
  destruct (answer_of op w1) as [[w2 [x|e]]|p]; [|by rewrite Hans in Hend|by rewrite Hans in Hend].
  intros Hx Hlx. destruct Hans as (Hs & Hr). specialize (Hr Hx). rewrite Hs in Hend. cbn [request_end] in Hend.
  destruct (Hend Hlx) as (w' & ->). rewrite Hresp in Hr. exists w'.
  destruct (UnpackResponse _) as [b [e|]]; simplify_eq. by exists b.
Qed.

(** Reading a field of the response. *)
Lemma implements_map {A B} v op (g : A -> answer) (h : B -> A) (out : go (World W * result B)) :
  implements v op (fun b => g (h b)) out ->
  implements v op g ('(v, r) ← out; Ret (v, match r with Ok b => Ok (h b) | Err e => Err e end)).
Proof.
  intros (w1 & H). exists w1. destruct (answer_of op w1) as [[w2 [x|e]]|p].
  - intros Hx Hl. destruct (H Hx Hl) as (w' & b & -> & Hb). exists w', (h b). done.
  - destruct H as [(w' & ->)|Hp]; [left; by exists w'|right]. by destruct out.
  - intros Hf. by rewrite (H Hf).
Qed.

(** ** The operations of [TEEToken] *)

Lemma RandomBytes_implements v t amount :
  ready v -> sendable (OpRandomBytes amount) ->
  implements v (OpRandomBytes amount) Bytes (TEE_RandomBytes os maxAlloc order t amount v).
Proof. intros Hv Hs. apply (implements_map _ _ _ dr_Data). by apply doRequest_implements. Qed.

Lemma Sign_implements v t data a :
  ready v -> sendable (OpSign (Sha256.Sum256 data) (tee_path t) AlgoSecp256K1) ->
  implements v (OpSign (Sha256.Sum256 data) (tee_path t) AlgoSecp256K1) Bytes (TEE_Sign os maxAlloc order t data a v).
Proof. intros Hv Hs. apply (implements_map _ _ _ dr_Data). by apply doRequest_implements. Qed.

Lemma PublicKey_implements v t :
  ready v -> sendable (OpPublicKey (tee_path t)) ->
  implements v (OpPublicKey (tee_path t)) Bytes (TEE_PublicKey os maxAlloc order t v).
Proof. intros Hv Hs. apply (implements_map _ _ _ dr_Data). by apply doRequest_implements. Qed.

Lemma Mnemonic_implements v t :
  ready v -> sendable (OpMnemonic (tee_path t)) ->
  implements v (OpMnemonic (tee_path t)) Words (TEE_Mnemonic os maxAlloc order t v).
Proof. intros Hv Hs. apply (implements_map _ _ _ mr_Words). by apply doRequest_implements. Qed.

Lemma Algorithms_implements v :
  ready v -> sendable OpSupportedSignAlgorithms ->
  implements v OpSupportedSignAlgorithms (fun r => Algorithms (ar_Algorithms r))
    (doRequest os maxAlloc order (mkRequest RequestSupportedSignAlgorithms) v).
Proof. intros Hv Hs. by apply doRequest_implements. Qed.

(** ** What the applet's token answers *)

Lemma at_key {A} path k (op : AppletToken.t -> W -> go (W * result A)) w :
  key_at path = Some k ->
  at_path (TK := token) AppletToken.NewToken path op w = op (AppletToken.mkToken (Some k)) w.
Proof.
  unfold key_at, at_path. cbn [Initialize Clone AppletToken.token].
  unfold AppletToken.Initialize, AppletToken.DeriveSecret. rewrite go_bind_ret.
  change (copy_into 32 (Sha256.hmac_sha256 Diversifier AppletToken.defaultEntropy)) with dumbToken.secret.
  destruct (NewMaster dumbToken.secret (CoinType path)) as [m|e]; cbn [result_option]; [|done].
  destruct (KeyFromPath m path) as [k'|e]; cbn [result_option]; [|done]. by intros [= ->].
Qed.

Lemma answer_sign data path a k pk sig w :
  key_at path = Some k -> ECPrivKey k = Ok pk -> ec_Sign pk data = Ok sig ->
  answer_of (OpSign data path a) w = Ret (w, Ok (Bytes (Serialize sig))).
Proof.
  intros Hk Hpk Hsig. unfold answer_of. cbn [perform_op]. rewrite (at_key path k) by done.
  cbn [Sign AppletToken.token]. unfold AppletToken.Sign, AppletToken.key_of; cbn [AppletToken.privKey].
  rewrite go_bind_ret, Hpk, Hsig. done.
Qed.

(** A request whose answer is known. *)
Lemma implements_ok {A} v op (f : A -> answer) out x :
  implements v op f out -> (forall w, exists w', answer_of op w = Ret (w', Ok x)) ->
  answer_fits x -> (length (answer_bytes op x) <= maxMail)%nat ->
  exists w' a, out = Ret (mkWorld (ctx v) (log v) w', Ok a) /\ f a = x.
Proof. intros (w1 & H) Ha Hx Hl. destruct (Ha w1) as (w2 & E2). rewrite E2 in H. by apply H. Qed.

Lemma TEE_Sign_ok v t data a k pk sig :
  ready v -> key_at (tee_path t) = Some k -> ECPrivKey k = Ok pk -> ec_Sign pk (Sha256.Sum256 data) = Ok sig ->
  sendable (OpSign (Sha256.Sum256 data) (tee_path t) AlgoSecp256K1) ->
  (length (answer_bytes (OpSign (Sha256.Sum256 data) (tee_path t) AlgoSecp256K1) (Bytes (Serialize sig))) <= maxMail)%nat ->
  exists w', TEE_Sign os maxAlloc order t data a v = Ret (mkWorld (ctx v) (log v) w', Ok (Serialize sig)).
Proof.
  intros Hv Hk Hpk Hsig Hs Hl.
  destruct (implements_ok _ _ _ _ (Bytes (Serialize sig)) (Sign_implements v t data a Hv Hs)) as (w' & b & E1 & E2);
    [intros w; exists w; by apply (answer_sign _ _ _ k pk)|done|done|].
  exists w'. by simplify_eq.
Qed.

(** A key that cannot be derived is an error of the applet's token. *)
Lemma answer_no_key data path a w :
  key_at path = None -> exists e, answer_of (OpSign data path a) w = Ret (w, Err e).
Proof.
  intros Hk. unfold answer_of. cbn [perform_op]. unfold key_at, at_path in *. cbn [Initialize Clone AppletToken.token].
  unfold AppletToken.Initialize, AppletToken.DeriveSecret. rewrite go_bind_ret.
  change (copy_into 32 (Sha256.hmac_sha256 Diversifier AppletToken.defaultEntropy)) with dumbToken.secret.
  destruct (NewMaster dumbToken.secret (CoinType path)) as [m|e]; cbn [result_option] in *; [|by eexists].
  destruct (KeyFromPath m path) as [k'|e]; cbn [result_option] in *; [done|by eexists].
Qed.

(** [TEEToken] in the Cosmos app's last step: the path is only remembered by
    [Initialize], so the first request is the signature. *)
Lemma TEE_sign_at (t : TEEToken) path payload v :
  JsonScan.json_Valid payload = true ->
  sign_at (Tok := TEE_token os maxAlloc order) t path payload v =
    ('(v, r) ← TEE_Sign os maxAlloc order (mkTEEToken path) (Sha256.Sum256 payload) AlgoSecp256K1 v;
     match r with
     | Ok sig => Ret (v, (sig, APDUSuccess, None))
     | Err e => Ret (v, ([], APDUExecutionError, Some e))
     end).
Proof.
  intros Hj. unfold sign_at. cbn [Initialize Clone TEE_token]. unfold TEE_Initialize. by rewrite go_bind_ret, Hj.
Qed.

(** ** A run of requests *)

(** The functions of the demo program never leave the trusted OS changed. *)
Lemma call_functions_ok fs v :
  ready v ->
  Forall (fun f => forall v, ready v -> exists w', f v = Ret (mkWorld (ctx v) (log v) w', None)) fs ->
  exists w', call_functions fs v = Ret (mkWorld (ctx v) (log v) w', None).
Proof.
  intros Hv Hf. revert v Hv. induction Hf as [|f fs Hf1 Hfs IH]; intros v Hv; cbn [call_functions].
  - exists (hw v). by destruct v.
  - destruct (Hf1 v Hv) as (w' & ->). rewrite go_bind_ret.
    destruct (IH (mkWorld (ctx v) (log v) w') (ready_hw v w' Hv)) as (w'' & ->). by exists w''.
Qed.

Lemma request_succeeds {B} v op (f : B -> answer) (out : go (World W * result B)) :
  implements v op f out ->
  (forall w, exists w' x, answer_of op w = Ret (w', Ok x) /\ answer_fits x /\
     (length (answer_bytes op x) <= maxMail)%nat) ->
  exists w', (o ← out; Ret (error_of o)) = Ret (mkWorld (ctx v) (log v) w', None).
Proof.
  intros (w1 & H) Ha. destruct (Ha w1) as (w2 & x & E2 & Hx & Hl). rewrite E2 in H.
  destruct (H Hx Hl) as (w' & b & -> & _). by exists w'.
Qed.

(** The operation can be carried out: its request fits, and whatever the
    machine's state the token answers and the answer fits. *)
Definition feasible (op : operation) : Prop :=
  sendable op /\
  forall w, exists w' x, answer_of op w = Ret (w', Ok x) /\ answer_fits x /\
    (length (answer_bytes op x) <= maxMail)%nat.

Lemma feasible_request {A B} {CA : Codec A} {CB : Codec B} (a : A) op (f : B -> answer) v :
  feasible op -> ready v -> request op = PackageRequest a ->
  (forall resp, response op resp =
     match UnpackResponse (A := B) resp with (b, None) => Ok (f b) | (_, Some e) => Err e end) ->
  exists w', (o ← demo_doRequest os maxAlloc order (B := B) a v; Ret (error_of o)) =
    Ret (mkWorld (ctx v) (log v) w', None).
Proof.
  intros [Hs Hf] Hv Hreq Hresp. rewrite demo_doRequest_same.
  eapply request_succeeds; [|exact Hf]. by apply doRequest_implements.
Qed.

(** The requests of the demo program. *)
Definition demo_ops : list operation :=
  [OpMnemonic demo_path; OpPublicKey demo_path;
   OpSign (Sha256.Sum256 (replicate 42 (byte.of_Z 42))) demo_path AlgoSecp256K1;
   OpRandomBytes 42; OpSupportedSignAlgorithms].

Lemma demo_main_ok v :
  ready v -> Forall feasible demo_ops -> exists w', demo_main os maxAlloc order v = Ret (mkWorld (ctx v) (log v) w', None).
Proof.
  intros Hv Hf. unfold demo_ops in Hf. rewrite !Forall_cons_iff in Hf. destruct Hf as (H1 & H2 & H3 & H4 & H5 & _).
  apply call_functions_ok; [done|]. unfold funcList.
  repeat (apply List.Forall_cons; [intros v' Hv'|]); [..|apply List.Forall_nil].
  - apply (feasible_request _ _ (fun r => Words (mr_Words r)) v' H1 Hv'); done.
  - apply (feasible_request _ _ (fun r => Bytes (dr_Data r)) v' H2 Hv'); done.
  - apply (feasible_request _ _ (fun r => Bytes (dr_Data r)) v' H3 Hv'); done.
  - apply (feasible_request _ _ (fun r => Bytes (dr_Data r)) v' H4 Hv'); done.
  - apply (feasible_request _ _ (fun r => Algorithms (ar_Algorithms r)) v' H5 Hv'); done.
Qed.

End cycle.

(** ** The machine of the witnesses *)

#[local] Existing Instance TeeMachine.monitor.
#[local] Existing Instance TeeMachine.rpc.
#[local] Existing Instance TeeMachine.entropy.

Definition demo_world : World TeeMachine.machine :=
  mkWorld (mkContext {[AppletID := []]} ∅ ∅) empty_log TeeMachine.boot.

Definition demo_order (c : Context) : list Z := (map_to_list (mailbox c)).*1.

Lemma demo_order_ok c : range_order c (demo_order c).
Proof. apply Permutation_refl. Qed.

Lemma demo_ready : ready (L := TeeMachine.rpc_laws) demo_world.
Proof. split; reflexivity. Qed.

(** Numbers below a bound, by evaluation. *)
Ltac in_range := repeat split; vm_compute; (reflexivity || discriminate).

Ltac fits_path := repeat (apply List.Forall_cons; [in_range|]); apply List.Forall_nil.

(** ** Properties *)

(** C5: The requests of [TEEToken] reach the applet's token.  Of the methods of
    the other world's token, [RandomBytes], [PublicKey] and [Mnemonic] are the
    same operation, and [Sign] is [Sign] of the SHA-256 digest of its argument,
    on a clone of the applet's token at the same path.  When that answers, and
    request and answer fit the transport, the answer comes back unchanged through
    JSON, the mailbox, the applet and the result box, and the trusted OS is left
    as it was.  When it fails with an error, the caller gets the error that there
    is no result, whatever the error was, or the trusted OS stops.  When it
    panics, the trusted OS panics with the applet's report.  (The other methods,
    [DeriveSecret] among them, make no request.) *)
Theorem TEE_refines {W : Type} {M : Monitor W} {R : Rpc W} {HD : HDKeychain} {E : Entropy W} {maxAlloc : Z}
    {ML : MonitorLaws W M} {L : RpcLaws W M R HD E maxAlloc} os order v t data amount a :
  Server os = [NonsecureRPC] -> (forall c, range_order c (order c)) -> ready v ->
  sendable (OpRandomBytes amount) -> sendable (OpSign (Sha256.Sum256 data) (tee_path t) AlgoSecp256K1) ->
  sendable (OpPublicKey (tee_path t)) -> sendable (OpMnemonic (tee_path t)) ->
  implements v (OpRandomBytes amount) Bytes (TEE_RandomBytes os maxAlloc order t amount v) /\
  implements v (OpSign (Sha256.Sum256 data) (tee_path t) AlgoSecp256K1) Bytes (TEE_Sign os maxAlloc order t data a v) /\
  implements v (OpPublicKey (tee_path t)) Bytes (TEE_PublicKey os maxAlloc order t v) /\
  implements v (OpMnemonic (tee_path t)) Words (TEE_Mnemonic os maxAlloc order t v).
Proof.
  intros Hos Ho Hv H1 H2 H3 H4. split_and!; [by apply RandomBytes_implements|by apply Sign_implements|
    by apply PublicKey_implements|by apply Mnemonic_implements].
Qed.

Lemma TEE_refines_witness :
  implements (L := TeeMachine.rpc_laws) demo_world (OpMnemonic demo_path) Words
    (TEE_Mnemonic rpc_ctx TeeMachine.alloc demo_order (mkTEEToken demo_path) demo_world).
Proof.
  apply (TEE_refines (ML := TeeMachine.monitor_laws) (L := TeeMachine.rpc_laws) rpc_ctx demo_order demo_world
    (mkTEEToken demo_path) [] 42 0).
  - reflexivity.
  - exact demo_order_ok.
  - exact demo_ready.
  - split; [in_range|]. eexists. split; [reflexivity|]. vm_compute. lia.
  - split; [split; [fits_path|in_range]|]. eexists. split; [reflexivity|]. vm_compute. lia.
  - split; [fits_path|]. eexists. split; [reflexivity|]. vm_compute. lia.
  - split; [fits_path|]. eexists. split; [reflexivity|]. vm_compute. lia.
Defined.

(** The signatures of [TEEToken].  Whatever algorithm is asked for, signing
    gives the serialised signature of the SHA-256 digest of the data under the
    applet's key at the path, and changes nothing in the trusted OS. *)
Theorem TEE_signature {W : Type} {M : Monitor W} {R : Rpc W} {HD : HDKeychain} {E : Entropy W} {maxAlloc : Z}
    {ML : MonitorLaws W M} {L : RpcLaws W M R HD E maxAlloc} os order v t data a k pk sig :
  Server os = [NonsecureRPC] -> (forall c, range_order c (order c)) -> ready v ->
  key_at (tee_path t) = Some k -> ECPrivKey k = Ok pk -> ec_Sign pk (Sha256.Sum256 data) = Ok sig ->
  sendable (OpSign (Sha256.Sum256 data) (tee_path t) AlgoSecp256K1) ->
  (length (answer_bytes (OpSign (Sha256.Sum256 data) (tee_path t) AlgoSecp256K1) (Bytes (Serialize sig))) <= maxMail)%nat ->
  exists w', TEE_Sign os maxAlloc order t data a v = Ret (mkWorld (ctx v) (log v) w', Ok (Serialize sig)).
Proof. intros. by eapply TEE_Sign_ok. Qed.

Lemma TEE_signature_witness :
  exists w', TEE_Sign rpc_ctx TeeMachine.alloc demo_order (mkTEEToken demo_path) [] 7 demo_world =
    Ret (mkWorld (ctx demo_world) (log demo_world) w',
      Ok (flat_map (be_split 4) [44 + 2^31; 118 + 2^31; 2^31; 0; 0] ++ Sha256.Sum256 [])).
Proof.
  apply (TEE_signature (HD := path_keychain) (ML := TeeMachine.monitor_laws) (L := TeeMachine.rpc_laws) rpc_ctx
    demo_order demo_world (mkTEEToken demo_path) [] 7
    [44 + 2^31; 118 + 2^31; 2^31; 0; 0] [44 + 2^31; 118 + 2^31; 2^31; 0; 0]
    ([44 + 2^31; 118 + 2^31; 2^31; 0; 0], Sha256.Sum256 [])).
  - reflexivity.
  - exact demo_order_ok.
  - exact demo_ready.
  - reflexivity.
  - reflexivity.
  - reflexivity.
  - split; [split; [fits_path|in_range]|]. eexists. split; [reflexivity|]. vm_compute. lia.
  - vm_compute. lia.
Defined.

(** C2: From reports to signature, through the TEE.  The same conversation as
    with the development token, on a device whose token is [TEEToken]: the last
    response carries a signature of the applet's key at the five indexes of the
    path, but of the SHA-256 digest of the SHA-256 digest of the text, since
    both the Cosmos app and [TEEToken] hash.  The trusted OS is left as it was.
    *)
Theorem TEE_end_to_end {W : Type} {M : Monitor W} {R : Rpc W} {HD : HDKeychain} {KL : HDKeychainLaws HD} {E : Entropy W}
    {maxAlloc : Z} {ML : MonitorLaws W M} {L : RpcLaws W M R HD E maxAlloc} {D : AddressDeps} {C : CAPDUCodec}
    {CL : CAPDULaws C} os order v (c : Cosmos TEEToken) channel mi adds ml payload k pk sig :
  Server os = [NonsecureRPC] -> (forall c, range_order c (order c)) -> ready v ->
  0 < channel < 65536 ->
  sign_message signInit mi -> (25 <= length mi)%nat ->
  Forall (sign_message signAdd) adds -> sign_message signLast ml ->
  payload = concat (map (drop 5) adds) ++ drop 5 ml ->
  JsonGrammar.text JsonScan.maxNestingDepth (map byte.unsigned payload) ->
  wire_key (drop 5 mi) = Some k -> ECPrivKey k = Ok pk ->
  ec_Sign pk (Sha256.Sum256 (Sha256.Sum256 payload)) = Ok sig ->
  (length (encode (mkSignRequest RequestSign (Sha256.Sum256 (Sha256.Sum256 payload)) (path_of_wire (drop 5 mi))
     AlgoSecp256K1)) <= maxMail)%nat ->
  (length (encode (mkDataResponse RequestSign (Serialize sig))) <= maxMail)%nat ->
  exists w', rx_all (I := cosmos_app (Tok := TEE_token os maxAlloc order))
      (mkHid (cosmos_table (Tok := TEE_token os maxAlloc order) c) None)
      (concat (map (frames_of channel) (mi :: adds ++ [ml]))) v =
    Ret (mkWorld (ctx v) (log v) w',
         mkHid (cosmos_table (Tok := TEE_token os maxAlloc order) (mkCosmos (c_Token c) None true)) None,
         concat (map (frames_of channel)
           (PackageResponse [] APDUSuccess :: map (fun _ => PackageResponse [] APDUSuccess) adds
            ++ [PackageResponse (Serialize sig) APDUSuccess]))).
Proof.
  intros Hos Ho Hv Hch Hi H25 Hadds Hl Hpay Hj%JsonGrammar.json_Valid_text Hk Hpk Hsig Hreq Hresp.
  assert (Hkey : key_at (path_of_wire (drop 5 mi)) = Some k).
  { rewrite key_at_wire; [done|]. rewrite length_drop. lia. }
  assert (Hs : sendable (OpSign (Sha256.Sum256 (Sha256.Sum256 payload)) (path_of_wire (drop 5 mi)) AlgoSecp256K1)).
  { split; [split; [apply path_of_wire_fits|by vm_compute]|]. by eexists. }
  destruct (TEE_Sign_ok os order Hos Ho v (mkTEEToken (path_of_wire (drop 5 mi))) (Sha256.Sum256 payload)
    AlgoSecp256K1 k pk sig Hv Hkey Hpk Hsig Hs Hresp) as (w' & Hsign).
  exists w'. rewrite rx_conversation, <-Hpay, TEE_sign_at by done. by rewrite Hsign.
Qed.

Lemma TEE_end_to_end_witness :
  exists w', rx_all (I := cosmos_app (Tok := TEE_token rpc_ctx TeeMachine.alloc demo_order) (D := plain_address))
      (C := header_codec)
      (firmware_main (Tok := TEE_token rpc_ctx TeeMachine.alloc demo_order) (D := plain_address) tokenImpl)
      (concat (map (frames_of 0x0101)
        (demo_message 0 CosmosTheory.demo_path :: [demo_message 1 (bytes_of [123])] ++ [demo_message 2 (bytes_of [125])])))
      demo_world
  = Ret (mkWorld (ctx demo_world) (log demo_world) w',
      mkHid (cosmos_table (Tok := TEE_token rpc_ctx TeeMachine.alloc demo_order) (D := plain_address)
               (mkCosmos tokenImpl None true)) None,
      concat (map (frames_of 0x0101)
        (PackageResponse [] APDUSuccess :: [PackageResponse [] APDUSuccess]
         ++ [PackageResponse (flat_map (be_split 4) [2 ^ 31 + 44; 2 ^ 31 + 118; 2 ^ 31; 0; 7]
               ++ Sha256.Sum256 (Sha256.Sum256 (bytes_of [123; 125]))) APDUSuccess]))).
Proof.
  apply (TEE_end_to_end (HD := path_keychain) (KL := path_keychain_laws) (ML := TeeMachine.monitor_laws)
    (L := TeeMachine.rpc_laws) (D := plain_address) (C := header_codec) (CL := header_codec_laws) rpc_ctx demo_order
    demo_world (mkCosmos tokenImpl None false) 0x0101 (demo_message 0 CosmosTheory.demo_path)
    [demo_message 1 (bytes_of [123])] (demo_message 2 (bytes_of [125])) (bytes_of [123; 125])
    [2 ^ 31 + 44; 2 ^ 31 + 118; 2 ^ 31; 0; 7] [2 ^ 31 + 44; 2 ^ 31 + 118; 2 ^ 31; 0; 7]
    ([2 ^ 31 + 44; 2 ^ 31 + 118; 2 ^ 31; 0; 7], Sha256.Sum256 (Sha256.Sum256 (bytes_of [123; 125])))).
  - reflexivity.
  - exact demo_order_ok.
  - exact demo_ready.
  - lia.
  - apply demo_sign_message; vm_compute; split; congruence.
  - vm_compute. lia.
  - constructor; [apply demo_sign_message; [lia|vm_compute; reflexivity]|constructor].
  - apply demo_sign_message; [lia|vm_compute; reflexivity].
  - reflexivity.
  - apply JsonGrammar.json_Valid_text. reflexivity.
  - vm_compute. reflexivity.
  - reflexivity.
  - reflexivity.
  - vm_compute. lia.
  - vm_compute. lia.
Defined.

(** C19: A path without a key, through the TEE.  When the applet cannot derive
    the key at the path of an otherwise good signing conversation, no signature
    leaves the device: either the handler of the applet's exit stops the trusted
    OS, or the add commands are acknowledged as always and the last response is
    an empty execution error; then the session is closed, applets, mailboxes and
    logs are as before, and the device is ready for the next conversation. *)
Theorem TEE_bad_path {W : Type} {M : Monitor W} {R : Rpc W} {HD : HDKeychain} {KL : HDKeychainLaws HD} {E : Entropy W}
    {maxAlloc : Z} {ML : MonitorLaws W M} {L : RpcLaws W M R HD E maxAlloc} {D : AddressDeps} {C : CAPDUCodec}
    {CL : CAPDULaws C} os order v (c : Cosmos TEEToken) channel mi adds ml payload :
  Server os = [NonsecureRPC] -> (forall c, range_order c (order c)) -> ready v ->
  0 < channel < 65536 ->
  sign_message signInit mi -> (25 <= length mi)%nat ->
  Forall (sign_message signAdd) adds -> sign_message signLast ml ->
  payload = concat (map (drop 5) adds) ++ drop 5 ml ->
  JsonGrammar.text JsonScan.maxNestingDepth (map byte.unsigned payload) ->
  wire_key (drop 5 mi) = None ->
  (length (encode (mkSignRequest RequestSign (Sha256.Sum256 (Sha256.Sum256 payload)) (path_of_wire (drop 5 mi))
     AlgoSecp256K1)) <= maxMail)%nat ->
  let out := rx_all (I := cosmos_app (Tok := TEE_token os maxAlloc order))
    (mkHid (cosmos_table (Tok := TEE_token os maxAlloc order) c) None)
    (concat (map (frames_of channel) (mi :: adds ++ [ml]))) v in
  panics out = true \/
  exists w', ready (mkWorld (ctx v) (log v) w') /\
    out = Ret (mkWorld (ctx v) (log v) w',
      mkHid (cosmos_table (Tok := TEE_token os maxAlloc order) (mkCosmos (c_Token c) None true)) None,
      concat (map (frames_of channel)
        (PackageResponse [] APDUSuccess :: map (fun _ => PackageResponse [] APDUSuccess) adds
         ++ [PackageResponse [] APDUExecutionError]))).
Proof.
  intros Hos Ho Hv Hch Hi H25 Hadds Hl Hpay Hj%JsonGrammar.json_Valid_text Hk Hreq out.
  assert (Hkey : key_at (path_of_wire (drop 5 mi)) = None).
  { rewrite key_at_wire; [done|]. rewrite length_drop. lia. }
  assert (Hs : sendable (OpSign (Sha256.Sum256 (Sha256.Sum256 payload)) (path_of_wire (drop 5 mi)) AlgoSecp256K1)).
  { split; [split; [apply path_of_wire_fits|by vm_compute]|]. by eexists. }
  destruct (Sign_implements os order Hos Ho v (mkTEEToken (path_of_wire (drop 5 mi))) (Sha256.Sum256 payload)
    AlgoSecp256K1 Hv Hs) as (w1 & Himp).
  destruct (answer_no_key (maxAlloc := maxAlloc) (Sha256.Sum256 (Sha256.Sum256 payload)) (path_of_wire (drop 5 mi)) AlgoSecp256K1 w1 Hkey)
    as (e & He). cbn [tee_path] in Himp. rewrite He in Himp.
  subst out. rewrite rx_conversation, <-Hpay, TEE_sign_at by done. destruct Himp as [(w' & ->)|Hp].
  - right. exists w'. split; [by apply ready_hw|done].
  - left. by destruct (TEE_Sign _ _ _ _ _ _ _).
Qed.

(** A path whose last index the keychain of the witnesses refuses. *)
Definition keyless_path : list byte :=
  flat_map (le_split 4) [2 ^ 31 + 44; 2 ^ 31 + 118; 2 ^ 31; 0; 2 ^ 32 - 1].

Lemma TEE_bad_path_witness :
  let out := rx_all (I := cosmos_app (Tok := TEE_token rpc_ctx TeeMachine.alloc demo_order) (D := plain_address))
    (C := header_codec)
    (firmware_main (Tok := TEE_token rpc_ctx TeeMachine.alloc demo_order) (D := plain_address) tokenImpl)
    (concat (map (frames_of 0x0101)
      (demo_message 0 keyless_path :: [demo_message 1 (bytes_of [123])] ++ [demo_message 2 (bytes_of [125])])))
    demo_world in
  panics out = true \/
  exists w', ready (L := TeeMachine.rpc_laws) (mkWorld (ctx demo_world) (log demo_world) w') /\
    out = Ret (mkWorld (ctx demo_world) (log demo_world) w',
      mkHid (cosmos_table (Tok := TEE_token rpc_ctx TeeMachine.alloc demo_order) (D := plain_address)
               (mkCosmos tokenImpl None true)) None,
      concat (map (frames_of 0x0101)
        [PackageResponse [] APDUSuccess; PackageResponse [] APDUSuccess; PackageResponse [] APDUExecutionError])).
Proof.
  apply (TEE_bad_path (HD := path_keychain) (KL := path_keychain_laws) (ML := TeeMachine.monitor_laws)
    (L := TeeMachine.rpc_laws) (D := plain_address) (C := header_codec) (CL := header_codec_laws) rpc_ctx demo_order
    demo_world (mkCosmos tokenImpl None false) 0x0101 (demo_message 0 keyless_path)
    [demo_message 1 (bytes_of [123])] (demo_message 2 (bytes_of [125])) (bytes_of [123; 125])).
  - reflexivity.
  - exact demo_order_ok.
  - exact demo_ready.
  - lia.
  - apply demo_sign_message; vm_compute; split; congruence.
  - vm_compute. lia.
  - constructor; [apply demo_sign_message; [lia|vm_compute; reflexivity]|constructor].
  - apply demo_sign_message; [lia|vm_compute; reflexivity].
  - reflexivity.
  - apply JsonGrammar.json_Valid_text. reflexivity.
  - vm_compute. reflexivity.
  - vm_compute. lia.
Defined.

(** The exit of the other world. *)
Lemma sys_Exit_stops {W} {M : Monitor W} os maxAlloc order (v : World W) :
  NonSecure os = true -> sys_Exit os maxAlloc order v = Ret (v, Some ErrNonsecureExit).
Proof.
  intros Hns. unfold sys_Exit, smc, nonsecureWorldHandler, logHandler. cbn [with_regs R0 NonSecure].
  rewrite Hns. by destruct v.
Qed.

(** The demo program started [n] times, until one run fails. *)
Fixpoint demo_runs {W} {M : Monitor W} {R : Rpc W} os maxAlloc order (n : nat) (v : World W)
    : go (World W * option error) :=
  match n with
  | O => Ret (v, None)
  | S n =>
      '(v, err) ← demo_main os maxAlloc order v;
      match err with
      | Some e => Ret (v, Some e)
      | None => demo_runs os maxAlloc order n v
      end
  end.

(** C17: The demo program completes, and can be started again.  Let the trusted
    OS have started with the cryptography applet's image and any image of the
    other world, and let each of the five operations that the demo program asks
    for succeed in the applet's token whatever state the machine is in, with
    requests and answers that fit the transport.  Then every request returns
    without an error, in any number of runs one after the other, and the applets
    and mailboxes of the trusted OS end as they started; what the programs print
    is not part of the model.  The exit at the end of the program stops the other
    world with the error that the trusted OS takes for a regular end. *)
Theorem demo_completes {W : Type} {H : Drivers W} {M : Monitor W} {R : Rpc W} {HD : HDKeychain} {E : Entropy W}
    {maxAlloc : Z} {ML : MonitorLaws W M} {L : RpcLaws W M R HD E maxAlloc} native osELF order w0 w c os g n :
  trusted_os_main native applet_elf osELF w0 = Ret (w, c, os) ->
  (forall c, range_order c (order c)) -> Forall feasible demo_ops ->
  exists v v', demo_runs os maxAlloc order n (mkWorld c g w) = Ret (v, None) /\ ctx v = c /\
    demo_program os maxAlloc order v = Ret (v', Some ErrNonsecureExit) /\ ctx v' = c.
Proof.
  intros (Hc & _ & Hns & Hos & _)%trusted_os_main_inv Ho Hf.
  assert (Hv : forall w, ready (mkWorld c g w)).
  { intros w'. subst c. split; [apply lookup_singleton_eq|done|apply lookup_empty]. }
  revert w. induction n as [|n IH]; intros w; cbn [demo_runs].
  - destruct (demo_main_ok os order Hos Ho _ (Hv w) Hf) as (w' & Hm).
    exists (mkWorld c g w), (mkWorld c g w'). split_and!; [done..| |done].
    unfold demo_program. by rewrite Hm, go_bind_ret, sys_Exit_stops.
  - destruct (demo_main_ok os order Hos Ho _ (Hv w) Hf) as (w' & ->). rewrite go_bind_ret. apply IH.
Qed.

Definition machine_drivers : Drivers TeeMachine.machine := {|
  CSL_MIN := 0; CSL_MAX := 40; SA_MIN := 0; SA_MAX := 16;
  SEC_LEVEL_0 := 0; SEC_LEVEL_4 := 4;
  SP_NW_RD := 0; SP_NW_WR := 1; SP_SW_RD := 2; SP_SW_WR := 3;
  hw_call := fun _ w => (w, None)
|}.

Definition booted_ctx : ExecCtx :=
  mkExecCtx 0 0 0 0 NonSecureRegion true true NonsecureWorldHandler [NonsecureRPC].

Lemma demo_completes_witness :
  exists v v', demo_runs booted_ctx TeeMachine.alloc demo_order 3 demo_world = Ret (v, None) /\
    ctx v = ctx demo_world /\
    demo_program booted_ctx TeeMachine.alloc demo_order v = Ret (v', Some ErrNonsecureExit) /\ ctx v' = ctx demo_world.
Proof.
  apply (demo_completes (H := machine_drivers) (HD := path_keychain) (ML := TeeMachine.monitor_laws)
    (L := TeeMachine.rpc_laws) false [] demo_order TeeMachine.boot TeeMachine.boot (ctx demo_world) booted_ctx
    (log demo_world) 3).
  - reflexivity.
  - exact demo_order_ok.
  - repeat apply List.Forall_cons; [..|apply List.Forall_nil].
    + split.
      * split; [fits_path|]. eexists. split; [reflexivity|]. vm_compute. lia.
      * intros w. exists w, (Words ["awkward"; "funny"; "novel"]).
        split; [reflexivity|]. split; [repeat (apply List.Forall_cons; [reflexivity|]); apply List.Forall_nil|].
        vm_compute. lia.
    + split.
      * split; [fits_path|]. eexists. split; [reflexivity|]. vm_compute. lia.
      * intros w. exists w, (Bytes (flat_map (be_split 4) [44 + 2^31; 118 + 2^31; 2^31; 0; 0])).
        split; [reflexivity|]. split; [exact I|]. vm_compute. lia.
    + split.
      * split; [split; [fits_path|in_range]|]. eexists. split; [reflexivity|]. vm_compute. lia.
      * intros w. exists w, (Bytes (flat_map (be_split 4) [44 + 2^31; 118 + 2^31; 2^31; 0; 0]
          ++ Sha256.Sum256 (replicate 42 (byte.of_Z 42)))).
        split; [reflexivity|]. split; [exact I|]. vm_compute. lia.
    + split.
      * split; [in_range|]. eexists. split; [reflexivity|]. vm_compute. lia.
      * intros w. eexists. exists (Bytes (zeros 42)).
        split; [reflexivity|]. split; [exact I|]. vm_compute. lia.
    + split.
      * split; [exact I|]. eexists. split; [reflexivity|]. vm_compute. lia.
      * intros w. exists w, (Algorithms [AlgoSecp256K1]).
        split; [reflexivity|]. split; [apply List.Forall_cons; [in_range|apply List.Forall_nil]|]. vm_compute. lia.
Defined.

(** C18: One malformed mail stops the machine.  If the other world sends the
    applet a signing request whose data is not base64 text, and the applet has
    a key for its path, the call never returns: the applet panics, its report
    reaches the trusted OS as it was written, and the trusted OS panics with
    it. *)
Theorem bad_mail_stops {W : Type} {M : Monitor W} {R : Rpc W} {HD : HDKeychain} {E : Entropy W} {maxAlloc : Z}
    {ML : MonitorLaws W M} {L : RpcLaws W M R HD E maxAlloc} os order v data r k :
  Server os = [NonsecureRPC] -> (forall c, range_order c (order c)) -> ready v -> (length data <= maxMail)%nat ->
  RequestedOp data = Ok RequestSign -> parse data = Ok r -> Base64.decode_from [] (sri_Data r) = None ->
  key_at (sri_DerivationPath r) = Some k ->
  valid_utf8 (bytes_of_string (panic_text (PanicValue Base64.CorruptInputError))) = true ->
  valid_utf8 (bytes_of_string debug_Stack) = true ->
  client_SendMail os maxAlloc order (mkMail AppletID data) v =
    Panic (PanicValue (client_panic (mkClientPanic (panic_text (PanicValue Base64.CorruptInputError)) debug_Stack))).
Proof.
  intros Hos Ho Hv Hl Hop Hr Hd Hk Hm Ht.
  destruct (SendMail_spec os order Hos Ho v data Hv Hl) as (w1 & H).
  assert (Hs : serve (maxAlloc := maxAlloc) data w1 = Panic (PanicValue Base64.CorruptInputError)).
  { unfold serve, Dispatch. rewrite Hop, Hr. cbn [Z.eqb Pos.eqb RequestSign RequestRandomBytes].
    rewrite (at_key _ k) by done. unfold sri_Bytes, Base64.DecodeString. by rewrite Hd. }
  rewrite Hs in H. apply H. by split.
Qed.

Lemma bad_mail_stops_witness :
  client_SendMail rpc_ctx TeeMachine.alloc demo_order (mkMail AppletID bad_request) demo_world =
    Panic (PanicValue (StructError "client.ClientPanic" ["panic"; "goroutine 1 [running]"])).
Proof.
  apply (bad_mail_stops (HD := path_keychain) (ML := TeeMachine.monitor_laws) (L := TeeMachine.rpc_laws) rpc_ctx
    demo_order demo_world bad_request (mkSignRequestInternal (bytes_of_string "???") zero_path 0)
    [2^31; 2^31; 2^31; 0; 0]).
  - reflexivity.
  - exact demo_order_ok.
  - exact demo_ready.
  - vm_compute. lia.
  - vm_compute. reflexivity.
  - vm_compute. reflexivity.
  - vm_compute. reflexivity.
  - reflexivity.
  - reflexivity.
  - reflexivity.
Defined.

(** C36: A mail that does not fit the applet's read is lost without an error.
    The client takes the unexpected end of the reply for success: the mail is
    gone from the mailbox, the applet holds an empty one, and what it reports
    in the end is that the request is no JSON. *)
Theorem long_mail_lost {W : Type} {M : Monitor W} {R : Rpc W} {HD : HDKeychain} {E : Entropy W} {maxAlloc : Z}
    {L : RpcLaws W M R HD E maxAlloc} c w data :
  mailbox c !! AppletID = Some data -> (maxMail < length data)%nat ->
  exists w', Client.RetrieveMail AppletID c w = (w', took c, zero_mail, None) /\
    mailbox (took c) !! AppletID = None /\
    applet_main maxAlloc c w = (w', took c, Fatal (Wrapf "cannot read op, %w" [] SyntaxError)).
Proof.
  intros Hm Hl. unfold applet_main, Client.RetrieveMail.
  destruct (applet_call (CallRetrieveMail AppletID) c w eq_refl) as (w' & -> & _). exists w'.
  assert (Hp : perform c (CallRetrieveMail AppletID) = (took c, Taken (mkMail AppletID data))).
  { cbn [perform]. unfold SecureRPC_RetrieveMail, RetrieveMail. by rewrite Hm. }
  rewrite Hp. cbn [fst snd reply_size Payload]. rewrite bool_decide_false by lia.
  split_and!; [done| |done]. unfold took; cbn. apply lookup_delete_eq.
Qed.

Lemma long_mail_lost_witness :
  exists w', Client.RetrieveMail AppletID (mkContext ∅ {[AppletID := zeros 5000]} ∅) TeeMachine.boot
    = (w', took (mkContext ∅ {[AppletID := zeros 5000]} ∅), zero_mail, None).
Proof.
  destruct (long_mail_lost (HD := path_keychain) (L := TeeMachine.rpc_laws)
    (mkContext ∅ {[AppletID := zeros 5000]} ∅) TeeMachine.boot (zeros 5000)) as (w' & H & _).
  - reflexivity.
  - rewrite length_zeros. apply Nat.ltb_lt. reflexivity.
  - exists w'. exact H.
Defined.
