(* ===== verification/Board.v ===== *)
(** * Start and end of the programs on the board

    What the four programs do before and after their [main] logic: the [init]
    functions, the choices of the two firmware builds ([firmware/tee.go],
    [firmware/tee_tee_enabled.go]), [catchPanic], the reboot watcher of the
    debug build, the memory each program is linked to, and the characters the
    demo program prints through the trusted OS.  What happens to the board is
    a list of [action]s; the drivers of the board are parameters. *)

From S2P Require Import Prelude GoRuntime Crypto Apps Cosmos Firmware Tz TrustZone UsbDevice TeeClient TeeToken.
Import Tz TrustZone UsbDevice.

Module Board.

(** How a program, or a part of it, is left. *)
Inductive ending := Continues | Exits | Panics (p : panic).

(** What [main] of the firmware comes to: a device that was started serves for ever. *)
Inductive running (T D : Type) :=
| Serves (hh : hidHandler (Cosmos T)) (d : D) (dd : DeviceDescriptor) (id : InterfaceDescriptor)
| Ended (actions : list action).
Arguments Serves {T D} _ _ _ _.
Arguments Ended {T D} _.

Section board.
(** [imx6.Native], the lowest frequency, and the result of setting one. *)
Context (native : bool) (FreqLow : Z) (setFreq : Z -> option error).

(** ** The firmware; [tee] is the build tag [tee_enabled] *)

(** [tee_tee_enabled.go] *)
Definition tee_loadDebugAccessory : list action := [].
Definition tee_resetBoard : list action := [imx6_Reset].

(** [tee.go] *)
Definition plain_loadDebugAccessory : list action := [DetectDebugAccessory 250; AwaitDebugConsole].
Definition plain_resetBoard : list action := [usbarmory_Reset].

Definition loadDebugAccessory (tee : bool) : list action :=
  if tee then tee_loadDebugAccessory else plain_loadDebugAccessory.
Definition resetBoard (tee : bool) : list action := if tee then tee_resetBoard else plain_resetBoard.

(** [init]: an error of [SetARMFreq] is only logged. *)
Definition firmware_init (tee : bool) : list action * ending :=
  if negb native then ([], Exits)
  else (loadDebugAccessory tee ++ [SetARMFreq FreqLow], Continues).

Definition catchPanic (tee : bool) (r : option panic) : list action :=
  match r with
  | Some _ => [SleepMs 1000] ++ resetBoard tee
  | None => []
  end.

Definition run_main {W T D} {Tok : Token W T} {A : AddressDeps} {U : UsbDriver D} (tee : bool) (t : T) (d : D)
    : running T D :=
  let hh := firmware_main t in
  match startUSB d with
  | (_, Err e) => Ended (catchPanic tee (Some (PanicValue e)))
  | (d, Ok (dd, id)) => Serves hh d dd id
  end.

(** The whole program. *)
Definition firmware {W T D} {Tok : Token W T} {A : AddressDeps} {U : UsbDriver D} (tee : bool) (t : T) (d : D)
    : list action * option (running T D) :=
  match firmware_init tee with
  | (actions, Continues) => (actions, Some (run_main tee t d))
  | (actions, _) => (actions, None)
  end.

(** ** The reboot watcher of the debug build *)

(** One turn of the loop on the one-byte buffer; [read] is what the console
    had to offer. *)
Definition watch (tee : bool) (buf : Z) (read : option Z) : Z * list action :=
  let buf := default buf read in
  if buf =? 0 then (buf, [])
  else (0, if buf =? 114 then [SleepMs 500] ++ resetBoard tee else []).

Fixpoint rebootWatcher (tee : bool) (buf : Z) (reads : list (option Z)) : list action :=
  match reads with
  | [] => []
  | r :: rest =>
      let '(buf, actions) := watch tee buf r in
      actions ++ rebootWatcher tee buf rest
  end.

(** ** The trusted OS and the demo program *)

Definition freq_failed (e : error) : ending :=
  Panics (PanicValue (Wrapf "WARNING: error setting ARM frequency: %v" [] e)).

Definition trusted_os_init : list action * ending :=
  let secured := [dma_Init SecureDMAStart SecureDMASize; dcp_UseDefaultDMA] in
  if native then
    match setFreq 900 with
    | Some e => ([SetARMFreq 900], freq_failed e)
    | None => ([SetARMFreq 900; DetectDebugAccessory 250; AwaitDebugConsole] ++ secured, Continues)
    end
  else (secured, Continues).

(** The trusted OS from its [init] to its end.  A panic of [init] is not
    recovered: the deferred handler belongs to [main]. *)
Definition trusted_os_program {W} {H : Drivers W} {M : Monitor W} (taELF osELF : list byte) (w : W) : list action :=
  match trusted_os_init with
  | (actions, Continues) => actions ++ trusted_os native taELF osELF w
  | (actions, _) => actions
  end.

Definition demo_init : list action * ending :=
  if negb native then ([], Continues)
  else match setFreq 900 with
       | Some e => ([SetARMFreq 900], freq_failed e)
       | None => ([SetARMFreq 900], Continues)
       end.

Definition demo_hwinit : list action := [imx6_Init; UART2_Init].

(** [hwinit] and [printk] of the firmware in the other world. *)
Definition firmware_hwinit : list action := [imx6_Init; UART2_Init].
Definition firmware_printk (c : byte) : list action := [UART2_Tx c].

(** [printSecure] (assembly): a trap with the character in [R1]. *)
Definition printSecure {W} {M : Monitor W} (os : ExecCtx) (maxAlloc : Z) (order : Context -> list Z) (c : byte)
    (v : World W) : go (World W) :=
  sys_Supervisor maxAlloc order (with_regs SYS_WRITE (byte.unsigned c) (R2 os) os) v.

(** [printk] of the demo program. *)
Definition demo_printk {W} {M : Monitor W} (os : ExecCtx) (maxAlloc : Z) (order : Context -> list Z) (c : byte)
    (v : World W) : go (World W * list action) :=
  if native then v ← printSecure os maxAlloc order c v; Ret (v, [])
  else Ret (v, [UART2_Tx c]).

Fixpoint demo_print {W} {M : Monitor W} (os : ExecCtx) (maxAlloc : Z) (order : Context -> list Z) (cs : list byte)
    (v : World W) : go (World W * list action) :=
  match cs with
  | [] => Ret (v, [])
  | c :: cs =>
      '(v, a) ← demo_printk os maxAlloc order c v;
      '(v, b) ← demo_print os maxAlloc order cs v;
      Ret (v, a ++ b)
  end.

End board.

(** The token of the firmware without the TEE. *)
Definition tokenImpl {HD : HDKeychain} : dumbToken.t := dumbToken.NewDumbToken.

(** ** The memory the programs are linked to: [ramStart], [ramSize] *)

Inductive program := TrustedOS | CryptographyApplet | TeeFirmware | DemoOS.

Definition trusted_os_ram : Region := mkRegion SecureStart SecureSize.
Definition applet_ram : Region := mkRegion AppletStart AppletSize.
Definition tee_firmware_ram : Region := mkRegion NonSecureStart NonSecureSize.
Definition demo_ram : Region := mkRegion NonSecureStart NonSecureSize.

Definition ram (p : program) : Region :=
  match p with
  | TrustedOS => trusted_os_ram
  | CryptographyApplet => applet_ram
  | TeeFirmware => tee_firmware_ram
  | DemoOS => demo_ram
  end.

Definition in_other_world (p : program) : bool :=
  match p with TeeFirmware | DemoOS => true | _ => false end.

Definition within (r : Region) (a : Z) : Prop := Start r <= a < Start r + Size r.

#[export] Instance within_dec r a : Decision (within r a).
Proof. unfold within. solve_decision. Defined.

(** ** The address space controller (TZC-380)

    The controller is hardware.  What it makes of its region registers, the
    attributes that count for an address, is a parameter, with what its manual
    says of them: of the enabled regions 1 to 15 that contain an address the one
    with the highest number counts, and region 0 where there is none. *)

Definition covers (a : Z) (r : Z * Z * Z) : bool :=
  let '(st, sz, _) := r in (st <=? a) && (a <? st + sz).

(** Region [n] is not enabled, or does not contain the address. *)
Definition misses (rs : gmap Z (Z * Z * Z)) (a n : Z) : Prop :=
  match rs !! n with Some r => covers a r = false | None => True end.

Class Controller := {
  attributes_at : gmap Z (Z * Z * Z) -> Z -> option Z
}.

Class ControllerLaws (T : Controller) : Prop := {
  highest_counts rs a n r :
    1 <= n <= 15 -> rs !! n = Some r -> covers a r = true -> (forall m, n < m <= 15 -> misses rs a m) ->
    attributes_at rs a = Some r.2;
  background_counts rs a :
    (forall m, 1 <= m <= 15 -> misses rs a m) -> attributes_at rs a = snd <$> rs !! 0
}.

(** Whether a right, a bit of the attributes, is granted. *)
Definition permits {T : Controller} (g : Config) (bit a : Z) : bool :=
  match attributes_at (regions g) a with Some at_ => Z.testbit at_ bit | None => false end.

(** A controller that looks the regions up from the highest down. *)
Definition downward : list Z := map (fun n => 15 - Z.of_nat n) (seq 0 15).

Fixpoint first_covering (rs : gmap Z (Z * Z * Z)) (a : Z) (ns : list Z) : option Z :=
  match ns with
  | [] => snd <$> rs !! 0
  | n :: ns =>
      match rs !! n with
      | Some r => if covers a r then Some r.2 else first_covering rs a ns
      | None => first_covering rs a ns
      end
  end.

Definition plain_controller : Controller := {| attributes_at := fun rs a => first_covering rs a downward |}.

(** The rights of the two worlds are different bits. *)
Class AccessBits (W : Type) (H : Drivers W) : Prop := {
  bits_nonneg : 0 <= SP_NW_RD /\ 0 <= SP_NW_WR /\ 0 <= SP_SW_RD /\ 0 <= SP_SW_WR;
  bits_distinct : SP_NW_RD <> SP_SW_RD /\ SP_NW_RD <> SP_SW_WR /\ SP_NW_WR <> SP_SW_RD /\ SP_NW_WR <> SP_SW_WR
}.

(** ** Lemmas *)

(** Memory layout facts are comparisons of constants. *)
Ltac layout :=
  unfold within, ram, trusted_os_ram, applet_ram, tee_firmware_ram, demo_ram, SecureStart, SecureSize, SecureDMAStart, SecureDMASize, AppletStart, AppletSize,
    NonSecureStart, NonSecureSize in *; cbn [Start Size] in *; lia.

Lemma ram_disjoint p q a : within (ram p) a -> within (ram q) a -> ram p = ram q /\ in_other_world p = in_other_world q.
Proof. intros Hp Hq. destruct p, q; try done; exfalso; layout. Qed.

Lemma dma_disjoint p a : within (mkRegion SecureDMAStart SecureDMASize) a -> ~ within (ram p) a.
Proof. intros Hd Hp. destruct p; layout. Qed.

(** The DMA buffer [init] chooses, whatever the frequency change does. *)
Lemma trusted_os_init_dma native setFreq st sz :
  dma_Init st sz ∈ (trusted_os_init native setFreq).1 -> mkRegion st sz = mkRegion SecureDMAStart SecureDMASize.
Proof.
  unfold trusted_os_init. destruct native; [destruct (setFreq 900)|]; cbn [fst app];
    rewrite ?elem_of_cons, ?elem_of_nil; intros Hin; decompose [or] Hin; simplify_eq; done.
Qed.

(** What becomes of the firmware: on an emulator it exits; otherwise it serves
    a device in its initial state, or the board is reset. *)
Lemma firmware_outcomes {W T D} {Tok : Token W T} {A : AddressDeps} {U : UsbDriver D} native FreqLow tee (t : T) (d : D)
    (w : W) :
  match firmware native FreqLow tee t d with
  | (_, None) => native = false
  | (_, Some (Serves hh d' dd id)) =>
      native = true /\ startUSB d = (d', Ok (dd, id)) /\ device_ok (mkDevice hh w Waiting)
  | (_, Some (Ended actions)) =>
      native = true /\ (exists d' e, startUSB d = (d', Err e)) /\ actions = [SleepMs 1000] ++ resetBoard tee
  end.
Proof.
  unfold firmware, firmware_init, run_main. destruct native; [|done]. cbn [negb].
  destruct (startUSB d) as [d' [[dd id]|e]]; split_and!; try done; [apply firmware_main_ok|by eexists _, _].
Qed.

(** The watcher resets the board once for every [r] on the console and does
    nothing else. *)
Lemma rebootWatcher_resets tee reads :
  rebootWatcher tee 0 reads =
  flat_map (fun r => if bool_decide (r = Some 114) then [SleepMs 500] ++ resetBoard tee else []) reads.
Proof.
  induction reads as [|r reads IH]; [done|]. cbn [rebootWatcher flat_map]. unfold watch.
  destruct r as [b|]; cbn [default from_option id]; [|cbn; by rewrite IH].
  destruct (Z.eqb_spec b 0) as [->|Hb]; [cbn; by rewrite IH|]. rewrite IH.
  destruct (Z.eqb_spec b 114) as [->|Hr]; [done|]. rewrite bool_decide_eq_false_2 by congruence. done.
Qed.

(** What the demo program prints on the board arrives in the trusted OS's log
    of the other world, in order, and changes nothing else. *)
Lemma demo_print_logged {W} {M : Monitor W} os maxAlloc order cs : forall v : World W,
  NonSecure os = true ->
  demo_print true os maxAlloc order cs v =
  Ret (mkWorld (ctx v) (log_all (map (fun c => (c, true)) cs) (log v)) (hw v), []).
Proof.
  induction cs as [|c cs IH]; intros v Hns; [by destruct v|].
  cbn [demo_print]. unfold demo_printk, printSecure, sys_Supervisor, smc, nonsecureWorldHandler, logHandler.
  cbn [with_regs R0 R1 NonSecure]. rewrite Hns, byte.of_Z_unsigned. cbn. by rewrite IH.
Qed.

Section placement.
Context {W : Type} {H : Drivers W} {B : AccessBits W H} {T : Controller} {TL : ControllerLaws T}.

Lemma secure_rw_closed bit : bit = SP_NW_RD \/ bit = SP_NW_WR -> Z.testbit secure_rw bit = false.
Proof.
  pose proof bits_nonneg. pose proof bits_distinct as Hd. unfold secure_rw. intros Hb.
  rewrite Z.lor_spec, !Z.shiftl_1_l, !Z.pow2_bits_eqb by lia.
  apply orb_false_iff; split; apply Z.eqb_neq; intuition congruence.
Qed.

Lemma nonsecure_rw_open bit : bit = SP_NW_RD \/ bit = SP_NW_WR -> Z.testbit nonsecure_rw bit = true.
Proof.
  pose proof bits_nonneg. unfold nonsecure_rw. intros Hb.
  rewrite Z.lor_spec, !Z.shiftl_1_l, !Z.pow2_bits_eqb by lia.
  apply orb_true_iff. destruct Hb as [-> | ->]; [left|right]; apply Z.eqb_refl.
Qed.

(** Regions the configuration does not mention keep what they were. *)
Lemma trustzone_regions g n : 3 <= n -> regions (apply_all (trustzone_ops true true) g) !! n = regions g !! n.
Proof.
  intros Hn. unfold trustzone_ops. cbn [negb].
  change (apply_all (?x :: csu_Init :: ?l) g) with (apply_all l g). rewrite !apply_all_app.
  set (g1 := apply_all peripherals_to_nonsecure g).
  set (g2 := apply_all [EnableRegion 0 _ _ _] g1). set (g3 := apply_all [EnableRegion 1 _ _ _; _] g2).
  destruct (close_all (indexes SA_MIN SA_MAX) g3) as (_ & R4 & _).
  fold controllers_to_nonsecure in R4. cbn [apply_all fold_left apply_op regions].
  rewrite R4. subst g3 g2. cbn [apply_all fold_left apply_op regions].
  rewrite !lookup_insert_ne by lia. subst g1. unfold peripherals_to_nonsecure. by rewrite (proj2 (open_all_frame _ _)).
Qed.

(** The attributes the configuration gives an address. *)
Lemma configured_attributes g a :
  (forall n, 3 <= n < 16 -> regions g !! n = None) ->
  attributes_at (regions (apply_all (trustzone_ops true true) g)) a =
  Some (if bool_decide (within (ram TrustedOS) a \/ within (mkRegion SecureDMAStart SecureDMASize) a \/
                        within (ram CryptographyApplet) a)
        then secure_rw else nonsecure_rw).
Proof.
  intros Hfree. destruct (trustzone_config g) as (_ & _ & H0 & H1 & H2). set (g' := apply_all _ g) in *.
  assert (Hhigh : forall m, 3 <= m <= 15 -> misses (regions g') a m).
  { intros m Hm. unfold misses, g'. by rewrite trustzone_regions, Hfree by lia. }
  destruct (covers a (AppletStart, AppletSize, secure_rw)) eqn:E2.
  - rewrite (highest_counts _ _ 2 _ ltac:(lia) H2 E2) by (intros; apply Hhigh; lia).
    cbn in E2. rewrite bool_decide_eq_true_2; [done|]. right; right. unfold within; cbn. lia.
  - destruct (covers a (SecureStart, SecureSize + SecureDMASize, secure_rw)) eqn:E1.
    + rewrite (highest_counts _ _ 1 _ ltac:(lia) H1 E1).
      2: { intros m Hm. destruct (decide (m = 2)) as [->|]; [unfold misses; by rewrite H2|apply Hhigh; lia]. }
      cbn in E1. rewrite bool_decide_eq_true_2; [done|].
      unfold within, ram, trusted_os_ram; cbn [Start Size].
      unfold SecureStart, SecureSize, SecureDMAStart, SecureDMASize in *. lia.
    + rewrite background_counts, H0.
      2: { intros m Hm. destruct (decide (m = 1)) as [->|]; [unfold misses; by rewrite H1|].
           destruct (decide (m = 2)) as [->|]; [unfold misses; by rewrite H2|apply Hhigh; lia]. }
      cbn in E1, E2. rewrite bool_decide_eq_false_2; [done|]. unfold within, ram, trusted_os_ram, applet_ram; cbn [Start Size].
      unfold SecureStart, SecureSize, SecureDMAStart, SecureDMASize, AppletStart, AppletSize in *. lia.
Qed.

End placement.

Lemma first_covering_hit rs a n r ms ns :
  rs !! n = Some r -> covers a r = true -> Forall (misses rs a) ms ->
  first_covering rs a (ms ++ n :: ns) = Some r.2.
Proof.
  intros Hn Hc. induction 1 as [|m ms Hm _ IH]; cbn; [by rewrite Hn, Hc|].
  unfold misses in Hm. destruct (rs !! m); [by rewrite Hm|done].
Qed.

Lemma first_covering_none rs a ns : Forall (misses rs a) ns -> first_covering rs a ns = snd <$> rs !! 0.
Proof.
  induction 1 as [|m ms Hm _ IH]; cbn; [done|]. unfold misses in Hm. destruct (rs !! m); [by rewrite Hm|done].
Qed.

Lemma downward_split n : 1 <= n <= 15 -> exists ms ns, downward = ms ++ n :: ns /\ Forall (fun m => n < m <= 15) ms.
Proof.
  intros Hn. unfold downward. replace 15%nat with (Z.to_nat (15 - n) + S (Z.to_nat (n - 1)))%nat by lia.
  rewrite seq_app, map_app. eexists _, _. split.
  - f_equal. cbn [seq map]. f_equal. lia.
  - apply Forall_forall. intros m (k & <- & Hk)%in_map_iff. apply in_seq in Hk. lia.
Qed.

Lemma plain_controller_laws : ControllerLaws plain_controller.
Proof.
  split; cbn [attributes_at plain_controller].
  - intros rs a n r Hn Hr Hc Hm. destruct (downward_split n Hn) as (ms & ns & -> & Hms).
    apply first_covering_hit; [done..|]. eapply List.Forall_impl; [|exact Hms]. auto.
  - intros rs a Hm. apply first_covering_none, Forall_forall. intros m (k & <- & Hk)%in_map_iff. apply in_seq in Hk.
    apply Hm. lia.
Qed.

Lemma plain_access_bits : AccessBits Config plain_drivers.
Proof. split; cbn; lia. Qed.

(** ** Properties *)

(** C22: What the other world can reach of the programs' memory.  Once TrustZone
    is configured on the board without an error, and if none of the controller's
    regions 3 to 15 was in use before: the non-secure world may read and write an
    address of the memory a program is linked to exactly if that program is the
    firmware or the demo program, which run in the non-secure world, and not if
    it is the trusted OS or the applet; it may neither read nor write the DMA
    buffer that the trusted OS's [init] chose; the memories of programs of
    different worlds, the trusted OS's and the applet's, and the DMA buffer do not
    overlap; and the context the trusted OS runs is confined to the memory the
    firmware and the demo program are linked to.  (What the secure world may
    access is not claimed.) *)
Theorem programs_placed {W : Type} {H : Drivers W} {D : DriverLaws W H} {B : AccessBits W H} {T : Controller}
    {TL : ControllerLaws T} (w w' : W) :
  configureTrustZone true true w = (w', None) ->
  (forall n, 3 <= n < 16 -> regions (config w) !! n = None) ->
  (forall p a bit, within (ram p) a -> bit = SP_NW_RD \/ bit = SP_NW_WR ->
     permits (config w') bit a = in_other_world p) /\
  (forall setFreq st sz a bit, dma_Init st sz ∈ (trusted_os_init true setFreq).1 ->
     within (mkRegion st sz) a -> bit = SP_NW_RD \/ bit = SP_NW_WR ->
     permits (config w') bit a = false /\ forall p, ~ within (ram p) a) /\
  (forall p q a, within (ram p) a -> within (ram q) a -> ram p = ram q /\ in_other_world p = in_other_world q) /\
  (forall (M : Monitor W) (L : MonitorLaws W M) ta os w1 w2 c x p,
     trusted_os_main true ta os w1 = Ret (w2, c, x) -> in_other_world p = true -> Memory x = ram p).
Proof.
  intros E%call_all_config Hfree. rewrite E.
  split_and!.
  - intros p a bit Ha Hb. unfold permits. rewrite configured_attributes by done.
    case_bool_decide as Hs.
    + rewrite secure_rw_closed by done. destruct p; try done; exfalso; layout.
    + rewrite nonsecure_rw_open by done. destruct p; tauto.
  - intros setFreq st sz a bit ->%trusted_os_init_dma Ha Hb. split; [|intros p; by apply dma_disjoint].
    unfold permits. rewrite configured_attributes, bool_decide_eq_true_2 by tauto. by apply secure_rw_closed.
  - apply ram_disjoint.
  - intros M L ta os w1 w2 c x p (_ & Hm & _)%trusted_os_main_inv Hw. rewrite Hm. by destruct p.
Qed.

Lemma programs_placed_witness :
  exists w', configureTrustZone (H := plain_drivers) true true (mkConfig ∅ ∅ ∅) = (w', None) /\
    permits (T := plain_controller) w' 0 0x80000000 = true /\ permits (T := plain_controller) w' 0 0x9c000000 = false.
Proof.
  assert (He : (configureTrustZone (H := plain_drivers) true true (mkConfig ∅ ∅ ∅)).2 = None)
    by (vm_compute; reflexivity).
  destruct (configureTrustZone (H := plain_drivers) true true (mkConfig ∅ ∅ ∅)) as [w' err] eqn:E.
  cbn [snd] in He. subst err. exists w'. split; [reflexivity|].
  destruct (programs_placed (H := plain_drivers) (D := plain_driver_laws) (B := plain_access_bits)
    (TL := plain_controller_laws) (mkConfig ∅ ∅ ∅) w' E (fun n _ => lookup_empty n)) as (Hr & _).
  split; [apply (Hr DemoOS)|apply (Hr CryptographyApplet)];
    first [by left | split; vm_compute; congruence].
Defined.

End Board.
