(* ===== verification/GenCert.v ===== *)
(** * The certificate generator: [src/cmd/gen-cert]

    The build tool that writes an attestation key and its self-signed
    certificate.  [crypto/x509], the clock, the random source and the file
    system are parameters. *)

From S2P Require Import Prelude GoRuntime.

Module GenCert.

Record Name := mkName { Country : list string; CommonName : string; NameSerialNumber : string }.

Inductive algorithm := ECDSA | ECDSAWithSHA256.

(** The fields of [x509.Certificate] the tool sets. *)
Record Certificate (Time : Type) := mkCertificate {
  NotBefore : Time;
  NotAfter : Time;
  SerialNumber : Z;
  Issuer : Name;
  Subject : Name;
  PublicKeyAlgorithm : algorithm;
  SignatureAlgorithm : algorithm
}.
Arguments mkCertificate {Time} _ _ _ _ _ _ _.
Arguments Issuer {Time} _.
Arguments Subject {Time} _.

Class CertDeps (W : Type) := {
  Time : Type;
  PrivKey : Type;
  PubKey : Type;
  time_Now : W -> W * Time;
  AddDate : Time -> Z -> Z -> Z -> Time;
  rand_Int : Z -> W -> W * result Z;
  GenerateKey : W -> W * result PrivKey;
  public : PrivKey -> PubKey;
  (** Template, parent, public key, signer. *)
  CreateCertificate : Certificate Time -> Certificate Time -> PubKey -> PrivKey -> W -> W * result (list byte);
  MarshalECPrivateKey : PrivKey -> result (list byte);
  pem_EncodeToMemory : string -> list byte -> list byte;
  WriteFile : string -> list byte -> Z -> W -> W * option error
}.

Definition MaxInt64 : Z := 2 ^ 63 - 1.

Definition privkey_file : string := "ecdsa_privkey.pem".
Definition certificate_file : string := "attestation_certificate.pem".

Section tool.
Context {W : Type} {X : CertDeps W}.

Definition template (notBefore notAfter : Time) (serial : Z) : Certificate Time :=
  let issuer := mkName ["IT"] "Fidati U2F Token" "" in
  mkCertificate notBefore notAfter serial issuer issuer ECDSA ECDSAWithSHA256.

(** [main]; [log.Fatal] leaves with the text and the error. *)
Definition main (w : W) : W * option (string * error) :=
  match rand_Int MaxInt64 w with
  | (w, Err e) => (w, Some ("cannot generate serial, ", e))
  | (w, Ok serial) =>
      let '(w, notBefore) := time_Now w in
      let '(w, now) := time_Now w in
      let cert := template notBefore (AddDate now 10 0 0) serial in
      match GenerateKey w with
      | (w, Err e) => (w, Some ("cannot generate ecdsa key ", e))
      | (w, Ok privkey) =>
          match CreateCertificate cert cert (public privkey) privkey w with
          | (w, Err e) => (w, Some ("cannot generate certificate, ", e))
          | (w, Ok certBytes) =>
              match MarshalECPrivateKey privkey with
              | Err e => (w, Some ("cannot marshal ecdsa privkey, ", e))
              | Ok privkeyDer =>
                  let privkeyPem := pem_EncodeToMemory "EC PRIVATE KEY" privkeyDer in
                  match WriteFile privkey_file privkeyPem 0x1a4 w with
                  | (w, Some e) => (w, Some ("cannot write private key: ", e))
                  | (w, None) =>
                      let certPem := pem_EncodeToMemory "CERTIFICATE" certBytes in
                      match WriteFile certificate_file certPem 0x1a4 w with
                      | (w, Some e) => (w, Some ("cannot write certificate: ", e))
                      | (w, None) => (w, None)
                      end
                  end
              end
          end
      end
  end.

End tool.

(** ** The files *)

(** The file system: a write that succeeds changes one file, nothing else
    changes any, and a write that fails leaves the other files alone. *)
Class CertLaws (W : Type) (X : CertDeps W) := {
  files : W -> gmap string (list byte * Z);
  now_files w : files (time_Now w).1 = files w;
  rand_files n w : files (rand_Int n w).1 = files w;
  key_files w : files (GenerateKey w).1 = files w;
  create_files t p k s w : files (CreateCertificate t p k s w).1 = files w;
  write_done f b m w w' : WriteFile f b m w = (w', None) -> files w' = <[f := (b, m)]> (files w);
  write_failed f b m w w' e : WriteFile f b m w = (w', Some e) -> delete f (files w') = delete f (files w)
}.

(** What the tool leaves behind.  It succeeds exactly with both files written:
    the key, and a certificate for that key whose subject is its issuer, signed
    by that key.  When it fails, the certificate of an earlier run is kept unless
    the last write itself failed, and the key unless it had come to writing. *)
Lemma main_files {W : Type} {X : CertDeps W} {L : CertLaws W X} (w : W) :
  match main w with
  | (w', None) => exists cert certBytes key der w0,
      Subject cert = Issuer cert /\
      (CreateCertificate cert cert (public key) key w0).2 = Ok certBytes /\ MarshalECPrivateKey key = Ok der /\
      files w' = <[certificate_file := (pem_EncodeToMemory "CERTIFICATE" certBytes, 0x1a4)]>
                   (<[privkey_file := (pem_EncodeToMemory "EC PRIVATE KEY" der, 0x1a4)]> (files w))
  | (w', Some (msg, _)) =>
      delete privkey_file (delete certificate_file (files w')) = delete privkey_file (delete certificate_file (files w)) /\
      (msg <> "cannot write certificate: " -> files w' !! certificate_file = files w !! certificate_file) /\
      (msg <> "cannot write certificate: " -> msg <> "cannot write private key: " -> files w' = files w)
  end.
Proof.
  unfold main.
  pose proof (rand_files MaxInt64 w) as F1. destruct (rand_Int MaxInt64 w) as [w1 [serial|e]]; cbn in F1; [|by rewrite F1].
  pose proof (now_files w1) as F2. destruct (time_Now w1) as [w2 nb]. cbn in F2.
  pose proof (now_files w2) as F3. destruct (time_Now w2) as [w3 now]. cbn in F3.
  pose proof (key_files w3) as F4. destruct (GenerateKey w3) as [w4 [key|e]]; cbn in F4; [|split_and!; congruence].
  set (cert := template nb (AddDate now 10 0 0) serial).
  pose proof (create_files cert cert (public key) key w4) as F5.
  destruct (CreateCertificate cert cert (public key) key w4) as [w5 [bytes|e]] eqn:EC; cbn in F5; [|split_and!; congruence].
  assert (F : files w5 = files w) by congruence. clear F1 F2 F3 F4 F5.
  destruct (MarshalECPrivateKey key) as [der|e] eqn:EM; [|by rewrite F].
  destruct (WriteFile privkey_file _ _ w5) as [w6 [e|]] eqn:E6.
  { apply write_failed in E6. rewrite F in E6. split_and!; [|intros _|done].
    - by rewrite !(delete_delete _ privkey_file), E6.
    - apply (f_equal (lookup certificate_file)) in E6. by rewrite !lookup_delete_ne in E6. }
  apply write_done in E6. rewrite F in E6.
  destruct (WriteFile certificate_file _ _ w6) as [w7 [e|]] eqn:E7.
  { apply write_failed in E7. rewrite E6 in E7. split_and!; [|done..].
    by rewrite E7, !(delete_delete _ privkey_file), delete_insert_eq. }
  apply write_done in E7. rewrite E6 in E7. exists cert, bytes, key, der, w4. by rewrite EC.
Qed.

(** A file system with a fixed clock and key, on which the tool succeeds. *)
Definition plain_deps : CertDeps (gmap string (list byte * Z)) := {|
  Time := Z; PrivKey := Z; PubKey := Z;
  time_Now := fun w => (w, 0);
  AddDate := fun t years months days => t + 365 * years + 30 * months + days;
  rand_Int := fun n w => (w, Ok (n - 1));
  GenerateKey := fun w => (w, Ok 7);
  public := fun k => k + 1;
  CreateCertificate := fun _ _ pub key w => (w, Ok (bytes_of [pub; key]));
  MarshalECPrivateKey := fun key => Ok (bytes_of [key]);
  pem_EncodeToMemory := fun kind b => bytes_of_string kind ++ b;
  WriteFile := fun f b m w => (<[f := (b, m)]> w, None)
|}.

Definition plain_deps_laws : CertLaws _ plain_deps.
Proof. refine {| files := fun w : gmap string (list byte * Z) => w |}; cbn; congruence. Defined.

Example main_writes :
  let '(w, err) := main (X := plain_deps) ∅ in
  err = None /\ w !! certificate_file = Some (bytes_of_string "CERTIFICATE" ++ bytes_of [8; 7], 0x1a4).
Proof. vm_compute. split; reflexivity. Qed.

End GenCert.
